(** * Session panel SSE relay: a shallow embedding and its properties

    The development follows the session editor panel provider of the
    extension: the event-block codec ([parseSseDataPayload]), the activity
    deriver ([deriveSessionActivity]), the global-scope wrapper
    ([wrapSseBlocksAsGlobal]), the heartbeat emitter, the proxy stream
    ([_startSseProxy], [_stopSseProxy]) and the panel registry
    ([_disposePanel]).

    JavaScript strings are sequences of UTF-16 code units and are embedded as
    [list N]; maps ([Map], plain objects used as records of headers) are
    [gmap]s; objects shared by reference (panel entries, abort controllers,
    interval timers) live in explicit heaps. *)

From Stdlib Require Import ZArith NArith List Bool Ascii String Lia DecimalString DecimalN SpecFloat.
From stdpp Require Import base option list gmap strings fin_maps.

Set Warnings "-register-all".
Local Open Scope N_scope.

(** ** JavaScript strings *)

Module Str.

(** A string value: its UTF-16 code units. *)
Abbreviation t := (list N).

(** Code units of a literal (all literals of the source are ASCII). *)
Fixpoint lit (s : string) : t :=
  match s with
  | EmptyString => []
  | String a r => N_of_ascii a :: lit r
  end.

Arguments lit : simpl never.

Definition LF : N := 10.
Definition CR : N := 13.
Definition SLASH : N := 47.

(** [s.startsWith(p)] *)
Fixpoint startsWith (p s : t) : bool :=
  match p, s with
  | [], _ => true
  | _ :: _, [] => false
  | a :: p', b :: s' => (a =? b) && startsWith p' s'
  end.

(** [s.slice(n)] for a non-negative [n] *)
Definition slice (n : nat) (s : t) : t := drop n s.

(** The class [\s] of regular expressions, which is also what [trim]
    removes: WhiteSpace and LineTerminator code points. *)
Definition isSpace (c : N) : bool :=
  (c =? 9) || (c =? 10) || (c =? 11) || (c =? 12) || (c =? 13) || (c =? 32)
  || (c =? 160) || (c =? 5760) || ((8192 <=? c) && (c <=? 8202))
  || (c =? 8232) || (c =? 8233) || (c =? 8239) || (c =? 8287)
  || (c =? 12288) || (c =? 65279).

(** [s.replace(/^\s/, '')] *)
Definition stripLeadingSpace (s : t) : t :=
  match s with
  | c :: r => if isSpace c then r else s
  | [] => []
  end.

Fixpoint trimStart (s : t) : t :=
  match s with
  | c :: r => if isSpace c then trimStart r else s
  | [] => []
  end.

Definition trimEnd (s : t) : t := rev (trimStart (rev s)).

(** [s.trim()] *)
Definition trim (s : t) : t := trimEnd (trimStart s).

(** [s.split(sep)] for a non-empty separator: occurrences are found from
    left to right and do not overlap. [skip] counts the code units of a
    separator that was just matched and is still to be passed over. *)
Fixpoint splitFrom (sep : t) (skip : nat) (s : t) : list t :=
  match s with
  | [] => [[]]
  | c :: s' =>
      match skip with
      | S k => splitFrom sep k s'
      | O =>
          if startsWith sep s
          then [] :: splitFrom sep (length sep - 1) s'
          else match splitFrom sep 0 s' with
               | p :: ps => (c :: p) :: ps
               | [] => [[c]]
               end
      end
  end.

(** With the empty separator [split] yields the code units one by one. *)
Definition split (sep s : t) : list t :=
  match sep with
  | [] => map (fun c => [c]) s
  | _ :: _ => splitFrom sep 0 s
  end.

(** [parts.join(sep)] *)
Fixpoint join (sep : t) (parts : list t) : t :=
  match parts with
  | [] => []
  | [p] => p
  | p :: ps => p ++ sep ++ join sep ps
  end.

(** [s.replace(/\r\n/g, '\n')] *)
Fixpoint replaceCRLF (s : t) : t :=
  match s with
  | [] => []
  | c :: r =>
      match r with
      | d :: r' =>
          if (c =? CR) && (d =? LF) then LF :: replaceCRLF r'
          else c :: replaceCRLF r
      | [] => [c]
      end
  end.

End Str.

(** Literals of the examples: an apostrophe stands for the double quote and
    a backslash introduces [n], [r], [t] or [v] (line feed, carriage return,
    tab, vertical tab). *)
Fixpoint ex (s : string) : Str.t :=
  match s with
  | EmptyString => []
  | String a r =>
      if (N_of_ascii a =? 39) then 34 :: ex r
      else if (N_of_ascii a =? 92) then
        match r with
        | String b r' =>
            (if (N_of_ascii b =? 110) then 10
             else if (N_of_ascii b =? 114) then 13
             else if (N_of_ascii b =? 116) then 9
             else if (N_of_ascii b =? 118) then 11
             else N_of_ascii b) :: ex r'
        | EmptyString => [92]
        end
      else N_of_ascii a :: ex r
  end.

Abbreviation js := Str.lit.

(** ** JavaScript values that travel through the relay *)

(** A number is kept as the exact decimal [mant * 10 ^ expo]; rounding to
    binary64 is outside the embedding (no operation of the relay inspects
    the numeric value of an upstream field). *)
Record JsNumber := mkNumber { mant : Z; expo : Z }.

Inductive JValue :=
| JNull
| JBool (b : bool)
| JNumber (n : JsNumber)
| JString (s : Str.t)
| JArray (items : list JValue)
| JObject (props : list (Str.t * JValue)).

(** A value or [undefined]. *)
Abbreviation JsVal := (option JValue).
Abbreviation undefined := (@None JValue).

Inductive JsType := TUndefined | TObject | TBoolean | TNumber | TString.

Definition typeof (v : JsVal) : JsType :=
  match v with
  | None => TUndefined
  | Some JNull => TObject
  | Some (JBool _) => TBoolean
  | Some (JNumber _) => TNumber
  | Some (JString _) => TString
  | Some (JArray _) => TObject
  | Some (JObject _) => TObject
  end.

Definition isObjectType (v : JsVal) : bool :=
  match typeof v with TObject => true | _ => false end.

(** ToBoolean *)
Definition truthy (v : JsVal) : bool :=
  match v with
  | None => false
  | Some JNull => false
  | Some (JBool b) => b
  | Some (JNumber n) => negb (mant n =? 0)%Z
  | Some (JString s) => negb (bool_decide (s = []))
  | Some (JArray _) => true
  | Some (JObject _) => true
  end.

Fixpoint assoc (k : Str.t) (l : list (Str.t * JValue)) : JsVal :=
  match l with
  | [] => None
  | (k', v) :: r => if bool_decide (k = k') then Some v else assoc k r
  end.

(** [v.k] on a value that is neither [null] nor [undefined], for the
    property names the source reads ([type], [properties], [status],
    [sessionID], [sessionId], [info], [role], [finish], [payload]): none of
    them is a member of a built-in prototype, so only own properties of an
    object answer. *)
Definition getProp (v : JValue) (k : Str.t) : JsVal :=
  match v with
  | JObject ps => assoc k ps
  | _ => None
  end.

(** [v?.k] *)
Definition optProp (v : JsVal) (k : Str.t) : JsVal :=
  match v with
  | None | Some JNull => None
  | Some x => getProp x k
  end.

(** [a ?? b] *)
Definition nullish (a b : JsVal) : JsVal :=
  match a with
  | None | Some JNull => b
  | Some _ => a
  end.

(** [v === 'literal'] *)
Definition isStr (v : JsVal) (s : Str.t) : bool :=
  match v with
  | Some (JString x) => bool_decide (x = s)
  | _ => false
  end.

(** The string behind [typeof v === 'string']. *)
Definition asString (v : JsVal) : option Str.t :=
  match v with
  | Some (JString x) => Some x
  | _ => None
  end.

(** What a thrown value says: [error instanceof Error ? error.message :
    String(error)]. *)
Inductive Thrown :=
| ErrorObject (message : Str.t)
| OtherValue (text : Str.t).

Definition messageTextOf (error : Thrown) : Str.t :=
  match error with
  | ErrorObject message => message
  | OtherValue text => text
  end.

Inductive Completion (A : Type) :=
| Returns (a : A)
| Throws (error : Thrown).
Arguments Returns {A} a.
Arguments Throws {A} error.

(** ** The host platform

    [JSON.parse] ([None] when it throws a [SyntaxError]), [JSON.stringify],
    the clock behind [Date.now()] (its n-th reading), the [URL] constructor
    followed by [toString] (it throws a [TypeError] on what is no URL) and
    a [TextDecoder] in streaming mode: what it carries from one read to the
    next is its state, the bytes of a sequence that is not complete yet
    (nothing for a new decoder); [decode] takes the state and the bytes of
    a read and returns the text and the state it leaves, and the final
    [decode()] says what the held bytes become. *)
Class Platform := {
  JSON_parse : Str.t -> option JValue;
  JSON_stringify : JValue -> Str.t;
  Date_now : nat -> Z;
  URL_resolve : Str.t -> Str.t -> Completion Str.t;
  decoder_decode : list N -> list N -> Str.t * list N;
  decoder_end : list N -> Str.t;
}.

(** ** Event-block codec and activity deriver *)

Inductive SessionActivityPhase := idle | busy | cooldown.

Record SessionActivity := mkActivity {
  sessionId : Str.t;
  phase : SessionActivityPhase;
}.

Section Codec.
Context `{Platform}.

(** The data lines of a block, each without its [data:] prefix and without
    one leading white-space character. *)
Definition dataLinesOf (block : Str.t) : list Str.t :=
  map (fun line => Str.stripLeadingSpace (Str.slice 5 line))
      (List.filter (fun line => Str.startsWith (js "data:") line)
                   (Str.split [Str.LF] block)).

Definition parseSseDataPayload (block : Str.t) : JValue :=
  if bool_decide (block = []) then JNull
  else
    let dataLines := dataLinesOf block in
    if (length dataLines =? 0)%nat then JNull
    else
      let payloadText := Str.trim (Str.join [Str.LF] dataLines) in
      if bool_decide (payloadText = []) then JNull
      else
        match JSON_parse payloadText with
        | Some parsed =>
            if truthy (Some parsed) && isObjectType (Some parsed) then
              let record := parsed in
              let nestedPayload := getProp record (js "payload") in
              if truthy nestedPayload && isObjectType nestedPayload then
                match nestedPayload with Some p => p | None => record end
              else record
            else JNull
        | None => JNull
        end.

(** The session id and the two conditions shared by [message.updated] and
    [message.complete]. *)
Definition deriveCooldown (payload : JValue) (properties : JsVal)
  : option SessionActivity :=
  let info := getProp payload (js "info") in
  let role := optProp info (js "role") in
  let finish := optProp info (js "finish") in
  let sessionId :=
    nullish (nullish (nullish (optProp info (js "sessionID"))
                              (optProp info (js "sessionId")))
                     (optProp properties (js "sessionID")))
            (optProp properties (js "sessionId")) in
  match asString sessionId with
  | Some sid =>
      if (0 <? length sid)%nat && isStr role (js "assistant")
         && isStr finish (js "stop")
      then Some (mkActivity sid cooldown)
      else None
  | None => None
  end.

Definition deriveSessionActivity (payload : JValue) : option SessionActivity :=
  if negb (truthy (Some payload)) || negb (isObjectType (Some payload)) then None
  else
    let type := getProp payload (js "type") in
    let properties := getProp payload (js "properties") in
    if isStr type (js "session.status") then
      let status := optProp properties (js "status") in
      let sessionId :=
        nullish (optProp properties (js "sessionID"))
                (optProp properties (js "sessionId")) in
      let statusType := optProp status (js "type") in
      match asString sessionId, asString statusType with
      | Some sid, Some st =>
          if (0 <? length sid)%nat then
            Some (mkActivity sid
                    (if bool_decide (st = (js "busy"))
                        || bool_decide (st = (js "retry"))
                     then busy else idle))
          else None
      | _, _ => None
      end
    else if isStr type (js "message.updated") then
      deriveCooldown payload properties
    else if isStr type (js "message.complete") then
      deriveCooldown payload properties
    else if isStr type (js "session.idle") then
      let sessionId :=
        nullish (optProp properties (js "sessionID"))
                (optProp properties (js "sessionId")) in
      match asString sessionId with
      | Some sid =>
          if (0 <? length sid)%nat then Some (mkActivity sid idle) else None
      | None => None
      end
    else None.

End Codec.

(** ** Numbers and decimal numerals *)

(** Trailing zeros of the mantissa move into the exponent, so that equal
    decimals have equal representations. *)
Fixpoint stripZeros (fuel : nat) (m e : Z) : JsNumber :=
  match fuel with
  | O => mkNumber m e
  | S f =>
      if (m =? 0)%Z then mkNumber 0 0
      else if (m mod 10 =? 0)%Z then stripZeros f (m / 10) (e + 1)
      else mkNumber m e
  end.

Definition number (m e : Z) : JsNumber :=
  stripZeros (S (Z.to_nat (Z.log2_up (Z.abs m)))) m e.

Fixpoint uintChars (u : Decimal.uint) : Str.t :=
  match u with
  | Decimal.Nil => []
  | Decimal.D0 r => 48 :: uintChars r
  | Decimal.D1 r => 49 :: uintChars r
  | Decimal.D2 r => 50 :: uintChars r
  | Decimal.D3 r => 51 :: uintChars r
  | Decimal.D4 r => 52 :: uintChars r
  | Decimal.D5 r => 53 :: uintChars r
  | Decimal.D6 r => 54 :: uintChars r
  | Decimal.D7 r => 55 :: uintChars r
  | Decimal.D8 r => 56 :: uintChars r
  | Decimal.D9 r => 57 :: uintChars r
  end.

(** The decimal numeral of a natural number, as template literals and
    [String(n)] print it. *)
Definition digitsOfN (n : N) : Str.t := uintChars (N.to_uint n).

Definition digitsOfZ (z : Z) : Str.t :=
  if (z <? 0)%Z then 45 :: digitsOfN (Z.to_N (- z)) else digitsOfN (Z.to_N z).

(** ** Synthetic blocks, activity expansion and the global-scope wrapper *)

Section Blocks.
Context `{Platform}.

Definition phaseName (p : SessionActivityPhase) : Str.t :=
  match p with
  | idle => js "idle"
  | busy => js "busy"
  | cooldown => js "cooldown"
  end.

(** The functions that call [Date.now()] take the number of readings made
    so far and return it advanced. *)
Definition buildActivityEventBlock (activity : SessionActivity) (tick : nat)
  : Str.t * nat :=
  (Str.join [Str.LF]
     [ js "event: message";
       js "data: " ++
       JSON_stringify
         (JObject
            [ (js "type", JString (js "openchamber:session-activity"));
              (js "properties",
               JObject
                 [ (js "sessionId", JString (sessionId activity));
                   (js "phase", JString (phaseName (phase activity)));
                   (js "at", JNumber (number (Date_now tick) 0)) ]) ]) ],
   S tick).

Definition buildHeartbeatEventBlock (tick : nat) : Str.t * nat :=
  (Str.join [Str.LF]
     [ js "event: message";
       js "data: " ++
       JSON_stringify
         (JObject
            [ (js "type", JString (js "openchamber:heartbeat"));
              (js "properties",
               JObject [ (js "at", JNumber (number (Date_now tick) 0)) ]) ]) ],
   S tick).

(** One turn of the loop of [expandSseBlocksWithActivity]: [expanded] and
    the clock are the loop's state. *)
Definition expandStep (st : list Str.t * nat) (block : Str.t)
  : list Str.t * nat :=
  let expanded := st.1 ++ [block] in
  match deriveSessionActivity (parseSseDataPayload block) with
  | Some activity =>
      let r := buildActivityEventBlock activity st.2 in
      (expanded ++ [r.1], r.2)
  | None => (expanded, st.2)
  end.

Definition expandSseBlocksWithActivity (blocks : list Str.t) (tick : nat)
  : list Str.t * nat :=
  fold_left expandStep blocks ([], tick).

Definition wrapBlock (directory : Str.t) (block : Str.t) : Str.t :=
  let payload := parseSseDataPayload block in
  let wrappedPayload :=
    if truthy (Some payload)
    then JObject [ (js "directory", JString directory); (js "payload", payload) ]
    else JObject [ (js "directory", JString directory); (js "payload", JNull) ] in
  let updatedLines :=
    List.filter (fun line => negb (Str.startsWith (js "data:") line))
                (Str.split [Str.LF] block) in
  let updatedLines :=
    updatedLines ++ [ js "data: " ++ JSON_stringify wrappedPayload ] in
  Str.join [Str.LF] updatedLines.

Definition wrapSseBlocksAsGlobal (blocks : list Str.t) (directory : Str.t)
  : list Str.t :=
  map (wrapBlock directory) blocks.

End Blocks.

(** ** A reference host

    An executable [JSON.parse] / [JSON.stringify] after ECMA-404 and the
    ECMAScript algorithms (QuoteJSONString, Number::toString on the exact
    decimal, property order of ordinary objects), a clock, a resolver for
    relative paths (it throws on a base that is no URL) and the UTF-8
    decoder of the Encoding standard (what is no UTF-8 becomes U+FFFD, a
    byte order mark at the head of the stream is dropped). The examples
    run on it. *)

Module RefHost.

Definition isDigit (c : N) : bool := (48 <=? c) && (c <=? 57).

Definition isJsonSpace (c : N) : bool :=
  (c =? 9) || (c =? 10) || (c =? 13) || (c =? 32).

Fixpoint skipWs (s : Str.t) : Str.t :=
  match s with
  | c :: r => if isJsonSpace c then skipWs r else s
  | [] => []
  end.

Definition hexDigit (n : N) : N := if n <? 10 then 48 + n else 87 + n.

Definition hex4 (c : N) : Str.t :=
  [ hexDigit (c / 4096 mod 16); hexDigit (c / 256 mod 16);
    hexDigit (c / 16 mod 16); hexDigit (c mod 16) ].

Definition isHighSurrogate (c : N) : bool := (55296 <=? c) && (c <=? 56319).
Definition isLowSurrogate (c : N) : bool := (56320 <=? c) && (c <=? 57343).

Definition escapeUnit (c : N) : Str.t :=
  if c =? 8 then js "\b"
  else if c =? 9 then js "\t"
  else if c =? 10 then js "\n"
  else if c =? 12 then js "\f"
  else if c =? 13 then js "\r"
  else if c =? 34 then [92; 34]
  else if c =? 92 then [92; 92]
  else if (c <? 32) || isHighSurrogate c || isLowSurrogate c
       then js "\u" ++ hex4 c
  else [c].

(** The body of QuoteJSONString: a surrogate pair is copied, a lone
    surrogate is escaped. *)
Fixpoint quoteBody (s : Str.t) : Str.t :=
  match s with
  | [] => []
  | c :: r =>
      match r with
      | d :: r' =>
          if isHighSurrogate c && isLowSurrogate d
          then c :: d :: quoteBody r'
          else escapeUnit c ++ quoteBody r
      | [] => escapeUnit c
      end
  end.

Definition quote (s : Str.t) : Str.t := 34 :: quoteBody s ++ [34].

(** Number::toString in radix 10, on a decimal whose mantissa has no
    trailing zero. *)
Definition numberToString (x : JsNumber) : Str.t :=
  if (mant x =? 0)%Z then js "0"
  else
    let sign := if (mant x <? 0)%Z then js "-" else [] in
    let digits := digitsOfN (Z.to_N (Z.abs (mant x))) in
    let k := Z.of_nat (length digits) in
    let n := (k + expo x)%Z in
    sign ++
    (if (k <=? n)%Z && (n <=? 21)%Z then
       digits ++ repeat 48 (Z.to_nat (n - k))
     else if (0 <? n)%Z && (n <=? 21)%Z then
       take (Z.to_nat n) digits ++ js "." ++ drop (Z.to_nat n) digits
     else if (-6 <? n)%Z && (n <=? 0)%Z then
       js "0." ++ repeat 48 (Z.to_nat (- n)) ++ digits
     else
       let e := (n - 1)%Z in
       let esign := if (e <? 0)%Z then js "-" else js "+" in
       let etext := digitsOfN (Z.to_N (Z.abs e)) in
       match digits with
       | [d] => [d] ++ js "e" ++ esign ++ etext
       | d :: ds => [d] ++ js "." ++ ds ++ js "e" ++ esign ++ etext
       | [] => []
       end).

Fixpoint stringify (v : JValue) : Str.t :=
  match v with
  | JNull => js "null"
  | JBool true => js "true"
  | JBool false => js "false"
  | JNumber x => numberToString x
  | JString s => quote s
  | JArray items =>
      js "[" ++ Str.join (js ",") (map stringify items) ++ js "]"
  | JObject props =>
      js "{" ++
      Str.join (js ",")
        (map (fun kv => quote kv.1 ++ js ":" ++ stringify kv.2) props)
      ++ js "}"
  end.

(** *** Parsing *)

Fixpoint takeDigits (s : Str.t) : Str.t * Str.t :=
  match s with
  | c :: r =>
      if isDigit c then let p := takeDigits r in (c :: p.1, p.2) else ([], s)
  | [] => ([], [])
  end.

Definition digitsValue (ds : Str.t) : Z :=
  fold_left (fun acc d => (acc * 10 + Z.of_N (d - 48))%Z) ds 0%Z.

(** The fraction, if there is one: [. digit+]. *)
Definition parseFraction (s : Str.t) : option (Str.t * Str.t) :=
  match s with
  | 46 :: r =>
      let p := takeDigits r in
      match p.1 with [] => None | _ :: _ => Some p end
  | _ => Some ([], s)
  end.

(** The exponent, if there is one: [(e|E) (+|-)? digit+]. *)
Definition parseExponent (s : Str.t) : option (Z * Str.t) :=
  match s with
  | c :: r =>
      if (c =? 101) || (c =? 69) then
        let '(neg, r1) :=
          match r with
          | 45 :: r' => (true, r')
          | 43 :: r' => (false, r')
          | _ => (false, r)
          end in
        let p := takeDigits r1 in
        match p.1 with
        | [] => None
        | _ :: _ =>
            Some ((if neg then - digitsValue p.1 else digitsValue p.1)%Z, p.2)
        end
      else Some (0%Z, s)
  | [] => Some (0%Z, s)
  end.

Definition parseNumber (s : Str.t) : option (JsNumber * Str.t) :=
  let '(neg, s1) := match s with 45 :: r => (true, r) | _ => (false, s) end in
  let int := takeDigits s1 in
  match int.1 with
  | [] => None
  | d :: more =>
      if (d =? 48) && negb (bool_decide (more = [])) then None
      else
        match parseFraction int.2 with
        | None => None
        | Some (frac, s3) =>
            match parseExponent s3 with
            | None => None
            | Some (e, s4) =>
                let m := digitsValue (int.1 ++ frac) in
                Some (number (if neg then - m else m)%Z
                             (e - Z.of_nat (length frac))%Z, s4)
            end
        end
  end.

Definition hexValue (c : N) : option N :=
  if isDigit c then Some (c - 48)
  else if (97 <=? c) && (c <=? 102) then Some (c - 87)
  else if (65 <=? c) && (c <=? 70) then Some (c - 55)
  else None.

Definition unescape (e : N) : option N :=
  if e =? 34 then Some 34
  else if e =? 92 then Some 92
  else if e =? 47 then Some 47
  else if e =? 98 then Some 8
  else if e =? 102 then Some 12
  else if e =? 110 then Some 10
  else if e =? 114 then Some 13
  else if e =? 116 then Some 9
  else None.

Definition consTo (c : N) (p : option (Str.t * Str.t)) : option (Str.t * Str.t) :=
  match p with
  | Some (s, r) => Some (c :: s, r)
  | None => None
  end.

(** The characters of a string literal after its opening quote, up to and
    including the closing quote. *)
Fixpoint parseStringBody (s : Str.t) : option (Str.t * Str.t) :=
  match s with
  | [] => None
  | c :: r =>
      if c =? 34 then Some ([], r)
      else if c =? 92 then
        match r with
        | e :: r1 =>
            if e =? 117 then
              match r1 with
              | h1 :: h2 :: h3 :: h4 :: r2 =>
                  match hexValue h1, hexValue h2, hexValue h3, hexValue h4 with
                  | Some a, Some b, Some c', Some d =>
                      consTo (a * 4096 + b * 256 + c' * 16 + d)
                             (parseStringBody r2)
                  | _, _, _, _ => None
                  end
              | _ => None
              end
            else
              match unescape e with
              | Some x => consTo x (parseStringBody r1)
              | None => None
              end
        | [] => None
        end
      else if c <? 32 then None
      else consTo c (parseStringBody r)
  end.

(** *** Property order of an ordinary object: array indices ascending,
    then the other keys in creation order; a key that exists keeps its
    place. *)

Definition arrayIndex (k : Str.t) : option N :=
  match k with
  | [] => None
  | d :: r =>
      if forallb isDigit k && (negb (d =? 48) || bool_decide (r = [])) then
        let n := Z.to_N (digitsValue k) in
        if n <? 4294967295 then Some n else None
      else None
  end.

Fixpoint setNamed (k : Str.t) (v : JValue) (l : list (Str.t * JValue))
  : list (Str.t * JValue) :=
  match l with
  | [] => [(k, v)]
  | (k', v') :: r =>
      if bool_decide (k = k') then (k, v) :: r else (k', v') :: setNamed k v r
  end.

Fixpoint setIndex (i : N) (k : Str.t) (v : JValue) (l : list (Str.t * JValue))
  : list (Str.t * JValue) :=
  match l with
  | [] => [(k, v)]
  | (k', v') :: r =>
      if bool_decide (k = k') then (k, v) :: r
      else
        match arrayIndex k' with
        | Some j => if i <? j then (k, v) :: l else (k', v') :: setIndex i k v r
        | None => (k, v) :: l
        end
  end.

Definition objSet (k : Str.t) (v : JValue) (l : list (Str.t * JValue))
  : list (Str.t * JValue) :=
  match arrayIndex k with
  | Some i => setIndex i k v l
  | None => setNamed k v l
  end.

Definition isLiteral (w : Str.t) (s : Str.t) : option Str.t :=
  if Str.startsWith w s then Some (drop (length w) s) else None.

Fixpoint parseValue (fuel : nat) (s : Str.t) : option (JValue * Str.t) :=
  match fuel with
  | O => None
  | S f =>
      match skipWs s with
      | [] => None
      | c :: r =>
          if c =? 123 then
            match skipWs r with
            | 125 :: r' => Some (JObject [], r')
            | _ => parseMembers f r []
            end
          else if c =? 91 then
            match skipWs r with
            | 93 :: r' => Some (JArray [], r')
            | _ => parseElements f r []
            end
          else if c =? 34 then
            match parseStringBody r with
            | Some (x, r') => Some (JString x, r')
            | None => None
            end
          else if c =? 110 then
            match isLiteral (js "null") (c :: r) with
            | Some r' => Some (JNull, r')
            | None => None
            end
          else if c =? 116 then
            match isLiteral (js "true") (c :: r) with
            | Some r' => Some (JBool true, r')
            | None => None
            end
          else if c =? 102 then
            match isLiteral (js "false") (c :: r) with
            | Some r' => Some (JBool false, r')
            | None => None
            end
          else
            match parseNumber (c :: r) with
            | Some (x, r') => Some (JNumber x, r')
            | None => None
            end
      end
  end
with parseElements (fuel : nat) (s : Str.t) (acc : list JValue)
  : option (JValue * Str.t) :=
  match fuel with
  | O => None
  | S f =>
      match parseValue f s with
      | Some (v, r) =>
          match skipWs r with
          | 44 :: r' => parseElements f r' (acc ++ [v])
          | 93 :: r' => Some (JArray (acc ++ [v]), r')
          | _ => None
          end
      | None => None
      end
  end
with parseMembers (fuel : nat) (s : Str.t) (acc : list (Str.t * JValue))
  : option (JValue * Str.t) :=
  match fuel with
  | O => None
  | S f =>
      match skipWs s with
      | 34 :: r =>
          match parseStringBody r with
          | Some (k, r1) =>
              match skipWs r1 with
              | 58 :: r2 =>
                  match parseValue f r2 with
                  | Some (v, r3) =>
                      match skipWs r3 with
                      | 44 :: r4 => parseMembers f r4 (objSet k v acc)
                      | 125 :: r4 => Some (JObject (objSet k v acc), r4)
                      | _ => None
                      end
                  | None => None
                  end
              | _ => None
              end
          | None => None
          end
      | _ => None
      end
  end.

(** [JSON.parse]: one value between optional white space; every call of
    the parser consumes fuel and at least every second call consumes input,
    so twice the length is enough fuel. *)
Definition parse (text : Str.t) : option JValue :=
  match parseValue (2 * length text + 2) text with
  | Some (v, r) => match skipWs r with [] => Some v | _ :: _ => None end
  | None => None
  end.

(** [new URL(path, base).toString()]. The parser reads its input without
    the C0 controls and spaces at both ends and without tabs and newlines;
    a base that does not begin with a scheme (a letter, then letters,
    digits, [+], [-] and [.] up to a colon) is no URL, and a base with an
    opaque path takes no relative path: the constructor throws a
    [TypeError]. Otherwise the result is the base followed by the path,
    which is what the constructor returns for an [http] base of a host and
    a path that ends in a slash and a relative path without dot segments,
    query, fragment or characters to escape. *)
Definition isAsciiAlpha (c : N) : bool :=
  ((65 <=? c) && (c <=? 90)) || ((97 <=? c) && (c <=? 122)).

Definition isSchemeChar (c : N) : bool :=
  isAsciiAlpha c || isDigit c || (c =? 43) || (c =? 45) || (c =? 46).

Fixpoint schemeEnds (s : Str.t) : bool :=
  match s with
  | c :: r => if c =? 58 then true else isSchemeChar c && schemeEnds r
  | [] => false
  end.

Fixpoint skipC0 (s : Str.t) : Str.t :=
  match s with
  | c :: r => if c <=? 32 then skipC0 r else s
  | [] => []
  end.

Definition urlInput (s : Str.t) : Str.t :=
  List.filter (fun c => negb ((c =? 9) || (c =? 10) || (c =? 13)))
              (rev (skipC0 (rev (skipC0 s)))).

Definition hasScheme (s : Str.t) : bool :=
  match urlInput s with
  | c :: r => isAsciiAlpha c && schemeEnds r
  | [] => false
  end.

Definition toLower (c : N) : N :=
  if (65 <=? c) && (c <=? 90) then c + 32 else c.

(** The scheme of an input that has one, in lower case, and what follows
    its colon. *)
Fixpoint splitScheme (s : Str.t) : Str.t * Str.t :=
  match s with
  | c :: r =>
      if c =? 58 then ([], r)
      else let p := splitScheme r in (toLower c :: p.1, p.2)
  | [] => ([], [])
  end.

Definition isSpecialScheme (scheme : Str.t) : bool :=
  bool_decide (scheme = js "http") || bool_decide (scheme = js "https")
  || bool_decide (scheme = js "ws") || bool_decide (scheme = js "wss")
  || bool_decide (scheme = js "ftp") || bool_decide (scheme = js "file").

(** A base whose path is opaque: its scheme is not special and no slash
    follows the colon. *)
Definition hasOpaquePath (base : Str.t) : bool :=
  let p := splitScheme (urlInput base) in
  negb (isSpecialScheme p.1)
  && match p.2 with c :: _ => negb (c =? Str.SLASH) | [] => true end.

Definition startsWithHash (s : Str.t) : bool :=
  match urlInput s with c :: _ => c =? 35 | [] => false end.

Definition resolve (path base : Str.t) : Completion Str.t :=
  if negb (hasScheme base) then Throws (ErrorObject (js "Invalid URL"))
  else if hasOpaquePath base && negb (hasScheme path) && negb (startsWithHash path)
  then Throws (ErrorObject (js "Invalid URL"))
  else Returns (base ++ path).

(** The state of the UTF-8 decoder inside a sequence: the bytes that are
    still needed, the code point so far, the range of the next byte and the
    bytes seen. *)
Record Utf8State := mkUtf8 {
  needed : nat;
  codePoint : N;
  lower : N;
  upper : N;
  seen : list N;
}.

Definition utf8Idle : Utf8State := mkUtf8 0 0 128 191 [].

(** The code units of a code point. *)
Definition utf16 (cp : N) : Str.t :=
  if cp <? 65536 then [cp]
  else [55296 + N.shiftr (cp - 65536) 10; 56320 + N.land (cp - 65536) 1023].

Definition utf8Lead (b : N) (out : Str.t) : Utf8State * Str.t :=
  if b <=? 127 then (utf8Idle, out ++ [b])
  else if (194 <=? b) && (b <=? 223) then
    (mkUtf8 1 (N.land b 31) 128 191 [b], out)
  else if (224 <=? b) && (b <=? 239) then
    (mkUtf8 2 (N.land b 15) (if b =? 224 then 160 else 128)
            (if b =? 237 then 159 else 191) [b], out)
  else if (240 <=? b) && (b <=? 244) then
    (mkUtf8 3 (N.land b 7) (if b =? 240 then 144 else 128)
            (if b =? 244 then 143 else 191) [b], out)
  else (utf8Idle, out ++ [65533]).

Definition utf8Step (st : Utf8State * Str.t) (b : N) : Utf8State * Str.t :=
  match needed st.1 with
  | O => utf8Lead b st.2
  | S n =>
      if (lower st.1 <=? b) && (b <=? upper st.1) then
        let cp := N.lor (N.shiftl (codePoint st.1) 6) (N.land b 63) in
        match n with
        | O => (utf8Idle, st.2 ++ utf16 cp)
        | S _ => (mkUtf8 n cp 128 191 (seen st.1 ++ [b]), st.2)
        end
      else utf8Lead b (st.2 ++ [65533])
  end.

(** What the decoder carries from one read to the next: the bytes of the
    sequence that is not complete yet, after a mark (256, which is no byte)
    once the decoder has produced text. A byte order mark is dropped when
    it is the first character that the decoder produces, and only then. *)
Definition produced : N := 256.

Definition heldBytes (state : list N) : list N :=
  match state with
  | c :: r => if c =? produced then r else state
  | [] => []
  end.

Definition hasProduced (state : list N) : bool :=
  match state with
  | c :: _ => c =? produced
  | [] => false
  end.

(** [decoder.decode(bytes, { stream: true })]: the text, and the state that
    the read leaves. *)
Definition utf8Decode (state bytes : list N) : Str.t * list N :=
  let r := fold_left utf8Step (heldBytes state ++ bytes) (utf8Idle, []) in
  if hasProduced state then (r.2, produced :: seen r.1)
  else
    match r.2 with
    | [] => ([], seen r.1)
    | c :: text =>
        (if c =? 65279 then text else c :: text, produced :: seen r.1)
    end.

(** [decoder.decode()]: an incomplete sequence becomes one U+FFFD. *)
Definition utf8End (state : list N) : Str.t :=
  match heldBytes state with [] => [] | _ :: _ => [65533] end.

#[export] Instance host : Platform := {|
  JSON_parse := parse;
  JSON_stringify := stringify;
  Date_now := fun n => (1700000000000 + Z.of_nat n)%Z;
  URL_resolve := resolve;
  decoder_decode := utf8Decode;
  decoder_end := utf8End;
|}.

End RefHost.

(** ** The provider's state

    Objects that the source shares by reference are cells of a heap: a
    panel entry ([SessionPanelState]) is reached from the registry, from the
    message handler of its panel, from the heartbeat callbacks and from the
    detached stream tasks; an [AbortController] is reached from the entry's
    map, from its heartbeat callback and from its stream task. *)

Abbreviation Ref := nat.

Record SessionPanelState := mkEntry {
  panel : Ref;
  sseStreams : gmap Str.t Ref;
  sseHeartbeats : gmap Str.t Ref;
}.

Inductive ResponseData :=
| StartData (status : Z) (headers : gmap Str.t Str.t)
            (streamId : option Str.t) (error : option Str.t)
| StopData (stopped : bool).

Record BridgeResponse := mkResponse {
  res_id : Str.t;
  res_type : Str.t;
  success : bool;
  data : ResponseData;
}.

Record Payload := mkPayload {
  path : JsVal;
  headers : option (gmap Str.t Str.t);
  streamId : JsVal;
}.

Record BridgeRequest := mkRequest {
  req_id : Str.t;
  req_type : Str.t;
  req_payload : option Payload;
}.

(** What [postMessage] hands to a webview. *)
Inductive Message :=
| MsgConnectionStatus (status : Str.t) (error : option Str.t)
| MsgResponse (response : BridgeResponse)
| MsgChunk (streamId : Str.t) (chunk : Str.t)
| MsgEnd (streamId : Str.t) (error : option Str.t).

(** The callback of a heartbeat interval closes over the controller, the
    entry and the stream id. *)
Record Heartbeat := mkHeartbeat {
  hb_controller : Ref;
  hb_entry : Ref;
  hb_streamId : Str.t;
}.

Section Provider.
Context `{Platform}.

(** A detached stream task, suspended in [await reader.read()]. *)
Record StreamTask := mkTask {
  t_entry : Ref;
  t_controller : Ref;
  t_streamId : Str.t;
  shouldInjectActivity : bool;
  wrapAsGlobal : bool;
  fallbackDirectory : Str.t;
  sseBuffer : Str.t;
  decoder : list N;
}.

Record World := mkWorld {
  _cachedStatus : Str.t;
  _cachedError : option Str.t;
  _sseCounter : N;
  _panels : gmap Str.t Ref;
  entries : gmap Ref SessionPanelState;
  controllers : gmap Ref bool;          (* [signal.aborted] of each controller *)
  intervals : gmap Ref Heartbeat;       (* the intervals that are set *)
  tasks : gmap Ref StreamTask;
  posted : list (Ref * Message);        (* by entry, oldest first *)
  clock : nat;                          (* readings of [Date.now()] so far *)
  nextRef : Ref;
}.

Definition initialWorld : World :=
  mkWorld (js "connecting") None 0 ∅ ∅ ∅ ∅ ∅ [] 0 0.

Definition allocRef (w : World) : World :=
  mkWorld (_cachedStatus w) (_cachedError w) (_sseCounter w) (_panels w)
          (entries w) (controllers w) (intervals w) (tasks w) (posted w)
          (clock w) (S (nextRef w)).

Definition setCounter (n : N) (w : World) : World :=
  mkWorld (_cachedStatus w) (_cachedError w) n (_panels w)
          (entries w) (controllers w) (intervals w) (tasks w) (posted w)
          (clock w) (nextRef w).

Definition setPanels (m : gmap Str.t Ref) (w : World) : World :=
  mkWorld (_cachedStatus w) (_cachedError w) (_sseCounter w) m
          (entries w) (controllers w) (intervals w) (tasks w) (posted w)
          (clock w) (nextRef w).

Definition setEntries (m : gmap Ref SessionPanelState) (w : World) : World :=
  mkWorld (_cachedStatus w) (_cachedError w) (_sseCounter w) (_panels w)
          m (controllers w) (intervals w) (tasks w) (posted w)
          (clock w) (nextRef w).

Definition setControllers (m : gmap Ref bool) (w : World) : World :=
  mkWorld (_cachedStatus w) (_cachedError w) (_sseCounter w) (_panels w)
          (entries w) m (intervals w) (tasks w) (posted w)
          (clock w) (nextRef w).

Definition setIntervals (m : gmap Ref Heartbeat) (w : World) : World :=
  mkWorld (_cachedStatus w) (_cachedError w) (_sseCounter w) (_panels w)
          (entries w) (controllers w) m (tasks w) (posted w)
          (clock w) (nextRef w).

Definition setTasks (m : gmap Ref StreamTask) (w : World) : World :=
  mkWorld (_cachedStatus w) (_cachedError w) (_sseCounter w) (_panels w)
          (entries w) (controllers w) (intervals w) m (posted w)
          (clock w) (nextRef w).

Definition setClock (n : nat) (w : World) : World :=
  mkWorld (_cachedStatus w) (_cachedError w) (_sseCounter w) (_panels w)
          (entries w) (controllers w) (intervals w) (tasks w) (posted w)
          n (nextRef w).

(** [entry.panel.webview.postMessage(message)]: the log keeps the entry
    whose panel received the message. *)
Definition postMessage (entry : Ref) (message : Message) (w : World) : World :=
  mkWorld (_cachedStatus w) (_cachedError w) (_sseCounter w) (_panels w)
          (entries w) (controllers w) (intervals w) (tasks w)
          (posted w ++ [(entry, message)])
          (clock w) (nextRef w).

(** [controller.abort()] *)
Definition abort (controller : Ref) (w : World) : World :=
  setControllers (<[controller := true]> (controllers w)) w.

(** [controller.signal.aborted] *)
Definition aborted (controller : Ref) (w : World) : bool :=
  match controllers w !! controller with
  | Some b => b
  | None => false
  end.

(** [clearInterval(timer)] *)
Definition clearInterval (timer : Ref) (w : World) : World :=
  setIntervals (delete timer (intervals w)) w.

Definition updateEntry (entry : Ref) (f : SessionPanelState -> SessionPanelState)
  (w : World) : World :=
  setEntries (alter f entry (entries w)) w.

Definition setStreams (m : gmap Str.t Ref) (e : SessionPanelState)
  : SessionPanelState :=
  mkEntry (panel e) m (sseHeartbeats e).

Definition setHeartbeats (m : gmap Str.t Ref) (e : SessionPanelState)
  : SessionPanelState :=
  mkEntry (panel e) (sseStreams e) m.

Definition entryStreams (entry : Ref) (w : World) : gmap Str.t Ref :=
  match entries w !! entry with
  | Some e => sseStreams e
  | None => ∅
  end.

Definition entryHeartbeats (entry : Ref) (w : World) : gmap Str.t Ref :=
  match entries w !! entry with
  | Some e => sseHeartbeats e
  | None => ∅
  end.

Definition _sendCachedStateToPanel (entry : Ref) (w : World) : World :=
  postMessage entry (MsgConnectionStatus (_cachedStatus w) (_cachedError w)) w.

(** [_createPanel], without the HTML and the theme of the webview: a fresh
    panel and a fresh entry with empty maps, registered under [panelId]. *)
Definition _createPanel (panelId : Str.t) (w : World) : World :=
  let p := nextRef w in
  let w := allocRef w in
  let state := nextRef w in
  let w := allocRef w in
  let w := setEntries (<[state := mkEntry p ∅ ∅]> (entries w)) w in
  let w := setPanels (<[panelId := state]> (_panels w)) w in
  _sendCachedStateToPanel state w.

(** The order in which the values of a map are visited does not matter to
    [abort] and [clearInterval]. *)
Definition _disposePanel (sessionId : Str.t) (w : World) : World :=
  match _panels w !! sessionId with
  | None => w
  | Some entry =>
      let w :=
        fold_left (fun w controller => abort controller w)
                  (map snd (map_to_list (entryStreams entry w))) w in
      let w := updateEntry entry (setStreams ∅) w in
      let w :=
        fold_left (fun w heartbeat => clearInterval heartbeat w)
                  (map snd (map_to_list (entryHeartbeats entry w))) w in
      let w := updateEntry entry (setHeartbeats ∅) w in
      setPanels (delete sessionId (_panels w)) w
  end.

(** The fixed headers, then the caller's: a later property of an object
    literal replaces an earlier one with the same key. *)
Definition spread (earlier later : gmap Str.t Str.t) : gmap Str.t Str.t :=
  later ∪ earlier.

Definition fixedSseHeaders : gmap Str.t Str.t :=
  <[js "Connection" := js "keep-alive"]>
    (<[js "Cache-Control" := js "no-cache"]>
       (<[js "Accept" := js "text/event-stream"]> ∅)).

Definition _buildSseHeaders (extra : option (gmap Str.t Str.t))
  : gmap Str.t Str.t :=
  spread fixedSseHeaders (default ∅ extra).

(** [Headers.forEach] visits the pairs in order; each is assigned to the
    result, [result[key] = value]. The result is a plain object: the
    assignment makes or replaces an own property, except under the name
    [__proto__], where it reaches the setter of [Object.prototype], which
    ignores a string, and no property is made. *)
Definition _collectHeaders (headers : list (Str.t * Str.t)) : gmap Str.t Str.t :=
  fold_left (fun result kv =>
               if bool_decide (kv.1 = js "__proto__") then result
               else <[kv.1 := kv.2]> result)
            headers ∅.

(** [s.replace(/\/+$/, '')] and [s.replace(/^\/+/, '')] *)
Fixpoint stripLeadingSlashes (s : Str.t) : Str.t :=
  match s with
  | c :: r => if c =? Str.SLASH then stripLeadingSlashes r else s
  | [] => []
  end.

Definition stripTrailingSlashes (s : Str.t) : Str.t :=
  rev (stripLeadingSlashes (rev s)).

(** [a || b] on strings that may be [undefined] *)
Definition orElse (a : option Str.t) (b : option Str.t) : option Str.t :=
  match a with
  | Some (_ :: _) => a
  | _ => b
  end.

Record HttpResponse := mkHttpResponse {
  ok : bool;
  status : Z;
  responseHeaders : list (Str.t * Str.t);
  hasBody : bool;
}.

Inductive FetchResult :=
| FetchRejects (error : Thrown)
| FetchResolves (response : HttpResponse).

(** What the start handler asks of its surroundings: the backend
    connection, the workspace and [fetch]. *)
Record StartEnv := mkStartEnv {
  getApiUrl : option Str.t;
  getWorkingDirectory : option Str.t;
  workspaceFolder : option Str.t;
  fetch : Str.t -> gmap Str.t Str.t -> FetchResult;
}.

(** The chunk of a batch of blocks: wrap, expand, terminate each block. *)
Definition outboundChunk (inject wrap : bool) (directory : Str.t)
  (blocks : list Str.t) (tick : nat) : Str.t * nat :=
  let routedBlocks :=
    if wrap then wrapSseBlocksAsGlobal blocks directory else blocks in
  let outbound :=
    if inject then expandSseBlocksWithActivity routedBlocks tick
    else (routedBlocks, tick) in
  (concat (map (fun block => block ++ [Str.LF; Str.LF]) outbound.1), outbound.2).

(** The cleanup in the [finally] of the stream task. *)
Definition taskCleanup (t : StreamTask) (w : World) : World :=
  let w := updateEntry (t_entry t)
             (fun e => setStreams (delete (t_streamId t) (sseStreams e)) e) w in
  match entryHeartbeats (t_entry t) w !! t_streamId t with
  | Some heartbeat =>
      let w := clearInterval heartbeat w in
      updateEntry (t_entry t)
        (fun e => setHeartbeats (delete (t_streamId t) (sseHeartbeats e)) e) w
  | None => w
  end.

(** After the read loop: the rest of the decoder and of the buffer, the
    terminal message, the cleanup. *)
Definition taskFinish (t : StreamTask) (w : World) : World :=
  let tail := decoder_end (decoder t) in
  let sseBuffer :=
    if bool_decide (tail = []) then sseBuffer t
    else sseBuffer t ++
         (if shouldInjectActivity t then Str.replaceCRLF tail else tail) in
  let w :=
    if bool_decide (sseBuffer = []) then w
    else if shouldInjectActivity t then
      let r := outboundChunk true (wrapAsGlobal t) (fallbackDirectory t)
                 [sseBuffer] (clock w) in
      postMessage (t_entry t) (MsgChunk (t_streamId t) r.1) (setClock r.2 w)
    else postMessage (t_entry t) (MsgChunk (t_streamId t) sseBuffer) w in
  let w := postMessage (t_entry t) (MsgEnd (t_streamId t) None) w in
  taskCleanup t w.

(** The [catch] of the stream task. *)
Definition taskFail (t : StreamTask) (error : Thrown) (w : World) : World :=
  let w :=
    if aborted (t_controller t) w then w
    else postMessage (t_entry t)
           (MsgEnd (t_streamId t) (Some (messageTextOf error))) w in
  taskCleanup t w.

Definition withBuffer (buffer : Str.t) (d : list N) (t : StreamTask)
  : StreamTask :=
  mkTask (t_entry t) (t_controller t) (t_streamId t) (shouldInjectActivity t)
         (wrapAsGlobal t) (fallbackDirectory t) buffer d.

(** One read that yields bytes, in a task that is not cancelled. *)
Definition taskChunk (t : StreamTask) (value : list N) (w : World)
  : StreamTask * World :=
  if (0 <? length value)%nat then
    let r := decoder_decode (decoder t) value in
    let chunk := r.1 in
    if bool_decide (chunk = []) then (withBuffer (sseBuffer t) r.2 t, w)
    else
      let buffer :=
        sseBuffer t ++
        (if shouldInjectActivity t then Str.replaceCRLF chunk else chunk) in
      let parts := Str.split [Str.LF; Str.LF] buffer in
      let rest := default [] (last parts) in
      let blocks := removelast parts in
      let w :=
        if (0 <? length blocks)%nat then
          let o := outboundChunk (shouldInjectActivity t) (wrapAsGlobal t)
                     (fallbackDirectory t) blocks (clock w) in
          postMessage (t_entry t) (MsgChunk (t_streamId t) o.1) (setClock o.2 w)
        else w in
      (withBuffer rest r.2 t, w)
  else (t, w).

Inductive ReadResult :=
| ReadValue (value : list N)
| ReadDone
| ReadRejects (error : Thrown).

(** The task resumes from [await reader.read()]; it either suspends again
    ([Some]) or ends. *)
Definition taskResume (t : StreamTask) (r : ReadResult) (w : World)
  : option StreamTask * World :=
  match r with
  | ReadRejects error => (None, taskFail t error w)
  | ReadDone => (None, taskFinish t w)
  | ReadValue value =>
      if aborted (t_controller t) w then (None, taskFinish t w)
      else let r := taskChunk t value w in (Some r.1, r.2)
  end.

(** The callback of the heartbeat interval. *)
Definition heartbeatTick (h : Heartbeat) (w : World) : World :=
  if aborted (hb_controller h) w then w
  else
    let r := buildHeartbeatEventBlock (clock w) in
    let heartbeatChunk := r.1 ++ [Str.LF; Str.LF] in
    postMessage (hb_entry h) (MsgChunk (hb_streamId h) heartbeatChunk)
                (setClock r.2 w).

Definition failedStart (message : BridgeRequest) (status : Z)
  (headers : gmap Str.t Str.t) (error : option Str.t) : BridgeResponse :=
  mkResponse (req_id message) (req_type message) true
             (StartData status headers None error).

Definition jsonContentType : gmap Str.t Str.t :=
  <[js "content-type" := js "application/json"]> ∅.

(** The two requests of the start handler: the target and, for
    [/global/event], the fallback to [/event]. The result is the response
    to go on with and whether it is to be wrapped; [Throws] is what the
    [catch] receives. *)
Definition fetchWithFallback (env : StartEnv) (normalizedPath base targetUrl : Str.t)
  (requestHeaders : gmap Str.t Str.t) : Completion (HttpResponse * bool) :=
  match fetch env targetUrl requestHeaders with
  | FetchRejects error => Throws error
  | FetchResolves response =>
      if (negb (ok response) || negb (hasBody response))
         && bool_decide (normalizedPath = js "/global/event")
      then
        match URL_resolve (js "event") base with
        | Throws error => Throws error
        | Returns fallbackUrl =>
            match fetch env fallbackUrl requestHeaders with
            | FetchRejects error => Throws error
            | FetchResolves response =>
                Returns (response, ok response && hasBody response)
            end
        end
      else Returns (response, false)
  end.

(** The start handler when its requests settle before any other handler
    runs: the outcomes of the two requests are taken from [env] and the
    handler runs from the request to its response. [startBegin] and
    [startSettle] below are its two halves, for the runs in which other
    handlers run while it awaits the upstream. *)
Definition _startSseProxy (message : BridgeRequest) (entry : Ref)
  (env : StartEnv) (w : World) : Completion BridgeResponse * World :=
  let apiBaseUrl := getApiUrl env in
  let path := match req_payload message with Some p => path p | None => None end in
  let headers := match req_payload message with Some p => headers p | None => None end in
  let normalizedPath :=
    match asString path with
    | Some s => if (0 <? length (Str.trim s))%nat then Str.trim s else js "/event"
    | None => js "/event"
    end in
  let shouldInjectActivity :=
    bool_decide (normalizedPath = js "/event")
    || bool_decide (normalizedPath = js "/global/event") in
  match apiBaseUrl with
  | None | Some [] =>
      (Returns (failedStart message 503 jsonContentType None), w)
  | Some apiBaseUrl =>
      let counter := _sseCounter w + 1 in
      let w := setCounter counter w in
      let streamId :=
        js "sse_" ++ digitsOfN counter ++ js "_" ++ digitsOfZ (Date_now (clock w)) in
      let w := setClock (S (clock w)) w in
      let controller := nextRef w in
      let w := setControllers (<[controller := false]> (controllers w)) (allocRef w) in
      let base := stripTrailingSlashes apiBaseUrl ++ js "/" in
      match URL_resolve (stripLeadingSlashes normalizedPath) base with
      | Throws error => (Throws error, w)
      | Returns targetUrl =>
          let requestHeaders := _buildSseHeaders (Some (default ∅ headers)) in
          match fetchWithFallback env normalizedPath base targetUrl requestHeaders with
          | Throws error =>
              (Returns (failedStart message 502 jsonContentType
                          (Some (messageTextOf error))), w)
          | Returns (response, wrapAsGlobal) =>
              let responseHeaders := _collectHeaders (responseHeaders response) in
              if negb (ok response) || negb (hasBody response) then
                (Returns (failedStart message (status response) responseHeaders
                            (Some (js "SSE failed: " ++ digitsOfZ (status response)))),
                 w)
              else
                let w := updateEntry entry
                           (fun e => setStreams (<[streamId := controller]> (sseStreams e)) e) w in
                let fallbackDirectory :=
                  default (js "global")
                    (orElse (orElse (getWorkingDirectory env) (workspaceFolder env))
                            (Some (js "global"))) in
                let w :=
                  if shouldInjectActivity then
                    let heartbeatTimer := nextRef w in
                    let w := setIntervals
                               (<[heartbeatTimer := mkHeartbeat controller entry streamId]>
                                  (intervals w)) (allocRef w) in
                    updateEntry entry
                      (fun e => setHeartbeats (<[streamId := heartbeatTimer]> (sseHeartbeats e)) e) w
                  else w in
                let task := nextRef w in
                let w := setTasks
                           (<[task := mkTask entry controller streamId shouldInjectActivity
                                        wrapAsGlobal fallbackDirectory [] []]>
                              (tasks w)) (allocRef w) in
                (Returns (mkResponse (req_id message) (req_type message) true
                            (StartData (status response) responseHeaders
                                       (Some streamId) None)), w)
          end
      end
  end.

Definition _stopSseProxy (message : BridgeRequest) (entry : Ref) (w : World)
  : Completion BridgeResponse * World :=
  let streamId := match req_payload message with Some p => streamId p | None => None end in
  let w :=
    match asString streamId with
    | Some streamId =>
        if (0 <? length streamId)%nat then
          let w :=
            match entryStreams entry w !! streamId with
            | Some controller =>
                let w := abort controller w in
                updateEntry entry
                  (fun e => setStreams (delete streamId (sseStreams e)) e) w
            | None => w
            end in
          match entryHeartbeats entry w !! streamId with
          | Some heartbeat =>
              let w := clearInterval heartbeat w in
              updateEntry entry
                (fun e => setHeartbeats (delete streamId (sseHeartbeats e)) e) w
          | None => w
          end
        else w
    | None => w
    end in
  (Returns (mkResponse (req_id message) (req_type message) true (StopData true)), w).

(** The message handler of a panel posts the response of a handler that
    returned. *)
Definition respond (entry : Ref) (r : Completion BridgeResponse * World) : World :=
  match r.1 with
  | Returns response => postMessage entry (MsgResponse response) r.2
  | Throws _ => r.2
  end.

(** What can happen to the provider, one handler at a time. A request
    comes from the webview of a panel that was created, an interval fires
    while it is set, a read settles for a task that is suspended. A start
    request is served in one step here; [SplitEvent] below has it across
    its awaits. *)
Inductive Event :=
| EvCreatePanel (panelId : Str.t)
| EvDispose (panelId : Str.t)
| EvStart (entry : Ref) (message : BridgeRequest) (env : StartEnv)
| EvStop (entry : Ref) (message : BridgeRequest)
| EvInterval (timer : Ref)
| EvRead (task : Ref) (r : ReadResult)
| EvStatus (status : Str.t) (error : option Str.t).

Definition updateConnectionStatus (status : Str.t) (error : option Str.t)
  (w : World) : World :=
  let w := mkWorld status error (_sseCounter w) (_panels w)
             (entries w) (controllers w) (intervals w) (tasks w) (posted w)
             (clock w) (nextRef w) in
  fold_left (fun w entry => _sendCachedStateToPanel entry w)
            (map snd (map_to_list (_panels w))) w.

Definition step (ev : Event) (w : World) : World :=
  match ev with
  | EvCreatePanel panelId => _createPanel panelId w
  | EvDispose panelId => _disposePanel panelId w
  | EvStart entry message env =>
      match entries w !! entry with
      | Some _ => respond entry (_startSseProxy message entry env w)
      | None => w
      end
  | EvStop entry message =>
      match entries w !! entry with
      | Some _ => respond entry (_stopSseProxy message entry w)
      | None => w
      end
  | EvInterval timer =>
      match intervals w !! timer with
      | Some h => heartbeatTick h w
      | None => w
      end
  | EvRead task r =>
      match tasks w !! task with
      | Some t =>
          let r := taskResume t r w in
          match r.1 with
          | Some t' => setTasks (<[task := t']> (tasks r.2)) r.2
          | None => setTasks (delete task (tasks r.2)) r.2
          end
      | None => w
      end
  | EvStatus status error => updateConnectionStatus status error w
  end.

Definition run (evs : list Event) (w : World) : World :=
  fold_left (fun w ev => step ev w) evs w.

End Provider.

(** ** The codec and the deriver as the specification words them *)

Section Specified.
Context `{Platform}.

(** The text handed to [JSON.parse]: the data lines of the block, joined
    and trimmed. *)
Definition payloadTextOf (block : Str.t) : Str.t :=
  Str.trim (Str.join [Str.LF] (dataLinesOf block)).

(** At most one following space (U+0020). *)
Definition stripOneSpace (s : Str.t) : Str.t :=
  match s with
  | 32 :: r => r
  | _ => s
  end.

Definition isObjectOrArray (v : JValue) : bool :=
  match v with
  | JObject _ | JArray _ => true
  | _ => false
  end.

(** Decoding as worded: split into lines, keep the lines that begin with
    the data-field prefix, strip the prefix and what [strip] takes off,
    rejoin, trim, parse; unwrap an object-valued [payload]. *)
Definition decodeWith (strip : Str.t -> Str.t) (block : Str.t) : JValue :=
  let kept :=
    List.filter (Str.startsWith (js "data:")) (Str.split [Str.LF] block) in
  let text :=
    Str.trim (Str.join [Str.LF] (map (fun l => strip (drop 5 l)) kept)) in
  match kept, text with
  | [], _ => JNull
  | _, [] => JNull
  | _ :: _, _ :: _ =>
      match JSON_parse text with
      | None => JNull
      | Some v =>
          if isObjectOrArray v then
            match getProp v (js "payload") with
            | Some p => if isObjectOrArray p then p else v
            | None => v
            end
          else JNull
      end
  end.

(** The first candidate that is neither [null] nor [undefined]. *)
Fixpoint resolved (candidates : list JsVal) : JsVal :=
  match candidates with
  | [] => None
  | Some JNull :: r => resolved r
  | None :: r => resolved r
  | Some v :: _ => Some v
  end.

(** The rows of the table of the activity deriver. *)
Inductive Derives (payload : JValue) : SessionActivity -> Prop :=
| DerivesStatus (sid st : Str.t) :
    getProp payload (js "type") = Some (JString (js "session.status")) ->
    optProp (optProp (getProp payload (js "properties")) (js "status")) (js "type")
      = Some (JString st) ->
    resolved [ optProp (getProp payload (js "properties")) (js "sessionID");
               optProp (getProp payload (js "properties")) (js "sessionId") ]
      = Some (JString sid) ->
    sid <> [] ->
    Derives payload
      (mkActivity sid (if bool_decide (st = js "busy" \/ st = js "retry")
                       then busy else idle))
| DerivesMessage (kind sid : Str.t) :
    getProp payload (js "type") = Some (JString kind) ->
    kind = js "message.updated" \/ kind = js "message.complete" ->
    optProp (getProp payload (js "info")) (js "role")
      = Some (JString (js "assistant")) ->
    optProp (getProp payload (js "info")) (js "finish")
      = Some (JString (js "stop")) ->
    resolved [ optProp (getProp payload (js "info")) (js "sessionID");
               optProp (getProp payload (js "info")) (js "sessionId");
               optProp (getProp payload (js "properties")) (js "sessionID");
               optProp (getProp payload (js "properties")) (js "sessionId") ]
      = Some (JString sid) ->
    sid <> [] ->
    Derives payload (mkActivity sid cooldown)
| DerivesIdle (sid : Str.t) :
    getProp payload (js "type") = Some (JString (js "session.idle")) ->
    resolved [ optProp (getProp payload (js "properties")) (js "sessionID");
               optProp (getProp payload (js "properties")) (js "sessionId") ]
      = Some (JString sid) ->
    sid <> [] ->
    Derives payload (mkActivity sid idle).

End Specified.

(** ** The control protocol as the specification words it *)

Section StartSpec.
Context `{Platform}.

(** The stream a stop request names: a non-empty string. *)
Definition requestedStream (message : BridgeRequest) : option Str.t :=
  match req_payload message with
  | Some p =>
      match asString (streamId p) with
      | Some s => if (0 <? length s)%nat then Some s else None
      | None => None
      end
  | None => None
  end.

(** The state after a stop that names [streamId]. *)
Definition stopped (streamId : Str.t) (entry : Ref) (w : World) : World :=
  let w :=
    match entryStreams entry w !! streamId with
    | Some controller =>
        updateEntry entry
          (fun e => setStreams (delete streamId (sseStreams e)) e)
          (abort controller w)
    | None => w
    end in
  match entryHeartbeats entry w !! streamId with
  | Some heartbeat =>
      updateEntry entry
        (fun e => setHeartbeats (delete streamId (sseHeartbeats e)) e)
        (clearInterval heartbeat w)
  | None => w
  end.

(** The path a start request asks for, [/event] by default. *)
Definition normalizedPathOf (message : BridgeRequest) : Str.t :=
  match req_payload message with
  | Some p =>
      match asString (path p) with
      | Some s => if (0 <? length (Str.trim s))%nat then Str.trim s else js "/event"
      | None => js "/event"
      end
  | None => js "/event"
  end.








End StartSpec.

(** ** Provenance of emitted blocks

    The chunk handed to the panel is a flat string. To speak of "the
    injected synthetic blocks" the expansion is run once more with every
    block tagged by its origin; erasing the tags gives the blocks of the
    source's functions. *)

Inductive Origin := FromUpstream | Injected.

Section Provenance.
Context `{Platform}.

Definition isDataLine (line : Str.t) : bool := Str.startsWith (js "data:") line.

(** The lines of a block that are no data lines, in order. *)
Definition nonDataLines (block : Str.t) : list Str.t :=
  List.filter (fun line => negb (isDataLine line)) (Str.split [Str.LF] block).

(** The object [{directory, payload}]. *)
Definition envelope (directory : Str.t) (payload : JValue) : JValue :=
  JObject [ (js "directory", JString directory); (js "payload", payload) ].

(** The data line that serializes the envelope of a block. *)
Definition wrappedDataLine (directory block : Str.t) : Str.t :=
  js "data: " ++ JSON_stringify (envelope directory (parseSseDataPayload block)).

Definition expandStepTagged (st : list (Origin * Str.t) * nat) (block : Str.t)
  : list (Origin * Str.t) * nat :=
  let expanded := st.1 ++ [(FromUpstream, block)] in
  match deriveSessionActivity (parseSseDataPayload block) with
  | Some activity =>
      let r := buildActivityEventBlock activity st.2 in
      (expanded ++ [(Injected, r.1)], r.2)
  | None => (expanded, st.2)
  end.

Definition expandTagged (blocks : list Str.t) (tick : nat)
  : list (Origin * Str.t) * nat :=
  fold_left expandStepTagged blocks ([], tick).

Definition outboundTagged (inject wrap : bool) (directory : Str.t)
  (blocks : list Str.t) (tick : nat) : list (Origin * Str.t) * nat :=
  let routedBlocks :=
    if wrap then wrapSseBlocksAsGlobal blocks directory else blocks in
  if inject then expandTagged routedBlocks tick
  else (map (fun b => (FromUpstream, b)) routedBlocks, tick).

Definition isUpstream (b : Origin * Str.t) : bool :=
  match b.1 with FromUpstream => true | Injected => false end.

(** Each block with its terminator. *)
Definition render (blocks : list Str.t) : Str.t :=
  concat (map (fun block => block ++ [Str.LF; Str.LF]) blocks).

(** The blocks that came from upstream. *)
Definition upstreamOnly (tagged : list (Origin * Str.t)) : list Str.t :=
  map snd (List.filter isUpstream tagged).

(** The data field of a block parses to an object of the shape
    [{directory, payload}]. *)
Definition hasEnvelopeShape (block : Str.t) : Prop :=
  exists directory payload,
    JSON_parse (payloadTextOf block) = Some (envelope directory payload).

(** What the relay needs of [JSON.stringify]: without an indent argument
    it writes no line feed, and an object is written between braces. *)
Class JsonLaws : Prop := {
  stringify_single_line : forall v : JValue, Str.LF ∉ JSON_stringify v;
  stringify_object_braces :
    forall props, exists body,
      JSON_stringify (JObject props) = 123 :: body ++ [125];
}.

End Provenance.

(** ** The relay of one stream, with provenance *)

(** Equality up to the normalization of line endings: the least equivalence
    that identifies a CR LF pair with a single LF. *)
Inductive crlfEquiv : Str.t -> Str.t -> Prop :=
| crlf_refl (s : Str.t) : crlfEquiv s s
| crlf_pair (a b : Str.t) :
    crlfEquiv (a ++ [Str.CR; Str.LF] ++ b) (a ++ [Str.LF] ++ b)
| crlf_sym (s s' : Str.t) : crlfEquiv s s' -> crlfEquiv s' s
| crlf_trans (s s' s'' : Str.t) :
    crlfEquiv s s' -> crlfEquiv s' s'' -> crlfEquiv s s''.

Section Relay.
Context `{Platform}.

(** What a decoded chunk adds to the buffer. *)
Definition normalized (inject : bool) (text : Str.t) : Str.t :=
  if inject then Str.replaceCRLF text else text.

Definition sameModuloLineEndings (inject : bool) (s s' : Str.t) : Prop :=
  if inject then crlfEquiv s s' else s = s'.

(** The text that the decoder makes of one read. *)
Definition decodedOf (t : StreamTask) (value : list N) : Str.t :=
  if (0 <? length value)%nat then (decoder_decode (decoder t) value).1 else [].

(** The task after one read that yields bytes. *)
Definition afterChunk (t : StreamTask) (value : list N) : StreamTask :=
  if (0 <? length value)%nat then
    let r := decoder_decode (decoder t) value in
    if bool_decide (r.1 = []) then withBuffer (sseBuffer t) r.2 t
    else
      withBuffer
        (default []
           (last (Str.split [Str.LF; Str.LF]
                    (sseBuffer t ++ normalized (shouldInjectActivity t) r.1))))
        r.2 t
  else t.

(** The blocks emitted for one read, tagged with their origin. *)
Definition chunkTagged (t : StreamTask) (value : list N) (tick : nat)
  : list (Origin * Str.t) * nat :=
  if bool_decide (decodedOf t value = []) then ([], tick)
  else
    outboundTagged (shouldInjectActivity t) (wrapAsGlobal t) (fallbackDirectory t)
      (removelast
         (Str.split [Str.LF; Str.LF]
            (sseBuffer t ++ normalized (shouldInjectActivity t) (decodedOf t value))))
      tick.

(** What happens to a stream while it is relayed: a read yields bytes, or
    the interval of its heartbeat fires. *)
Inductive RelayStep :=
| Bytes (value : list N)
| Beat.

(** The chunk of a heartbeat: one injected block. *)
Definition heartbeatTagged (tick : nat) : list (Origin * Str.t) * nat :=
  let r := buildHeartbeatEventBlock tick in ([(Injected, r.1)], r.2).

(** The batches of a sequence of reads and heartbeats, the task and the
    clock after them. *)
Fixpoint relayTrace (t : StreamTask) (steps : list RelayStep) (tick : nat)
  : list (list (Origin * Str.t)) * StreamTask * nat :=
  match steps with
  | [] => ([], t, tick)
  | Bytes value :: rest =>
      let b := chunkTagged t value tick in
      let r := relayTrace (afterChunk t value) rest b.2 in
      (b.1 :: r.1.1, r.1.2, r.2)
  | Beat :: rest =>
      let b := heartbeatTagged tick in
      let r := relayTrace t rest b.2 in
      (b.1 :: r.1.1, r.1.2, r.2)
  end.

(** The texts that the decoder makes of the reads, in order. *)
Fixpoint decodedTexts (t : StreamTask) (steps : list RelayStep) : list Str.t :=
  match steps with
  | [] => []
  | Bytes value :: rest => decodedOf t value :: decodedTexts (afterChunk t value) rest
  | Beat :: rest => decodedTexts t rest
  end.

Definition isNonEmpty {A} (l : list A) : bool :=
  match l with [] => false | _ :: _ => true end.

(** The chunk messages of a list of batches: an empty batch posts
    nothing. *)
Definition chunkMessages (t : StreamTask) (batches : list (list (Origin * Str.t)))
  : list (Ref * Message) :=
  map (fun b => (t_entry t, MsgChunk (t_streamId t) (render (map snd b))))
      (List.filter isNonEmpty batches).

(** What came from upstream in a list of batches, as relayed. *)
Definition relayedUpstream (batches : list (list (Origin * Str.t))) : Str.t :=
  concat (map (fun b => render (upstreamOnly b)) batches).

Definition injectedIsActivity (b : Origin * Str.t) : Prop :=
  b.1 = Injected -> exists a k, b.2 = (buildActivityEventBlock a k).1.

(** An injected block is an activity block or a heartbeat block. *)
Definition injectedIsSynthetic (b : Origin * Str.t) : Prop :=
  b.1 = Injected ->
  (exists a k, b.2 = (buildActivityEventBlock a k).1)
  \/ (exists k, b.2 = (buildHeartbeatEventBlock k).1).

(** The buffer that is flushed at the end of the stream. *)
Definition residualOf (t : StreamTask) : Str.t :=
  sseBuffer t ++ normalized (shouldInjectActivity t) (decoder_end (decoder t)).

(** The messages of the flush. *)
Definition flushMessages (t : StreamTask) (tick : nat) : list (Ref * Message) :=
  (if bool_decide (residualOf t = []) then []
   else if shouldInjectActivity t then
     [(t_entry t,
       MsgChunk (t_streamId t)
         (render (map snd (outboundTagged true (wrapAsGlobal t) (fallbackDirectory t)
                             [residualOf t] tick).1)))]
   else [(t_entry t, MsgChunk (t_streamId t) (residualOf t))])
  ++ [(t_entry t, MsgEnd (t_streamId t) None)].

(** The events of a stream: the reads of its task that yield bytes and
    the ticks of its heartbeat timer. *)
Definition relayEvents (tid timer : Ref) (steps : list RelayStep) : list Event :=
  map (fun s => match s with
                | Bytes value => EvRead tid (ReadValue value)
                | Beat => EvInterval timer
                end) steps.

(** The heartbeat of a task is registered under [timer]. *)
Definition beats (timer : Ref) (t : StreamTask) (w : World) : Prop :=
  intervals w !! timer
  = Some (mkHeartbeat (t_controller t) (t_entry t) (t_streamId t)).

End Relay.

(** ** A scenario on the reference host *)

Module Demo.
Import RefHost.

Definition demoResponse : HttpResponse :=
  mkHttpResponse true 200 [(js "content-type", js "text/event-stream")] true.

Definition demoEnv : StartEnv :=
  mkStartEnv (Some (js "http://127.0.0.1:4096/")) (Some (js "/w")) None
             (fun _ _ => FetchResolves demoResponse).

Definition demoStart : BridgeRequest :=
  mkRequest (js "1") (js "api:sse:start")
            (Some (mkPayload (Some (JString (js "/event"))) None None)).

(** A panel with one activity-tracking stream: the panel's entry is 1, the
    controller 2, the heartbeat interval 3 and the stream task 4. *)
Definition demoWorld : World :=
  run [EvCreatePanel (js "p"); EvStart 1 demoStart demoEnv] initialWorld.

Definition demoTask : StreamTask :=
  mkTask 1 2 (js "sse_1_1700000000000") true false (js "/w") [] [].

Definition demoReads : list RelayStep :=
  [ Bytes (ex "data: {'type':'session.idle','properties':{'sessionID':'s1'}}\r\n\r\nda");
    Beat;
    Bytes (ex "ta: 1\n\nrest") ].

Definition plainStart : BridgeRequest :=
  mkRequest (js "2") (js "api:sse:start")
            (Some (mkPayload (Some (JString (js "/session/s1/message"))) None None)).

(** A panel with two streams and one heartbeat timer: the second stream has
    the controller 5 and the task 6, and no heartbeat. *)
Definition twoStreams : World :=
  run [EvCreatePanel (js "p"); EvStart 1 demoStart demoEnv;
       EvStart 1 plainStart demoEnv] initialWorld.

Definition callerHeaders : gmap Str.t Str.t :=
  <[js "Accept" := js "application/json"]> (<[js "Authorization" := js "Bearer t"]> ∅).

Definition demoStop : BridgeRequest :=
  mkRequest (js "4") (js "api:sse:stop")
            (Some (mkPayload None None (Some (JString (js "sse_1_1700000000000"))))).
Definition demoHeartbeat : Heartbeat := mkHeartbeat 2 1 (js "sse_1_1700000000000").



(** A backend without the requested routes. *)
Definition notFound : HttpResponse :=
  mkHttpResponse false 404 [(js "content-type", js "text/plain")] true.



Definition globalStart : BridgeRequest :=
  mkRequest (js "3") (js "api:sse:start")
            (Some (mkPayload (Some (JString (js "/global/event"))) None None)).

Definition onePanel : World := run [EvCreatePanel (js "p")] initialWorld.

(** Two panels, each with an activity-tracking stream: the second panel has
    the entry 6, its stream the controller 7, the interval 8 and the
    task 9. *)
Definition twoPanels : list Event :=
  [ EvCreatePanel (js "p"); EvStart 1 demoStart demoEnv;
    EvCreatePanel (js "q"); EvStart 6 demoStart demoEnv ].

(** A backend that has [/event] and lacks [/global/event]. *)
Definition legacyEnv : StartEnv :=
  mkStartEnv (Some (js "http://127.0.0.1:4096/")) (Some (js "/w")) None
             (fun url _ =>
                if bool_decide (url = js "http://127.0.0.1:4096/event")
                then FetchResolves demoResponse
                else FetchResolves notFound).

(** A panel whose stream for [/global/event] fell back to [/event]. *)
Definition wrappedPanel : list Event :=
  [ EvCreatePanel (js "p"); EvStart 1 globalStart legacyEnv ].

(** A stream that ends with its body; its interval fires once more and the
    status changes. *)
Definition endedStream : list Event :=
  [ EvCreatePanel (js "p"); EvStart 1 demoStart demoEnv;
    EvRead 4 ReadDone; EvInterval 3; EvStatus (js "connected") None ].

(** Two panels with a stream each: the stream of the first ends, the
    heartbeat of the second fires. *)
Definition twoPanelsLater : list Event :=
  twoPanels ++ [ EvRead 4 ReadDone; EvInterval 8 ].

End Demo.

(** ** The life cycle of panels and streams *)

Section Lifecycle.
Context `{Platform}.

(** The id of the n-th stream, minted at time [z]. *)
Definition mintId (n : N) (z : Z) : Str.t :=
  js "sse_" ++ digitsOfN n ++ js "_" ++ digitsOfZ z.

Definition minted (w : World) (sid : Str.t) : Prop :=
  exists n z, sid = mintId n z /\ n <= _sseCounter w.

(** The task's controller is the one its entry keeps under its stream id. *)
Definition registered (t : StreamTask) (w : World) : Prop :=
  entryStreams (t_entry t) w !! t_streamId t = Some (t_controller t).

(** What holds of every state the provider reaches. *)
Record Inv (w : World) : Prop := mkInv {
  inv_tasks : forall tid t, tasks w !! tid = Some t ->
      aborted (t_controller t) w = true \/ registered t w;
  inv_intervals : forall tm h, intervals w !! tm = Some h ->
      entryHeartbeats (hb_entry h) w !! hb_streamId h = Some tm;
  inv_controllers : forall c b, controllers w !! c = Some b -> (c < nextRef w)%nat;
  inv_streams : forall e sid c, entryStreams e w !! sid = Some c ->
      (c < nextRef w)%nat;
  inv_entries : forall e st, entries w !! e = Some st -> (e < nextRef w)%nat;
  inv_panels : forall pid e, _panels w !! pid = Some e -> (e < nextRef w)%nat;
  inv_panels_inj : forall pid pid' e,
      _panels w !! pid = Some e -> _panels w !! pid' = Some e -> pid = pid';
  inv_minted : forall tid t, tasks w !! tid = Some t -> minted w (t_streamId t);
  inv_minted_hb : forall tm h, intervals w !! tm = Some h ->
      minted w (hb_streamId h);
  inv_unique : forall tid tid' t t',
      tasks w !! tid = Some t -> tasks w !! tid' = Some t' ->
      t_streamId t = t_streamId t' -> tid = tid';
}.

(** The controllers and the timers that an entry owns. *)
Definition ownedControllers (entry : Ref) (w : World) : list Ref :=
  map snd (map_to_list (entryStreams entry w)).

Definition ownedTimers (entry : Ref) (w : World) : list Ref :=
  map snd (map_to_list (entryHeartbeats entry w)).

(** An entry that owns nothing. *)
Definition emptied (e : SessionPanelState) : SessionPanelState :=
  mkEntry (panel e) ∅ ∅.

(** An entry without the stream [sid] and its heartbeat. *)
Definition deregister (sid : Str.t) (e : SessionPanelState) : SessionPanelState :=
  mkEntry (panel e) (delete sid (sseStreams e)) (delete sid (sseHeartbeats e)).

(** The messages that the panel of an entry received. *)
Definition postedTo (entry : Ref) (w : World) : list Message :=
  map snd (List.filter (fun m => (m.1 =? entry)%nat) (posted w)).



(** The state of a start request once the stream id and the controller are
    made. *)
Definition prepared (w : World) : World :=
  let w := setCounter (_sseCounter w + 1) w in
  let w := setClock (S (clock w)) w in
  setControllers (<[nextRef w := false]> (controllers w)) (allocRef w).

(** The state of a start request that succeeded: the stream is registered,
    its heartbeat is set when it tracks activity, its task is suspended in
    its first read. *)
Definition launched (entry : Ref) (inject wrap : bool) (directory streamId : Str.t)
  (controller : Ref) (w : World) : World :=
  let w := updateEntry entry
             (fun e => setStreams (<[streamId := controller]> (sseStreams e)) e) w in
  let w :=
    if inject then
      let heartbeatTimer := nextRef w in
      let w := setIntervals
                 (<[heartbeatTimer := mkHeartbeat controller entry streamId]>
                    (intervals w)) (allocRef w) in
      updateEntry entry
        (fun e => setHeartbeats (<[streamId := heartbeatTimer]> (sseHeartbeats e)) e) w
    else w in
  setTasks (<[nextRef w := mkTask entry controller streamId inject wrap directory [] []]>
              (tasks w)) (allocRef w).

End Lifecycle.

(** ** A start request across its awaits

    [_startSseProxy] awaits the upstream between the making of the stream
    id and of the controller and the registration of the stream, and other
    handlers run while it waits. [startBegin] is the handler up to its
    first [await], [startSettle] the handler from the moment the requests
    have settled; a [Session] keeps the handlers that wait. The handler
    touches nothing of the provider between its two requests, so the
    second [await] needs no state of its own. *)

Section Interleaving.
Context `{Platform}.

(** What the closure of a waiting start handler holds. *)
Record PendingStart := mkPendingStart {
  ps_message : BridgeRequest;
  ps_entry : Ref;
  ps_normalizedPath : Str.t;
  ps_inject : bool;
  ps_streamId : Str.t;
  ps_controller : Ref;
  ps_base : Str.t;
  ps_targetUrl : Str.t;
  ps_requestHeaders : gmap Str.t Str.t;
}.

Inductive StartPhase :=
| Answered (response : BridgeResponse)
| Threw (error : Thrown)
| Awaiting (pending : PendingStart).

(** The start handler up to [await fetch(targetUrl, ...)]. *)
Definition startBegin (message : BridgeRequest) (entry : Ref)
  (env : StartEnv) (w : World) : StartPhase * World :=
  let apiBaseUrl := getApiUrl env in
  let path := match req_payload message with Some p => path p | None => None end in
  let headers := match req_payload message with Some p => headers p | None => None end in
  let normalizedPath :=
    match asString path with
    | Some s => if (0 <? length (Str.trim s))%nat then Str.trim s else js "/event"
    | None => js "/event"
    end in
  let shouldInjectActivity :=
    bool_decide (normalizedPath = js "/event")
    || bool_decide (normalizedPath = js "/global/event") in
  match apiBaseUrl with
  | None | Some [] =>
      (Answered (failedStart message 503 jsonContentType None), w)
  | Some apiBaseUrl =>
      let counter := _sseCounter w + 1 in
      let w := setCounter counter w in
      let streamId :=
        js "sse_" ++ digitsOfN counter ++ js "_" ++ digitsOfZ (Date_now (clock w)) in
      let w := setClock (S (clock w)) w in
      let controller := nextRef w in
      let w := setControllers (<[controller := false]> (controllers w)) (allocRef w) in
      let base := stripTrailingSlashes apiBaseUrl ++ js "/" in
      match URL_resolve (stripLeadingSlashes normalizedPath) base with
      | Throws error => (Threw error, w)
      | Returns targetUrl =>
          let requestHeaders := _buildSseHeaders (Some (default ∅ headers)) in
          (Awaiting (mkPendingStart message entry normalizedPath shouldInjectActivity
                       streamId controller base targetUrl requestHeaders), w)
      end
  end.

(** The start handler once its requests have settled, as [env] says. *)
Definition startSettle (p : PendingStart) (env : StartEnv) (w : World)
  : Completion BridgeResponse * World :=
  let message := ps_message p in
  let entry := ps_entry p in
  let streamId := ps_streamId p in
  let controller := ps_controller p in
  let shouldInjectActivity := ps_inject p in
  match fetchWithFallback env (ps_normalizedPath p) (ps_base p) (ps_targetUrl p)
          (ps_requestHeaders p) with
  | Throws error =>
      (Returns (failedStart message 502 jsonContentType
                  (Some (messageTextOf error))), w)
  | Returns (response, wrapAsGlobal) =>
      let responseHeaders := _collectHeaders (responseHeaders response) in
      if negb (ok response) || negb (hasBody response) then
        (Returns (failedStart message (status response) responseHeaders
                    (Some (js "SSE failed: " ++ digitsOfZ (status response)))),
         w)
      else
        let w := updateEntry entry
                   (fun e => setStreams (<[streamId := controller]> (sseStreams e)) e) w in
        let fallbackDirectory :=
          default (js "global")
            (orElse (orElse (getWorkingDirectory env) (workspaceFolder env))
                    (Some (js "global"))) in
        let w :=
          if shouldInjectActivity then
            let heartbeatTimer := nextRef w in
            let w := setIntervals
                       (<[heartbeatTimer := mkHeartbeat controller entry streamId]>
                          (intervals w)) (allocRef w) in
            updateEntry entry
              (fun e => setHeartbeats (<[streamId := heartbeatTimer]> (sseHeartbeats e)) e) w
          else w in
        let task := nextRef w in
        let w := setTasks
                   (<[task := mkTask entry controller streamId shouldInjectActivity
                                wrapAsGlobal fallbackDirectory [] []]>
                      (tasks w)) (allocRef w) in
        (Returns (mkResponse (req_id message) (req_type message) true
                    (StartData (status response) responseHeaders
                               (Some streamId) None)), w)
  end.

(** The provider and the start handlers that wait, by their controller. *)
Record Session := mkSession {
  world : World;
  awaiting : gmap Ref PendingStart;
}.


(** What can happen to the provider when a start request is served across
    its awaits: a handler of [Event] runs (a start request among them, when
    its requests settle before anything else happens), a start handler
    begins and waits, or the requests of a waiting start handler settle. *)
Inductive SplitEvent :=
| Handled (ev : Event)
| EvStartBegins (entry : Ref) (message : BridgeRequest) (env : StartEnv)
| EvStartResumes (controller : Ref) (env : StartEnv).

Definition stepSplit (ev : SplitEvent) (s : Session) : Session :=
  match ev with
  | Handled ev => mkSession (step ev (world s)) (awaiting s)
  | EvStartBegins entry message env =>
      match entries (world s) !! entry with
      | Some _ =>
          let r := startBegin message entry env (world s) in
          match r.1 with
          | Answered response =>
              mkSession (postMessage entry (MsgResponse response) r.2) (awaiting s)
          | Threw _ => mkSession r.2 (awaiting s)
          | Awaiting p => mkSession r.2 (<[ps_controller p := p]> (awaiting s))
          end
      | None => s
      end
  | EvStartResumes controller env =>
      match awaiting s !! controller with
      | Some p =>
          mkSession (respond (ps_entry p) (startSettle p env (world s)))
                    (delete controller (awaiting s))
      | None => s
      end
  end.

Definition runSplit (evs : list SplitEvent) (s : Session) : Session :=
  fold_left (fun s ev => stepSplit ev s) evs s.





(** What holds of the start handlers that wait, in every state that the
    provider reaches: each has a controller of its own and a stream id
    that was minted and that no task, interval or other waiting handler
    has. *)
Record Waiting (s : Session) : Prop := mkWaiting {
  wait_key : forall c p, awaiting s !! c = Some p -> ps_controller p = c;
  wait_fresh : forall c p, awaiting s !! c = Some p -> (c < nextRef (world s))%nat;
  wait_entry : forall c p, awaiting s !! c = Some p ->
      is_Some (entries (world s) !! ps_entry p);
  wait_minted : forall c p, awaiting s !! c = Some p ->
      minted (world s) (ps_streamId p);
  wait_tasks : forall c p tid t,
      awaiting s !! c = Some p -> tasks (world s) !! tid = Some t ->
      t_streamId t <> ps_streamId p;
  wait_intervals : forall c p tm h,
      awaiting s !! c = Some p -> intervals (world s) !! tm = Some h ->
      hb_streamId h <> ps_streamId p;
  wait_distinct : forall c c' p p',
      awaiting s !! c = Some p -> awaiting s !! c' = Some p' ->
      ps_streamId p = ps_streamId p' -> c = c';
}.

End Interleaving.

(** ** The scenario with start requests across their awaits *)

Module SplitDemo.
Import RefHost Demo.



End SplitDemo.

(** * More of the provider and of the panels *)

(** ** Ownership of streams and timers *)

Section Ownership.
Context `{Platform}.

(** The entry lists the stream id, among its streams or its heartbeats. *)
Definition owns (e : Ref) (sid : Str.t) (w : World) : Prop :=
  is_Some (entryStreams e w !! sid) \/ is_Some (entryHeartbeats e w !! sid).

(** Who owns what, in every state the provider reaches: a stream id is
    listed by one entry, a controller and a timer are listed once, and a
    stream that wraps also tracks activity. *)
Record Owned (w : World) : Prop := mkOwned {
  own_minted : forall e sid, owns e sid w -> minted w sid;
  own_one : forall e e' sid, owns e sid w -> owns e' sid w -> e = e';
  own_controller : forall e e' sid sid' c,
      entryStreams e w !! sid = Some c -> entryStreams e' w !! sid' = Some c ->
      e = e' /\ sid = sid';
  own_timer : forall e e' sid sid' tm,
      entryHeartbeats e w !! sid = Some tm ->
      entryHeartbeats e' w !! sid' = Some tm ->
      e = e' /\ sid = sid';
  own_timer_fresh : forall e sid tm,
      entryHeartbeats e w !! sid = Some tm -> (tm < nextRef w)%nat;
  own_interval_fresh : forall tm h,
      intervals w !! tm = Some h -> (tm < nextRef w)%nat;
  own_wrapped : forall tid t,
      tasks w !! tid = Some t -> wrapAsGlobal t = true ->
      shouldInjectActivity t = true;
}.

(** A transition that registers nothing: what is listed, set or running
    after it was so before. *)
Definition Shrinks (w w' : World) : Prop :=
  (forall e sid c, entryStreams e w' !! sid = Some c ->
                   entryStreams e w !! sid = Some c)
  /\ (forall e sid tm, entryHeartbeats e w' !! sid = Some tm ->
                       entryHeartbeats e w !! sid = Some tm)
  /\ (forall tm h, intervals w' !! tm = Some h -> intervals w !! tm = Some h)
  /\ (forall tid t', tasks w' !! tid = Some t' ->
        exists t, tasks w !! tid = Some t
                  /\ wrapAsGlobal t' = wrapAsGlobal t
                  /\ shouldInjectActivity t' = shouldInjectActivity t)
  /\ (nextRef w <= nextRef w')%nat
  /\ _sseCounter w <= _sseCounter w'.

End Ownership.

Section StartOutcome.
Context `{Platform}.

(** The paths whose streams track activity. *)
Definition tracksActivity (message : BridgeRequest) : bool :=
  bool_decide (normalizedPathOf message = js "/event")
  || bool_decide (normalizedPathOf message = js "/global/event").

(** The stream id that a response carries. *)
Definition streamIdOf (response : BridgeResponse) : option Str.t :=
  match data response with
  | StartData _ _ streamId _ => streamId
  | StopData _ => None
  end.

(** A stop request for a stream. *)
Definition stopRequest (id : Str.t) (sid : Str.t) : BridgeRequest :=
  mkRequest id (js "api:sse:stop") (Some (mkPayload None None (Some (JString sid)))).

End StartOutcome.

Section TaskEndings.
Context `{Platform}.

(** The read ends the task: the body is done, the read rejected, or the
    stream was cancelled before the read settled. *)
Definition endsTask (t : StreamTask) (r : ReadResult) (w : World) : Prop :=
  match r with
  | ReadValue _ => aborted (t_controller t) w = true
  | ReadDone | ReadRejects _ => True
  end.

(** What the task posts when it ends. *)
Definition lastWords (t : StreamTask) (r : ReadResult) (w : World)
  : list (Ref * Message) :=
  match r with
  | ReadRejects error =>
      if aborted (t_controller t) w then []
      else [(t_entry t, MsgEnd (t_streamId t) (Some (messageTextOf error)))]
  | _ => flushMessages t (clock w)
  end.

End TaskEndings.

Section Shell.
Context `{Platform}.

(** What [createOrShow] does to the panels of the editor. *)
Inductive PanelEffect :=
| TitleSet (entry : Ref) (title : Str.t)
| Revealed (entry : Ref)
| Created (entry : Ref) (title : Str.t) (initialSessionId : option Str.t).

(** [title && title.trim().length > 0 ? title.trim() : 'Session'] *)
Definition sessionTitleOf (title : option Str.t) : Str.t :=
  match title with
  | Some s => if (0 <? length (Str.trim s))%nat then Str.trim s else js "Session"
  | None => js "Session"
  end.

(** [createOrShow(sessionId, title)]: the panel of a session is revealed
    when there is one and created otherwise. The argument is whatever the
    caller passes. *)
Definition createOrShow (sessionId : JsVal) (title : option Str.t) (w : World)
  : World * list PanelEffect :=
  match asString sessionId with
  | Some ((_ :: _) as sid) =>
      let sessionTitle := sessionTitleOf title in
      match _panels w !! sid with
      | Some existing => (w, [TitleSet existing sessionTitle; Revealed existing])
      | None =>
          (_createPanel sid w, [Created (S (nextRef w)) sessionTitle (Some sid)])
      end
  | _ => (w, [])
  end.

(** What the message handler of a panel asks of the extension besides the
    provider. *)
Inductive Outside :=
| Restarted
| Bridged (message : BridgeRequest).

(** The handler of [onDidReceiveMessage] of the panel of [entry];
    [handleBridgeMessage] is the bridge of the extension. *)
Definition onDidReceiveMessage (entry : Ref) (env : StartEnv)
  (handleBridgeMessage : BridgeRequest -> Completion BridgeResponse)
  (message : BridgeRequest) (w : World) : World * list Outside :=
  if bool_decide (req_type message = js "restartApi") then (w, [Restarted])
  else if bool_decide (req_type message = js "api:sse:start") then
    (respond entry (_startSseProxy message entry env w), [])
  else if bool_decide (req_type message = js "api:sse:stop") then
    (respond entry (_stopSseProxy message entry w), [])
  else (respond entry (handleBridgeMessage message, w), [Bridged message]).

End Shell.

Section Synthetic.
Context `{Platform}.

(** The object of a synthetic activity event. *)
Definition activityObject (activity : SessionActivity) (tick : nat) : JValue :=
  JObject
    [ (js "type", JString (js "openchamber:session-activity"));
      (js "properties",
       JObject
         [ (js "sessionId", JString (sessionId activity));
           (js "phase", JString (phaseName (phase activity)));
           (js "at", JNumber (number (Date_now tick) 0)) ]) ].

(** The object of a heartbeat event. *)
Definition heartbeatObject (tick : nat) : JValue :=
  JObject
    [ (js "type", JString (js "openchamber:heartbeat"));
      (js "properties",
       JObject [ (js "at", JNumber (number (Date_now tick) 0)) ]) ].

(** The blocks of the expansion, one block at a time: a block, then its
    activity block when it has one. *)
Fixpoint interleaved (blocks : list Str.t) (tick : nat) : list Str.t :=
  match blocks with
  | [] => []
  | block :: rest =>
      match deriveSessionActivity (parseSseDataPayload block) with
      | Some activity =>
          block :: (buildActivityEventBlock activity tick).1
                :: interleaved rest (S tick)
      | None => block :: interleaved rest tick
      end
  end.

(** The blocks that announce an activity. *)
Definition announcing (blocks : list Str.t) : list Str.t :=
  List.filter (fun block =>
                 match deriveSessionActivity (parseSseDataPayload block) with
                 | Some _ => true
                 | None => false
                 end) blocks.

End Synthetic.

(** ** The end of a stream *)

Section Finality.
Context `{Platform}.

(** The stream that a message belongs to. *)
Definition streamOf (m : Message) : option Str.t :=
  match m with
  | MsgChunk streamId _ | MsgEnd streamId _ => Some streamId
  | _ => None
  end.

Definition isEnd (m : Message) : bool :=
  match m with
  | MsgEnd _ _ => true
  | _ => false
  end.

(** The log has the end message of the stream. *)
Definition ended (sid : Str.t) (log : list (Ref * Message)) : Prop :=
  exists e error, (e, MsgEnd sid error) ∈ log.

(** No message of a stream follows the end message of the stream. *)
Fixpoint finalLog (log : list (Ref * Message)) : Prop :=
  match log with
  | [] => True
  | m :: rest =>
      (isEnd m.2 = true -> Forall (fun m' => streamOf m'.2 <> streamOf m.2) rest)
      /\ finalLog rest
  end.

(** What the provider keeps about the streams that ended: nothing follows
    an end message, a stream that ended has neither a task nor an interval
    left, and the interval of a stream belongs to the entry of its task. *)
Record Terminal (w : World) : Prop := mkTerminal {
  term_log : finalLog (posted w);
  term_tasks : forall tid t,
      tasks w !! tid = Some t -> ~ ended (t_streamId t) (posted w);
  term_intervals : forall tm h,
      intervals w !! tm = Some h -> ~ ended (hb_streamId h) (posted w);
  term_minted : forall sid, ended sid (posted w) -> minted w sid;
  term_entry : forall tm h tid t,
      intervals w !! tm = Some h -> tasks w !! tid = Some t ->
      hb_streamId h = t_streamId t -> hb_entry h = t_entry t;
}.

End Finality.

(** ** The panel of a stream *)

Section Routing.
Context `{Platform}.

(** The stream that a message tells its panel about: the stream of a chunk
    or of an end message, and the stream that a response announces. *)
Definition subjectOf (m : Message) : option Str.t :=
  match m with
  | MsgResponse response => streamIdOf response
  | _ => streamOf m
  end.

(** The messages of a stream go to one panel, that of its task and of its
    interval. *)
Record Routed (w : World) : Prop := mkRouted {
  route_one : forall e e' m m' sid,
      (e, m) ∈ posted w -> (e', m') ∈ posted w ->
      subjectOf m = Some sid -> subjectOf m' = Some sid -> e = e';
  route_task : forall e m tid t,
      (e, m) ∈ posted w -> tasks w !! tid = Some t ->
      subjectOf m = Some (t_streamId t) -> e = t_entry t;
  route_interval : forall e m tm h,
      (e, m) ∈ posted w -> intervals w !! tm = Some h ->
      subjectOf m = Some (hb_streamId h) -> e = hb_entry h;
  route_minted : forall e m sid,
      (e, m) ∈ posted w -> subjectOf m = Some sid -> minted w sid;
}.

End Routing.

(** ** The chat panel of the webview

    The component keeps the text of the input and whether a message is
    being sent; the message that is being sent is the call of
    [sendMessage] that has not settled yet. *)

Section Chat.

Record ChatStore := mkChatStore {
  currentSessionId : option Str.t;
  currentProviderId : option Str.t;
  currentModelId : option Str.t;
  currentAgentName : option Str.t;
}.

(** The arguments of a call of [sendMessage]. *)
Record Send := mkSend {
  messageText : Str.t;
  providerId : Str.t;
  modelId : Str.t;
  agentName : option Str.t;
}.

Record ChatState := mkChat {
  inputValue : Str.t;
  isSending : bool;
  inFlight : option Send;
}.

Definition chatInitial : ChatState := mkChat [] false None.

(** [!s] on a string that may be [null] or [undefined] *)
Definition missing (s : option Str.t) : bool :=
  match s with
  | Some (_ :: _) => false
  | _ => true
  end.

(** [handleSend], up to its [await]. *)
Definition handleSend (store : ChatStore) (st : ChatState)
  : ChatState * option Send :=
  if bool_decide (Str.trim (inputValue st) = [])
     || missing (currentSessionId store) || isSending st
  then (st, None)
  else
    let messageText := Str.trim (inputValue st) in
    match currentProviderId store, currentModelId store with
    | Some ((_ :: _) as provider), Some ((_ :: _) as model) =>
        let send := mkSend messageText provider model (currentAgentName store) in
        (mkChat [] true (Some send), Some send)
    | _, _ => (st, None)
    end.

(** [handleSend], from its [await] on: [sendMessage] resolved or
    rejected. *)
Definition sendSettled (resolved : bool) (st : ChatState) : ChatState :=
  match inFlight st with
  | Some send =>
      if resolved then mkChat (inputValue st) false None
      else mkChat (messageText send) false None
  | None => st
  end.

Inductive ChatEvent :=
| Typed (value : Str.t)
| KeyDown (key : Str.t) (shiftKey : bool)
| SendClicked
| SendSettled (resolved : bool).

(** The handlers of the component; the second component is the call of
    [sendMessage] that the event makes. *)
Definition chatStep (store : ChatStore) (ev : ChatEvent) (st : ChatState)
  : ChatState * option Send :=
  match ev with
  | Typed value => (mkChat value (isSending st) (inFlight st), None)
  | KeyDown key shiftKey =>
      if bool_decide (key = js "Enter") && negb shiftKey then handleSend store st
      else (st, None)
  | SendClicked => handleSend store st
  | SendSettled resolved => (sendSettled resolved st, None)
  end.

(** The state after a history of events, each with the store it saw. *)
Definition chatRun (history : list (ChatStore * ChatEvent)) : ChatState :=
  fold_left (fun st ev => (chatStep ev.1 ev.2 st).1) history chatInitial.

(** The flag says that a message is being sent. *)
Definition chatInv (st : ChatState) : Prop :=
  isSending st = true <-> is_Some (inFlight st).

End Chat.

(** ** The number input of the settings

    Numbers are IEEE 754 doubles ([spec_float], with the operations of
    binary64); [Number(text)] and [String(number)] are the conversions of the
    language, taken as they are. *)

Section NumberInput.
Variable toNumber : Str.t -> spec_float.
Variable toString : spec_float -> Str.t.

Definition isNaN (x : spec_float) : bool :=
  match x with S754_nan => true | _ => false end.

(** [Number.isFinite] *)
Definition isFinite (x : spec_float) : bool :=
  match x with S754_zero _ | S754_finite _ _ _ => true | _ => false end.

Definition isZero (negative : bool) (x : spec_float) : bool :=
  match x with S754_zero s => Bool.eqb s negative | _ => false end.

(** [Math.max(a, b)]: NaN if one is, [+0] over [-0], the larger one. *)
Definition Math_max (a b : spec_float) : spec_float :=
  if isNaN a || isNaN b then S754_nan
  else if isZero false b && isZero true a then b
  else if SFltb a b then b else a.

(** [Math.min(a, b)]: NaN if one is, [-0] under [+0], the smaller one. *)
Definition Math_min (a b : spec_float) : spec_float :=
  if isNaN a || isNaN b then S754_nan
  else if isZero true b && isZero false a then b
  else if SFltb b a then b else a.

Definition clamp (value min max : spec_float) : spec_float :=
  Math_min max (Math_max min value).

Record NumberProps := mkNumberProps {
  p_value : spec_float;
  p_min : spec_float;
  p_max : spec_float;
  p_step : spec_float;
  p_disabled : bool;
}.

(** What a handler does: the values it hands to [onValueChange], in order,
    and the draft it leaves in the field. *)
Record Outcome := mkOutcome {
  reported : list spec_float;
  draft : Str.t;
}.

Definition applyValue (props : NumberProps) (nextValue : spec_float) : Outcome :=
  let clamped := clamp nextValue (p_min props) (p_max props) in
  mkOutcome [clamped] (toString clamped).

Definition currentNumericValue (props : NumberProps) (draft : Str.t) : spec_float :=
  let parsed := toNumber draft in
  if isFinite parsed then parsed else p_value props.

Definition handleIncrement (props : NumberProps) (draft : Str.t) : Outcome :=
  applyValue props (SFadd 53 1024 (currentNumericValue props draft) (p_step props)).

Definition handleDecrement (props : NumberProps) (draft : Str.t) : Outcome :=
  applyValue props (SFsub 53 1024 (currentNumericValue props draft) (p_step props)).

Definition handleChange (props : NumberProps) (nextDraft : Str.t) : Outcome :=
  let parsed := toNumber nextDraft in
  if negb (isFinite parsed) then mkOutcome [] nextDraft
  else mkOutcome [clamp parsed (p_min props) (p_max props)] nextDraft.

Definition handleBlur (props : NumberProps) (draft : Str.t) : Outcome :=
  let parsed := toNumber draft in
  if negb (isFinite parsed) then mkOutcome [] (toString (p_value props))
  else
    let clamped := clamp parsed (p_min props) (p_max props) in
    mkOutcome (if negb (SFeqb clamped parsed) then [clamped] else [])
              (toString clamped).

(** The arrow keys; every other key goes to the [onKeyDown] of the
    caller ([None]). *)
Definition handleKeyDownInternal (props : NumberProps) (key : Str.t) (draft : Str.t)
  : option Outcome :=
  if bool_decide (key = js "ArrowUp") then Some (handleIncrement props draft)
  else if bool_decide (key = js "ArrowDown") then Some (handleDecrement props draft)
  else None.

Definition decrementDisabled (props : NumberProps) (draft : Str.t) : bool :=
  p_disabled props || SFleb (currentNumericValue props draft) (p_min props).

Definition incrementDisabled (props : NumberProps) (draft : Str.t) : bool :=
  p_disabled props || SFleb (p_max props) (currentNumericValue props draft).

(** The bounds are numbers and in order. *)
Definition ordered (props : NumberProps) : Prop :=
  SFleb (p_min props) (p_max props) = true.

Definition withinBounds (props : NumberProps) (v : spec_float) : Prop :=
  SFleb (p_min props) v = true /\ SFleb v (p_max props) = true.

(** The place of a number that is no NaN in the order of the doubles: its
    class, then its exponent, then its mantissa. *)
Definition orderKey (x : spec_float) : Z * Z * Z :=
  match x with
  | S754_nan => (0, 0, 0)
  | S754_zero _ => (0, 0, 0)
  | S754_infinity true => (-2, 0, 0)
  | S754_infinity false => (2, 0, 0)
  | S754_finite true m e => (-1, - e, Z.neg m)
  | S754_finite false m e => (1, e, Z.pos m)
  end%Z.

Definition keyLt (k k' : Z * Z * Z) : Prop :=
  (k.1.1 < k'.1.1
   \/ (k.1.1 = k'.1.1 /\ (k.1.2 < k'.1.2 \/ (k.1.2 = k'.1.2 /\ k.2 < k'.2))))%Z.

Definition keyEq (k k' : Z * Z * Z) : Prop :=
  k.1.1 = k'.1.1 /\ k.1.2 = k'.1.2 /\ k.2 = k'.2.

End NumberInput.

Module NumberDemo.

(** The double of an integer. *)
Definition double (z : Z) : spec_float := binary_normalize 53 1024 z 0 false.

(** A field for the numbers from 0 to 10 that holds 5. *)
Definition zeroToTen : NumberProps :=
  mkNumberProps (double 5) (double 0) (double 10) (double 1) false.

(** The conversions, on the texts and the numbers of the examples. *)
Definition readNumber (text : Str.t) : spec_float :=
  if bool_decide (text = js "12") then double 12
  else if bool_decide (text = js "7") then double 7
  else if bool_decide (text = js "-0") then S754_zero true
  else S754_nan.

Definition showNumber (x : spec_float) : Str.t :=
  if SFeqb x (double 10) then js "10"
  else if SFeqb x (double 8) then js "8"
  else if SFeqb x (double 7) then js "7"
  else if SFeqb x (double 5) then js "5"
  else if SFeqb x (double 0) then js "0"
  else js "NaN".

End NumberDemo.


(** * Properties *)

(** ** Strings *)

Section StrFacts.

Lemma startsWith_spec (p s : Str.t) :
  Str.startsWith p s = true <-> exists r, s = p ++ r.
Proof.
  revert s; induction p as [|a p IH]; intros s; simpl.
  - split; [intros _; now exists s | reflexivity].
  - destruct s as [|b s]; simpl.
    + split; [discriminate | intros [r Hr]; discriminate].
    + rewrite andb_true_iff, N.eqb_eq, IH. split.
      * intros [-> [r ->]]. now exists r.
      * intros [r Hr]. injection Hr as -> ->. split; [reflexivity | now exists r].
Qed.

Lemma splitFrom_skip (sep : Str.t) (k : nat) (s : Str.t) :
  Str.splitFrom sep k s = Str.splitFrom sep 0 (drop k s).
Proof.
  revert k; induction s as [|c s IH]; intros k.
  - now rewrite drop_nil.
  - destruct k as [|k]; [reflexivity|]. cbn [Str.splitFrom drop]. apply IH.
Qed.

Lemma splitFrom_nonempty (sep : Str.t) (k : nat) (s : Str.t) :
  Str.splitFrom sep k s <> [].
Proof.
  revert k; induction s as [|c s IH]; intros k; [discriminate|].
  cbn [Str.splitFrom]. destruct k as [|k]; [|apply IH].
  destruct (Str.startsWith sep (c :: s)); [discriminate|].
  destruct (Str.splitFrom sep 0 s); discriminate.
Qed.

(** The two equations of [split] on a non-empty string. *)
Lemma split_match (sep s : Str.t) :
  sep <> [] ->
  Str.split sep (sep ++ s) = [] :: Str.split sep s.
Proof.
  intros Hne. destruct sep as [|a sep]; [congruence|].
  unfold Str.split. cbn [app Str.splitFrom].
  assert (E : Str.startsWith (a :: sep) (a :: sep ++ s) = true).
  { apply startsWith_spec. now exists s. }
  rewrite E. f_equal.
  replace (length (a :: sep) - 1)%nat with (length sep) by (cbn [length]; lia).
  rewrite splitFrom_skip. now rewrite drop_app_length.
Qed.

Lemma split_no_match (sep : Str.t) (c : N) (s : Str.t) :
  sep <> [] ->
  Str.startsWith sep (c :: s) = false ->
  exists p ps, Str.split sep s = p :: ps
               /\ Str.split sep (c :: s) = (c :: p) :: ps.
Proof.
  intros Hne Hs. destruct sep as [|a sep]; [congruence|].
  unfold Str.split. cbn [Str.splitFrom]. rewrite Hs.
  destruct (Str.splitFrom (a :: sep) 0 s) as [|p ps] eqn:E.
  - now apply splitFrom_nonempty in E.
  - now exists p, ps.
Qed.

Lemma split_nil (sep : Str.t) : sep <> [] -> Str.split sep [] = [[]].
Proof. destruct sep; [congruence | reflexivity]. Qed.

Lemma split_nonempty (sep s : Str.t) : sep <> [] -> Str.split sep s <> [].
Proof.
  intros Hne. destruct sep; [congruence|]. apply splitFrom_nonempty.
Qed.

Lemma join_cons (sep p : Str.t) (ps : list Str.t) :
  ps <> [] -> Str.join sep (p :: ps) = p ++ sep ++ Str.join sep ps.
Proof. destruct ps; [congruence | reflexivity]. Qed.

Lemma join_cons_head (sep : Str.t) (c : N) (p : Str.t) (ps : list Str.t) :
  Str.join sep ((c :: p) :: ps) = c :: Str.join sep (p :: ps).
Proof. destruct ps; reflexivity. Qed.

(** Joining what was split gives the string back. *)
Lemma join_split (sep s : Str.t) :
  sep <> [] -> Str.join sep (Str.split sep s) = s.
Proof.
  intros Hne.
  induction s as [s IH] using (induction_ltof1 _ (@length N)). unfold ltof in IH.
  destruct s as [|c s]; [now rewrite split_nil|].
  destruct (Str.startsWith sep (c :: s)) eqn:Hs.
  - apply startsWith_spec in Hs as [r Hr]. rewrite Hr, split_match by assumption.
    rewrite join_cons by now apply split_nonempty.
    rewrite IH; [reflexivity|].
    rewrite Hr, length_app. destruct sep; [congruence|]. cbn [length]. lia.
  - destruct (split_no_match sep c s Hne Hs) as (p & ps & E1 & E2).
    rewrite E2, join_cons_head, <- E1. f_equal. apply IH. cbn [length]. lia.
Qed.

(** The blocks before the last part, each with its terminator, then the
    last part. *)
Lemma join_terminated (sep : Str.t) (parts : list Str.t) :
  parts <> [] ->
  Str.join sep parts
  = concat (map (fun b => b ++ sep) (removelast parts)) ++ default [] (last parts).
Proof.
  induction parts as [|p ps IH]; [congruence|]. intros _.
  destruct ps as [|q ps].
  - reflexivity.
  - rewrite join_cons by discriminate. rewrite IH by discriminate.
    change (removelast (p :: q :: ps)) with (p :: removelast (q :: ps)).
    rewrite last_cons_cons. cbn [map concat]. now rewrite <- !app_assoc.
Qed.

Lemma split_terminated (sep s : Str.t) :
  sep <> [] ->
  concat (map (fun b => b ++ sep) (removelast (Str.split sep s)))
  ++ default [] (last (Str.split sep s)) = s.
Proof.
  intros Hne. rewrite <- join_terminated by now apply split_nonempty.
  now apply join_split.
Qed.

(** Lines: splitting at a single code unit. *)
Lemma split_line (c : N) (l r : Str.t) :
  c ∉ l -> Str.split [c] (l ++ c :: r) = l :: Str.split [c] r.
Proof.
  intros Hl. induction l as [|x l IH].
  - exact (split_match [c] r ltac:(discriminate)).
  - assert (Hx : x <> c) by (intros ->; apply Hl; left).
    assert (Hl' : c ∉ l) by (intros Hin; apply Hl; now right).
    destruct (split_no_match [c] x (l ++ c :: r)) as (p & ps & E1 & E2);
      [discriminate | |].
    { cbn. rewrite andb_true_r. apply N.eqb_neq. congruence. }
    cbn [app]. rewrite E2. rewrite IH in E1 by assumption.
    now injection E1 as <- <-.
Qed.

Lemma split_single_line (c : N) (l : Str.t) :
  c ∉ l -> Str.split [c] l = [l].
Proof.
  intros Hl. induction l as [|x l IH]; [reflexivity|].
  assert (Hx : x <> c) by (intros ->; apply Hl; left).
  assert (Hl' : c ∉ l) by (intros Hin; apply Hl; now right).
  destruct (split_no_match [c] x l) as (p & ps & E1 & E2); [discriminate | |].
  { cbn. rewrite andb_true_r. apply N.eqb_neq. congruence. }
  rewrite E2. rewrite IH in E1 by assumption. now injection E1 as <- <-.
Qed.

Lemma split_join_lines (c : N) (ls : list Str.t) :
  ls <> [] -> Forall (fun l => c ∉ l) ls ->
  Str.split [c] (Str.join [c] ls) = ls.
Proof.
  induction ls as [|l ls IH]; [congruence|]. intros _ Hall.
  apply Forall_cons in Hall as [Hl Hls].
  destruct ls as [|l' ls].
  - now apply split_single_line.
  - rewrite join_cons by discriminate. cbn [app].
    rewrite split_line by assumption. f_equal. now apply IH.
Qed.

(** Every line of a split is free of the separating code unit. *)
Lemma split_lines_free (c : N) (s : Str.t) :
  Forall (fun l => c ∉ l) (Str.split [c] s).
Proof.
  induction s as [|x s IH]; [repeat constructor; apply not_elem_of_nil|].
  destruct (Str.startsWith [c] (x :: s)) eqn:Hs.
  - apply startsWith_spec in Hs as [r Hr]. injection Hr as -> ->.
    change (c :: r) with ([c] ++ r).
    rewrite (split_match [c] r) by discriminate.
    constructor; [apply not_elem_of_nil | assumption].
  - destruct (split_no_match [c] x s ltac:(discriminate) Hs) as (p & ps & E1 & E2).
    rewrite E2. rewrite E1 in IH. apply Forall_cons in IH as [Hp Hps].
    constructor; [|assumption].
    cbn in Hs. rewrite andb_true_r in Hs. apply N.eqb_neq in Hs.
    intros Hin. apply elem_of_cons in Hin as [->|Hin]; [congruence | contradiction].
Qed.

End StrFacts.
Lemma isStr_spec (v : JsVal) (s : Str.t) :
  isStr v s = true <-> v = Some (JString s).
Proof.
  destruct v as [[]|]; simpl; try (split; [discriminate | intros [=]]).
  rewrite bool_decide_eq_true. split; [intros ->; reflexivity | intros [=]; assumption].
Qed.

Lemma isStr_string (k s : Str.t) :
  isStr (Some (JString k)) s = bool_decide (k = s).
Proof. reflexivity. Qed.

Lemma asString_spec (v : JsVal) (s : Str.t) :
  asString v = Some s <-> v = Some (JString s).
Proof.
  destruct v as [[]|]; simpl; split; intros [=]; subst; reflexivity.
Qed.

Lemma nullish_resolved (a b : JsVal) :
  asString (nullish a b) = asString (resolved [a; b]).
Proof. destruct a as [[]|], b as [[]|]; reflexivity. Qed.

Lemma nullish_resolved4 (a b c d : JsVal) :
  asString (nullish (nullish (nullish a b) c) d)
  = asString (resolved [a; b; c; d]).
Proof. destruct a as [[]|], b as [[]|], c as [[]|], d as [[]|]; reflexivity. Qed.

Lemma length_pos_nonempty (s : Str.t) : (0 <? length s)%nat = true <-> s <> [].
Proof. destruct s; simpl; split; try congruence; try discriminate; reflexivity. Qed.

Lemma phase_of_status (st : Str.t) :
  (if bool_decide (st = js "busy") || bool_decide (st = js "retry")
   then busy else idle)
  = (if bool_decide (st = js "busy" \/ st = js "retry") then busy else idle).
Proof. repeat case_bool_decide; simpl; try reflexivity; tauto. Qed.

Lemma getProp_object (v : JValue) (k : Str.t) (x : JValue) :
  getProp v k = Some x -> exists ps, v = JObject ps.
Proof. destruct v; try discriminate. intros _. now eexists. Qed.

(** Literals differ when their code units do. *)
Ltac literals :=
  repeat match goal with
    | |- context [bool_decide (Str.lit ?a = Str.lit ?b)] =>
        first [ rewrite (bool_decide_eq_true_2 (Str.lit a = Str.lit b)) by reflexivity
              | rewrite (bool_decide_eq_false_2 (Str.lit a = Str.lit b)) by discriminate ]
    end.

Lemma deriveCooldown_complete (payload : JValue) (sid : Str.t) :
  optProp (getProp payload (js "info")) (js "role")
    = Some (JString (js "assistant")) ->
  optProp (getProp payload (js "info")) (js "finish")
    = Some (JString (js "stop")) ->
  resolved [ optProp (getProp payload (js "info")) (js "sessionID");
             optProp (getProp payload (js "info")) (js "sessionId");
             optProp (getProp payload (js "properties")) (js "sessionID");
             optProp (getProp payload (js "properties")) (js "sessionId") ]
    = Some (JString sid) ->
  sid <> [] ->
  deriveCooldown payload (getProp payload (js "properties"))
  = Some (mkActivity sid cooldown).
Proof.
  intros Hrole Hfinish Hsid Hne. unfold deriveCooldown.
  rewrite nullish_resolved4, Hsid, Hrole, Hfinish. cbn [asString].
  apply length_pos_nonempty in Hne. rewrite Hne, !isStr_string.
  literals. reflexivity.
Qed.

Lemma deriveCooldown_sound (payload : JValue) (a : SessionActivity) :
  deriveCooldown payload (getProp payload (js "properties")) = Some a ->
  exists sid,
    a = mkActivity sid cooldown /\
    optProp (getProp payload (js "info")) (js "role")
      = Some (JString (js "assistant")) /\
    optProp (getProp payload (js "info")) (js "finish")
      = Some (JString (js "stop")) /\
    resolved [ optProp (getProp payload (js "info")) (js "sessionID");
               optProp (getProp payload (js "info")) (js "sessionId");
               optProp (getProp payload (js "properties")) (js "sessionID");
               optProp (getProp payload (js "properties")) (js "sessionId") ]
      = Some (JString sid) /\
    sid <> [].
Proof.
  unfold deriveCooldown. rewrite nullish_resolved4.
  set (r := resolved _).
  set (role := optProp (getProp payload (js "info")) (js "role")).
  set (finish := optProp (getProp payload (js "info")) (js "finish")).
  destruct (asString r) as [sid|] eqn:Es; [|discriminate].
  apply asString_spec in Es.
  destruct (0 <? length sid)%nat eqn:El; [|discriminate].
  destruct (isStr role (js "assistant")) eqn:Er; [|discriminate].
  destruct (isStr finish (js "stop")) eqn:Ef; [|discriminate].
  cbn [andb]. intros [= <-]. exists sid.
  apply isStr_spec in Er, Ef. apply length_pos_nonempty in El. auto.
Qed.

Lemma derive_sound (payload : JValue) (a : SessionActivity) :
  deriveSessionActivity payload = Some a -> Derives payload a.
Proof.
  unfold deriveSessionActivity.
  destruct (negb (truthy (Some payload)) || negb (isObjectType (Some payload)));
    [discriminate|].
  set (type := getProp payload (js "type")).
  destruct (isStr type (js "session.status")) eqn:T1.
  { apply isStr_spec in T1. rewrite nullish_resolved.
    set (r := resolved _).
    destruct (asString r) as [sid|] eqn:Es; [|discriminate].
    destruct (asString (optProp _ (js "type"))) as [st|] eqn:Et; [|discriminate].
    destruct (0 <? length sid)%nat eqn:El; [|discriminate].
    apply asString_spec in Es, Et. apply length_pos_nonempty in El.
    rewrite phase_of_status. intros [= <-]. now apply DerivesStatus. }
  destruct (isStr type (js "message.updated")) eqn:T2.
  { apply isStr_spec in T2. intros Hc.
    apply deriveCooldown_sound in Hc as (sid & -> & ? & ? & ? & ?).
    eapply DerivesMessage; eauto. }
  destruct (isStr type (js "message.complete")) eqn:T3.
  { apply isStr_spec in T3. intros Hc.
    apply deriveCooldown_sound in Hc as (sid & -> & ? & ? & ? & ?).
    eapply DerivesMessage; eauto. }
  destruct (isStr type (js "session.idle")) eqn:T4; [|discriminate].
  apply isStr_spec in T4. rewrite nullish_resolved.
  set (r := resolved _).
  destruct (asString r) as [sid|] eqn:Es; [|discriminate].
  destruct (0 <? length sid)%nat eqn:El; [|discriminate].
  apply asString_spec in Es. apply length_pos_nonempty in El.
  intros [= <-]. now apply DerivesIdle.
Qed.

Lemma derive_complete (payload : JValue) (a : SessionActivity) :
  Derives payload a -> deriveSessionActivity payload = Some a.
Proof.
  intros D.
  assert (Hobj : exists ps, payload = JObject ps).
  { destruct D as [? ? Ht | ? ? Ht | ? Ht]; exact (getProp_object _ _ _ Ht). }
  destruct Hobj as [ps ->]. unfold deriveSessionActivity.
  cbn [truthy isObjectType typeof negb orb].
  destruct D as [sid st Ht Hst Hsid Hne | kind sid Ht Hk Hrole Hfin Hsid Hne
                | sid Ht Hsid Hne]; rewrite Ht, !isStr_string.
  - literals. rewrite nullish_resolved, Hsid, Hst. cbn [asString].
    apply length_pos_nonempty in Hne. rewrite Hne, phase_of_status. reflexivity.
  - destruct Hk as [-> | ->]; literals;
      now apply deriveCooldown_complete.
  - literals. rewrite nullish_resolved, Hsid. cbn [asString].
    apply length_pos_nonempty in Hne. now rewrite Hne.
Qed.

(** ** The event-block codec *)

Section CodecFacts.
Context `{Platform}.

Lemma isObjectOrArray_spec (v : JValue) :
  truthy (Some v) && isObjectType (Some v) = isObjectOrArray v.
Proof.
  destruct v as [| [] | | | |]; unfold isObjectType; simpl;
    rewrite ?andb_false_r; reflexivity.
Qed.

Lemma nested_spec (o : JsVal) :
  truthy o && isObjectType o
  = match o with Some p => isObjectOrArray p | None => false end.
Proof. destruct o as [v|]; [apply isObjectOrArray_spec | reflexivity]. Qed.

Lemma decode_refines (block : Str.t) :
  parseSseDataPayload block = decodeWith Str.stripLeadingSpace block.
Proof.
  unfold parseSseDataPayload, decodeWith, dataLinesOf, Str.slice.
  case_bool_decide as Hb.
  - subst block. reflexivity.
  - set (kept := List.filter _ _).
    destruct kept as [|l kept']; [reflexivity|].
    cbn [map length Nat.eqb].
    set (text := Str.trim _).
    case_bool_decide as Ht.
    + rewrite Ht. reflexivity.
    + destruct text as [|c text'] eqn:E; [congruence|].
      destruct (JSON_parse (c :: text')) as [v|]; [|reflexivity].
      rewrite isObjectOrArray_spec. destruct (isObjectOrArray v); [|reflexivity].
      rewrite nested_spec. destruct (getProp v (js "payload")); reflexivity.
Qed.

Lemma payloadText_nonempty (block : Str.t) :
  payloadTextOf block <> [] -> block <> [] /\ dataLinesOf block <> [].
Proof.
  intros Hne. split.
  - intros ->. now apply Hne.
  - intros E. apply Hne. unfold payloadTextOf. now rewrite E.
Qed.

End CodecFacts.

(** C2 (amended). For every input string, [parseSseDataPayload] splits the
    block into lines, keeps exactly the lines that begin with [data:],
    strips that prefix and at most one following white-space character
    (any character of the class [\s], not only the space) per line, rejoins
    with newlines, trims and parses; it returns [null] when there is no data
    line, when the joined text is empty after trimming or when parsing
    fails; an object that carries an object-valued [payload] is replaced by
    that payload; results that are no objects give [null]. The function is
    total (a failure of [JSON.parse] is a value, nothing is thrown), and the
    three examples of the specification evaluate as stated. *)
Theorem decode_as_amended :
  (forall (H : Platform) (block : Str.t),
      parseSseDataPayload block = decodeWith Str.stripLeadingSpace block)
  /\ @parseSseDataPayload RefHost.host (ex "event: message\ndata: {'a':1}\n\n")
     = JObject [(js "a", JNumber (mkNumber 1 0))]
  /\ @parseSseDataPayload RefHost.host (ex "no data here\n\n") = JNull
  /\ @parseSseDataPayload RefHost.host (ex "data: not json\n\n") = JNull.
Proof.
  split; [intros H block; apply decode_refines|].
  repeat split; vm_compute; reflexivity.
Qed.

(** C2, as stated, fails: with two data lines of which the second begins
    with a vertical tab, stripping at most one following space leaves the
    vertical tab inside the joined text, which [JSON.parse] rejects, whereas
    the code strips it and returns the object. *)
Lemma decode_one_space_counterexample :
  @decodeWith RefHost.host stripOneSpace (ex "data: {\ndata:\v'a':1}") = JNull
  /\ @parseSseDataPayload RefHost.host (ex "data: {\ndata:\v'a':1}")
     = JObject [(js "a", JNumber (mkNumber 1 0))].
Proof. split; vm_compute; reflexivity. Qed.

(** C10. A block whose joined data text parses as a JSON array decodes to
    that array, not to [null]. *)
Theorem decode_returns_arrays `{Platform} (block : Str.t) (items : list JValue) :
  payloadTextOf block <> [] ->
  JSON_parse (payloadTextOf block) = Some (JArray items) ->
  parseSseDataPayload block = JArray items.
Proof.
  intros Hne Hparse.
  destruct (payloadText_nonempty block Hne) as [Hb Hd].
  unfold parseSseDataPayload.
  rewrite bool_decide_eq_false_2 by assumption.
  destruct (dataLinesOf block) as [|l ls] eqn:E; [congruence|].
  cbn [length Nat.eqb]. rewrite <- E. fold (payloadTextOf block).
  rewrite bool_decide_eq_false_2 by assumption.
  rewrite Hparse. reflexivity.
Qed.

Lemma decode_returns_arrays_witness :
  @JSON_parse RefHost.host (payloadTextOf (ex "data: [1,\ndata: 2]\n\n"))
  = Some (JArray [JNumber (mkNumber 1 0); JNumber (mkNumber 2 0)])
  /\ @parseSseDataPayload RefHost.host (ex "data: [1,\ndata: 2]\n\n")
     = JArray [JNumber (mkNumber 1 0); JNumber (mkNumber 2 0)].
Proof.
  split; [vm_compute; reflexivity|].
  apply (@decode_returns_arrays RefHost.host); [vm_compute; discriminate|].
  vm_compute. reflexivity.
Defined.

(** ** The activity deriver *)

(** C3. On every decoded payload (or [null]) the deriver returns an
    activity exactly in the rows of its table: [session.status] with a
    status type and a non-empty session id gives [busy] for the status types
    [busy] and [retry] and [idle] otherwise; [message.updated] and
    [message.complete] of an assistant that finished with [stop] give
    [cooldown]; [session.idle] with a non-empty session id gives [idle]; in
    every other case, and whenever a field is missing or malformed, the
    result is [null]. *)
Theorem deriveSessionActivity_table :
  (forall (payload : JValue) (a : SessionActivity),
      deriveSessionActivity payload = Some a <-> Derives payload a)
  /\ (forall payload : JValue,
         deriveSessionActivity payload = None <-> forall a, ~ Derives payload a)
  /\ deriveSessionActivity JNull = None
  /\ deriveSessionActivity
       (JObject [ (js "type", JString (js "session.status"));
                  (js "properties",
                   JObject [ (js "sessionID", JString (js "s1"));
                             (js "status", JObject [ (js "type", JString (js "busy")) ]) ]) ])
     = Some (mkActivity (js "s1") busy)
  /\ deriveSessionActivity
       (JObject [ (js "type", JString (js "session.status"));
                  (js "properties",
                   JObject [ (js "sessionID", JString (js "s1"));
                             (js "status", JObject [ (js "type", JString (js "idle")) ]) ]) ])
     = Some (mkActivity (js "s1") idle)
  /\ deriveSessionActivity
       (JObject [ (js "type", JString (js "message.complete"));
                  (js "info",
                   JObject [ (js "sessionID", JString (js "s2"));
                             (js "role", JString (js "assistant"));
                             (js "finish", JString (js "stop")) ]) ])
     = Some (mkActivity (js "s2") cooldown)
  /\ deriveSessionActivity
       (JObject [ (js "type", JString (js "message.complete"));
                  (js "info",
                   JObject [ (js "sessionID", JString (js "s2"));
                             (js "role", JString (js "user"));
                             (js "finish", JString (js "stop")) ]) ])
     = None.
Proof.
  assert (Hiff : forall payload a,
             deriveSessionActivity payload = Some a <-> Derives payload a).
  { intros payload a. split; [apply derive_sound | apply derive_complete]. }
  split; [exact Hiff|]. split.
  - intros payload. split.
    + intros Hn a D. apply Hiff in D. congruence.
    + intros Hn. destruct (deriveSessionActivity payload) as [a|] eqn:E;
        [|reflexivity].
      apply Hiff in E. now apply Hn in E.
  - repeat split; vm_compute; reflexivity.
Qed.

(** ** The control protocol *)

Section ProviderFacts.
Context `{Platform}.

Lemma fixedSseHeaders_lookup (k : Str.t) :
  fixedSseHeaders !! k =
  if bool_decide (k = js "Connection") then Some (js "keep-alive")
  else if bool_decide (k = js "Cache-Control") then Some (js "no-cache")
  else if bool_decide (k = js "Accept") then Some (js "text/event-stream")
  else None.
Proof.
  unfold fixedSseHeaders.
  repeat case_bool_decide; subst; simplify_map_eq; reflexivity.
Qed.

Lemma buildSseHeaders_lookup (extra : option (gmap Str.t Str.t)) (k : Str.t) :
  _buildSseHeaders extra !! k
  = match default ∅ extra !! k with
    | Some v => Some v
    | None => fixedSseHeaders !! k
    end.
Proof.
  unfold _buildSseHeaders, spread.
  destruct (default ∅ extra !! k) as [v|] eqn:E.
  - now apply lookup_union_Some_l.
  - now apply lookup_union_r.
Qed.

(** C8. The headers of the upstream request are the three fixed headers
    merged with the caller's; on a key of both the caller's value is the
    one that is sent, and the value of a fixed header is sent when the
    caller's map does not contain its key. *)
Theorem buildSseHeaders_precedence :
  (forall k : Str.t,
      fixedSseHeaders !! k =
      if bool_decide (k = js "Connection") then Some (js "keep-alive")
      else if bool_decide (k = js "Cache-Control") then Some (js "no-cache")
      else if bool_decide (k = js "Accept") then Some (js "text/event-stream")
      else None)
  /\ (forall (extra : option (gmap Str.t Str.t)) (k : Str.t),
        _buildSseHeaders extra !! k
        = match default ∅ extra !! k with
          | Some v => Some v
          | None => fixedSseHeaders !! k
          end)
  /\ (forall (extra : option (gmap Str.t Str.t)) (k v : Str.t),
        fixedSseHeaders !! k = Some v ->
        (default ∅ extra !! k = None -> _buildSseHeaders extra !! k = Some v)
        /\ (forall v', default ∅ extra !! k = Some v' ->
                       _buildSseHeaders extra !! k = Some v')
        /\ (_buildSseHeaders extra !! k = Some v <->
            default ∅ extra !! k = None \/ default ∅ extra !! k = Some v)).
Proof.
  split; [exact fixedSseHeaders_lookup|].
  split; [exact buildSseHeaders_lookup|].
  intros extra k v Hfixed. rewrite buildSseHeaders_lookup, Hfixed.
  destruct (default ∅ extra !! k) as [v'|].
  - split; [discriminate|]. split; [intros ? [= <-]; reflexivity|].
    split; [intros [= ->]; now right | intros [?|[= ->]]; [discriminate|reflexivity]].
  - split; [reflexivity|]. split; [discriminate|].
    split; [now left | reflexivity].
Qed.

Lemma entryStreams_updateEntry (entry entry' : Ref) f (w : World) :
  entryStreams entry' (updateEntry entry f w)
  = if decide (entry = entry') then
      match entries w !! entry with
      | Some e => sseStreams (f e)
      | None => ∅
      end
    else entryStreams entry' w.
Proof.
  unfold entryStreams, updateEntry, setEntries; cbn.
  rewrite lookup_alter. case_decide; subst; [|reflexivity].
  destruct (entries w !! entry'); reflexivity.
Qed.

Lemma entryHeartbeats_updateEntry (entry entry' : Ref) f (w : World) :
  entryHeartbeats entry' (updateEntry entry f w)
  = if decide (entry = entry') then
      match entries w !! entry with
      | Some e => sseHeartbeats (f e)
      | None => ∅
      end
    else entryHeartbeats entry' w.
Proof.
  unfold entryHeartbeats, updateEntry, setEntries; cbn.
  rewrite lookup_alter. case_decide; subst; [|reflexivity].
  destruct (entries w !! entry'); reflexivity.
Qed.

Lemma stop_unfold (message : BridgeRequest) (entry : Ref) (w : World) :
  _stopSseProxy message entry w
  = (Returns (mkResponse (req_id message) (req_type message) true (StopData true)),
     match requestedStream message with
     | Some sid => stopped sid entry w
     | None => w
     end).
Proof.
  unfold _stopSseProxy, requestedStream, stopped.
  destruct (req_payload message) as [p|]; [|reflexivity].
  destruct (asString (streamId p)) as [s|]; [|reflexivity].
  destruct (0 <? length s)%nat; reflexivity.
Qed.

Lemma stopped_streams (sid : Str.t) (entry : Ref) (w : World) :
  entryStreams entry (stopped sid entry w) = delete sid (entryStreams entry w).
Proof.
  unfold stopped.
  destruct (entryStreams entry w !! sid) as [c|] eqn:Es.
  - set (w1 := updateEntry _ _ _).
    assert (E1 : entryStreams entry w1 = delete sid (entryStreams entry w)).
    { unfold w1. rewrite entryStreams_updateEntry, decide_True by reflexivity.
      unfold entryStreams in *. cbn.
      destruct (entries w !! entry); [reflexivity|]. now rewrite delete_empty. }
    destruct (entryHeartbeats entry w1 !! sid) as [t|]; [|exact E1].
    rewrite entryStreams_updateEntry, decide_True by reflexivity.
    rewrite <- E1. unfold entryStreams, clearInterval, setIntervals; cbn.
    destruct (entries w1 !! entry); reflexivity.
  - assert (E1 : entryStreams entry w = delete sid (entryStreams entry w)).
    { symmetry. now apply delete_id. }
    destruct (entryHeartbeats entry w !! sid) as [t|]; [|exact E1].
    rewrite entryStreams_updateEntry, decide_True by reflexivity.
    rewrite <- E1. unfold entryStreams, clearInterval, setIntervals; cbn.
    destruct (entries w !! entry); reflexivity.
Qed.

Lemma stopped_heartbeats (sid : Str.t) (entry : Ref) (w : World) :
  entryHeartbeats entry (stopped sid entry w) = delete sid (entryHeartbeats entry w).
Proof.
  unfold stopped.
  set (w1 := match entryStreams entry w !! sid with Some _ => _ | None => _ end).
  assert (E1 : entryHeartbeats entry w1 = entryHeartbeats entry w).
  { unfold w1. destruct (entryStreams entry w !! sid) as [c|]; [|reflexivity].
    rewrite entryHeartbeats_updateEntry, decide_True by reflexivity.
    unfold entryHeartbeats, abort, setControllers; cbn.
    destruct (entries w !! entry); reflexivity. }
  destruct (entryHeartbeats entry w1 !! sid) as [t|] eqn:Eh.
  - rewrite entryHeartbeats_updateEntry, decide_True by reflexivity.
    rewrite <- E1. unfold entryHeartbeats, clearInterval, setIntervals; cbn.
    destruct (entries w1 !! entry); [reflexivity|]. now rewrite delete_empty.
  - rewrite E1 in *. symmetry. now apply delete_id.
Qed.

Lemma stopped_posted (sid : Str.t) (entry : Ref) (w : World) :
  posted (stopped sid entry w) = posted w.
Proof.
  unfold stopped.
  destruct (entryStreams entry w !! sid);
    match goal with |- context [entryHeartbeats ?e ?w !! ?s] =>
      destruct (entryHeartbeats e w !! s) end; reflexivity.
Qed.

Lemma stopped_absent (sid : Str.t) (entry : Ref) (w : World) :
  entryStreams entry w !! sid = None ->
  entryHeartbeats entry w !! sid = None ->
  stopped sid entry w = w.
Proof. intros Hs Hh. unfold stopped. now rewrite Hs, Hh. Qed.

Lemma stopped_aborts (sid : Str.t) (entry : Ref) (w : World) (c : Ref) :
  entryStreams entry w !! sid = Some c -> aborted c (stopped sid entry w) = true.
Proof.
  intros Hs. unfold stopped. rewrite Hs.
  match goal with |- context [entryHeartbeats ?e ?w !! ?s] =>
    destruct (entryHeartbeats e w !! s) end;
    unfold aborted, updateEntry, clearInterval, abort, setEntries, setIntervals,
      setControllers; cbn; now rewrite lookup_insert_eq.
Qed.

Lemma stopped_clears (sid : Str.t) (entry : Ref) (w : World) (t : Ref) :
  entryHeartbeats entry w !! sid = Some t -> intervals (stopped sid entry w) !! t = None.
Proof.
  intros Hh. unfold stopped.
  set (w1 := match entryStreams entry w !! sid with Some _ => _ | None => _ end).
  assert (E1 : entryHeartbeats entry w1 = entryHeartbeats entry w).
  { unfold w1. destruct (entryStreams entry w !! sid) as [c|]; [|reflexivity].
    rewrite entryHeartbeats_updateEntry, decide_True by reflexivity.
    unfold entryHeartbeats, abort, setControllers; cbn.
    destruct (entries w !! entry); reflexivity. }
  rewrite E1, Hh.
  unfold updateEntry, clearInterval, setEntries, setIntervals; cbn.
  apply lookup_delete_eq.
Qed.

(** C7. Every stop request is answered with success and [{stopped: true}]
    and nothing is thrown, whether or not it names an active stream; a
    second stop changes nothing. When the named stream is active its
    controller is aborted and the stream leaves the active set; its
    heartbeat timer, if there is one, is cleared and removed. *)
Theorem stop_total_idempotent (message : BridgeRequest) (entry : Ref) (w : World) :
  let r := _stopSseProxy message entry w in
  r.1 = Returns (mkResponse (req_id message) (req_type message) true (StopData true))
  /\ _stopSseProxy message entry r.2 = r
  /\ posted r.2 = posted w
  /\ (requestedStream message = None -> r.2 = w)
  /\ (forall sid : Str.t, requestedStream message = Some sid ->
        entryStreams entry r.2 = delete sid (entryStreams entry w)
        /\ entryHeartbeats entry r.2 = delete sid (entryHeartbeats entry w)
        /\ (forall c, entryStreams entry w !! sid = Some c -> aborted c r.2 = true)
        /\ (forall t, entryHeartbeats entry w !! sid = Some t ->
                      intervals r.2 !! t = None)
        /\ (entryStreams entry w !! sid = None ->
            entryHeartbeats entry w !! sid = None -> r.2 = w)).
Proof.
  cbv zeta. rewrite !stop_unfold. cbn [fst snd].
  split; [reflexivity|].
  destruct (requestedStream message) as [sid|] eqn:Er.
  - split.
    { f_equal. apply stopped_absent.
      - rewrite stopped_streams. apply lookup_delete_eq.
      - rewrite stopped_heartbeats. apply lookup_delete_eq. }
    split; [apply stopped_posted|].
    split; [discriminate|].
    intros sid' [= <-].
    split; [apply stopped_streams|].
    split; [apply stopped_heartbeats|].
    split; [apply stopped_aborts|].
    split; [apply stopped_clears|].
    apply stopped_absent.
  - split; [reflexivity|]. split; [reflexivity|]. split; [reflexivity|].
    discriminate.
Qed.

(** C9. A heartbeat tick after the cancellation of its stream changes
    nothing: it posts no message and raises no error. A tick before the
    cancellation posts one chunk of its own, the heartbeat block with its
    terminator, and leaves the stream tasks and their buffers as they
    are. *)
Theorem heartbeat_tick_respects_cancellation (h : Heartbeat) (w : World) :
  (aborted (hb_controller h) w = true -> heartbeatTick h w = w)
  /\ (aborted (hb_controller h) w = false ->
      posted (heartbeatTick h w)
      = posted w ++
        [(hb_entry h,
          MsgChunk (hb_streamId h)
            ((buildHeartbeatEventBlock (clock w)).1 ++ [Str.LF; Str.LF]))]
      /\ tasks (heartbeatTick h w) = tasks w
      /\ entries (heartbeatTick h w) = entries w
      /\ intervals (heartbeatTick h w) = intervals w
      /\ controllers (heartbeatTick h w) = controllers w).
Proof.
  unfold heartbeatTick. split; intros Ha; rewrite Ha; [reflexivity|].
  repeat split.
Qed.

Lemma interval_event (timer : Ref) (w : World) :
  step (EvInterval timer) w
  = match intervals w !! timer with
    | Some h => heartbeatTick h w
    | None => w
    end.
Proof. reflexivity. Qed.








End ProviderFacts.

(** *** The control protocol on the demo panel *)

Section HeaderExamples.
Import RefHost Demo.

Lemma buildSseHeaders_precedence_witness :
  _buildSseHeaders (Some callerHeaders) !! js "Accept" = Some (js "application/json")
  /\ _buildSseHeaders (Some callerHeaders) !! js "Cache-Control" = Some (js "no-cache")
  /\ _buildSseHeaders (Some callerHeaders) !! js "Connection" = Some (js "keep-alive")
  /\ _buildSseHeaders (Some callerHeaders) !! js "Authorization" = Some (js "Bearer t")
  /\ _buildSseHeaders None !! js "Accept" = Some (js "text/event-stream").
Proof.
  destruct buildSseHeaders_precedence as (_ & Hmerge & Hkeys).
  split.
  { refine (proj1 (proj2 (Hkeys (Some callerHeaders) (js "Accept")
                             (js "text/event-stream") _)) _ _);
      vm_compute; reflexivity. }
  split.
  { refine (proj1 (Hkeys (Some callerHeaders) (js "Cache-Control")
                      (js "no-cache") _) _); vm_compute; reflexivity. }
  split.
  { refine (proj1 (Hkeys (Some callerHeaders) (js "Connection")
                      (js "keep-alive") _) _); vm_compute; reflexivity. }
  split; [rewrite Hmerge; vm_compute; reflexivity|].
  refine (proj1 (Hkeys None (js "Accept") (js "text/event-stream") _) _);
    vm_compute; reflexivity.
Defined.

End HeaderExamples.

Section StopExamples.
Import RefHost Demo.

Lemma stop_total_idempotent_witness :
  requestedStream demoStop = Some (js "sse_1_1700000000000")
  /\ entryStreams 1 demoWorld !! js "sse_1_1700000000000" = Some 2%nat
  /\ entryHeartbeats 1 demoWorld !! js "sse_1_1700000000000" = Some 3%nat
  /\ (_stopSseProxy demoStop 1 demoWorld).1
     = Returns (mkResponse (js "4") (js "api:sse:stop") true (StopData true))
  /\ entryStreams 1 (_stopSseProxy demoStop 1 demoWorld).2 = ∅
  /\ entryHeartbeats 1 (_stopSseProxy demoStop 1 demoWorld).2 = ∅
  /\ aborted 2 (_stopSseProxy demoStop 1 demoWorld).2 = true
  /\ intervals (_stopSseProxy demoStop 1 demoWorld).2 !! 3%nat = None
  /\ _stopSseProxy demoStop 1 (_stopSseProxy demoStop 1 demoWorld).2
     = _stopSseProxy demoStop 1 demoWorld.
Proof.
  assert (Hr : requestedStream demoStop = Some (js "sse_1_1700000000000"))
    by reflexivity.
  assert (Hs : entryStreams 1 demoWorld !! js "sse_1_1700000000000" = Some 2%nat)
    by (vm_compute; reflexivity).
  assert (Hh : entryHeartbeats 1 demoWorld !! js "sse_1_1700000000000" = Some 3%nat)
    by (vm_compute; reflexivity).
  destruct (stop_total_idempotent demoStop 1 demoWorld)
    as (Hres & Hidem & _ & _ & Hsome).
  destruct (Hsome _ Hr) as (Es & Eh & Ha & Hc & _).
  split; [exact Hr|]. split; [exact Hs|]. split; [exact Hh|].
  split; [exact Hres|].
  split; [rewrite Es; vm_compute; reflexivity|].
  split; [rewrite Eh; vm_compute; reflexivity|].
  split; [exact (Ha _ Hs)|]. split; [exact (Hc _ Hh)|].
  exact Hidem.
Defined.

Lemma heartbeat_tick_respects_cancellation_witness :
  intervals demoWorld !! 3%nat = Some demoHeartbeat
  /\ aborted 2 demoWorld = false
  /\ posted (heartbeatTick demoHeartbeat demoWorld)
     = posted demoWorld ++
       [(1%nat, MsgChunk (js "sse_1_1700000000000")
          (ex "event: message\ndata: {'type':'openchamber:heartbeat','properties':{'at':1700000000001}}\n\n"))]
  /\ aborted 2 (_stopSseProxy demoStop 1 demoWorld).2 = true
  /\ heartbeatTick demoHeartbeat (_stopSseProxy demoStop 1 demoWorld).2
     = (_stopSseProxy demoStop 1 demoWorld).2.
Proof.
  assert (Hi : intervals demoWorld !! 3%nat = Some demoHeartbeat)
    by (vm_compute; reflexivity).
  assert (Ha : aborted (hb_controller demoHeartbeat) demoWorld = false)
    by (vm_compute; reflexivity).
  assert (Hb : aborted (hb_controller demoHeartbeat)
                 (_stopSseProxy demoStop 1 demoWorld).2 = true)
    by (vm_compute; reflexivity).
  split; [exact Hi|]. split; [exact Ha|].
  destruct (heartbeat_tick_respects_cancellation demoHeartbeat demoWorld)
    as [_ Hlive].
  destruct (Hlive Ha) as (Hp & _).
  split; [rewrite Hp; vm_compute; reflexivity|].
  split; [exact Hb|].
  exact (proj1 (heartbeat_tick_respects_cancellation demoHeartbeat _) Hb).
Defined.

End StopExamples.

Section StartExamples.
Import RefHost Demo.



End StartExamples.

(** ** The global-scope wrapper *)

Section WrapperFacts.
Context `{Platform}.

Lemma filter_negb_filter {A} (p : A -> bool) (l : list A) :
  List.filter p (List.filter (fun x => negb (p x)) l) = [].
Proof.
  induction l as [|x l IH]; [reflexivity|]. cbn.
  destruct (p x) eqn:E; cbn; [assumption|]. now rewrite E.
Qed.

Lemma filter_Forall {A} (P : A -> Prop) (p : A -> bool) (l : list A) :
  Forall P l -> Forall P (List.filter p l).
Proof.
  induction 1 as [|x l Hx Hl IH]; cbn; [constructor|].
  destruct (p x); [constructor|]; assumption.
Qed.

Lemma decode_result_kind (block : Str.t) :
  parseSseDataPayload block = JNull
  \/ isObjectOrArray (parseSseDataPayload block) = true.
Proof.
  rewrite decode_refines. unfold decodeWith.
  destruct (List.filter _ _); [now left|].
  destruct (Str.trim _); [now left|].
  destruct (JSON_parse _) as [v|]; [|now left].
  destruct (isObjectOrArray v) eqn:Ev; [|now left].
  destruct (getProp v (js "payload")) as [p|]; [|now right].
  destruct (isObjectOrArray p) eqn:Ep; now right.
Qed.

Lemma wrappedPayload_envelope (directory block : Str.t) :
  (if truthy (Some (parseSseDataPayload block))
   then JObject [ (js "directory", JString directory);
                  (js "payload", parseSseDataPayload block) ]
   else JObject [ (js "directory", JString directory); (js "payload", JNull) ])
  = envelope directory (parseSseDataPayload block).
Proof.
  destruct (decode_result_kind block) as [E|E].
  - rewrite E. reflexivity.
  - destruct (parseSseDataPayload block); try discriminate; reflexivity.
Qed.

Lemma wrapBlock_lines (directory block : Str.t) :
  wrapBlock directory block
  = Str.join [Str.LF] (nonDataLines block ++ [wrappedDataLine directory block]).
Proof.
  unfold wrapBlock. cbv zeta. rewrite wrappedPayload_envelope. reflexivity.
Qed.

Lemma literal_data_free : Str.LF ∉ js "data: ".
Proof. intros Hin. vm_compute in Hin. repeat (apply elem_of_cons in Hin as [Hin|Hin]; [discriminate|]). now apply elem_of_nil in Hin. Qed.

Context {laws : JsonLaws}.

Lemma wrappedDataLine_free (directory block : Str.t) :
  Str.LF ∉ wrappedDataLine directory block.
Proof.
  unfold wrappedDataLine. rewrite not_elem_of_app. split.
  - apply literal_data_free.
  - apply stringify_single_line.
Qed.

Lemma wrapBlock_split (directory block : Str.t) :
  Str.split [Str.LF] (wrapBlock directory block)
  = nonDataLines block ++ [wrappedDataLine directory block].
Proof.
  rewrite wrapBlock_lines. apply split_join_lines.
  - destruct (nonDataLines block); discriminate.
  - apply Forall_app. split.
    + apply filter_Forall, split_lines_free.
    + repeat constructor. apply wrappedDataLine_free.
Qed.

Lemma wrappedDataLine_isData (directory block : Str.t) :
  isDataLine (wrappedDataLine directory block) = true.
Proof. reflexivity. Qed.

Lemma wrapBlock_dataLines (directory block : Str.t) :
  List.filter isDataLine (Str.split [Str.LF] (wrapBlock directory block))
  = [wrappedDataLine directory block].
Proof.
  rewrite wrapBlock_split, List.filter_app. unfold nonDataLines.
  rewrite filter_negb_filter. cbn [List.filter app].
  now rewrite wrappedDataLine_isData.
Qed.

Lemma trimEnd_keeps (s : Str.t) (c : N) :
  Str.isSpace c = false -> Str.trimEnd (s ++ [c]) = s ++ [c].
Proof.
  intros Hc. unfold Str.trimEnd. rewrite rev_app_distr.
  change (rev [c] ++ rev s) with (c :: rev s).
  cbn [Str.trimStart]. rewrite Hc.
  change (rev (c :: rev s)) with (rev (rev s) ++ [c]).
  now rewrite rev_involutive.
Qed.

Lemma trim_braces (body : Str.t) :
  Str.trim (123 :: body ++ [125]) = 123 :: body ++ [125].
Proof.
  unfold Str.trim. cbn [Str.trimStart].
  change (Str.isSpace 123) with false. cbv iota.
  exact (trimEnd_keeps (123 :: body) 125 eq_refl).
Qed.

Lemma wrapBlock_payloadText (directory block : Str.t) :
  payloadTextOf (wrapBlock directory block)
  = JSON_stringify (envelope directory (parseSseDataPayload block)).
Proof.
  unfold payloadTextOf, dataLinesOf. fold isDataLine.
  change (fun line : Str.t => Str.startsWith (js "data:") line) with isDataLine.
  rewrite wrapBlock_dataLines. cbn [map Str.join].
  unfold wrappedDataLine.
  destruct (stringify_object_braces
              [ (js "directory", JString directory);
                (js "payload", parseSseDataPayload block) ]) as [body E].
  unfold envelope. rewrite E. cbn. apply trim_braces.
Qed.

End WrapperFacts.

Section ProvenanceFacts.
Context `{Platform}.

Lemma expandTagged_fold (blocks : list Str.t) (acc : list (Origin * Str.t)) (k : nat) :
  let tagged := fold_left expandStepTagged blocks (acc, k) in
  let plain := fold_left expandStep blocks (map snd acc, k) in
  map snd tagged.1 = plain.1 /\ tagged.2 = plain.2
  /\ upstreamOnly tagged.1 = upstreamOnly acc ++ blocks
  /\ (Forall (fun b => b.1 = Injected ->
                exists a t, b.2 = (buildActivityEventBlock a t).1) acc ->
      Forall (fun b => b.1 = Injected ->
                exists a t, b.2 = (buildActivityEventBlock a t).1) tagged.1).
Proof.
  revert acc k; induction blocks as [|b bs IH]; intros acc k; cbn [fold_left].
  - cbv zeta. cbn [fst snd]. rewrite app_nil_r. auto.
  - destruct (deriveSessionActivity (parseSseDataPayload b)) as [a|] eqn:Ed.
    + assert (Et : expandStepTagged (acc, k) b
                   = ((acc ++ [(FromUpstream, b)])
                        ++ [(Injected, (buildActivityEventBlock a k).1)],
                      (buildActivityEventBlock a k).2)).
      { unfold expandStepTagged. cbn [fst snd]. now rewrite Ed. }
      assert (Ep : expandStep (map snd acc, k) b
                   = ((map snd acc ++ [b]) ++ [(buildActivityEventBlock a k).1],
                      (buildActivityEventBlock a k).2)).
      { unfold expandStep. cbn [fst snd]. now rewrite Ed. }
      rewrite Et, Ep.
      specialize (IH ((acc ++ [(FromUpstream, b)])
                        ++ [(Injected, (buildActivityEventBlock a k).1)])
                     (buildActivityEventBlock a k).2).
      cbv zeta in IH. rewrite !map_app in IH. cbn [map snd] in IH.
      destruct IH as (E1 & E2 & E3 & E4). cbv zeta.
      split; [exact E1|]. split; [exact E2|]. split.
      * rewrite E3. unfold upstreamOnly. rewrite !List.filter_app, !map_app.
        cbn. now rewrite app_nil_r, <- app_assoc.
      * intros Hacc. apply E4. rewrite !Forall_app. repeat split; [assumption| |].
        -- repeat constructor. discriminate.
        -- repeat constructor. intros _. eauto.
    + assert (Et : expandStepTagged (acc, k) b = (acc ++ [(FromUpstream, b)], k)).
      { unfold expandStepTagged. cbn [fst snd]. now rewrite Ed. }
      assert (Ep : expandStep (map snd acc, k) b = (map snd acc ++ [b], k)).
      { unfold expandStep. cbn [fst snd]. now rewrite Ed. }
      rewrite Et, Ep.
      specialize (IH (acc ++ [(FromUpstream, b)]) k).
      cbv zeta in IH. rewrite !map_app in IH. cbn [map snd] in IH.
      destruct IH as (E1 & E2 & E3 & E4). cbv zeta.
      split; [exact E1|]. split; [exact E2|]. split.
      * rewrite E3. unfold upstreamOnly. rewrite !List.filter_app, !map_app.
        cbn. now rewrite <- app_assoc.
      * intros Hacc. apply E4. rewrite !Forall_app. split; [assumption|].
        repeat constructor. discriminate.
Qed.

Lemma expandTagged_erase (blocks : list Str.t) (k : nat) :
  map snd (expandTagged blocks k).1 = (expandSseBlocksWithActivity blocks k).1
  /\ (expandTagged blocks k).2 = (expandSseBlocksWithActivity blocks k).2.
Proof.
  destruct (expandTagged_fold blocks [] k) as (E1 & E2 & _). auto.
Qed.

Lemma expandTagged_upstream (blocks : list Str.t) (k : nat) :
  upstreamOnly (expandTagged blocks k).1 = blocks.
Proof.
  destruct (expandTagged_fold blocks [] k) as (_ & _ & E3 & _). exact E3.
Qed.

Lemma expandTagged_injected (blocks : list Str.t) (k : nat) :
  Forall (fun b => b.1 = Injected ->
            exists a t, b.2 = (buildActivityEventBlock a t).1)
         (expandTagged blocks k).1.
Proof.
  destruct (expandTagged_fold blocks [] k) as (_ & _ & _ & E4).
  apply E4. constructor.
Qed.

Lemma upstreamOnly_all (blocks : list Str.t) :
  upstreamOnly (map (fun b => (FromUpstream, b)) blocks) = blocks.
Proof.
  unfold upstreamOnly. induction blocks as [|b bs IH]; [reflexivity|].
  cbn. now rewrite IH.
Qed.

Lemma outboundTagged_erase (inject wrap : bool) (directory : Str.t)
  (blocks : list Str.t) (k : nat) :
  outboundChunk inject wrap directory blocks k
  = (render (map snd (outboundTagged inject wrap directory blocks k).1),
     (outboundTagged inject wrap directory blocks k).2).
Proof.
  unfold outboundChunk, outboundTagged, render. cbv zeta.
  destruct inject.
  - destruct (expandTagged_erase
                (if wrap then wrapSseBlocksAsGlobal blocks directory else blocks) k)
      as [E1 E2].
    now rewrite E1, E2.
  - cbn [fst snd].
    set (routed := if wrap then _ else _).
    assert (E : map snd (map (fun b : Str.t => (FromUpstream, b)) routed) = routed).
    { induction routed as [|b bs IH]; [reflexivity|]. cbn. now rewrite IH. }
    now rewrite E.
Qed.

Lemma outboundTagged_upstream (inject wrap : bool) (directory : Str.t)
  (blocks : list Str.t) (k : nat) :
  upstreamOnly (outboundTagged inject wrap directory blocks k).1
  = if wrap then wrapSseBlocksAsGlobal blocks directory else blocks.
Proof.
  unfold outboundTagged. cbv zeta. destruct inject.
  - apply expandTagged_upstream.
  - apply upstreamOnly_all.
Qed.
End ProvenanceFacts.

(** The reference host obeys the laws. *)
Section RefLaws.

Lemma JValue_nested_ind (P : JValue -> Prop) :
  P JNull -> (forall b, P (JBool b)) -> (forall n, P (JNumber n)) ->
  (forall s, P (JString s)) ->
  (forall items, Forall P items -> P (JArray items)) ->
  (forall props, Forall (fun kv => P kv.2) props -> P (JObject props)) ->
  forall v, P v.
Proof.
  intros Hnull Hbool Hnum Hstr Harr Hobj.
  fix IH 1. intros [| b | n | s | items | props].
  - exact Hnull.
  - apply Hbool.
  - apply Hnum.
  - apply Hstr.
  - apply Harr. induction items as [|x xs IHxs]; constructor; [apply IH | exact IHxs].
  - apply Hobj. induction props as [|[k x] xs IHxs]; constructor;
      [apply IH | exact IHxs].
Qed.

Lemma join_free (c : N) (sep : Str.t) (parts : list Str.t) :
  c ∉ sep -> Forall (fun p => c ∉ p) parts -> c ∉ Str.join sep parts.
Proof.
  intros Hsep. induction 1 as [|p ps Hp Hps IH]; [apply not_elem_of_nil|].
  destruct ps as [|q ps]; [exact Hp|].
  rewrite join_cons by discriminate. rewrite !not_elem_of_app. auto.
Qed.

Lemma uintChars_digits (u : Decimal.uint) :
  Forall (fun c => 48 <= c <= 57) (uintChars u).
Proof. induction u; cbn; constructor; try assumption; lia. Qed.

Lemma digits_free (s : Str.t) :
  Forall (fun c => 48 <= c <= 57) s -> Str.LF ∉ s.
Proof.
  intros Hs Hin. rewrite Forall_forall in Hs. apply Hs in Hin.
  unfold Str.LF in Hin. lia.
Qed.

Lemma digitsOfN_free (n : N) : Str.LF ∉ digitsOfN n.
Proof. apply digits_free, uintChars_digits. Qed.

Ltac free_literal :=
  let Hin := fresh in
  intros Hin; vm_compute in Hin;
  repeat (apply elem_of_cons in Hin as [Hin|Hin]; [discriminate|]);
  now apply elem_of_nil in Hin.

Lemma repeat_free (n : nat) : Str.LF ∉ repeat 48 n.
Proof.
  induction n as [|n IH]; cbn; [apply not_elem_of_nil|].
  apply not_elem_of_cons. split; [discriminate | exact IH].
Qed.

Lemma take_free (c : N) (n : nat) (s : Str.t) : c ∉ s -> c ∉ take n s.
Proof.
  intros Hs Hin. apply Hs. rewrite <- (take_drop n s).
  apply elem_of_app. now left.
Qed.

Lemma drop_free (c : N) (n : nat) (s : Str.t) : c ∉ s -> c ∉ drop n s.
Proof.
  intros Hs Hin. apply Hs. rewrite <- (take_drop n s).
  apply elem_of_app. now right.
Qed.

Lemma numberToString_free (x : JsNumber) : Str.LF ∉ RefHost.numberToString x.
Proof.
  unfold RefHost.numberToString.
  destruct (mant x =? 0)%Z; [free_literal|].
  set (digits := digitsOfN _).
  assert (Hd : Str.LF ∉ digits) by apply digitsOfN_free.
  rewrite not_elem_of_app. split.
  { destruct (mant x <? 0)%Z; [free_literal | apply not_elem_of_nil]. }
  repeat match goal with
         | |- _ ∉ (if ?b then _ else _) => destruct b
         end.
  - rewrite not_elem_of_app. split; [assumption | apply repeat_free].
  - rewrite !not_elem_of_app.
    repeat split; [now apply take_free | free_literal | now apply drop_free].
  - rewrite !not_elem_of_app.
    repeat split; [free_literal | apply repeat_free | assumption].
  - set (etext := digitsOfN _).
    assert (He : Str.LF ∉ etext) by apply digitsOfN_free.
    assert (Hs : Str.LF ∉ (if (Z.of_nat (length digits) + expo x - 1 <? 0)%Z
                           then js "-" else js "+")).
    { destruct (_ <? 0)%Z; free_literal. }
    destruct digits as [|d [|d' ds]].
    + apply not_elem_of_nil.
    + rewrite !not_elem_of_app. repeat split; try assumption. free_literal.
    + apply not_elem_of_cons in Hd as [Hd1 Hd2].
      rewrite !not_elem_of_app. repeat split; try assumption; try free_literal.
      apply not_elem_of_cons. split; [assumption | apply not_elem_of_nil].
Qed.

Lemma hexDigit_free (n : N) : RefHost.hexDigit n <> Str.LF.
Proof. unfold RefHost.hexDigit, Str.LF. destruct (n <? 10) eqn:E; lia. Qed.

Lemma escapeUnit_free (c : N) : Str.LF ∉ RefHost.escapeUnit c.
Proof.
  unfold RefHost.escapeUnit.
  repeat match goal with
         | |- _ ∉ (if ?b then _ else _) => destruct b eqn:?
         end; try free_literal.
  - rewrite not_elem_of_app. split; [free_literal|].
    unfold RefHost.hex4. repeat (apply not_elem_of_cons; split;
      [intros E; symmetry in E; revert E; apply hexDigit_free|]).
    apply not_elem_of_nil.
  - apply not_elem_of_cons. split; [|apply not_elem_of_nil].
    unfold Str.LF. apply N.eqb_neq in Heqb1. congruence.
Qed.

Lemma quoteBody_cons2 (c d : N) (r : Str.t) :
  RefHost.quoteBody (c :: d :: r)
  = if RefHost.isHighSurrogate c && RefHost.isLowSurrogate d
    then c :: d :: RefHost.quoteBody r
    else RefHost.escapeUnit c ++ RefHost.quoteBody (d :: r).
Proof. reflexivity. Qed.

Lemma quoteBody_free (s : Str.t) : Str.LF ∉ RefHost.quoteBody s.
Proof.
  induction s as [s IH] using (induction_ltof1 _ (@length N)). unfold ltof in IH.
  destruct s as [|c [|d r]].
  - apply not_elem_of_nil.
  - apply escapeUnit_free.
  - rewrite quoteBody_cons2. destruct (RefHost.isHighSurrogate c && RefHost.isLowSurrogate d) eqn:E.
    + apply andb_true_iff in E as [Hc Hd].
      unfold RefHost.isHighSurrogate, RefHost.isLowSurrogate in Hc, Hd.
      apply andb_true_iff in Hc as [Hc _]. apply andb_true_iff in Hd as [Hd _].
      apply N.leb_le in Hc, Hd.
      repeat (apply not_elem_of_cons; split; [unfold Str.LF; lia|]).
      apply IH. cbn [length]. lia.
    + rewrite not_elem_of_app. split; [apply escapeUnit_free|].
      apply IH. cbn [length]. lia.
Qed.

Lemma quote_free (s : Str.t) : Str.LF ∉ RefHost.quote s.
Proof.
  unfold RefHost.quote. apply not_elem_of_cons. split; [discriminate|].
  rewrite not_elem_of_app. split; [apply quoteBody_free|].
  apply not_elem_of_cons. split; [discriminate | apply not_elem_of_nil].
Qed.

Lemma stringify_free (v : JValue) : Str.LF ∉ RefHost.stringify v.
Proof.
  induction v as [| b | n | s | items IH | props IH] using JValue_nested_ind;
    cbn [RefHost.stringify].
  - free_literal.
  - destruct b; free_literal.
  - apply numberToString_free.
  - apply quote_free.
  - rewrite !not_elem_of_app. split; [free_literal|]. split; [|free_literal].
    apply join_free; [free_literal|].
    rewrite Forall_map. exact IH.
  - rewrite !not_elem_of_app. split; [free_literal|]. split; [|free_literal].
    apply join_free; [free_literal|].
    rewrite Forall_map. eapply Forall_impl; [exact IH|].
    intros [k x] Hx. cbn [fst snd] in *. rewrite !not_elem_of_app.
    repeat split; [apply quote_free | free_literal | exact Hx].
Qed.

Lemma refhost_laws : @JsonLaws RefHost.host.
Proof.
  split.
  - exact stringify_free.
  - intros props. cbn [JSON_stringify RefHost.host RefHost.stringify].
    eexists. reflexivity.
Qed.

End RefLaws.

Section WrapperTheorem.
Context `{Platform} {laws : JsonLaws}.

Lemma wrapBlock_shape (directory block : Str.t) :
  (forall p', JSON_parse (JSON_stringify
                            (envelope directory (parseSseDataPayload block)))
              = Some (envelope directory p') ->
              hasEnvelopeShape (wrapBlock directory block)).
Proof.
  intros p' Hp. exists directory, p'. now rewrite wrapBlock_payloadText.
Qed.

(** C4 (amended). The wrapper outputs one block per input block, in the
    same order; the lines of an output block are the lines of its input
    that are no data lines, unchanged and in order, followed by exactly one
    data line, which serializes [{directory, payload}] with the decoded
    payload of the input (or [null]); the data field of the output is that
    serialization. Consequently, on a wrapped stream the blocks that come
    from upstream are the wrapped blocks, and the data field of each of
    them, once parsed, has the shape [{directory, payload}] wherever
    [JSON.parse] reads back the serialized envelope; the injected synthetic
    blocks are not wrapped. *)
Theorem wrap_blocks_as_global (blocks : list Str.t) (directory : Str.t) :
  let out := wrapSseBlocksAsGlobal blocks directory in
  length out = length blocks
  /\ (forall (i : nat) (block : Str.t), blocks !! i = Some block ->
        out !! i = Some (wrapBlock directory block)
        /\ Str.split [Str.LF] (wrapBlock directory block)
           = nonDataLines block ++ [wrappedDataLine directory block]
        /\ List.filter isDataLine (Str.split [Str.LF] (wrapBlock directory block))
           = [wrappedDataLine directory block]
        /\ payloadTextOf (wrapBlock directory block)
           = JSON_stringify (envelope directory (parseSseDataPayload block))
        /\ (forall p', JSON_parse (JSON_stringify
                                    (envelope directory (parseSseDataPayload block)))
                      = Some (envelope directory p') ->
                      hasEnvelopeShape (wrapBlock directory block)))
  /\ (forall (inject : bool) (tick : nat),
        let emitted := outboundTagged inject true directory blocks tick in
        outboundChunk inject true directory blocks tick
        = (render (map snd emitted.1), emitted.2)
        /\ upstreamOnly emitted.1 = out).
Proof.
  cbv zeta. unfold wrapSseBlocksAsGlobal.
  split; [apply length_map|]. split.
  - intros i block Hi.
    split; [rewrite list_lookup_fmap, Hi; reflexivity|].
    split; [apply wrapBlock_split|].
    split; [apply wrapBlock_dataLines|].
    split; [apply wrapBlock_payloadText | apply wrapBlock_shape].
  - intros inject tick. split.
    + apply outboundTagged_erase.
    + apply (outboundTagged_upstream inject true).
Qed.
End WrapperTheorem.

Lemma wrap_blocks_as_global_witness :
  let blocks := [ ex "event: message\ndata: {'a':1}\ndata:\n: note"; ex "no data" ] in
  let out := @wrapSseBlocksAsGlobal RefHost.host blocks (js "/w") in
  length out = length blocks
  /\ out = [ ex "event: message\n: note\ndata: {'directory':'/w','payload':{'a':1}}";
            ex "no data\ndata: {'directory':'/w','payload':null}" ]
  /\ Forall (@hasEnvelopeShape RefHost.host) out.
Proof.
  cbv zeta. split.
  - exact (proj1 (@wrap_blocks_as_global RefHost.host refhost_laws
                    [ ex "event: message\ndata: {'a':1}\ndata:\n: note"; ex "no data" ]
                    (js "/w"))).
  - split; [vm_compute; reflexivity|].
    repeat constructor; eexists _, _; vm_compute; reflexivity.
Defined.

(** C4, as stated, fails in its last part: on a wrapped stream (which is
    always an activity-tracking one) the block injected after a wrapped
    [session.idle] block is emitted in the same chunk, and its data field
    parses to the synthetic activity object, which has neither a
    [directory] nor a [payload]. *)
Lemma wrapped_stream_emits_other_shapes :
  let emitted :=
    (@expandSseBlocksWithActivity RefHost.host
       (@wrapSseBlocksAsGlobal RefHost.host
          [ ex "data: {'type':'session.idle','properties':{'sessionID':'s1'}}" ]
          (js "/w")) 0).1 in
  (@outboundChunk RefHost.host true true (js "/w")
     [ ex "data: {'type':'session.idle','properties':{'sessionID':'s1'}}" ] 0).1
  = render emitted
  /\ ~ Forall (@hasEnvelopeShape RefHost.host) emitted.
Proof.
  cbv zeta. split; [reflexivity|].
  intros Hall. apply Forall_forall with (x :=
    ex "event: message\ndata: {'type':'openchamber:session-activity','properties':{'sessionId':'s1','phase':'idle','at':1700000000000}}")
    in Hall.
  - destruct Hall as (d & p & Hp). vm_compute in Hp. discriminate Hp.
  - vm_compute. right. left.
Qed.

(** ** The relay of a stream *)

Section RelayFacts.
Context `{Platform}.

Lemma replaceCRLF_cons2 (c d : N) (r : Str.t) :
  Str.replaceCRLF (c :: d :: r)
  = if (c =? Str.CR) && (d =? Str.LF) then Str.LF :: Str.replaceCRLF r
    else c :: Str.replaceCRLF (d :: r).
Proof. reflexivity. Qed.

Lemma crlfEquiv_app_r (s s' b : Str.t) :
  crlfEquiv s s' -> crlfEquiv (s ++ b) (s' ++ b).
Proof.
  induction 1 as [s | x y | s s' _ IH | s s' s'' _ IH1 _ IH2].
  - apply crlf_refl.
  - rewrite <- !app_assoc. apply crlf_pair.
  - now apply crlf_sym.
  - eapply crlf_trans; eassumption.
Qed.

Lemma crlfEquiv_app_l (a s s' : Str.t) :
  crlfEquiv s s' -> crlfEquiv (a ++ s) (a ++ s').
Proof.
  induction 1 as [s | x y | s s' _ IH | s s' s'' _ IH1 _ IH2].
  - apply crlf_refl.
  - rewrite !(app_assoc a x). apply crlf_pair.
  - now apply crlf_sym.
  - eapply crlf_trans; eassumption.
Qed.

Lemma crlfEquiv_app (a a' b b' : Str.t) :
  crlfEquiv a a' -> crlfEquiv b b' -> crlfEquiv (a ++ b) (a' ++ b').
Proof.
  intros Ha Hb. eapply crlf_trans.
  - apply crlfEquiv_app_r, Ha.
  - apply crlfEquiv_app_l, Hb.
Qed.

Lemma replaceCRLF_equiv (s : Str.t) : crlfEquiv s (Str.replaceCRLF s).
Proof.
  induction s as [s IH] using (induction_ltof1 _ (@length N)). unfold ltof in IH.
  destruct s as [|c [|d r]]; try apply crlf_refl.
  rewrite replaceCRLF_cons2.
  destruct ((c =? Str.CR) && (d =? Str.LF)) eqn:E.
  - apply andb_true_iff in E as [Ec Ed].
    apply N.eqb_eq in Ec, Ed. subst c d.
    eapply crlf_trans; [exact (crlf_pair [] r)|].
    apply (crlfEquiv_app_l [Str.LF]). apply IH. cbn [length]. lia.
  - apply (crlfEquiv_app_l [c]). apply IH. cbn [length]. lia.
Qed.

Lemma crlfEquiv_concat (texts : list Str.t) :
  crlfEquiv (concat texts) (concat (map Str.replaceCRLF texts)).
Proof.
  induction texts as [|x xs IH]; [apply crlf_refl|].
  cbn [map concat]. apply crlfEquiv_app; [apply replaceCRLF_equiv | exact IH].
Qed.

(** Strings that are equal up to line endings agree once the carriage
    returns are dropped. *)
Lemma crlfEquiv_without_CR (s s' : Str.t) :
  crlfEquiv s s' ->
  List.filter (fun c => negb (c =? Str.CR)) s
  = List.filter (fun c => negb (c =? Str.CR)) s'.
Proof.
  induction 1 as [s | x y | s s' _ IH | s s' s'' _ IH1 _ IH2].
  - reflexivity.
  - now rewrite !List.filter_app.
  - now symmetry.
  - congruence.
Qed.

Lemma normalized_equiv (inject : bool) (texts : list Str.t) :
  sameModuloLineEndings inject
    (concat (map (normalized inject) texts)) (concat texts).
Proof.
  destruct inject; cbn.
  - apply crlf_sym, crlfEquiv_concat.
  - now rewrite map_id.
Qed.

Lemma sameModulo_app_l (inject : bool) (a s s' : Str.t) :
  sameModuloLineEndings inject s s' ->
  sameModuloLineEndings inject (a ++ s) (a ++ s').
Proof.
  destruct inject; cbn; [apply crlfEquiv_app_l | congruence].
Qed.

Lemma outboundTagged_nil (inject wrap : bool) (directory : Str.t) (tick : nat) :
  outboundTagged inject wrap directory [] tick = ([], tick).
Proof. destruct inject, wrap; reflexivity. Qed.

Lemma outboundTagged_nonempty (inject wrap : bool) (directory : Str.t)
  (blocks : list Str.t) (tick : nat) :
  blocks <> [] -> (outboundTagged inject wrap directory blocks tick).1 <> [].
Proof.
  intros Hne E.
  assert (U := outboundTagged_upstream inject wrap directory blocks tick).
  rewrite E in U. cbn in U.
  destruct wrap; [|congruence].
  destruct blocks; [congruence | discriminate U].
Qed.

(** The task after a read and the world after it, through the tagged
    batch. *)
Lemma taskChunk_trace (t : StreamTask) (value : list N) (w : World) :
  taskChunk t value w
  = (afterChunk t value,
     let b := chunkTagged t value (clock w) in
     if isNonEmpty b.1
     then postMessage (t_entry t) (MsgChunk (t_streamId t) (render (map snd b.1)))
            (setClock b.2 w)
     else w).
Proof.
  unfold taskChunk, afterChunk, chunkTagged, decodedOf, normalized.
  destruct (0 <? length value)%nat; [|reflexivity]. cbv zeta.
  case_bool_decide as Hc; [reflexivity|].
  f_equal.
  set (blocks := removelast _).
  destruct blocks as [|b bs] eqn:Eb.
  - rewrite outboundTagged_nil. reflexivity.
  - cbn [length Nat.ltb Nat.leb].
    rewrite outboundTagged_erase. cbn [fst snd].
    destruct (outboundTagged _ _ _ (b :: bs) (clock w)).1 eqn:Eo; [|reflexivity].
    exfalso. eapply outboundTagged_nonempty; [|exact Eo]. discriminate.
Qed.

Lemma chunk_preserves (t : StreamTask) (value : list N) (tick : nat) :
  wrapAsGlobal t = false ->
  render (upstreamOnly (chunkTagged t value tick).1) ++ sseBuffer (afterChunk t value)
  = sseBuffer t ++ normalized (shouldInjectActivity t) (decodedOf t value).
Proof.
  intros Hw. unfold chunkTagged, afterChunk, decodedOf.
  destruct (0 <? length value)%nat.
  - cbv zeta. case_bool_decide as Hc.
    + rewrite Hc. cbn. destruct (shouldInjectActivity t); cbn; now rewrite app_nil_r.
    + rewrite outboundTagged_upstream, Hw. cbn [sseBuffer withBuffer].
      apply split_terminated. discriminate.
  - rewrite bool_decide_eq_true_2 by reflexivity. cbn.
    destruct (shouldInjectActivity t); cbn; now rewrite app_nil_r.
Qed.

Lemma afterChunk_same (t : StreamTask) (value : list N) :
  t_entry (afterChunk t value) = t_entry t
  /\ t_controller (afterChunk t value) = t_controller t
  /\ t_streamId (afterChunk t value) = t_streamId t
  /\ shouldInjectActivity (afterChunk t value) = shouldInjectActivity t
  /\ wrapAsGlobal (afterChunk t value) = wrapAsGlobal t
  /\ fallbackDirectory (afterChunk t value) = fallbackDirectory t.
Proof.
  unfold afterChunk. destruct (0 <? length value)%nat; [|auto 10].
  cbv zeta. case_bool_decide; auto 10.
Qed.

Lemma chunkTagged_injected (t : StreamTask) (value : list N) (tick : nat) :
  Forall injectedIsActivity (chunkTagged t value tick).1.
Proof.
  unfold chunkTagged. case_bool_decide; [constructor|].
  unfold outboundTagged. cbv zeta. destruct (shouldInjectActivity t).
  - apply expandTagged_injected.
  - cbn [fst]. apply Forall_map, Forall_forall. intros b _. discriminate.
Qed.

Lemma read_step (tid : Ref) (t : StreamTask) (value : list N) (w : World) :
  tasks w !! tid = Some t ->
  aborted (t_controller t) w = false ->
  let w' := step (EvRead tid (ReadValue value)) w in
  let b := chunkTagged t value (clock w) in
  tasks w' !! tid = Some (afterChunk t value)
  /\ posted w' = posted w ++ chunkMessages t [b.1]
  /\ clock w' = b.2
  /\ controllers w' = controllers w
  /\ intervals w' = intervals w.
Proof.
  intros Ht Ha. cbv zeta. cbn [step]. rewrite Ht.
  unfold taskResume. rewrite Ha. rewrite taskChunk_trace. cbn [fst snd].
  unfold chunkMessages. cbn [List.filter].
  set (b := chunkTagged t value (clock w)).
  destruct b.1 as [|x xs] eqn:Eb; cbn [isNonEmpty map].
  - cbn. rewrite lookup_insert_eq, app_nil_r. repeat split.
    unfold chunkTagged in b. subst b.
    case_bool_decide; [reflexivity|].
    destruct (removelast _) eqn:Er.
    + now rewrite outboundTagged_nil.
    + exfalso. eapply outboundTagged_nonempty; [|exact Eb]. discriminate.
  - cbn. rewrite lookup_insert_eq. repeat split.
Qed.

Lemma beat_step (tid timer : Ref) (t : StreamTask) (w : World) :
  tasks w !! tid = Some t ->
  beats timer t w ->
  aborted (t_controller t) w = false ->
  let w' := step (EvInterval timer) w in
  let b := heartbeatTagged (clock w) in
  tasks w' !! tid = Some t
  /\ posted w' = posted w ++ chunkMessages t [b.1]
  /\ clock w' = b.2
  /\ controllers w' = controllers w
  /\ intervals w' = intervals w.
Proof.
  intros Ht Hb Ha. cbv zeta. cbn [step]. rewrite Hb.
  unfold heartbeatTick. cbn [hb_controller hb_entry hb_streamId]. rewrite Ha.
  unfold chunkMessages, heartbeatTagged, render. cbn. rewrite app_nil_r.
  repeat split. exact Ht.
Qed.

Lemma heartbeatTagged_injected (tick : nat) :
  Forall injectedIsSynthetic (heartbeatTagged tick).1.
Proof.
  constructor; [|constructor]. intros _. right. now exists tick.
Qed.

Lemma activity_is_synthetic (b : Origin * Str.t) :
  injectedIsActivity b -> injectedIsSynthetic b.
Proof. intros Hb Hi. left. now apply Hb. Qed.

Lemma heartbeatTagged_upstream (tick : nat) :
  upstreamOnly (heartbeatTagged tick).1 = [].
Proof. reflexivity. Qed.

End RelayFacts.

Section RelayRun.
Context `{Platform}.

Lemma chunkMessages_app (t : StreamTask) (bs bs' : list (list (Origin * Str.t))) :
  chunkMessages t (bs ++ bs') = chunkMessages t bs ++ chunkMessages t bs'.
Proof. unfold chunkMessages. now rewrite List.filter_app, map_app. Qed.

Lemma chunkMessages_same (t t' : StreamTask) (bs : list (list (Origin * Str.t))) :
  t_entry t' = t_entry t -> t_streamId t' = t_streamId t ->
  chunkMessages t' bs = chunkMessages t bs.
Proof. intros He Hs. unfold chunkMessages. now rewrite He, Hs. Qed.

Lemma relay_run (tid timer : Ref) (steps : list RelayStep) :
  forall (t : StreamTask) (w : World),
    tasks w !! tid = Some t ->
    (Beat ∈ steps -> beats timer t w) ->
    aborted (t_controller t) w = false ->
    let w' := run (relayEvents tid timer steps) w in
    let trace := relayTrace t steps (clock w) in
    tasks w' !! tid = Some trace.1.2
    /\ posted w' = posted w ++ chunkMessages t trace.1.1
    /\ clock w' = trace.2
    /\ controllers w' = controllers w
    /\ intervals w' = intervals w.
Proof.
  induction steps as [|s rest IH]; intros t w Ht Hb Ha; cbv zeta.
  - cbn. rewrite app_nil_r. auto.
  - destruct s as [value|].
    + destruct (read_step tid t value w Ht Ha) as (Ht1 & Hp1 & Hc1 & Hk1 & Hi1).
      destruct (afterChunk_same t value) as (Ee & Ec & Es & _).
      assert (Ha1 : aborted (t_controller (afterChunk t value))
                      (step (EvRead tid (ReadValue value)) w) = false).
      { unfold aborted in *. now rewrite Hk1, Ec. }
      assert (Hb1 : Beat ∈ rest ->
                    beats timer (afterChunk t value)
                      (step (EvRead tid (ReadValue value)) w)).
      { intros Hin. unfold beats. rewrite Hi1, Ee, Ec, Es.
        apply Hb. now apply list_elem_of_further. }
      destruct (IH _ _ Ht1 Hb1 Ha1) as (Ht2 & Hp2 & Hc2 & Hk2 & Hi2).
      cbn [relayEvents map run fold_left relayTrace fst snd] in *.
      unfold run, relayEvents in Ht2, Hp2, Hc2, Hk2, Hi2.
      rewrite Hc1 in Ht2, Hp2, Hc2.
      split; [exact Ht2|]. split.
      * rewrite Hp2, Hp1, <- app_assoc. f_equal.
        rewrite (chunkMessages_same t (afterChunk t value)) by assumption.
        now rewrite <- chunkMessages_app.
      * split; [exact Hc2|]. split; congruence.
    + assert (Hb0 : beats timer t w) by (apply Hb; apply list_elem_of_here).
      destruct (beat_step tid timer t w Ht Hb0 Ha) as (Ht1 & Hp1 & Hc1 & Hk1 & Hi1).
      assert (Ha1 : aborted (t_controller t) (step (EvInterval timer) w) = false).
      { unfold aborted in *. now rewrite Hk1. }
      assert (Hb1 : Beat ∈ rest -> beats timer t (step (EvInterval timer) w)).
      { intros _. unfold beats. now rewrite Hi1. }
      destruct (IH _ _ Ht1 Hb1 Ha1) as (Ht2 & Hp2 & Hc2 & Hk2 & Hi2).
      cbn [relayEvents map run fold_left relayTrace fst snd] in *.
      unfold run, relayEvents in Ht2, Hp2, Hc2, Hk2, Hi2.
      rewrite Hc1 in Ht2, Hp2, Hc2.
      split; [exact Ht2|]. split.
      * rewrite Hp2, Hp1, <- app_assoc. now f_equal.
      * split; [exact Hc2|]. split; congruence.
Qed.

Lemma relay_preserves (steps : list RelayStep) :
  forall (t : StreamTask) (tick : nat),
    wrapAsGlobal t = false ->
    let trace := relayTrace t steps tick in
    relayedUpstream trace.1.1 ++ sseBuffer trace.1.2
    = sseBuffer t
      ++ concat (map (normalized (shouldInjectActivity t)) (decodedTexts t steps)).
Proof.
  induction steps as [|s rest IH]; intros t tick Hw; cbv zeta.
  - cbn. now rewrite app_nil_r.
  - destruct s as [value|].
    + destruct (afterChunk_same t value) as (_ & _ & _ & Ei & Ew & _).
      cbn [relayTrace decodedTexts map concat fst snd].
      unfold relayedUpstream. cbn [map concat]. fold (relayedUpstream
        (relayTrace (afterChunk t value) rest (chunkTagged t value tick).2).1.1).
      rewrite <- app_assoc.
      rewrite (IH (afterChunk t value)) by congruence.
      rewrite Ei, !app_assoc. f_equal. now apply chunk_preserves.
    + cbn [relayTrace decodedTexts fst snd].
      unfold relayedUpstream. cbn [map concat]. fold (relayedUpstream
        (relayTrace t rest (heartbeatTagged tick).2).1.1).
      rewrite heartbeatTagged_upstream. cbn [render map concat app].
      now apply IH.
Qed.

Lemma relay_injected (steps : list RelayStep) :
  forall (t : StreamTask) (tick : nat),
    Forall (Forall injectedIsSynthetic) (relayTrace t steps tick).1.1.
Proof.
  induction steps as [|s rest IH]; intros t tick; [constructor|].
  destruct s as [value|]; cbn [relayTrace fst snd]; constructor.
  - eapply Forall_impl; [apply chunkTagged_injected | apply activity_is_synthetic].
  - apply IH.
  - apply heartbeatTagged_injected.
  - apply IH.
Qed.

Lemma residual_unfold (t : StreamTask) :
  (if bool_decide (decoder_end (decoder t) = []) then sseBuffer t
   else sseBuffer t ++
        (if shouldInjectActivity t then Str.replaceCRLF (decoder_end (decoder t))
         else decoder_end (decoder t)))
  = residualOf t.
Proof.
  unfold residualOf, normalized. case_bool_decide as E; [|reflexivity].
  rewrite E. destruct (shouldInjectActivity t); cbn; now rewrite app_nil_r.
Qed.

Lemma taskCleanup_posted (t : StreamTask) (w : World) :
  posted (taskCleanup t w) = posted w.
Proof.
  unfold taskCleanup.
  match goal with |- context [entryHeartbeats ?e ?w !! ?s] =>
    destruct (entryHeartbeats e w !! s) end; reflexivity.
Qed.

Lemma taskCleanup_tasks (t : StreamTask) (w : World) :
  tasks (taskCleanup t w) = tasks w.
Proof.
  unfold taskCleanup.
  match goal with |- context [entryHeartbeats ?e ?w !! ?s] =>
    destruct (entryHeartbeats e w !! s) end; reflexivity.
Qed.

Lemma taskFinish_posted (t : StreamTask) (w : World) :
  posted (taskFinish t w) = posted w ++ flushMessages t (clock w).
Proof.
  unfold taskFinish. cbv zeta. rewrite taskCleanup_posted, residual_unfold.
  unfold flushMessages. case_bool_decide as E; [reflexivity|].
  destruct (shouldInjectActivity t).
  - rewrite outboundTagged_erase. cbn. now rewrite <- app_assoc.
  - cbn. now rewrite <- app_assoc.
Qed.

Lemma done_step (tid : Ref) (t : StreamTask) (w : World) :
  tasks w !! tid = Some t ->
  let w' := step (EvRead tid ReadDone) w in
  posted w' = posted w ++ flushMessages t (clock w) /\ tasks w' !! tid = None.
Proof.
  intros Ht. cbv zeta. cbn [step]. rewrite Ht. cbn [taskResume fst snd].
  split.
  - cbn. apply taskFinish_posted.
  - cbn. apply lookup_delete_eq.
Qed.

(** C1 (amended). For a stream that is not in wrapped mode and is not
    cancelled, and for every sequence of reads, with the ticks of its
    heartbeat in between: every read with a batch of complete blocks and
    every tick posts one chunk, which is its batch with every block
    terminated; the injected blocks are activity blocks and heartbeat
    blocks; and the blocks that came from upstream, terminated and
    concatenated, followed by the residual buffer, are the buffer the task
    started with followed by the decoded reads, each with its CR LF pairs
    replaced by LF when the stream tracks activity: hence the decoded
    upstream text itself up to line endings. The residual buffer is held
    until the stream ends; then it is flushed (as one more terminated block,
    possibly followed by its activity block, when the stream tracks
    activity, and as it is otherwise), and the terminal message follows. *)
Theorem relay_preserves_upstream (tid timer : Ref) (t : StreamTask)
  (steps : list RelayStep) (w : World) :
  tasks w !! tid = Some t ->
  (Beat ∈ steps -> beats timer t w) ->
  aborted (t_controller t) w = false ->
  wrapAsGlobal t = false ->
  let w' := run (relayEvents tid timer steps) w in
  let trace := relayTrace t steps (clock w) in
  let batches := trace.1.1 in
  let t' := trace.1.2 in
  tasks w' !! tid = Some t'
  /\ posted w' = posted w ++ chunkMessages t batches
  /\ Forall (Forall injectedIsSynthetic) batches
  /\ relayedUpstream batches ++ sseBuffer t'
     = sseBuffer t
       ++ concat (map (normalized (shouldInjectActivity t)) (decodedTexts t steps))
  /\ sameModuloLineEndings (shouldInjectActivity t)
       (relayedUpstream batches ++ sseBuffer t')
       (sseBuffer t ++ concat (decodedTexts t steps))
  /\ posted (step (EvRead tid ReadDone) w') = posted w' ++ flushMessages t' (clock w')
  /\ tasks (step (EvRead tid ReadDone) w') !! tid = None
  /\ (forall k, upstreamOnly (outboundTagged true false (fallbackDirectory t')
                                [residualOf t'] k).1 = [residualOf t']).
Proof.
  intros Ht Hb Ha Hw. cbv zeta.
  destruct (relay_run tid timer steps t w Ht Hb Ha) as (Ht' & Hp & Hc & Hk & _).
  split; [exact Ht'|]. split; [exact Hp|].
  split; [apply relay_injected|].
  split; [now apply relay_preserves|].
  split.
  { rewrite (relay_preserves steps t (clock w) Hw).
    apply sameModulo_app_l, normalized_equiv. }
  destruct (done_step tid _ _ Ht') as (Hd1 & Hd2).
  split; [exact Hd1|]. split; [exact Hd2|].
  intros k. apply (outboundTagged_upstream true false).
Qed.

End RelayRun.

Section RelayExamples.
Import RefHost Demo.

Lemma relay_preserves_upstream_witness :
  tasks demoWorld !! 4%nat = Some demoTask
  /\ beats 3 demoTask demoWorld
  /\ aborted 2 demoWorld = false
  /\ map (fun m => match m.2 with MsgChunk _ chunk => chunk | _ => [] end)
         (chunkMessages demoTask (relayTrace demoTask demoReads (clock demoWorld)).1.1)
     = [ ex "data: {'type':'session.idle','properties':{'sessionID':'s1'}}\n\nevent: message\ndata: {'type':'openchamber:session-activity','properties':{'sessionId':'s1','phase':'idle','at':1700000000001}}\n\n";
         ex "event: message\ndata: {'type':'openchamber:heartbeat','properties':{'at':1700000000002}}\n\n";
         ex "data: 1\n\n" ]
  /\ relayedUpstream (relayTrace demoTask demoReads (clock demoWorld)).1.1
     = ex "data: {'type':'session.idle','properties':{'sessionID':'s1'}}\n\ndata: 1\n\n"
  /\ sseBuffer (relayTrace demoTask demoReads (clock demoWorld)).1.2 = js "rest"
  /\ posted (run (relayEvents 4 3 demoReads) demoWorld)
     = posted demoWorld
       ++ chunkMessages demoTask (relayTrace demoTask demoReads (clock demoWorld)).1.1
  /\ sameModuloLineEndings true
       (relayedUpstream (relayTrace demoTask demoReads (clock demoWorld)).1.1
        ++ sseBuffer (relayTrace demoTask demoReads (clock demoWorld)).1.2)
       ([] ++ concat (decodedTexts demoTask demoReads)).
Proof.
  assert (Ht : tasks demoWorld !! 4%nat = Some demoTask) by (vm_compute; reflexivity).
  assert (Hb : beats 3 demoTask demoWorld) by (vm_compute; reflexivity).
  assert (Ha : aborted (t_controller demoTask) demoWorld = false)
    by (vm_compute; reflexivity).
  destruct (relay_preserves_upstream 4%nat 3%nat demoTask demoReads demoWorld
              Ht (fun _ => Hb) Ha eq_refl)
    as (_ & Hposted & _ & _ & Hsame & _).
  split; [exact Ht|]. split; [exact Hb|]. split; [exact Ha|].
  split; [vm_compute; reflexivity|].
  split; [vm_compute; reflexivity|]. split; [vm_compute; reflexivity|].
  split; [exact Hposted | exact Hsame].
Defined.

(** C1, as stated, fails for a stream in wrapped mode: the block that is
    relayed is the rewritten block, whose data line is the serialised
    envelope, and differs from the upstream text by more than line
    endings. *)
Lemma wrapped_relay_counterexample :
  let t := mkTask 1 2 (js "sse_1_1700000000000") true true (js "/w") [] [] in
  let reads := [ Bytes (ex "data: {'a':1}\n\n") ] in
  let trace := relayTrace t reads 0 in
  relayedUpstream trace.1.1 = ex "data: {'directory':'/w','payload':{'a':1}}\n\n"
  /\ sseBuffer trace.1.2 = []
  /\ ~ sameModuloLineEndings true
         (relayedUpstream trace.1.1 ++ sseBuffer trace.1.2)
         (sseBuffer t ++ concat (decodedTexts t reads)).
Proof.
  cbv zeta. split; [vm_compute; reflexivity|]. split; [vm_compute; reflexivity|].
  intros Heq. apply crlfEquiv_without_CR in Heq. vm_compute in Heq. discriminate Heq.
Qed.

(** A character whose bytes arrive in two reads is relayed once it is
    complete: the bytes C3 A9 are one code unit, U+00E9. *)
Lemma relay_across_split_character :
  let t := mkTask 1 2 (js "sse_1_1700000000000") false false (js "/w") [] [] in
  let trace := relayTrace t [ Bytes (ex "data: caf" ++ [195]);
                              Bytes ([169] ++ ex "\n\nda") ] 0 in
  map (map snd) trace.1.1 = [ []; [ ex "data: caf" ++ [233] ] ]
  /\ heldBytes (decoder (afterChunk t (ex "data: caf" ++ [195]))) = [195]
  /\ sseBuffer trace.1.2 = js "da".
Proof. cbv zeta. repeat split; vm_compute; reflexivity. Qed.

(** The line endings are normalized within each read: a CR LF pair that is
    cut by the boundary of two reads stays. *)
Lemma line_ending_across_reads :
  let t := mkTask 1 2 (js "sse_1_1700000000000") true false (js "/w") [] [] in
  (relayTrace t [ Bytes (ex "a\r\n\r\nb") ] 0).1.1 = [ [ (FromUpstream, js "a") ] ]
  /\ (relayTrace t [ Bytes (ex "a\r"); Bytes (ex "\n\nb") ] 0).1.1
     = [ []; [ (FromUpstream, ex "a\r") ] ].
Proof. cbv zeta. split; vm_compute; reflexivity. Qed.

End RelayExamples.

(** ** The life cycle: what every reachable state satisfies *)

Section StreamIds.

Lemma uintChars_inj (u v : Decimal.uint) : uintChars u = uintChars v -> u = v.
Proof.
  revert v; induction u; intros v E; destruct v; cbn in E;
    try discriminate; try reflexivity; injection E as E; f_equal; auto.
Qed.

Lemma digitsOfN_inj (n m : N) : digitsOfN n = digitsOfN m -> n = m.
Proof.
  unfold digitsOfN. intros E. apply uintChars_inj in E.
  rewrite <- (DecimalN.Unsigned.of_to n), <- (DecimalN.Unsigned.of_to m).
  now rewrite E.
Qed.

(** Two numerals followed by a code unit that is no digit: the numerals
    end at the same place. *)
Lemma digits_then_other (a a' r r' : Str.t) (x : N) :
  Forall (fun c => 48 <= c <= 57) a -> Forall (fun c => 48 <= c <= 57) a' ->
  ~ (48 <= x <= 57) ->
  a ++ x :: r = a' ++ x :: r' -> a = a'.
Proof.
  intros Ha; revert a'. induction Ha as [|c a Hc Ha IH]; intros a' Ha' Hx E.
  - destruct Ha' as [|c' a' Hc' Ha']; [reflexivity|].
    cbn in E. injection E as E _. subst c'. contradiction.
  - destruct Ha' as [|c' a' Hc' Ha'].
    + cbn in E. injection E as E _. subst c. contradiction.
    + cbn in E. injection E as E1 E2. subst c'. f_equal. now apply IH.
Qed.
End StreamIds.

Section StartStates.
Context `{Platform}.

Lemma start_states (message : BridgeRequest) (entry : Ref) (env : StartEnv)
  (w : World) :
  let w' := (_startSseProxy message entry env w).2 in
  w' = w \/ w' = prepared w
  \/ exists inject wrap directory,
       w' = launched entry inject wrap directory
              (mintId (_sseCounter w + 1) (Date_now (clock w))) (nextRef w)
              (prepared w).
Proof.
  cbv zeta. unfold _startSseProxy.
  destruct (getApiUrl env) as [[|c0 rest]|]; [now left | | now left].
  cbv zeta.
  destruct (URL_resolve _ _) as [targetUrl|error]; [|right; left; reflexivity].
  destruct (fetchWithFallback _ _ _ _ _) as [[response wrap]|error];
    [|right; left; reflexivity].
  destruct (negb (ok response) || negb (hasBody response));
    [right; left; reflexivity|].
  right; right. eexists _, wrap, _. reflexivity.
Qed.

End StartStates.

Section InvariantBasics.
Context `{Platform}.

Lemma aborted_true (c : Ref) (w : World) :
  aborted c w = true <-> controllers w !! c = Some true.
Proof.
  unfold aborted. destruct (controllers w !! c) as [[]|]; split; congruence.
Qed.

Lemma entryStreams_Some (e : Ref) (w : World) (sid : Str.t) (c : Ref) :
  entryStreams e w !! sid = Some c <->
  exists st, entries w !! e = Some st /\ sseStreams st !! sid = Some c.
Proof.
  unfold entryStreams. destruct (entries w !! e) as [st|].
  - split; [eauto | intros (st' & [= <-] & E); exact E].
  - rewrite lookup_empty. split; [discriminate | intros (st' & [=] & _)].
Qed.

Lemma entryHeartbeats_Some (e : Ref) (w : World) (sid : Str.t) (tm : Ref) :
  entryHeartbeats e w !! sid = Some tm <->
  exists st, entries w !! e = Some st /\ sseHeartbeats st !! sid = Some tm.
Proof.
  unfold entryHeartbeats. destruct (entries w !! e) as [st|].
  - split; [eauto | intros (st' & [= <-] & E); exact E].
  - rewrite lookup_empty. split; [discriminate | intros (st' & [=] & _)].
Qed.

Lemma minted_mono (w w' : World) (sid : Str.t) :
  _sseCounter w <= _sseCounter w' -> minted w sid -> minted w' sid.
Proof. intros Hle (n & z & E & Hn). exists n, z. split; [exact E | lia]. Qed.

Lemma mintId_inj (n n' : N) (z z' : Z) : mintId n z = mintId n' z' -> n = n'.
Proof.
  unfold mintId. intros E. apply app_inv_head in E.
  apply digitsOfN_inj.
  change (js "_" ++ digitsOfZ z) with (95 :: digitsOfZ z) in E.
  change (js "_" ++ digitsOfZ z') with (95 :: digitsOfZ z') in E.
  eapply digits_then_other; [apply uintChars_digits | apply uintChars_digits | | exact E].
  lia.
Qed.

Lemma minted_fresh (w : World) (z : Z) :
  ~ minted w (mintId (_sseCounter w + 1) z).
Proof.
  intros (n & z' & E & Hn). apply mintId_inj in E. lia.
Qed.

(** States that agree on what the invariant reads. *)
Lemma Inv_frame (w w' : World) :
  tasks w' = tasks w -> intervals w' = intervals w ->
  controllers w' = controllers w -> entries w' = entries w ->
  _panels w' = _panels w -> nextRef w' = nextRef w ->
  _sseCounter w' = _sseCounter w ->
  Inv w -> Inv w'.
Proof.
  intros Et Ei Ec Ee Ep En Es [I1 I2 I3 I4 I5 I6 I7 I8 I8' I9].
  split; unfold registered, aborted, entryStreams, entryHeartbeats, minted in *;
    rewrite ?Et, ?Ei, ?Ec, ?Ee, ?Ep, ?En, ?Es; assumption.
Qed.

Lemma Inv_initial : Inv initialWorld.
Proof.
  split; cbn; intros; try (rewrite lookup_empty in *; discriminate).
  match goal with
  | H : entryStreams _ _ !! _ = Some _ |- _ =>
      unfold entryStreams in H; cbn in H; rewrite !lookup_empty in H; discriminate
  end.
Qed.

Lemma Inv_prepared (w : World) : Inv w -> Inv (prepared w).
Proof.
  intros [I1 I2 I3 I4 I5 I6 I7 I8 I8' I9]. split.
  - intros tid t Ht. destruct (I1 tid t Ht) as [Ha|Hr]; [left|right; exact Hr].
    apply aborted_true in Ha. apply aborted_true. cbn.
    rewrite lookup_insert_ne; [exact Ha|]. apply I3 in Ha. lia.
  - exact I2.
  - intros c b. cbn. rewrite lookup_insert. case_decide.
    + subst. lia.
    + intros Hc. apply I3 in Hc. lia.
  - intros e sid c Hc. apply (I4 e sid c) in Hc. cbn. lia.
  - intros e st He. apply I5 in He. cbn. lia.
  - intros pid e He. apply I6 in He. cbn. lia.
  - exact I7.
  - intros tid t Ht. apply (minted_mono w); [cbn; lia | now apply (I8 tid)].
  - intros tm h Ht. apply (minted_mono w); [cbn; lia | now apply (I8' tm)].
  - exact I9.
Qed.

Lemma launched_fields (entry : Ref) (inject wrap : bool) (directory sid : Str.t)
  (c : Ref) (w : World) :
  let w' := launched entry inject wrap directory sid c w in
  (forall e, entryStreams e w'
             = if decide (entry = e) then
                 match entries w !! entry with
                 | Some st => <[sid := c]> (sseStreams st)
                 | None => ∅
                 end
               else entryStreams e w)
  /\ (forall e, entryHeartbeats e w'
               = if inject then
                   if decide (entry = e) then
                     match entries w !! entry with
                     | Some st => <[sid := nextRef w]> (sseHeartbeats st)
                     | None => ∅
                     end
                   else entryHeartbeats e w
                 else entryHeartbeats e w)
  /\ controllers w' = controllers w
  /\ intervals w'
     = (if inject then <[nextRef w := mkHeartbeat c entry sid]> (intervals w)
        else intervals w)
  /\ tasks w'
     = <[(if inject then S (nextRef w) else nextRef w)
         := mkTask entry c sid inject wrap directory [] []]> (tasks w)
  /\ nextRef w' = (if inject then S (S (nextRef w)) else S (nextRef w))
  /\ _panels w' = _panels w /\ _sseCounter w' = _sseCounter w
  /\ (forall e, is_Some (entries w' !! e) <-> is_Some (entries w !! e))
  /\ posted w' = posted w.
Proof.
  cbv zeta.
  assert (Ee : entries (launched entry inject wrap directory sid c w)
               = if inject then
                   alter (fun e => setHeartbeats (<[sid := nextRef w]> (sseHeartbeats e)) e)
                     entry
                     (alter (fun e => setStreams (<[sid := c]> (sseStreams e)) e)
                        entry (entries w))
                 else alter (fun e => setStreams (<[sid := c]> (sseStreams e)) e)
                        entry (entries w)).
  { unfold launched. destruct inject; reflexivity. }
  split.
  { intros e. unfold entryStreams. rewrite Ee.
    destruct inject; rewrite !lookup_alter;
      destruct (decide (entry = e)) as [->|Hne];
      rewrite ?decide_True by reflexivity; try reflexivity;
      destruct (entries w !! e); reflexivity. }
  split.
  { intros e. unfold entryHeartbeats. rewrite Ee.
    destruct inject; rewrite !lookup_alter;
      destruct (decide (entry = e)) as [->|Hne];
      rewrite ?decide_True by reflexivity; try reflexivity;
      destruct (entries w !! e); reflexivity. }
  split; [unfold launched; destruct inject; reflexivity|].
  split; [unfold launched; destruct inject; reflexivity|].
  split; [unfold launched; destruct inject; reflexivity|].
  split; [unfold launched; destruct inject; reflexivity|].
  split; [unfold launched; destruct inject; reflexivity|].
  split; [unfold launched; destruct inject; reflexivity|].
  split; [|unfold launched; destruct inject; reflexivity].
  intros e. rewrite Ee.
  destruct inject; rewrite !lookup_alter;
    destruct (decide (entry = e)) as [->|Hne];
    rewrite ?decide_True by reflexivity; try tauto;
    rewrite ?fmap_is_Some; tauto.
Qed.

End InvariantBasics.

Section InvariantStart.
Context `{Platform}.

Lemma Inv_launched (entry : Ref) (inject wrap : bool) (directory sid : Str.t)
  (c : Ref) (w : World) :
  Inv w -> is_Some (entries w !! entry) ->
  (forall tid t, tasks w !! tid = Some t -> t_streamId t <> sid) ->
  (forall tm h, intervals w !! tm = Some h -> hb_streamId h <> sid) ->
  (c < nextRef w)%nat -> minted w sid ->
  Inv (launched entry inject wrap directory sid c w).
Proof.
  intros [I1 I2 I3 I4 I5 I6 I7 I8 I8' I9] [st0 Hst0] Hft Hfi Hc Hm.
  destruct (launched_fields entry inject wrap directory sid c w)
    as (Es & Eh & Ec & Ei & Et & En & Ep & Ek & Ex & _).
  assert (Hn : (nextRef w <= nextRef (launched entry inject wrap directory sid c w))%nat).
  { rewrite En. destruct inject; lia. }
  split.
  - intros tid t. rewrite Et, lookup_insert. case_decide as Hk.
    + intros [= <-]. right. unfold registered. cbn [t_entry t_streamId t_controller].
      rewrite Es, decide_True, Hst0 by reflexivity. apply lookup_insert_eq.
    + intros Ht. destruct (I1 tid t Ht) as [Ha|Hr].
      * left. unfold aborted in *. now rewrite Ec.
      * right. unfold registered in *. rewrite Es.
        destruct (decide (entry = t_entry t)) as [E|E]; [|exact Hr].
        rewrite Hst0. rewrite lookup_insert_ne by (apply not_eq_sym; eauto).
        unfold entryStreams in Hr. now rewrite <- E, Hst0 in Hr.
  - intros tm h. rewrite Ei. destruct inject.
    + rewrite lookup_insert. case_decide as Hk.
      * intros [= <-]. cbn [hb_entry hb_streamId]. subst tm.
        rewrite Eh, decide_True, Hst0 by reflexivity. apply lookup_insert_eq.
      * intros Hh. rewrite Eh.
        destruct (decide (entry = hb_entry h)) as [E|E]; [|now apply I2].
        rewrite Hst0. rewrite lookup_insert_ne by (apply not_eq_sym; eauto).
        apply I2 in Hh. unfold entryHeartbeats in Hh. now rewrite <- E, Hst0 in Hh.
    + intros Hh. rewrite Eh. now apply I2.
  - intros c' b. rewrite Ec. intros Hc'. apply I3 in Hc'. lia.
  - intros e sid' c'. rewrite Es.
    destruct (decide (entry = e)) as [E|E].
    + rewrite Hst0, lookup_insert. case_decide.
      * intros [= <-]. lia.
      * intros Hl. assert (entryStreams entry w !! sid' = Some c') as Hl'.
        { unfold entryStreams. now rewrite Hst0. }
        apply I4 in Hl'. lia.
    + intros Hl. apply I4 in Hl. lia.
  - intros e st He. assert (is_Some (entries w !! e)) as [st' Hst'].
    { apply Ex. eauto. }
    apply I5 in Hst'. lia.
  - intros pid e. rewrite Ep. intros He. apply I6 in He. lia.
  - intros pid pid' e. rewrite Ep. apply I7.
  - intros tid t. rewrite Et, lookup_insert. case_decide.
    + intros [= <-]. cbn [t_streamId]. apply (minted_mono w); [lia | exact Hm].
    + intros Ht. apply (minted_mono w); [lia | now apply (I8 tid)].
  - intros tm h. rewrite Ei. destruct inject.
    + rewrite lookup_insert. case_decide.
      * intros [= <-]. cbn [hb_streamId]. apply (minted_mono w); [lia | exact Hm].
      * intros Hh. apply (minted_mono w); [lia | now apply (I8' tm)].
    + intros Hh. apply (minted_mono w); [lia | now apply (I8' tm)].
  - intros tid tid' t t'. rewrite Et, !lookup_insert.
    repeat case_decide; try congruence.
    + intros [= <-] Ht' E. cbn [t_streamId] in E. symmetry in E.
      now apply Hft in Ht'.
    + intros Ht [= <-] E. cbn [t_streamId] in E. now apply Hft in Ht.
    + apply I9.
Qed.

Lemma Inv_start (message : BridgeRequest) (entry : Ref) (env : StartEnv) (w : World) :
  Inv w -> is_Some (entries w !! entry) ->
  Inv (_startSseProxy message entry env w).2.
Proof.
  intros HI He.
  destruct (start_states message entry env w)
    as [-> | [-> | (inject & wrap & directory & ->)]].
  - exact HI.
  - now apply Inv_prepared.
  - apply Inv_launched.
    + now apply Inv_prepared.
    + exact He.
    + intros tid t Ht E. apply (inv_minted w HI) in Ht. rewrite E in Ht.
      now apply minted_fresh in Ht.
    + intros tm h Hh E. apply (inv_minted_hb w HI) in Hh. rewrite E in Hh.
      now apply minted_fresh in Hh.
    + cbn. lia.
    + exists (_sseCounter w + 1), (Date_now (clock w)). split; [reflexivity|].
      cbn. lia.
Qed.

End InvariantStart.

Section Deregistration.
Context `{Platform}.

Lemma deregister_eq (sid : Str.t) (st : SessionPanelState)
  (streams' : gmap Str.t Ref) (heartbeats' : gmap Str.t Ref) :
  streams' = delete sid (sseStreams st) ->
  heartbeats' = delete sid (sseHeartbeats st) ->
  mkEntry (panel st) streams' heartbeats' = deregister sid st.
Proof. intros -> ->. reflexivity. Qed.

Lemma stopped_entries (sid : Str.t) (entry : Ref) (w : World) :
  entries (stopped sid entry w) = alter (deregister sid) entry (entries w).
Proof.
  apply map_eq. intros e. rewrite lookup_alter.
  unfold stopped, entryStreams, entryHeartbeats.
  destruct (entries w !! entry) as [st|] eqn:Est.
  - destruct (sseStreams st !! sid) as [c|] eqn:Es.
    + cbn. rewrite lookup_alter, decide_True, Est by reflexivity. cbn.
      destruct (sseHeartbeats st !! sid) as [tm|] eqn:Eh; cbn;
        rewrite !lookup_alter; destruct (decide (entry = e)) as [<-|]; try reflexivity;
        rewrite ?lookup_alter, ?decide_True, Est by reflexivity; cbn; f_equal;
        apply deregister_eq; try reflexivity.
      symmetry. now apply delete_id.
    + rewrite Est.
      destruct (sseHeartbeats st !! sid) as [tm|] eqn:Eh; cbn;
        rewrite ?lookup_alter; destruct (decide (entry = e)) as [<-|]; try reflexivity;
        rewrite Est; cbn; f_equal; destruct st as [p s h]; cbn in *;
        apply (deregister_eq sid (mkEntry p s h)); cbn;
        try reflexivity; symmetry; now apply delete_id.
  - rewrite !lookup_empty, Est, lookup_empty.
    destruct (decide (entry = e)) as [<-|]; [now rewrite Est | reflexivity].
Qed.

Lemma cleanup_entries (t : StreamTask) (w : World) :
  entries (taskCleanup t w)
  = alter (deregister (t_streamId t)) (t_entry t) (entries w).
Proof.
  apply map_eq. intros e. rewrite lookup_alter.
  unfold taskCleanup, entryHeartbeats.
  set (entry := t_entry t). set (sid := t_streamId t). cbn.
  rewrite lookup_alter, decide_True by reflexivity.
  destruct (entries w !! entry) as [st|] eqn:Est; cbn.
  - destruct (sseHeartbeats st !! sid) as [tm|] eqn:Eh; cbn;
      rewrite !lookup_alter; destruct (decide (entry = e)) as [<-|]; try reflexivity;
      rewrite ?lookup_alter, ?decide_True, Est by reflexivity; cbn; f_equal;
      apply deregister_eq; try reflexivity.
    symmetry. now apply delete_id.
  - rewrite lookup_empty. cbn. rewrite lookup_alter.
    destruct (decide (entry = e)) as [<-|]; [now rewrite Est | reflexivity].
Qed.

Lemma deregistered_streams (sid : Str.t) (entry e : Ref) (w w' : World) :
  entries w' = alter (deregister sid) entry (entries w) ->
  entryStreams e w'
  = if decide (entry = e) then delete sid (entryStreams entry w)
    else entryStreams e w.
Proof.
  intros E. unfold entryStreams. rewrite E, lookup_alter.
  destruct (decide (entry = e)) as [<-|]; [|reflexivity].
  destruct (entries w !! entry); cbn; [reflexivity|]. now rewrite delete_empty.
Qed.

Lemma deregistered_heartbeats (sid : Str.t) (entry e : Ref) (w w' : World) :
  entries w' = alter (deregister sid) entry (entries w) ->
  entryHeartbeats e w'
  = if decide (entry = e) then delete sid (entryHeartbeats entry w)
    else entryHeartbeats e w.
Proof.
  intros E. unfold entryHeartbeats. rewrite E, lookup_alter.
  destruct (decide (entry = e)) as [<-|]; [|reflexivity].
  destruct (entries w !! entry); cbn; [reflexivity|]. now rewrite delete_empty.
Qed.

Lemma deregistered_is_Some (sid : Str.t) (entry e : Ref) (w w' : World) :
  entries w' = alter (deregister sid) entry (entries w) ->
  is_Some (entries w' !! e) <-> is_Some (entries w !! e).
Proof.
  intros E. rewrite E, lookup_alter.
  destruct (decide (entry = e)) as [<-|]; [|tauto].
  now rewrite fmap_is_Some.
Qed.

Lemma stopped_others (sid : Str.t) (entry : Ref) (w : World) :
  let w' := stopped sid entry w in
  controllers w'
  = match entryStreams entry w !! sid with
    | Some c => <[c := true]> (controllers w)
    | None => controllers w
    end
  /\ intervals w'
     = match entryHeartbeats entry w !! sid with
       | Some tm => delete tm (intervals w)
       | None => intervals w
       end
  /\ tasks w' = tasks w /\ nextRef w' = nextRef w
  /\ _panels w' = _panels w /\ _sseCounter w' = _sseCounter w.
Proof.
  cbv zeta. unfold stopped.
  set (w1 := match entryStreams entry w !! sid with Some _ => _ | None => _ end).
  assert (E1 : entryHeartbeats entry w1 = entryHeartbeats entry w).
  { unfold w1. destruct (entryStreams entry w !! sid) as [c|]; [|reflexivity].
    rewrite entryHeartbeats_updateEntry, decide_True by reflexivity.
    unfold entryHeartbeats, abort, setControllers; cbn.
    destruct (entries w !! entry); reflexivity. }
  rewrite E1.
  destruct (entryHeartbeats entry w !! sid) as [tm|];
    unfold w1; destruct (entryStreams entry w !! sid) as [c|]; repeat split.
Qed.

Lemma cleanup_others (t : StreamTask) (w : World) :
  let w' := taskCleanup t w in
  controllers w' = controllers w
  /\ intervals w'
     = match entryHeartbeats (t_entry t) w !! t_streamId t with
       | Some tm => delete tm (intervals w)
       | None => intervals w
       end
  /\ tasks w' = tasks w /\ nextRef w' = nextRef w
  /\ _panels w' = _panels w /\ _sseCounter w' = _sseCounter w.
Proof.
  cbv zeta. unfold taskCleanup.
  set (w1 := updateEntry _ _ w).
  assert (E1 : entryHeartbeats (t_entry t) w1 = entryHeartbeats (t_entry t) w).
  { unfold w1. rewrite entryHeartbeats_updateEntry, decide_True by reflexivity.
    unfold entryHeartbeats. destruct (entries w !! t_entry t); reflexivity. }
  rewrite E1.
  destruct (entryHeartbeats (t_entry t) w !! t_streamId t) as [tm|]; repeat split.
Qed.

End Deregistration.

Section InvariantStop.
Context `{Platform}.

Lemma Inv_deregister (sid : Str.t) (entry : Ref) (w w' : World) :
  Inv w ->
  entries w' = alter (deregister sid) entry (entries w) ->
  intervals w'
  = match entryHeartbeats entry w !! sid with
    | Some tm => delete tm (intervals w)
    | None => intervals w
    end ->
  nextRef w' = nextRef w -> _panels w' = _panels w ->
  _sseCounter w' = _sseCounter w ->
  (forall tid t, tasks w' !! tid = Some t -> tasks w !! tid = Some t) ->
  (forall tid t, tasks w' !! tid = Some t -> t_entry t = entry ->
                 t_streamId t = sid -> aborted (t_controller t) w' = true) ->
  (forall c, aborted c w = true -> aborted c w' = true) ->
  (forall c b, controllers w' !! c = Some b -> (c < nextRef w')%nat) ->
  Inv w'.
Proof.
  intros [I1 I2 I3 I4 I5 I6 I7 I8 I8' I9] Ee Ei En Ep Ek Htasks Hsid Hab Hctl.
  assert (Hsub : forall tm h, intervals w' !! tm = Some h ->
                              intervals w !! tm = Some h
                              /\ entryHeartbeats entry w !! sid <> Some tm).
  { intros tm h. rewrite Ei.
    destruct (entryHeartbeats entry w !! sid) as [tm0|].
    - rewrite lookup_delete_Some. intros [Hne Hh]. split; [exact Hh | congruence].
    - intros Hh. split; [exact Hh | discriminate]. }
  split.
  - intros tid t Ht. destruct (I1 tid t (Htasks tid t Ht)) as [Ha|Hr]; [left; auto|].
    unfold registered in *. rewrite (deregistered_streams sid entry _ w w' Ee).
    destruct (decide (entry = t_entry t)) as [E|E]; [|right; exact Hr].
    destruct (decide (t_streamId t = sid)) as [E'|E'].
    + left. now apply (Hsid tid).
    + right. rewrite lookup_delete_ne by congruence. now rewrite E.
  - intros tm h Hh. destruct (Hsub tm h Hh) as [Hh' Hne].
    apply I2 in Hh'. rewrite (deregistered_heartbeats sid entry _ w w' Ee).
    destruct (decide (entry = hb_entry h)) as [E|E]; [|exact Hh'].
    destruct (decide (hb_streamId h = sid)) as [E'|E'].
    + exfalso. apply Hne. now rewrite E, <- E'.
    + rewrite lookup_delete_ne by congruence. now rewrite E.
  - exact Hctl.
  - intros e sid' c. rewrite (deregistered_streams sid entry _ w w' Ee), En.
    destruct (decide (entry = e)) as [E|E]; [|apply I4].
    rewrite lookup_delete_Some. intros [_ Hl]. now apply I4 in Hl.
  - intros e st He. rewrite En.
    assert (is_Some (entries w !! e)) as [st' Hst'].
    { apply (deregistered_is_Some sid entry e w w' Ee). eauto. }
    now apply I5 in Hst'.
  - intros pid e. rewrite Ep, En. apply I6.
  - intros pid pid' e. rewrite Ep. apply I7.
  - intros tid t Ht. apply (minted_mono w); [lia|]. apply (I8 tid), Htasks, Ht.
  - intros tm h Hh. apply (minted_mono w); [lia|]. apply (I8' tm), (Hsub tm h Hh).
  - intros tid tid' t t' Ht Ht'. apply I9; now apply Htasks.
Qed.

Lemma Inv_stopped (sid : Str.t) (entry : Ref) (w : World) :
  Inv w -> Inv (stopped sid entry w).
Proof.
  intros HI.
  destruct (stopped_others sid entry w) as (Ec & Ei & Et & En & Ep & Ek).
  assert (Hab : forall c, aborted c w = true -> aborted c (stopped sid entry w) = true).
  { intros c. rewrite !aborted_true, Ec.
    destruct (entryStreams entry w !! sid) as [c0|]; [|auto].
    intros Hc. rewrite lookup_insert. case_decide; [reflexivity | exact Hc]. }
  apply (Inv_deregister sid entry w); try assumption.
  - apply stopped_entries.
  - intros tid t. now rewrite Et.
  - intros tid t. rewrite Et. intros Ht He Hs.
    destruct (inv_tasks w HI tid t Ht) as [Ha|Hr]; [auto|].
    unfold registered in Hr. rewrite He, Hs in Hr.
    apply aborted_true. rewrite Ec, Hr. apply lookup_insert_eq.
  - intros c b. rewrite Ec, En.
    destruct (entryStreams entry w !! sid) as [c0|] eqn:Es;
      [|apply (inv_controllers w HI)].
    rewrite lookup_insert. case_decide.
    + intros _. subst. now apply (inv_streams w HI) in Es.
    + apply (inv_controllers w HI).
Qed.

(** The end of a task: its cleanup, and the task is gone. *)
Lemma Inv_finished (tid : Ref) (t : StreamTask) (w : World) :
  Inv w -> tasks w !! tid = Some t ->
  Inv (setTasks (delete tid (tasks (taskCleanup t w))) (taskCleanup t w)).
Proof.
  intros HI Ht.
  destruct (cleanup_others t w) as (Ec & Ei & Et & En & Ep & Ek).
  apply (Inv_deregister (t_streamId t) (t_entry t) w); try assumption.
  - cbn. apply cleanup_entries.
  - intros tid' t'. cbn. rewrite Et, lookup_delete_Some. tauto.
  - intros tid' t'. cbn. rewrite Et, lookup_delete_Some. intros [Hne Ht'] _ Hs.
    exfalso. apply Hne. symmetry. eapply (inv_unique w HI); eauto.
  - intros c. unfold aborted. cbn. now rewrite Ec.
  - intros c b. cbn. rewrite Ec, En. apply (inv_controllers w HI).
Qed.

End InvariantStop.

Section InvariantDispose.
Context `{Platform}.

Lemma abortAll_fields (cs : list Ref) (w : World) :
  let w' := fold_left (fun w c => abort c w) cs w in
  (forall c, controllers w' !! c
             = if decide (c ∈ cs) then Some true else controllers w !! c)
  /\ entries w' = entries w /\ intervals w' = intervals w /\ tasks w' = tasks w
  /\ nextRef w' = nextRef w /\ _panels w' = _panels w
  /\ _sseCounter w' = _sseCounter w /\ posted w' = posted w.
Proof.
  revert w; induction cs as [|c0 cs IH]; intros w; cbv zeta.
  - cbn. split; [|auto 10]. intros c. rewrite decide_False; [reflexivity|].
    apply not_elem_of_nil.
  - cbn [fold_left]. destruct (IH (abort c0 w)) as (Ec & rest). cbv zeta in Ec.
    split; [|exact rest].
    intros c. rewrite Ec. cbn.
    destruct (decide (c ∈ cs)) as [Hin|Hin].
    + rewrite decide_True; [reflexivity | now right].
    + rewrite lookup_insert. case_decide as E.
      * subst. rewrite decide_True; [reflexivity | left].
      * rewrite decide_False; [reflexivity|].
        rewrite elem_of_cons. intros [->|?]; [congruence | contradiction].
Qed.

Lemma clearAll_fields (ts : list Ref) (w : World) :
  let w' := fold_left (fun w tm => clearInterval tm w) ts w in
  (forall tm, intervals w' !! tm
              = if decide (tm ∈ ts) then None else intervals w !! tm)
  /\ entries w' = entries w /\ controllers w' = controllers w /\ tasks w' = tasks w
  /\ nextRef w' = nextRef w /\ _panels w' = _panels w
  /\ _sseCounter w' = _sseCounter w /\ posted w' = posted w.
Proof.
  revert w; induction ts as [|t0 ts IH]; intros w; cbv zeta.
  - cbn. split; [|auto 10]. intros c. rewrite decide_False; [reflexivity|].
    apply not_elem_of_nil.
  - cbn [fold_left]. destruct (IH (clearInterval t0 w)) as (Ec & rest). cbv zeta in Ec.
    split; [|exact rest].
    intros tm. rewrite Ec. cbn.
    destruct (decide (tm ∈ ts)) as [Hin|Hin].
    + rewrite decide_True; [reflexivity | now right].
    + rewrite lookup_delete. case_decide as E.
      * subst. rewrite decide_True; [reflexivity | left].
      * rewrite decide_False; [reflexivity|].
        rewrite elem_of_cons. intros [->|?]; [congruence | contradiction].
Qed.

Lemma elem_of_values (m : gmap Str.t Ref) (x : Ref) :
  x ∈ map snd (map_to_list m) <-> exists k, m !! k = Some x.
Proof.
  rewrite list_elem_of_fmap. split.
  - intros ([k y] & -> & Hin). apply elem_of_map_to_list in Hin. now exists k.
  - intros [k Hk]. exists (k, x). split; [reflexivity|].
    now apply elem_of_map_to_list.
Qed.

Lemma dispose_fields (pid : Str.t) (entry : Ref) (w : World) :
  _panels w !! pid = Some entry ->
  let w' := _disposePanel pid w in
  entries w' = alter emptied entry (entries w)
  /\ (forall c, controllers w' !! c
                = if decide (c ∈ ownedControllers entry w)
                  then Some true else controllers w !! c)
  /\ (forall tm, intervals w' !! tm
                 = if decide (tm ∈ ownedTimers entry w)
                   then None else intervals w !! tm)
  /\ tasks w' = tasks w /\ nextRef w' = nextRef w
  /\ _panels w' = delete pid (_panels w)
  /\ _sseCounter w' = _sseCounter w /\ posted w' = posted w.
Proof.
  intros Hp. cbv zeta. unfold _disposePanel. rewrite Hp.
  fold (ownedControllers entry w).
  set (w1 := fold_left (fun w c => abort c w) (ownedControllers entry w) w).
  destruct (abortAll_fields (ownedControllers entry w) w)
    as (Ec1 & Ee1 & Ei1 & Et1 & En1 & Ep1 & Ek1 & Eo1).
  fold w1 in Ec1, Ee1, Ei1, Et1, En1, Ep1, Ek1, Eo1.
  set (w2 := updateEntry entry (setStreams ∅) w1).
  assert (Eh2 : entryHeartbeats entry w2 = entryHeartbeats entry w).
  { unfold w2. rewrite entryHeartbeats_updateEntry, decide_True by reflexivity.
    unfold entryHeartbeats. rewrite Ee1. destruct (entries w !! entry); reflexivity. }
  rewrite Eh2. fold (ownedTimers entry w).
  set (w3 := fold_left (fun w tm => clearInterval tm w) (ownedTimers entry w) w2).
  destruct (clearAll_fields (ownedTimers entry w) w2)
    as (Ei3 & Ee3 & Ec3 & Et3 & En3 & Ep3 & Ek3 & Eo3).
  fold w3 in Ei3, Ee3, Ec3, Et3, En3, Ep3, Ek3, Eo3.
  cbn [entries controllers intervals tasks nextRef _panels _sseCounter posted
       setPanels updateEntry setEntries].
  rewrite Ee3, Ec3, Et3, En3, Ek3, Eo3. unfold w2. cbn. rewrite Ee1.
  split.
  { apply map_eq. intros e. rewrite !lookup_alter.
    destruct (decide (entry = e)) as [<-|]; [|reflexivity].
    rewrite ?decide_True by reflexivity.
    destruct (entries w !! entry); reflexivity. }
  split; [exact Ec1|].
  split; [intros tm; rewrite Ei3; unfold w2; cbn; now rewrite Ei1|].
  rewrite Et1, En1, Ek1, Eo1, Ep3. unfold w2. cbn. rewrite Ep1. auto 10.
Qed.

Lemma Inv_disposed (pid : Str.t) (w : World) : Inv w -> Inv (_disposePanel pid w).
Proof.
  intros HI. destruct (_panels w !! pid) as [entry|] eqn:Hp;
    [|unfold _disposePanel; now rewrite Hp].
  destruct (dispose_fields pid entry w Hp) as (Ee & Ec & Ei & Et & En & Ep & Ek & _).
  destruct HI as [I1 I2 I3 I4 I5 I6 I7 I8 I8' I9].
  assert (Es : forall e, entryStreams e (_disposePanel pid w)
                         = if decide (entry = e) then ∅ else entryStreams e w).
  { intros e. unfold entryStreams. rewrite Ee, lookup_alter.
    destruct (decide (entry = e)) as [<-|]; [|reflexivity].
    destruct (entries w !! entry); reflexivity. }
  assert (Eh : forall e, entryHeartbeats e (_disposePanel pid w)
                         = if decide (entry = e) then ∅ else entryHeartbeats e w).
  { intros e. unfold entryHeartbeats. rewrite Ee, lookup_alter.
    destruct (decide (entry = e)) as [<-|]; [|reflexivity].
    destruct (entries w !! entry); reflexivity. }
  split.
  - intros tid t. rewrite Et. intros Ht. destruct (I1 tid t Ht) as [Ha|Hr].
    + left. apply aborted_true. apply aborted_true in Ha. rewrite Ec.
      case_decide; [reflexivity | exact Ha].
    + unfold registered in *. rewrite Es.
      destruct (decide (entry = t_entry t)) as [E|E]; [left | right; exact Hr].
      apply aborted_true. rewrite Ec, decide_True; [reflexivity|].
      apply elem_of_values. exists (t_streamId t). now rewrite E.
  - intros tm h. rewrite Ei. case_decide as Hown; [discriminate|].
    intros Hh. apply I2 in Hh. rewrite Eh.
    destruct (decide (entry = hb_entry h)) as [E|E]; [|exact Hh].
    exfalso. apply Hown. apply elem_of_values. exists (hb_streamId h). now rewrite E.
  - intros c b. rewrite Ec, En. case_decide as Hown; [|apply I3].
    intros _. apply elem_of_values in Hown as [sid Hs]. now apply I4 in Hs.
  - intros e sid c. rewrite Es, En.
    destruct (decide (entry = e)); [rewrite lookup_empty; discriminate | apply I4].
  - intros e st. rewrite Ee, En, lookup_alter.
    destruct (decide (entry = e)) as [<-|]; [|apply I5].
    destruct (entries w !! entry) as [st'|] eqn:E'; [|discriminate].
    intros _. now apply I5 in E'.
  - intros pid' e. rewrite Ep, En, lookup_delete_Some. intros [_ He]. now apply I6 in He.
  - intros pid1 pid2 e. rewrite Ep, !lookup_delete_Some. intros [_ H1] [_ H2].
    now apply (I7 pid1 pid2 e).
  - intros tid t. rewrite Et. intros Ht. apply (minted_mono w); [lia | now apply (I8 tid)].
  - intros tm h. rewrite Ei. case_decide; [discriminate|].
    intros Hh. apply (minted_mono w); [lia | now apply (I8' tm)].
  - intros tid tid' t t'. rewrite Et. apply I9.
Qed.

Lemma Inv_created (pid : Str.t) (w : World) : Inv w -> Inv (_createPanel pid w).
Proof.
  intros [I1 I2 I3 I4 I5 I6 I7 I8 I8' I9].
  set (state := S (nextRef w)).
  assert (Hfresh : entries w !! state = None).
  { destruct (entries w !! state) eqn:E; [|reflexivity].
    apply I5 in E. unfold state in E. lia. }
  assert (Es : forall e, entryStreams e (_createPanel pid w)
                         = if decide (state = e) then ∅ else entryStreams e w).
  { intros e. unfold entryStreams, _createPanel. cbn. fold state.
    rewrite lookup_insert. destruct (decide (state = e)); reflexivity. }
  assert (Eh : forall e, entryHeartbeats e (_createPanel pid w)
                         = if decide (state = e) then ∅ else entryHeartbeats e w).
  { intros e. unfold entryHeartbeats, _createPanel. cbn. fold state.
    rewrite lookup_insert. destruct (decide (state = e)); reflexivity. }
  split.
  - intros tid t Ht. destruct (I1 tid t Ht) as [Ha|Hr]; [left; exact Ha|right].
    unfold registered in *. rewrite Es.
    destruct (decide (state = t_entry t)) as [E|E]; [|exact Hr].
    unfold entryStreams in Hr. rewrite <- E, Hfresh, lookup_empty in Hr. discriminate.
  - intros tm h Hh. apply I2 in Hh. rewrite Eh.
    destruct (decide (state = hb_entry h)) as [E|E]; [|exact Hh].
    unfold entryHeartbeats in Hh. rewrite <- E, Hfresh, lookup_empty in Hh. discriminate.
  - intros c b Hc. apply I3 in Hc. cbn. lia.
  - intros e sid c. rewrite Es.
    destruct (decide (state = e)); [rewrite lookup_empty; discriminate|].
    intros Hl. apply I4 in Hl. cbn. lia.
  - intros e st. cbn. fold state. rewrite lookup_insert. case_decide.
    + intros _. subst e. unfold state. lia.
    + intros He. apply I5 in He. lia.
  - intros pid' e. cbn. fold state. rewrite lookup_insert. case_decide.
    + intros [= <-]. unfold state. lia.
    + intros He. apply I6 in He. lia.
  - intros pid1 pid2 e. cbn. fold state. rewrite !lookup_insert.
    repeat case_decide; try congruence.
    + intros [= <-] He. apply I6 in He. unfold state in He. lia.
    + intros He [= <-]. apply I6 in He. unfold state in He. lia.
    + apply I7.
  - intros tid t Ht. apply (minted_mono w); [cbn; lia | now apply (I8 tid)].
  - intros tm h Hh. apply (minted_mono w); [cbn; lia | now apply (I8' tm)].
  - exact I9.
Qed.

End InvariantDispose.

Section InvariantStep.
Context `{Platform}.

Lemma Inv_task_update (tid : Ref) (t t' : StreamTask) (w : World) :
  Inv w -> tasks w !! tid = Some t ->
  t_entry t' = t_entry t -> t_controller t' = t_controller t ->
  t_streamId t' = t_streamId t ->
  Inv (setTasks (<[tid := t']> (tasks w)) w).
Proof.
  intros [I1 I2 I3 I4 I5 I6 I7 I8 I8' I9] Ht Ee Ec Es.
  split; try assumption.
  - intros tid0 t0. cbn. rewrite lookup_insert. case_decide.
    + intros [= <-]. unfold registered, aborted in *. cbn. rewrite Ee, Ec, Es.
      now apply (I1 tid).
    + apply I1.
  - intros tid0 t0. cbn. rewrite lookup_insert. case_decide.
    + intros [= <-]. unfold minted. cbn. rewrite Es. now apply (I8 tid).
    + apply I8.
  - intros tid1 tid2 t1 t2. cbn. rewrite !lookup_insert.
    repeat case_decide; try congruence.
    + intros [= <-] Hb E. rewrite Es in E. subst. symmetry. eapply I9; eauto.
    + intros Ha [= <-] E. rewrite Es in E. subst. eapply I9; eauto.
    + apply I9.
Qed.

Lemma respond_fields (entry : Ref) (r : Completion BridgeResponse * World) :
  tasks (respond entry r) = tasks r.2 /\ intervals (respond entry r) = intervals r.2
  /\ controllers (respond entry r) = controllers r.2
  /\ entries (respond entry r) = entries r.2
  /\ _panels (respond entry r) = _panels r.2
  /\ nextRef (respond entry r) = nextRef r.2
  /\ _sseCounter (respond entry r) = _sseCounter r.2
  /\ (exists ms, posted (respond entry r) = posted r.2 ++ map (pair entry) ms).
Proof.
  unfold respond. destruct r.1 as [response|error].
  - repeat split. now exists [MsgResponse response].
  - repeat split. exists []. cbn. now rewrite app_nil_r.
Qed.

Lemma Inv_respond (entry : Ref) (r : Completion BridgeResponse * World) :
  Inv r.2 -> Inv (respond entry r).
Proof.
  destruct (respond_fields entry r) as (Et & Ei & Ec & Ee & Ep & En & Ek & _).
  now apply Inv_frame.
Qed.

Lemma status_fields (es : list Ref) (w : World) :
  let w' := fold_left (fun w entry => _sendCachedStateToPanel entry w) es w in
  tasks w' = tasks w /\ intervals w' = intervals w
  /\ controllers w' = controllers w /\ entries w' = entries w
  /\ _panels w' = _panels w /\ nextRef w' = nextRef w
  /\ _sseCounter w' = _sseCounter w
  /\ posted w'
     = posted w ++ map (fun e => (e, MsgConnectionStatus (_cachedStatus w) (_cachedError w))) es.
Proof.
  revert w; induction es as [|e es IH]; intros w; cbv zeta.
  - cbn. rewrite app_nil_r. auto 10.
  - cbn [fold_left]. destruct (IH (_sendCachedStateToPanel e w))
      as (Et & Ei & Ec & Ee & Ep & En & Ek & Eo).
    cbv zeta in *. rewrite Et, Ei, Ec, Ee, Ep, En, Ek, Eo. cbn.
    rewrite <- app_assoc. auto 10.
Qed.

Lemma taskFinish_cleanup (t : StreamTask) (w : World) :
  exists w1 ms,
    taskFinish t w = taskCleanup t w1
    /\ tasks w1 = tasks w /\ intervals w1 = intervals w
    /\ controllers w1 = controllers w /\ entries w1 = entries w
    /\ _panels w1 = _panels w /\ nextRef w1 = nextRef w
    /\ _sseCounter w1 = _sseCounter w
    /\ posted w1 = posted w ++ map (pair (t_entry t)) ms.
Proof.
  unfold taskFinish. cbv zeta.
  set (buffer := if bool_decide (decoder_end (decoder t) = []) then _ else _).
  destruct (bool_decide (buffer = [])).
  - eexists _, [MsgEnd (t_streamId t) None]. split; [reflexivity|]. repeat split.
  - destruct (shouldInjectActivity t).
    + eexists _, [_; _]. split; [reflexivity|]. repeat split.
      cbn. rewrite <- app_assoc. reflexivity.
    + eexists _, [_; _]. split; [reflexivity|]. repeat split.
      cbn. rewrite <- app_assoc. reflexivity.
Qed.

Lemma taskFail_cleanup (t : StreamTask) (error : Thrown) (w : World) :
  exists w1,
    taskFail t error w = taskCleanup t w1
    /\ tasks w1 = tasks w /\ intervals w1 = intervals w
    /\ controllers w1 = controllers w /\ entries w1 = entries w
    /\ _panels w1 = _panels w /\ nextRef w1 = nextRef w
    /\ _sseCounter w1 = _sseCounter w
    /\ posted w1
       = posted w ++ (if aborted (t_controller t) w then []
                      else [(t_entry t, MsgEnd (t_streamId t)
                                          (Some (messageTextOf error)))]).
Proof.
  unfold taskFail. destruct (aborted (t_controller t) w).
  - exists w. split; [reflexivity|]. repeat split. cbn. now rewrite app_nil_r.
  - eexists. split; [reflexivity|]. repeat split.
Qed.

Lemma Inv_step (ev : Event) (w : World) : Inv w -> Inv (step ev w).
Proof.
  intros HI. destruct ev as [pid | pid | entry message env | entry message
                             | tm | tid r | status error]; cbn [step].
  - now apply Inv_created.
  - now apply Inv_disposed.
  - destruct (entries w !! entry) eqn:He; [|exact HI].
    apply Inv_respond, Inv_start; [exact HI | eauto].
  - destruct (entries w !! entry) eqn:He; [|exact HI].
    apply Inv_respond. rewrite stop_unfold. cbn [snd].
    destruct (requestedStream message); [now apply Inv_stopped | exact HI].
  - destruct (intervals w !! tm) as [h|]; [|exact HI].
    unfold heartbeatTick. destruct (aborted (hb_controller h) w); [exact HI|].
    revert HI. now apply Inv_frame.
  - destruct (tasks w !! tid) as [t|] eqn:Ht; [|exact HI].
    destruct r as [value | | error]; cbn [taskResume fst snd].
    + destruct (aborted (t_controller t) w).
      * cbn [fst snd].
        destruct (taskFinish_cleanup t w)
          as (w1 & ms & -> & Et & Ei & Ec & Ee & Ep & En & Ek & _).
        apply Inv_finished; [now apply (Inv_frame w) | now rewrite Et].
      * rewrite taskChunk_trace. cbn [fst snd].
        destruct (afterChunk_same t value) as (Ee & Ec & Es & _).
        set (b := chunkTagged t value (clock w)).
        destruct (isNonEmpty b.1).
        -- apply (Inv_task_update tid t); try assumption. revert HI.
           now apply Inv_frame.
        -- now apply (Inv_task_update tid t).
    + destruct (taskFinish_cleanup t w)
        as (w1 & ms & -> & Et & Ei & Ec & Ee & Ep & En & Ek & _).
      apply Inv_finished; [now apply (Inv_frame w) | now rewrite Et].
    + destruct (taskFail_cleanup t error w)
        as (w1 & -> & Et & Ei & Ec & Ee & Ep & En & Ek & _).
      apply Inv_finished; [now apply (Inv_frame w) | now rewrite Et].
  - unfold updateConnectionStatus. cbv zeta.
    match goal with |- Inv (fold_left _ ?es ?w0) =>
      destruct (status_fields es w0) as (Et & Ei & Ec & Ee & Ep & En & Ek & _) end.
    cbv zeta in *. eapply Inv_frame; try eassumption.
    revert HI. now apply Inv_frame.
Qed.

Lemma Inv_run (evs : list Event) (w : World) : Inv w -> Inv (run evs w).
Proof.
  revert w; induction evs as [|ev evs IH]; intros w HI; [exact HI|].
  apply IH, Inv_step, HI.
Qed.

Lemma Inv_reachable (history : list Event) : Inv (run history initialWorld).
Proof. apply Inv_run, Inv_initial. Qed.

End InvariantStep.

Section AfterDisposal.
Context `{Platform}.


Lemma postedTo_same (dead : Ref) (w w' : World) :
  posted w' = posted w -> postedTo dead w' = postedTo dead w.
Proof. intros E. unfold postedTo. now rewrite E. Qed.









End AfterDisposal.

Section Disposal.
Context `{Platform}.



End Disposal.

Section InterleavingFacts.
Context `{Platform}.

(** The start handler is its two halves, one after the other. *)
Lemma start_split (message : BridgeRequest) (entry : Ref) (env : StartEnv)
  (w : World) :
  _startSseProxy message entry env w
  = match (startBegin message entry env w).1 with
    | Answered response => (Returns response, (startBegin message entry env w).2)
    | Threw error => (Throws error, (startBegin message entry env w).2)
    | Awaiting p => startSettle p env (startBegin message entry env w).2
    end.
Proof.
  unfold _startSseProxy, startBegin.
  destruct (getApiUrl env) as [[|c0 rest]|]; try reflexivity.
  cbv zeta. destruct (URL_resolve _ _) as [targetUrl|error]; reflexivity.
Qed.

Lemma begin_states (message : BridgeRequest) (entry : Ref) (env : StartEnv)
  (w : World) :
  match (startBegin message entry env w).1 with
  | Answered response => (startBegin message entry env w).2 = w
  | Threw _ => (startBegin message entry env w).2 = prepared w
  | Awaiting p =>
      (startBegin message entry env w).2 = prepared w
      /\ ps_entry p = entry /\ ps_controller p = nextRef w
      /\ ps_streamId p = mintId (_sseCounter w + 1) (Date_now (clock w))
  end.
Proof.
  unfold startBegin.
  destruct (getApiUrl env) as [[|c0 rest]|]; try reflexivity.
  cbv zeta. destruct (URL_resolve _ _) as [targetUrl|error]; cbn [fst snd].
  - repeat split.
  - reflexivity.
Qed.

















(** A start request whose requests settle before anything else happens is
    the start handler in one step. *)
Lemma start_in_one_step (entry : Ref) (message : BridgeRequest) (env : StartEnv)
  (s : Session) :
  Waiting s ->
  runSplit [ EvStartBegins entry message env;
             EvStartResumes (nextRef (world s)) env ] s
  = stepSplit (Handled (EvStart entry message env)) s.
Proof.
  intros HW.
  assert (Hnew : awaiting s !! nextRef (world s) = None).
  { destruct (awaiting s !! nextRef (world s)) as [p|] eqn:E; [|reflexivity].
    apply (wait_fresh s HW) in E. lia. }
  cbn [runSplit fold_left stepSplit step].
  destruct (entries (world s) !! entry) as [st|] eqn:He.
  - rewrite start_split.
    assert (Hb := begin_states message entry env (world s)).
    destruct (startBegin message entry env (world s)) as [[response|error|p] w1];
      cbn [fst snd] in *.
    + cbn [world awaiting]. now rewrite Hnew.
    + cbn [world awaiting]. now rewrite Hnew.
    + destruct Hb as (_ & Ee & Ec & _). cbn [world awaiting].
      rewrite Ec, lookup_insert_eq, Ee. f_equal.
      now apply delete_insert_id.
  - rewrite Hnew. now destruct s.
Qed.

End InterleavingFacts.

Section DisposalAcrossAwaits.
Context `{Platform}.






End DisposalAcrossAwaits.

Section DisposalExamples.
Import RefHost Demo SplitDemo.



End DisposalExamples.

(** * More properties *)

Section OwnershipFacts.
Context `{Platform}.

Lemma Shrinks_refl (w : World) : Shrinks w w.
Proof. unfold Shrinks. repeat split; eauto; lia. Qed.

Lemma Shrinks_trans (w w' w'' : World) : Shrinks w w' -> Shrinks w' w'' -> Shrinks w w''.
Proof.
  intros (S1 & H1 & I1 & T1 & N1 & K1) (S2 & H2 & I2 & T2 & N2 & K2).
  unfold Shrinks. repeat split; eauto; try lia.
  intros tid t'' Ht. destruct (T2 _ _ Ht) as (t' & Ht' & E1 & E2).
  destruct (T1 _ _ Ht') as (t & Ht0 & E3 & E4).
  exists t. repeat split; congruence.
Qed.

Lemma Shrinks_frame (w w' : World) :
  entries w' = entries w -> intervals w' = intervals w -> tasks w' = tasks w ->
  (nextRef w <= nextRef w')%nat -> _sseCounter w <= _sseCounter w' ->
  Shrinks w w'.
Proof.
  intros Ee Ei Et Hn Hk. unfold Shrinks, entryStreams, entryHeartbeats.
  rewrite Ee, Ei, Et. repeat split; eauto.
Qed.

Lemma owns_shrinks (w w' : World) (e : Ref) (sid : Str.t) :
  Shrinks w w' -> owns e sid w' -> owns e sid w.
Proof.
  intros (S1 & H1 & _) [[c Hc]|[tm Hh]]; [left|right]; eauto.
Qed.

Lemma Owned_shrinks (w w' : World) : Shrinks w w' -> Owned w -> Owned w'.
Proof.
  intros HS [O1 O2 O3 O4 O5 O6 O7].
  assert (HS' := HS). destruct HS' as (S1 & H1 & I1 & T1 & N1 & K1).
  split.
  - intros e sid Ho. apply (minted_mono w); [exact K1|].
    apply (O1 e). now apply (owns_shrinks w w').
  - intros e e' sid Ho Ho'. apply (O2 e e' sid); now apply (owns_shrinks w w').
  - intros e e' sid sid' c Hc Hc'. apply (O3 e e' sid sid' c); auto.
  - intros e e' sid sid' tm Hc Hc'. apply (O4 e e' sid sid' tm); auto.
  - intros e sid tm Hh. apply H1, O5 in Hh. lia.
  - intros tm h Hh. apply I1, O6 in Hh. lia.
  - intros tid t' Ht Hw. destruct (T1 _ _ Ht) as (t & Ht0 & E1 & E2).
    rewrite E2. apply (O7 tid t Ht0). congruence.
Qed.

Lemma Owned_initial : Owned initialWorld.
Proof.
  split; unfold owns, entryStreams, entryHeartbeats; cbn.
  - intros e sid [[c Hc]|[c Hc]]; rewrite lookup_empty in Hc; discriminate.
  - intros e e' sid [[c Hc]|[c Hc]]; rewrite lookup_empty in Hc; discriminate.
  - intros e e' sid sid' c Hc. rewrite lookup_empty in Hc. discriminate.
  - intros e e' sid sid' c Hc. rewrite lookup_empty in Hc. discriminate.
  - intros e sid c Hc. rewrite lookup_empty in Hc. discriminate.
  - intros tm h Hh. rewrite lookup_empty in Hh. discriminate.
  - intros tid t Ht. rewrite lookup_empty in Ht. discriminate.
Qed.

Lemma created_shrinks (pid : Str.t) (w : World) : Shrinks w (_createPanel pid w).
Proof.
  set (state := S (nextRef w)).
  assert (Es : forall e, entryStreams e (_createPanel pid w)
                         = if decide (state = e) then ∅ else entryStreams e w).
  { intros e. unfold entryStreams, _createPanel. cbn. fold state.
    rewrite lookup_insert. destruct (decide (state = e)); reflexivity. }
  assert (Eh : forall e, entryHeartbeats e (_createPanel pid w)
                         = if decide (state = e) then ∅ else entryHeartbeats e w).
  { intros e. unfold entryHeartbeats, _createPanel. cbn. fold state.
    rewrite lookup_insert. destruct (decide (state = e)); reflexivity. }
  unfold Shrinks. repeat split.
  - intros e sid c. rewrite Es. case_decide; [now rewrite lookup_empty|auto].
  - intros e sid c. rewrite Eh. case_decide; [now rewrite lookup_empty|auto].
  - auto.
  - intros tid t' Ht. exists t'. auto.
  - cbn. lia.
  - cbn. lia.
Qed.

Lemma deregistered_shrinks (sid : Str.t) (entry : Ref) (w w' : World) :
  entries w' = alter (deregister sid) entry (entries w) ->
  (forall tm h, intervals w' !! tm = Some h -> intervals w !! tm = Some h) ->
  (forall tid t, tasks w' !! tid = Some t -> tasks w !! tid = Some t) ->
  nextRef w' = nextRef w -> _sseCounter w' = _sseCounter w ->
  Shrinks w w'.
Proof.
  intros Ee Hi Ht En Ek. unfold Shrinks. repeat split.
  - intros e s c. rewrite (deregistered_streams sid entry e w w' Ee).
    case_decide; [subst e|auto]. now intros [_ Hc]%lookup_delete_Some.
  - intros e s c. rewrite (deregistered_heartbeats sid entry e w w' Ee).
    case_decide; [subst e|auto]. now intros [_ Hc]%lookup_delete_Some.
  - exact Hi.
  - intros tid t' Ht'. exists t'. auto.
  - lia.
  - lia.
Qed.

Lemma stopped_shrinks (sid : Str.t) (entry : Ref) (w : World) :
  Shrinks w (stopped sid entry w).
Proof.
  destruct (stopped_others sid entry w) as (_ & Ei & Et & En & _ & Ek).
  apply (deregistered_shrinks sid entry); try assumption.
  - apply stopped_entries.
  - intros tm h. rewrite Ei.
    destruct (entryHeartbeats entry w !! sid); [|auto].
    now intros [_ Hh]%lookup_delete_Some.
  - intros tid t. now rewrite Et.
Qed.

Lemma finished_shrinks (tid : Ref) (t : StreamTask) (w w1 : World) :
  tasks w1 = tasks w -> intervals w1 = intervals w -> entries w1 = entries w ->
  nextRef w1 = nextRef w -> _sseCounter w1 = _sseCounter w ->
  Shrinks w (setTasks (delete tid (tasks (taskCleanup t w1))) (taskCleanup t w1)).
Proof.
  intros Et Ei Ee En Ek.
  apply (Shrinks_trans w w1); [apply Shrinks_frame; auto; lia|].
  destruct (cleanup_others t w1) as (_ & Ei' & Et' & En' & _ & Ek').
  apply (deregistered_shrinks (t_streamId t) (t_entry t)).
  - apply cleanup_entries.
  - cbn. intros tm h. rewrite Ei'.
    destruct (entryHeartbeats (t_entry t) w1 !! t_streamId t); [|auto].
    now intros [_ Hh]%lookup_delete_Some.
  - cbn. intros tid' t'. rewrite Et'. now intros [_ Hh]%lookup_delete_Some.
  - exact En'.
  - exact Ek'.
Qed.

Lemma disposed_shrinks (pid : Str.t) (w : World) : Shrinks w (_disposePanel pid w).
Proof.
  destruct (_panels w !! pid) as [entry|] eqn:Hp;
    [|unfold _disposePanel; rewrite Hp; apply Shrinks_refl].
  destruct (dispose_fields pid entry w Hp) as (Ee & _ & Ei & Et & En & _ & Ek & _).
  unfold Shrinks, entryStreams, entryHeartbeats. rewrite Ee, Et, En, Ek.
  repeat split; try lia.
  - intros e sid c. rewrite lookup_alter. case_decide; [subst e|auto].
    destruct (entries w !! entry); cbn; now rewrite lookup_empty.
  - intros e sid c. rewrite lookup_alter. case_decide; [subst e|auto].
    destruct (entries w !! entry); cbn; now rewrite lookup_empty.
  - intros tm h. rewrite Ei. case_decide; [discriminate|auto].
  - intros tid t' Ht'. exists t'. auto.
Qed.

Lemma responded_shrinks (entry : Ref) (r : Completion BridgeResponse * World) :
  Shrinks r.2 (respond entry r).
Proof.
  destruct (respond_fields entry r) as (Et & Ei & _ & Ee & _ & En & Ek & _).
  apply Shrinks_frame; auto; lia.
Qed.

Lemma prepared_shrinks (w : World) : Shrinks w (prepared w).
Proof. apply Shrinks_frame; try reflexivity; cbn; lia. Qed.

End OwnershipFacts.

Section OwnershipStep.
Context `{Platform}.

Lemma fetchWithFallback_wrap (env : StartEnv) (np base url : Str.t)
  (hdrs : gmap Str.t Str.t) (response : HttpResponse) :
  fetchWithFallback env np base url hdrs = Returns (response, true) ->
  np = js "/global/event".
Proof.
  unfold fetchWithFallback.
  destruct (fetch env url hdrs) as [error|first]; [discriminate|].
  case_bool_decide as Hp.
  - intros _. exact Hp.
  - rewrite andb_false_r. intros [= _ ?].
Qed.

Lemma start_states_wrapped (message : BridgeRequest) (entry : Ref) (env : StartEnv)
  (w : World) :
  let w' := (_startSseProxy message entry env w).2 in
  w' = w \/ w' = prepared w
  \/ exists inject wrap directory,
       (wrap = true -> inject = true)
       /\ w' = launched entry inject wrap directory
                (mintId (_sseCounter w + 1) (Date_now (clock w))) (nextRef w)
                (prepared w).
Proof.
  cbv zeta. unfold _startSseProxy.
  destruct (getApiUrl env) as [[|c0 rest]|]; [now left | | now left].
  cbv zeta.
  destruct (URL_resolve _ _) as [targetUrl|error]; [|right; left; reflexivity].
  destruct (fetchWithFallback _ _ _ _ _) as [[response wrap]|error] eqn:Ef;
    [|right; left; reflexivity].
  destruct (negb (ok response) || negb (hasBody response));
    [right; left; reflexivity|].
  right; right. eexists _, wrap, _. split; [|reflexivity].
  intros ->. apply fetchWithFallback_wrap in Ef. rewrite Ef.
  rewrite (bool_decide_eq_true_2 (js "/global/event" = js "/global/event"))
    by reflexivity.
  apply orb_true_r.
Qed.

Lemma launched_streams_lookup (entry : Ref) (inject wrap : bool)
  (directory sid : Str.t) (c : Ref) (w : World) (e : Ref) (s : Str.t) (c0 : Ref) :
  entryStreams e (launched entry inject wrap directory sid c w) !! s = Some c0 ->
  (e = entry /\ s = sid /\ c0 = c) \/ entryStreams e w !! s = Some c0.
Proof.
  destruct (launched_fields entry inject wrap directory sid c w) as (Es & _).
  rewrite Es. case_decide as E; [subst e|auto].
  unfold entryStreams. destruct (entries w !! entry) as [st|];
    [|now rewrite lookup_empty].
  rewrite lookup_insert. case_decide; [intros [= <-]; left; auto | auto].
Qed.

Lemma launched_heartbeats_lookup (entry : Ref) (inject wrap : bool)
  (directory sid : Str.t) (c : Ref) (w : World) (e : Ref) (s : Str.t) (t0 : Ref) :
  entryHeartbeats e (launched entry inject wrap directory sid c w) !! s = Some t0 ->
  (inject = true /\ e = entry /\ s = sid /\ t0 = nextRef w)
  \/ entryHeartbeats e w !! s = Some t0.
Proof.
  destruct (launched_fields entry inject wrap directory sid c w) as (_ & Eh & _).
  rewrite Eh. destruct inject; [|auto].
  case_decide as E; [subst e|auto].
  unfold entryHeartbeats. destruct (entries w !! entry) as [st|];
    [|now rewrite lookup_empty].
  rewrite lookup_insert. case_decide; [intros [= <-]; left; auto | auto].
Qed.

Lemma launched_owns (entry : Ref) (inject wrap : bool)
  (directory sid : Str.t) (c : Ref) (w : World) (e : Ref) (s : Str.t) :
  owns e s (launched entry inject wrap directory sid c w) ->
  (e = entry /\ s = sid) \/ owns e s w.
Proof.
  intros [[c0 Hc]|[t0 Hh]].
  - apply launched_streams_lookup in Hc as [(-> & -> & _)|Hc]; [now left|].
    right. left. eauto.
  - apply launched_heartbeats_lookup in Hh as [(_ & -> & -> & _)|Hh]; [now left|].
    right. right. eauto.
Qed.

Lemma Owned_launched (entry : Ref) (inject wrap : bool) (directory : Str.t)
  (z : Z) (w : World) :
  Inv w -> Owned w -> (wrap = true -> inject = true) ->
  Owned (launched entry inject wrap directory (mintId (_sseCounter w + 1) z)
           (nextRef w) (prepared w)).
Proof.
  intros HI HO Hwi.
  set (sid := mintId (_sseCounter w + 1) z).
  set (wp := prepared w).
  set (w' := launched entry inject wrap directory sid (nextRef w) wp).
  assert (HOp : Owned wp) by (apply (Owned_shrinks w); [apply prepared_shrinks | exact HO]).
  assert (HIp : Inv wp) by now apply Inv_prepared.
  destruct HOp as [O1 O2 O3 O4 O5 O6 O7].
  assert (Hfresh : forall e, ~ owns e sid wp).
  { intros e Ho. assert (Ho' := owns_shrinks w wp e sid (prepared_shrinks w) Ho).
    apply (own_minted w HO) in Ho'. now apply minted_fresh in Ho'. }
  destruct (launched_fields entry inject wrap directory sid (nextRef w) wp)
    as (_ & _ & _ & Ei & Et & En & _ & Ek & _). fold w' in Ei, Et, En, Ek.
  assert (Hnp : nextRef wp = S (nextRef w)) by reflexivity.
  assert (Hkp : _sseCounter wp = _sseCounter w + 1) by reflexivity.
  split.
  - intros e s Ho. apply launched_owns in Ho as [[-> ->]|Ho].
    + exists (_sseCounter w + 1), z. split; [reflexivity|]. rewrite Ek, Hkp. lia.
    + apply (minted_mono wp); [rewrite Ek; lia | now apply (O1 e)].
  - intros e e' s Ho Ho'.
    apply launched_owns in Ho as [[-> ->]|Ho];
      apply launched_owns in Ho' as [[-> ?]|Ho']; try reflexivity.
    + now apply Hfresh in Ho'.
    + subst s. now apply Hfresh in Ho.
    + now apply (O2 e e' s).
  - intros e e' s s' c Hc Hc'.
    apply launched_streams_lookup in Hc as [(-> & -> & ->)|Hc];
      apply launched_streams_lookup in Hc' as [(-> & -> & Ec)|Hc']; auto.
    + apply (inv_streams w HI) in Hc'. lia.
    + subst c. apply (inv_streams w HI) in Hc. lia.
    + now apply (O3 e e' s s' c).
  - intros e e' s s' tm Hh Hh'.
    apply launched_heartbeats_lookup in Hh as [(_ & -> & -> & ->)|Hh];
      apply launched_heartbeats_lookup in Hh' as [(_ & -> & -> & Ec)|Hh']; auto.
    + apply O5 in Hh'. lia.
    + subst tm. apply O5 in Hh. lia.
    + now apply (O4 e e' s s' tm).
  - intros e s tm Hh. rewrite En.
    apply launched_heartbeats_lookup in Hh as [(-> & _ & _ & ->)|Hh]; [lia|].
    apply O5 in Hh. destruct inject; lia.
  - intros tm h. rewrite Ei, En. destruct inject.
    + rewrite lookup_insert. case_decide; [intros _; lia|].
      intros Hh. apply O6 in Hh. lia.
    + intros Hh. apply O6 in Hh. lia.
  - intros tid t. rewrite Et, lookup_insert. case_decide.
    + intros [= <-]. cbn. exact Hwi.
    + apply O7.
Qed.

Lemma Owned_start (message : BridgeRequest) (entry : Ref) (env : StartEnv) (w : World) :
  Inv w -> Owned w -> Owned (_startSseProxy message entry env w).2.
Proof.
  intros HI HO.
  destruct (start_states_wrapped message entry env w)
    as [-> | [-> | (inject & wrap & directory & Hwi & ->)]].
  - exact HO.
  - apply (Owned_shrinks w); [apply prepared_shrinks | exact HO].
  - now apply Owned_launched.
Qed.

Lemma read_shrinks (tid : Ref) (t : StreamTask) (r : ReadResult) (w : World) :
  tasks w !! tid = Some t -> Shrinks w (step (EvRead tid r) w).
Proof.
  intros Ht. cbn [step]. rewrite Ht.
  assert (Hfinish : Shrinks w
            (setTasks (delete tid (tasks (taskFinish t w))) (taskFinish t w))).
  { destruct (taskFinish_cleanup t w)
      as (w1 & ms & -> & Et & Ei & _ & Ee & _ & En & Ek & _).
    now apply finished_shrinks. }
  destruct r as [value | | error]; cbn [taskResume fst snd].
  - destruct (aborted (t_controller t) w); cbn [fst snd]; [exact Hfinish|].
    rewrite taskChunk_trace. cbn [fst snd].
    destruct (afterChunk_same t value) as (_ & _ & _ & Ei & Ew & _).
    assert (Hgen : forall w1, entries w1 = entries w -> intervals w1 = intervals w ->
                tasks w1 = tasks w -> nextRef w1 = nextRef w ->
                _sseCounter w1 = _sseCounter w ->
                Shrinks w (setTasks (<[tid := afterChunk t value]> (tasks w1)) w1)).
    { intros w1 Ee Ei1 Et En Ek. unfold Shrinks, entryStreams, entryHeartbeats.
      cbn. rewrite Ee, Ei1, Et, En, Ek. repeat split; auto.
      intros tid' t'. rewrite lookup_insert. case_decide.
      - subst tid'. intros [= <-]. exists t. auto.
      - intros Ht'. exists t'. auto. }
    destruct (isNonEmpty _); now apply Hgen.
  - exact Hfinish.
  - destruct (taskFail_cleanup t error w)
      as (w1 & -> & Et & Ei & _ & Ee & _ & En & Ek & _).
    now apply finished_shrinks.
Qed.

Lemma Owned_step (ev : Event) (w : World) : Inv w -> Owned w -> Owned (step ev w).
Proof.
  intros HI HO.
  destruct ev as [pid | pid | entry message env | entry message
                  | tm | tid r | status error]; cbn [step].
  - apply (Owned_shrinks w); [apply created_shrinks | exact HO].
  - apply (Owned_shrinks w); [apply disposed_shrinks | exact HO].
  - destruct (entries w !! entry) eqn:He; [|exact HO].
    eapply Owned_shrinks; [apply responded_shrinks|]. now apply Owned_start.
  - destruct (entries w !! entry) eqn:He; [|exact HO].
    eapply Owned_shrinks; [apply responded_shrinks|].
    rewrite stop_unfold. cbn [snd].
    destruct (requestedStream message); [|exact HO].
    apply (Owned_shrinks w); [apply stopped_shrinks | exact HO].
  - destruct (intervals w !! tm) as [h|]; [|exact HO].
    unfold heartbeatTick. destruct (aborted (hb_controller h) w); [exact HO|].
    apply (Owned_shrinks w); [|exact HO]. apply Shrinks_frame; cbn; auto; lia.
  - destruct (tasks w !! tid) as [t|] eqn:Ht; [|exact HO].
    apply (Owned_shrinks w); [|exact HO].
    assert (Hs := read_shrinks tid t r w Ht). cbn [step] in Hs. now rewrite Ht in Hs.
  - apply (Owned_shrinks w); [|exact HO].
    unfold updateConnectionStatus. cbv zeta.
    match goal with |- Shrinks _ (fold_left _ ?es ?w0) =>
      destruct (status_fields es w0) as (Et & Ei & _ & Ee & _ & En & Ek & _) end.
    cbv zeta in *. apply Shrinks_frame; cbn in *; try assumption; lia.
Qed.

Lemma Owned_reachable (history : list Event) :
  Inv (run history initialWorld) /\ Owned (run history initialWorld).
Proof.
  unfold run. generalize initialWorld Inv_initial Owned_initial.
  induction history as [|ev evs IH]; intros w HI HO; [now split|].
  cbn [fold_left]. apply IH; [now apply Inv_step | now apply Owned_step].
Qed.

End OwnershipStep.

Section StartOutcomeFacts.
Context `{Platform}.

Lemma start_registered (message : BridgeRequest) (entry : Ref) (env : StartEnv)
  (w : World) (response : BridgeResponse) (sid : Str.t) :
  (_startSseProxy message entry env w).1 = Returns response ->
  streamIdOf response = Some sid ->
  sid = mintId (_sseCounter w + 1) (Date_now (clock w))
  /\ exists wrap directory,
       (wrap = true -> tracksActivity message = true)
       /\ (_startSseProxy message entry env w).2
          = launched entry (tracksActivity message) wrap directory sid (nextRef w)
              (prepared w).
Proof.
  unfold _startSseProxy, tracksActivity, normalizedPathOf.
  set (np := match asString _ with Some _ => _ | None => _ end).
  assert (Enp : match req_payload message with
                | Some p =>
                    match asString (path p) with
                    | Some s => if (0 <? length (Str.trim s))%nat then Str.trim s
                                else js "/event"
                    | None => js "/event"
                    end
                | None => js "/event"
                end = np).
  { unfold np. destruct (req_payload message); reflexivity. }
  rewrite Enp.
  destruct (getApiUrl env) as [[|c0 rest]|]; cbn [fst snd];
    try (intros [= <-]; discriminate).
  cbv zeta.
  destruct (URL_resolve _ _) as [targetUrl|error]; [|discriminate].
  destruct (fetchWithFallback _ _ _ _ _) as [[response' wrap]|error] eqn:Ef;
    [|intros [= <-]; discriminate].
  destruct (negb (ok response') || negb (hasBody response'));
    [intros [= <-]; discriminate|].
  cbn [fst snd]. intros [= <-]. cbn. intros [= <-].
  split; [reflexivity|]. eexists wrap, _. split; [|reflexivity].
  intros ->. apply fetchWithFallback_wrap in Ef. rewrite Ef.
  rewrite (bool_decide_eq_true_2 (js "/global/event" = js "/global/event"))
    by reflexivity.
  apply orb_true_r.
Qed.

End StartOutcomeFacts.

Section ReachableStates.
Context `{Platform}.

(** X1. Stream ids are not shared: in every state that the provider reaches,
    two stream tasks that are alive carry different stream ids, each of the
    form [sse_<n>_<time>] with [n] at most the counter. *)
Theorem stream_ids_distinct (history : list Event) (tid tid' : Ref)
  (t t' : StreamTask) :
  tasks (run history initialWorld) !! tid = Some t ->
  tasks (run history initialWorld) !! tid' = Some t' ->
  tid <> tid' ->
  t_streamId t <> t_streamId t'
  /\ minted (run history initialWorld) (t_streamId t).
Proof.
  intros Ht Ht' Hne. destruct (Owned_reachable history) as [HI _]. split.
  - intros E. apply Hne. exact (inv_unique _ HI tid tid' t t' Ht Ht' E).
  - exact (inv_minted _ HI tid t Ht).
Qed.

Lemma aborted_stopped (sid : Str.t) (entry : Ref) (w : World) (c : Ref) :
  aborted c w = true -> aborted c (stopped sid entry w) = true.
Proof.
  intros Ha. destruct (stopped_others sid entry w) as (Ec & _).
  unfold aborted in *. rewrite Ec.
  destruct (entryStreams entry w !! sid) as [c'|]; [|exact Ha].
  rewrite lookup_insert. case_decide; [reflexivity | exact Ha].
Qed.

(** X2. Every stream that is alive can be stopped: in every state that the
    provider reaches, a stop request that names the stream id of a task,
    sent by the task's panel, leaves the task's controller aborted; and one
    that names the stream id of an interval that is set clears it. *)
Theorem live_streams_can_be_stopped (history : list Event)
  (message : BridgeRequest) (sid : Str.t) :
  requestedStream message = Some sid ->
  (forall tid t, tasks (run history initialWorld) !! tid = Some t ->
                 t_streamId t = sid ->
                 aborted (t_controller t)
                   (_stopSseProxy message (t_entry t) (run history initialWorld)).2
                 = true)
  /\ (forall tm h, intervals (run history initialWorld) !! tm = Some h ->
                   hb_streamId h = sid ->
                   intervals
                     (_stopSseProxy message (hb_entry h) (run history initialWorld)).2
                   !! tm = None).
Proof.
  intros Hr. destruct (Owned_reachable history) as [HI _].
  set (w := run history initialWorld) in *.
  split.
  - intros tid t Ht <-. rewrite stop_unfold, Hr. cbn [snd].
    destruct (inv_tasks w HI tid t Ht) as [Ha|Hreg].
    + now apply aborted_stopped.
    + now apply stopped_aborts.
  - intros tm h Hh <-. rewrite stop_unfold, Hr. cbn [snd].
    apply stopped_clears. exact (inv_intervals w HI tm h Hh).
Qed.

(** X3. Panels do not reach into each other: in every state that the provider
    reaches, the disposal of one panel leaves the streams and the heartbeats
    of every other entry listed, their controllers as they were, their
    intervals set and their messages untouched; and a stop request that
    names a stream of another entry changes nothing. *)
Theorem panels_are_isolated (history : list Event) (pid : Str.t) (a b : Ref) :
  _panels (run history initialWorld) !! pid = Some a -> a <> b ->
  let w := run history initialWorld in
  let w' := _disposePanel pid w in
  entryStreams b w' = entryStreams b w
  /\ entryHeartbeats b w' = entryHeartbeats b w
  /\ (forall sid c, entryStreams b w !! sid = Some c -> aborted c w' = aborted c w)
  /\ (forall sid tm, entryHeartbeats b w !! sid = Some tm ->
                     intervals w' !! tm = intervals w !! tm)
  /\ (forall tid t, tasks w !! tid = Some t -> t_entry t = b ->
                    aborted (t_controller t) w = false ->
                    tasks w' !! tid = Some t
                    /\ aborted (t_controller t) w' = false)
  /\ postedTo b w' = postedTo b w
  /\ (forall message sid, requestedStream message = Some sid -> owns b sid w ->
                          (_stopSseProxy message a w).2 = w).
Proof.
  intros Hp Hab w w'. destruct (Owned_reachable history) as [HI HO].
  fold w in HI, HO, Hp.
  destruct (dispose_fields pid a w Hp) as (Ee & Ec & Ei & Et & _ & _ & _ & Eo).
  fold w' in Ee, Ec, Ei, Et, Eo.
  assert (Hc : forall sid c, entryStreams b w !! sid = Some c ->
                             aborted c w' = aborted c w).
  { intros sid c Hs. unfold aborted. rewrite Ec. case_decide as Hin; [|reflexivity].
    exfalso. apply elem_of_values in Hin as [sid' Hs'].
    destruct (own_controller w HO a b sid' sid c Hs' Hs) as [E _]. now apply Hab. }
  split; [unfold entryStreams; now rewrite Ee, lookup_alter, decide_False|].
  split; [unfold entryHeartbeats; now rewrite Ee, lookup_alter, decide_False|].
  split; [exact Hc|]. split.
  { intros sid tm Hh. rewrite Ei. case_decide as Hin; [|reflexivity].
    exfalso. apply elem_of_values in Hin as [sid' Hh'].
    destruct (own_timer w HO a b sid' sid tm Hh' Hh) as [E _]. now apply Hab. }
  split.
  { intros tid t Ht Hb Ha. split; [now rewrite Et|].
    destruct (inv_tasks w HI tid t Ht) as [Ha'|Hreg]; [congruence|].
    unfold registered in Hreg. rewrite Hb in Hreg.
    now rewrite (Hc _ _ Hreg). }
  split; [now apply postedTo_same|].
  intros message sid Hr Hown. rewrite stop_unfold, Hr. cbn [snd].
  apply stopped_absent.
  - destruct (entryStreams a w !! sid) as [c|] eqn:E; [|reflexivity].
    exfalso. apply Hab. apply (own_one w HO a b sid); [left; eauto | exact Hown].
  - destruct (entryHeartbeats a w !! sid) as [c|] eqn:E; [|reflexivity].
    exfalso. apply Hab. apply (own_one w HO a b sid); [right; eauto | exact Hown].
Qed.

(** X4. Only activity-tracking streams are wrapped: in every state that the
    provider reaches, a stream task in wrapped mode tracks activity (it was
    started for [/global/event]). *)
Theorem wrapped_streams_track_activity (history : list Event) (tid : Ref)
  (t : StreamTask) :
  tasks (run history initialWorld) !! tid = Some t ->
  wrapAsGlobal t = true -> shouldInjectActivity t = true.
Proof.
  intros Ht Hw. destruct (Owned_reachable history) as [_ HO].
  exact (own_wrapped _ HO tid t Ht Hw).
Qed.

End ReachableStates.

Section StartAndStop.
Context `{Platform}.

Lemma requestedStream_stopRequest (id sid : Str.t) :
  sid <> [] -> requestedStream (stopRequest id sid) = Some sid.
Proof. intros Hne. destruct sid; [congruence | reflexivity]. Qed.

Lemma mintId_nonempty (n : N) (z : Z) : mintId n z <> [].
Proof. discriminate. Qed.

(** X5. A start request is answered with a stream id only when the stream is
    registered: the id is [sse_<counter+1>_<now>], the entry lists it with a
    controller that is new and not aborted, a heartbeat is listed and its
    interval set exactly when the path is [/event] or [/global/event], one
    stream task is added, and nothing but the response is posted. *)
Theorem start_answer_registers (message : BridgeRequest) (entry : Ref)
  (env : StartEnv) (w : World) (response : BridgeResponse) (sid : Str.t) :
  is_Some (entries w !! entry) ->
  (_startSseProxy message entry env w).1 = Returns response ->
  streamIdOf response = Some sid ->
  let w' := (_startSseProxy message entry env w).2 in
  sid = mintId (_sseCounter w + 1) (Date_now (clock w))
  /\ _sseCounter w' = _sseCounter w + 1
  /\ entryStreams entry w' = <[sid := nextRef w]> (entryStreams entry w)
  /\ controllers w' = <[nextRef w := false]> (controllers w)
  /\ (if tracksActivity message
      then entryHeartbeats entry w' = <[sid := S (nextRef w)]> (entryHeartbeats entry w)
           /\ intervals w'
              = <[S (nextRef w) := mkHeartbeat (nextRef w) entry sid]> (intervals w)
      else entryHeartbeats entry w' = entryHeartbeats entry w
           /\ intervals w' = intervals w)
  /\ (exists wrap directory,
        (wrap = true -> tracksActivity message = true)
        /\ tasks w'
           = <[(if tracksActivity message then S (S (nextRef w)) else S (nextRef w))
               := mkTask entry (nextRef w) sid (tracksActivity message) wrap
                         directory [] []]> (tasks w))
  /\ posted w' = posted w
  /\ success response = true
  /\ res_id response = req_id message.
Proof.
  intros [st Hst] Hret Hsid w'.
  destruct (start_registered message entry env w response sid Hret Hsid)
    as (Esid & wrap & directory & Hwi & Ew).
  unfold w'. rewrite Ew.
  destruct (launched_fields entry (tracksActivity message) wrap directory sid
              (nextRef w) (prepared w))
    as (Es & Eh & Ec & Ei & Et & _ & _ & Ek & _ & Eo).
  assert (Hst' : entries (prepared w) !! entry = Some st) by exact Hst.
  split; [exact Esid|]. split; [rewrite Ek; reflexivity|].
  split.
  { rewrite Es, decide_True, Hst' by reflexivity.
    unfold entryStreams. now rewrite Hst. }
  split; [rewrite Ec; reflexivity|].
  split.
  { rewrite Eh, Ei. destruct (tracksActivity message).
    - rewrite decide_True, Hst' by reflexivity. split; [|reflexivity].
      unfold entryHeartbeats. now rewrite Hst.
    - split; reflexivity. }
  split; [exists wrap, directory; split; [exact Hwi | exact Et]|].
  split; [rewrite Eo; reflexivity|].
  revert Hret Hsid. clear.
  unfold _startSseProxy.
  destruct (getApiUrl env) as [[|c0 rest]|]; cbn [fst snd];
    try (intros [= <-]; discriminate).
  cbv zeta.
  destruct (URL_resolve _ _) as [targetUrl|error]; [|discriminate].
  destruct (fetchWithFallback _ _ _ _ _) as [[response' wrap]|error];
    [|intros [= <-]; discriminate].
  destruct (negb (ok response') || negb (hasBody response'));
    [intros [= <-]; discriminate|].
  cbn [fst snd]. intros [= <-] _. split; reflexivity.
Qed.

Lemma launched_clock (entry : Ref) (inject wrap : bool) (directory sid : Str.t)
  (c : Ref) (w : World) :
  clock (launched entry inject wrap directory sid c w) = clock w.
Proof. unfold launched. destruct inject; reflexivity. Qed.

Lemma stopped_clock (sid : Str.t) (entry : Ref) (w : World) :
  clock (stopped sid entry w) = clock w.
Proof.
  unfold stopped.
  destruct (entryStreams entry w !! sid);
    destruct (entryHeartbeats entry _ !! sid); reflexivity.
Qed.

(** The end of a task whose stream was cancelled: a read that rejects ends
    it without a message, a read that yields bytes or the end of the body
    ends it with the flush of its buffer and the end message. *)
Lemma cancelled_task_ends (tid : Ref) (t : StreamTask) (w : World) :
  tasks w !! tid = Some t -> aborted (t_controller t) w = true ->
  (forall error,
      posted (step (EvRead tid (ReadRejects error)) w) = posted w
      /\ tasks (step (EvRead tid (ReadRejects error)) w) !! tid = None)
  /\ (forall r, (r = ReadDone \/ exists value, r = ReadValue value) ->
        posted (step (EvRead tid r) w) = posted w ++ flushMessages t (clock w)
        /\ tasks (step (EvRead tid r) w) !! tid = None).
Proof.
  intros Ht Ha. split.
  - intros error. cbn [step]. rewrite Ht. cbn [taskResume fst snd].
    destruct (taskFail_cleanup t error w) as (w1 & -> & _ & _ & _ & _ & _ & _ & _ & Eo).
    rewrite Ha, app_nil_r in Eo. cbn [posted tasks setTasks].
    split; [now rewrite taskCleanup_posted | apply lookup_delete_eq].
  - intros r Hr.
    assert (E : taskResume t r w = (None, taskFinish t w)).
    { destruct Hr as [-> | [value ->]]; cbn [taskResume]; [reflexivity|].
      now rewrite Ha. }
    cbn [step]. rewrite Ht, E. cbn [fst snd posted tasks setTasks].
    split; [apply taskFinish_posted | apply lookup_delete_eq].
Qed.

(** X6. Start and stop: in every state that the provider reaches, a start
    request that is answered with a stream id, followed by the stop request
    of that id, leaves the streams and the heartbeats of every entry, the
    intervals, the panels and the posted messages as they were before the
    start. What the two leave behind: the controller of the stream, which
    did not exist before and ends aborted, the stream counter and the clock,
    each advanced by one, and the task of the stream, which is still
    suspended in its read. The task ends when that read settles: without a
    message when the read rejects, and with the flush of its buffer and the
    end message when the read yields bytes or the end of the body. *)
Theorem start_then_stop_restores (history : list Event) (message : BridgeRequest)
  (entry : Ref) (env : StartEnv) (response : BridgeResponse) (sid id : Str.t) :
  let w := run history initialWorld in
  is_Some (entries w !! entry) ->
  (_startSseProxy message entry env w).1 = Returns response ->
  streamIdOf response = Some sid ->
  let w1 := (_startSseProxy message entry env w).2 in
  let w2 := (_stopSseProxy (stopRequest id sid) entry w1).2 in
  let tid := if tracksActivity message then S (S (nextRef w)) else S (nextRef w) in
  (forall e, entryStreams e w2 = entryStreams e w)
  /\ (forall e, entryHeartbeats e w2 = entryHeartbeats e w)
  /\ intervals w2 = intervals w
  /\ _panels w2 = _panels w
  /\ posted w2 = posted w
  /\ controllers w !! nextRef w = None
  /\ controllers w2 = <[nextRef w := true]> (controllers w)
  /\ _sseCounter w2 = _sseCounter w + 1
  /\ clock w2 = S (clock w)
  /\ exists wrap directory,
       let t := mkTask entry (nextRef w) sid (tracksActivity message) wrap
                  directory [] [] in
       tasks w2 = <[tid := t]> (tasks w)
       /\ aborted (t_controller t) w2 = true
       /\ (forall error,
             posted (step (EvRead tid (ReadRejects error)) w2) = posted w2
             /\ tasks (step (EvRead tid (ReadRejects error)) w2) !! tid = None)
       /\ (forall r, (r = ReadDone \/ exists value, r = ReadValue value) ->
             posted (step (EvRead tid r) w2)
             = posted w2 ++ flushMessages t (clock w2)
             /\ last (flushMessages t (clock w2)) = Some (entry, MsgEnd sid None)
             /\ tasks (step (EvRead tid r) w2) !! tid = None).
Proof.
  intros w He Hret Hsid w1 w2 tid.
  destruct (Owned_reachable history) as [HI HO]. fold w in HI, HO.
  destruct (start_answer_registers message entry env w response sid He Hret Hsid)
    as (Esid & Ek & Es & Ec & Eh & (wrap & directory & _ & Et) & Eo & _).
  destruct (start_registered message entry env w response sid Hret Hsid)
    as (_ & wrap' & directory' & _ & Ew).
  fold w1 in Ek, Es, Ec, Eh, Et, Eo, Ew.
  assert (Hne : sid <> []) by (rewrite Esid; apply mintId_nonempty).
  assert (Hfs : entryStreams entry w !! sid = None).
  { destruct (entryStreams entry w !! sid) as [c|] eqn:E; [|reflexivity].
    exfalso. apply (minted_fresh w (Date_now (clock w))). rewrite <- Esid.
    apply (own_minted w HO entry). left. eauto. }
  assert (Hfh : entryHeartbeats entry w !! sid = None).
  { destruct (entryHeartbeats entry w !! sid) as [c|] eqn:E; [|reflexivity].
    exfalso. apply (minted_fresh w (Date_now (clock w))). rewrite <- Esid.
    apply (own_minted w HO entry). right. eauto. }
  assert (Hfc : controllers w !! nextRef w = None).
  { destruct (controllers w !! nextRef w) as [b|] eqn:E; [|reflexivity].
    apply (inv_controllers w HI) in E. lia. }
  assert (Hfi : intervals w !! S (nextRef w) = None).
  { destruct (intervals w !! S (nextRef w)) as [h|] eqn:E; [|reflexivity].
    apply (own_interval_fresh w HO) in E. lia. }
  assert (E2 : w2 = stopped sid entry w1).
  { unfold w2. now rewrite stop_unfold, (requestedStream_stopRequest id sid Hne). }
  destruct (stopped_others sid entry w1) as (Ec' & Ei' & Et' & _ & Ep' & Ek').
  assert (Ee' := stopped_entries sid entry w1).
  rewrite <- E2 in Ec', Ei', Et', Ep', Ek', Ee'.
  destruct (launched_fields entry (tracksActivity message) wrap' directory' sid
              (nextRef w) (prepared w))
    as (Ls & Lh & _ & _ & _ & _ & Lp & _). rewrite <- Ew in Ls, Lh, Lp.
  assert (Hs2 : entryStreams entry w2 = entryStreams entry w).
  { rewrite E2, stopped_streams, Es. now apply delete_insert_id. }
  assert (Hh2 : entryHeartbeats entry w2 = entryHeartbeats entry w).
  { rewrite E2, stopped_heartbeats. destruct (tracksActivity message).
    - destruct Eh as [-> _]. now apply delete_insert_id.
    - destruct Eh as [-> _]. now apply delete_id. }
  assert (Hc2 : controllers w2 = <[nextRef w := true]> (controllers w)).
  { rewrite Ec', Es, lookup_insert_eq, Ec. apply insert_insert_eq. }
  split.
  { intros e. destruct (decide (entry = e)) as [<-|Hne']; [exact Hs2|].
    rewrite (deregistered_streams sid entry e w1 w2 Ee'), decide_False by assumption.
    rewrite Ls, decide_False by assumption. reflexivity. }
  split.
  { intros e. destruct (decide (entry = e)) as [<-|Hne']; [exact Hh2|].
    rewrite (deregistered_heartbeats sid entry e w1 w2 Ee'), decide_False by assumption.
    rewrite Lh. destruct (tracksActivity message); [|reflexivity].
    rewrite decide_False by assumption. reflexivity. }
  split.
  { rewrite Ei'. destruct (tracksActivity message).
    - destruct Eh as [-> ->]. rewrite lookup_insert_eq. now apply delete_insert_id.
    - destruct Eh as [-> ->]. now rewrite Hfh. }
  split; [rewrite Ep', Lp; reflexivity|].
  split; [rewrite E2, stopped_posted; exact Eo|].
  split; [exact Hfc|]. split; [exact Hc2|].
  split; [rewrite Ek', Ek; reflexivity|].
  split; [rewrite E2, stopped_clock, Ew, launched_clock; reflexivity|].
  exists wrap, directory. cbv zeta.
  set (t := mkTask entry (nextRef w) sid (tracksActivity message) wrap directory [] []).
  assert (Ht2 : tasks w2 = <[tid := t]> (tasks w)) by (rewrite Et'; exact Et).
  assert (Ha : aborted (t_controller t) w2 = true).
  { unfold aborted. cbn [t t_controller]. now rewrite Hc2, lookup_insert_eq. }
  assert (Hl : tasks w2 !! tid = Some t) by (rewrite Ht2; apply lookup_insert_eq).
  destruct (cancelled_task_ends tid t w2 Hl Ha) as [Hrej Hset].
  split; [exact Ht2|]. split; [exact Ha|]. split; [exact Hrej|].
  intros r Hr. destruct (Hset r Hr) as [Ep Etid].
  split; [exact Ep|]. split; [|exact Etid].
  unfold flushMessages. apply last_snoc.
Qed.

End StartAndStop.

Section TaskEnd.
Context `{Platform}.

(** X7. However a stream task ends, it cleans up after itself: the task is
    gone, its entry lists neither the stream nor its heartbeat, and the
    interval of the heartbeat is cleared. A read that rejects posts the end
    message with the text of the error, or nothing when the stream was
    cancelled; a read that yields bytes after the cancellation drops the
    bytes and ends the stream like the end of the body, with the flush of
    the buffer and the end message. *)
Theorem stream_task_end (tid : Ref) (t : StreamTask) (r : ReadResult) (w : World) :
  tasks w !! tid = Some t ->
  endsTask t r w ->
  let w' := step (EvRead tid r) w in
  tasks w' !! tid = None
  /\ entryStreams (t_entry t) w' = delete (t_streamId t) (entryStreams (t_entry t) w)
  /\ entryHeartbeats (t_entry t) w'
     = delete (t_streamId t) (entryHeartbeats (t_entry t) w)
  /\ (forall tm, entryHeartbeats (t_entry t) w !! t_streamId t = Some tm ->
                 intervals w' !! tm = None)
  /\ controllers w' = controllers w
  /\ posted w' = posted w ++ lastWords t r w.
Proof.
  intros Ht Hend w'.
  assert (Hgen : forall w1 ms,
             tasks w1 = tasks w -> intervals w1 = intervals w ->
             controllers w1 = controllers w -> entries w1 = entries w ->
             posted w1 = posted w ++ ms ->
             let w2 := setTasks (delete tid (tasks (taskCleanup t w1))) (taskCleanup t w1) in
             tasks w2 !! tid = None
             /\ entryStreams (t_entry t) w2
                = delete (t_streamId t) (entryStreams (t_entry t) w)
             /\ entryHeartbeats (t_entry t) w2
                = delete (t_streamId t) (entryHeartbeats (t_entry t) w)
             /\ (forall tm, entryHeartbeats (t_entry t) w !! t_streamId t = Some tm ->
                            intervals w2 !! tm = None)
             /\ controllers w2 = controllers w
             /\ posted w2 = posted w ++ ms).
  { intros w1 ms Et Ei Ec Ee Eo w2.
    destruct (cleanup_others t w1) as (Ec' & Ei' & _).
    assert (Ee' := cleanup_entries t w1).
    assert (Es1 : entryStreams (t_entry t) w1 = entryStreams (t_entry t) w)
      by (unfold entryStreams; now rewrite Ee).
    assert (Eh1 : entryHeartbeats (t_entry t) w1 = entryHeartbeats (t_entry t) w)
      by (unfold entryHeartbeats; now rewrite Ee).
    split; [cbn; apply lookup_delete_eq|].
    split.
    { change (entryStreams (t_entry t) w2) with (entryStreams (t_entry t) (taskCleanup t w1)).
      rewrite (deregistered_streams _ _ _ w1 _ Ee'), decide_True by reflexivity.
      now rewrite Es1. }
    split.
    { change (entryHeartbeats (t_entry t) w2)
        with (entryHeartbeats (t_entry t) (taskCleanup t w1)).
      rewrite (deregistered_heartbeats _ _ _ w1 _ Ee'), decide_True by reflexivity.
      now rewrite Eh1. }
    split.
    { intros tm Hh. change (intervals w2) with (intervals (taskCleanup t w1)).
      rewrite Ei', Eh1, Hh. apply lookup_delete_eq. }
    split; [change (controllers w2) with (controllers (taskCleanup t w1)); congruence|].
    change (posted w2) with (posted (taskCleanup t w1)).
    now rewrite taskCleanup_posted. }
  assert (Hfinish :
    let w2 := setTasks (delete tid (tasks (taskFinish t w))) (taskFinish t w) in
    tasks w2 !! tid = None
    /\ entryStreams (t_entry t) w2 = delete (t_streamId t) (entryStreams (t_entry t) w)
    /\ entryHeartbeats (t_entry t) w2
       = delete (t_streamId t) (entryHeartbeats (t_entry t) w)
    /\ (forall tm, entryHeartbeats (t_entry t) w !! t_streamId t = Some tm ->
                   intervals w2 !! tm = None)
    /\ controllers w2 = controllers w
    /\ posted w2 = posted w ++ flushMessages t (clock w)).
  { destruct (taskFinish_cleanup t w)
      as (w1 & ms & E & Et & Ei & Ec & Ee & _ & _ & _ & Eo).
    assert (Ep := taskFinish_posted t w).
    rewrite E in *. rewrite taskCleanup_posted in Ep.
    apply (Hgen w1 (flushMessages t (clock w))); assumption. }
  unfold w'. cbn [step]. rewrite Ht.
  destruct r as [value | | error]; cbn [taskResume fst snd endsTask lastWords] in *.
  - rewrite Hend. cbn [fst snd]. exact Hfinish.
  - exact Hfinish.
  - destruct (taskFail_cleanup t error w)
      as (w1 & -> & Et & Ei & Ec & Ee & _ & _ & _ & Eo).
    now apply Hgen.
Qed.

End TaskEnd.

Section ShellFacts.
Context `{Platform}.

Lemma collectHeaders_snoc (headers : list (Str.t * Str.t)) (k v : Str.t) :
  _collectHeaders (headers ++ [(k, v)])
  = if bool_decide (k = js "__proto__") then _collectHeaders headers
    else <[k := v]> (_collectHeaders headers).
Proof. unfold _collectHeaders. now rewrite fold_left_app. Qed.

(** X8. The headers of the upstream response are collected by name, and where
    a name comes twice the later value stays: the value under a name other
    than [__proto__] is the value of the last pair with that name, and a
    name that no pair has is absent. The name [__proto__] is never in the
    result, whatever the pairs: the assignment to it makes no property. *)
Theorem collectHeaders_last_wins (headers : list (Str.t * Str.t)) (k : Str.t) :
  _collectHeaders headers !! k
  = if bool_decide (k = js "__proto__") then None
    else last (map snd (List.filter (fun kv => bool_decide (kv.1 = k)) headers)).
Proof.
  induction headers as [|[k' v'] headers IH] using rev_ind.
  { cbn. rewrite lookup_empty. now destruct (bool_decide _). }
  rewrite collectHeaders_snoc, List.filter_app, map_app.
  cbn [List.filter fst].
  destruct (decide (k' = js "__proto__")) as [Ep'|Ep'].
  - rewrite (bool_decide_eq_true_2 _ Ep'), IH.
    destruct (decide (k = js "__proto__")) as [Ep|Ep].
    + now rewrite (bool_decide_eq_true_2 _ Ep).
    + rewrite (bool_decide_eq_false_2 _ Ep).
      rewrite (bool_decide_eq_false_2 (k' = k)) by congruence.
      cbn [map]. now rewrite app_nil_r.
  - rewrite (bool_decide_eq_false_2 _ Ep'), lookup_insert.
    destruct (decide (k' = k)) as [E|E].
    + subst k'. rewrite (bool_decide_eq_false_2 _ Ep').
      rewrite (bool_decide_eq_true_2 (k = k)) by reflexivity. cbn [map snd].
      now rewrite last_snoc.
    + rewrite IH. rewrite (bool_decide_eq_false_2 (k' = k)) by assumption.
      cbn [map]. now rewrite app_nil_r.
Qed.

Lemma trim_length_nonempty (s : Str.t) :
  (0 <? length s)%nat = true -> s <> [].
Proof. destruct s; [discriminate | discriminate]. Qed.

Lemma sessionTitleOf_nonempty (title : option Str.t) : sessionTitleOf title <> [].
Proof.
  unfold sessionTitleOf. destruct title as [s|]; [|discriminate].
  destruct (0 <? length (Str.trim s))%nat eqn:E; [|discriminate].
  now apply trim_length_nonempty.
Qed.

(** X9. A session has one panel: [createOrShow] creates a panel for a session
    id that has none and registers it under the id; called again for the
    same id, whatever the title, it creates nothing and changes nothing in
    the provider, it only retitles and reveals the panel that exists. What
    is no non-empty string is ignored, and the title is never empty. *)
Theorem createOrShow_once (sessionId : JsVal) (title title' : option Str.t)
  (w : World) :
  let first := createOrShow sessionId title w in
  let second := createOrShow sessionId title' first.1 in
  (forall sid, asString sessionId = Some sid -> sid <> [] ->
     exists entry,
       _panels first.1 !! sid = Some entry
       /\ second = (first.1, [TitleSet entry (sessionTitleOf title');
                              Revealed entry])
       /\ (_panels w !! sid = Some entry -> first.1 = w)
       /\ (_panels w !! sid = None ->
           first = (_createPanel sid w,
                    [Created entry (sessionTitleOf title) (Some sid)])))
  /\ ((asString sessionId = None \/ asString sessionId = Some []) ->
      first = (w, []))
  /\ sessionTitleOf title <> [].
Proof.
  cbv zeta. split; [|split].
  - intros sid Hs Hne. destruct sid as [|c r]; [congruence|].
    assert (E : forall t w0,
               createOrShow sessionId t w0
               = match _panels w0 !! (c :: r) with
                 | Some existing =>
                     (w0, [TitleSet existing (sessionTitleOf t); Revealed existing])
                 | None =>
                     (_createPanel (c :: r) w0,
                      [Created (S (nextRef w0)) (sessionTitleOf t) (Some (c :: r))])
                 end).
    { intros t w0. unfold createOrShow. now rewrite Hs. }
    rewrite (E title w).
    destruct (_panels w !! (c :: r)) as [existing|] eqn:Hp; cbn [fst].
    + exists existing. split; [exact Hp|].
      split; [now rewrite E, Hp|].
      split; [reflexivity | discriminate].
    + exists (S (nextRef w)).
      assert (Hp' : _panels (_createPanel (c :: r) w) !! (c :: r) = Some (S (nextRef w))).
      { unfold _createPanel. cbn. apply lookup_insert_eq. }
      split; [exact Hp'|].
      split; [now rewrite E, Hp'|].
      split; [discriminate | reflexivity].
  - intros [Hs|Hs]; unfold createOrShow; now rewrite Hs.
  - apply sessionTitleOf_nonempty.
Qed.

End ShellFacts.

Section Dispatch.
Context `{Platform}.

Lemma start_posted (message : BridgeRequest) (entry : Ref) (env : StartEnv) (w : World) :
  posted (_startSseProxy message entry env w).2 = posted w.
Proof.
  destruct (start_states message entry env w)
    as [-> | [-> | (inject & wrap & directory & ->)]]; try reflexivity.
  destruct (launched_fields entry inject wrap directory
              (mintId (_sseCounter w + 1) (Date_now (clock w))) (nextRef w)
              (prepared w)) as (_ & _ & _ & _ & _ & _ & _ & _ & _ & Eo).
  exact Eo.
Qed.

Lemma start_outcome (message : BridgeRequest) (entry : Ref) (env : StartEnv) (w : World) :
  match (_startSseProxy message entry env w).1 with
  | Returns response =>
      res_id response = req_id message /\ res_type response = req_type message
      /\ success response = true
  | Throws _ =>
      (_startSseProxy message entry env w).2 = prepared w
  end.
Proof.
  unfold _startSseProxy.
  destruct (getApiUrl env) as [[|c0 rest]|]; cbn [fst snd]; auto.
  cbv zeta.
  destruct (URL_resolve _ _) as [targetUrl|error]; [|reflexivity].
  destruct (fetchWithFallback _ _ _ _ _) as [[response' wrap]|error]; cbn; auto.
  destruct (negb (ok response') || negb (hasBody response')); cbn; auto.
Qed.

(** X10. The message handler of a panel answers a request at most once and only
    the panel that sent it. A stop request is always answered, with the id
    and the type of the request and [success]; so is a start request whose
    handler returns, and one whose handler throws (the URL of the upstream
    cannot be built) stays unanswered, registers nothing and still has
    advanced the stream counter. [restartApi] is not answered. Every other
    request goes to the bridge, whose response is posted as it is; when the
    bridge rejects, nothing is posted. *)
Theorem requests_are_answered (entry : Ref) (env : StartEnv)
  (handleBridgeMessage : BridgeRequest -> Completion BridgeResponse)
  (message : BridgeRequest) (w : World) :
  let r := onDidReceiveMessage entry env handleBridgeMessage message w in
  (req_type message = js "restartApi" -> r = (w, [Restarted]))
  /\ (req_type message = js "api:sse:stop" ->
      posted r.1
      = posted w ++ [(entry, MsgResponse
                               (mkResponse (req_id message) (req_type message) true
                                           (StopData true)))]
      /\ r.2 = [])
  /\ (req_type message = js "api:sse:start" ->
      r.2 = []
      /\ match (_startSseProxy message entry env w).1 with
         | Returns response =>
             posted r.1 = posted w ++ [(entry, MsgResponse response)]
             /\ res_id response = req_id message
             /\ res_type response = req_type message
             /\ success response = true
         | Throws _ =>
             posted r.1 = posted w /\ entries r.1 = entries w
             /\ tasks r.1 = tasks w /\ intervals r.1 = intervals w
             /\ _sseCounter r.1 = _sseCounter w + 1
         end)
  /\ (req_type message <> js "restartApi" ->
      req_type message <> js "api:sse:start" ->
      req_type message <> js "api:sse:stop" ->
      r.2 = [Bridged message]
      /\ r.1 = match handleBridgeMessage message with
               | Returns response => postMessage entry (MsgResponse response) w
               | Throws _ => w
               end).
Proof.
  cbv zeta. unfold onDidReceiveMessage.
  split; [intros ->; reflexivity|].
  split.
  { intros E.
    rewrite (bool_decide_eq_false_2 (req_type message = js "restartApi"))
      by (rewrite E; vm_compute; discriminate).
    rewrite (bool_decide_eq_false_2 (req_type message = js "api:sse:start"))
      by (rewrite E; vm_compute; discriminate).
    rewrite bool_decide_eq_true_2 by assumption. cbn [fst snd].
    split; [|reflexivity]. rewrite stop_unfold. unfold respond. cbn [fst snd].
    cbn [postMessage posted]. f_equal.
    destruct (requestedStream message); [apply stopped_posted | reflexivity]. }
  split.
  { intros E.
    rewrite (bool_decide_eq_false_2 (req_type message = js "restartApi"))
      by (rewrite E; vm_compute; discriminate).
    rewrite bool_decide_eq_true_2 by assumption. cbn [fst snd].
    split; [reflexivity|].
    assert (Ho := start_outcome message entry env w).
    assert (Ep := start_posted message entry env w).
    unfold respond.
    destruct (_startSseProxy message entry env w) as [[response|error] w1];
      cbn [fst snd] in *.
    - split; [cbn; now rewrite Ep | exact Ho].
    - subst w1. repeat split. }
  intros N1 N2 N3.
  rewrite !bool_decide_eq_false_2 by assumption.
  split; [reflexivity|]. unfold respond. cbn [fst snd].
  destruct (handleBridgeMessage message); reflexivity.
Qed.

End Dispatch.

Section Status.
Context `{Platform}.

Lemma filter_absent (e : Ref) (es : list Ref) :
  e ∉ es -> List.filter (fun e' => (e' =? e)%nat) es = [].
Proof.
  induction es as [|x es IH]; [reflexivity|].
  intros Hn. apply not_elem_of_cons in Hn as [Hx Hes]. cbn.
  destruct (Nat.eqb_spec x e); [congruence | now apply IH].
Qed.

Lemma filter_single (e : Ref) (es : list Ref) :
  NoDup es -> e ∈ es -> List.filter (fun e' => (e' =? e)%nat) es = [e].
Proof.
  induction 1 as [|x es Hx Hnd IH]; [now intros ?%elem_of_nil|].
  intros Hin. cbn. destruct (Nat.eqb_spec x e) as [->|Hne].
  - now rewrite filter_absent.
  - apply IH. apply elem_of_cons in Hin as [->|Hin]; [congruence | exact Hin].
Qed.

Lemma postedTo_broadcast (e : Ref) (message : Message) (es : list Ref) (w w' : World) :
  posted w' = posted w ++ map (fun e' => (e', message)) es ->
  postedTo e w'
  = postedTo e w ++ map (fun _ => message) (List.filter (fun e' => (e' =? e)%nat) es).
Proof.
  intros E. unfold postedTo. rewrite E, List.filter_app, map_app. f_equal.
  clear E. induction es as [|x es IH]; [reflexivity|].
  cbn. destruct (x =? e)%nat; cbn; now rewrite IH.
Qed.

Lemma panels_NoDup (w : World) :
  Inv w -> NoDup (map snd (map_to_list (_panels w))).
Proof.
  intros HI. apply NoDup_fmap_2_strong; [|apply NoDup_map_to_list].
  intros [pid e] [pid' e'] Hin Hin' Heq. cbn in Heq. subst e'.
  apply elem_of_map_to_list in Hin, Hin'.
  now rewrite (inv_panels_inj w HI pid pid' e Hin Hin').
Qed.

Lemma sendAll_cache (es : list Ref) (w0 : World) :
  let w1 := fold_left (fun w entry => _sendCachedStateToPanel entry w) es w0 in
  _cachedStatus w1 = _cachedStatus w0 /\ _cachedError w1 = _cachedError w0.
Proof.
  revert w0; induction es as [|x es IH]; intros w0; [now split|]. cbn [fold_left].
  destruct (IH (_sendCachedStateToPanel x w0)) as [E1 E2]. cbv zeta in *.
  now rewrite E1, E2.
Qed.

(** X11. A change of the connection status reaches every panel once: in every
    state that the provider reaches, each registered panel receives exactly
    one [connectionStatus] message with the new status and error, no other
    panel receives anything, and no stream is touched; a panel that is
    created afterwards starts with that status. *)
Theorem status_reaches_every_panel (history : list Event) (status : Str.t)
  (error : option Str.t) :
  let w := run history initialWorld in
  let w' := updateConnectionStatus status error w in
  (forall pid e, _panels w !! pid = Some e ->
                 postedTo e w' = postedTo e w ++ [MsgConnectionStatus status error])
  /\ (forall e, (forall pid, _panels w !! pid <> Some e) ->
                postedTo e w' = postedTo e w)
  /\ entries w' = entries w /\ tasks w' = tasks w /\ intervals w' = intervals w
  /\ controllers w' = controllers w
  /\ (forall pid,
        _panels (_createPanel pid w') !! pid = Some (S (nextRef w'))
        /\ posted (_createPanel pid w')
           = posted w' ++ [(S (nextRef w'), MsgConnectionStatus status error)]).
Proof.
  intros w w'. destruct (Owned_reachable history) as [HI _]. fold w in HI.
  unfold w', updateConnectionStatus. cbv zeta.
  match goal with |- context [fold_left _ ?es ?w0] =>
    destruct (status_fields es w0) as (Et & Ei & Ec & Ee & Ep & En & Ek & Eo);
    set (w1 := fold_left _ es w0) in * end.
  cbv zeta in *. cbn in Et, Ei, Ec, Ee, Ep, En, Ek, Eo.
  assert (Hcache : _cachedStatus w1 = status /\ _cachedError w1 = error).
  { unfold w1. match goal with |- context [fold_left _ ?es ?w0] =>
      destruct (sendAll_cache es w0) as [-> ->] end. now split. }
  split.
  { intros pid e Hp. rewrite (postedTo_broadcast e _ _ w w1 Eo).
    rewrite filter_single; [reflexivity | now apply panels_NoDup |].
    apply elem_of_values. now exists pid. }
  split.
  { intros e Hn. rewrite (postedTo_broadcast e _ _ w w1 Eo).
    rewrite filter_absent; [apply app_nil_r|].
    intros [pid Hp]%elem_of_values. now apply (Hn pid). }
  repeat (split; [assumption|]).
  intros pid. unfold _createPanel. cbn. destruct Hcache as [-> ->].
  split; [apply lookup_insert_eq | reflexivity].
Qed.

End Status.

Section SyntheticFacts.
Context `{Platform} {laws : JsonLaws}.

Lemma decode_by_text (block : Str.t) :
  payloadTextOf block <> [] ->
  parseSseDataPayload block
  = match JSON_parse (payloadTextOf block) with
    | Some parsed =>
        if isObjectOrArray parsed then
          match getProp parsed (js "payload") with
          | Some p => if isObjectOrArray p then p else parsed
          | None => parsed
          end
        else JNull
    | None => JNull
    end.
Proof.
  intros Hne. destruct (payloadText_nonempty block Hne) as [Hb Hd].
  unfold parseSseDataPayload.
  rewrite bool_decide_eq_false_2 by assumption.
  destruct (dataLinesOf block) as [|l ls] eqn:E; [congruence|].
  cbn [length Nat.eqb]. rewrite <- E. fold (payloadTextOf block).
  rewrite bool_decide_eq_false_2 by assumption.
  destruct (JSON_parse (payloadTextOf block)) as [parsed|]; [|reflexivity].
  rewrite isObjectOrArray_spec. destruct (isObjectOrArray parsed); [|reflexivity].
  rewrite nested_spec. destruct (getProp parsed (js "payload")); reflexivity.
Qed.

Lemma stringified_object_nonempty (props : list (Str.t * JValue)) :
  JSON_stringify (JObject props) <> [].
Proof.
  destruct (stringify_object_braces props) as [body ->]. discriminate.
Qed.

(** X12. Wrapping does not hide a payload from the decoder: where [JSON.parse]
    reads back the serialized envelope, the wrapped block decodes to the
    payload of the block itself when that is an object or an array, and to
    the envelope with [payload: null] otherwise; either way the wrapped
    block announces the activity that the block announces. *)
Theorem decode_of_wrapped (directory block : Str.t) :
  JSON_parse (JSON_stringify (envelope directory (parseSseDataPayload block)))
  = Some (envelope directory (parseSseDataPayload block)) ->
  parseSseDataPayload (wrapBlock directory block)
  = (if isObjectOrArray (parseSseDataPayload block) then parseSseDataPayload block
     else envelope directory JNull)
  /\ deriveSessionActivity (parseSseDataPayload (wrapBlock directory block))
     = deriveSessionActivity (parseSseDataPayload block).
Proof.
  intros Hrt.
  assert (E : parseSseDataPayload (wrapBlock directory block)
              = if isObjectOrArray (parseSseDataPayload block)
                then parseSseDataPayload block else envelope directory JNull).
  { rewrite decode_by_text;
      rewrite wrapBlock_payloadText; [|apply stringified_object_nonempty].
    rewrite Hrt. cbn [isObjectOrArray envelope getProp].
    assert (Ep : assoc (js "payload")
                   [ (js "directory", JString directory);
                     (js "payload", parseSseDataPayload block) ]
                 = Some (parseSseDataPayload block)).
    { cbn [assoc]. literals. reflexivity. }
    rewrite Ep.
    destruct (decode_result_kind block) as [En|Eo].
    - rewrite En. reflexivity.
    - now rewrite Eo. }
  split; [exact E|]. rewrite E.
  destruct (decode_result_kind block) as [En|Eo].
  - rewrite En. cbn [isObjectOrArray]. unfold deriveSessionActivity, envelope.
    cbn [truthy isObjectType typeof negb orb getProp assoc]. literals.
    reflexivity.
  - now rewrite Eo.
Qed.

Lemma literal_event_free : Str.LF ∉ js "event: message".
Proof.
  intros Hin. vm_compute in Hin.
  repeat (apply elem_of_cons in Hin as [Hin|Hin]; [discriminate|]).
  now apply elem_of_nil in Hin.
Qed.

Lemma eventBlock_payloadText (text : Str.t) :
  Str.LF ∉ text -> (exists body, text = 123 :: body ++ [125]) ->
  payloadTextOf (Str.join [Str.LF] [js "event: message"; js "data: " ++ text]) = text.
Proof.
  intros Hfree [body ->]. unfold payloadTextOf, dataLinesOf.
  rewrite split_join_lines; [|discriminate|].
  - cbn. apply trim_braces.
  - constructor; [apply literal_event_free|]. constructor; [|constructor].
    rewrite not_elem_of_app. split; [apply literal_data_free | exact Hfree].
Qed.

Lemma activityBlock_eq (activity : SessionActivity) (tick : nat) :
  (buildActivityEventBlock activity tick).1
  = Str.join [Str.LF]
      [js "event: message"; js "data: " ++ JSON_stringify (activityObject activity tick)].
Proof. reflexivity. Qed.

Lemma heartbeatBlock_eq (tick : nat) :
  (buildHeartbeatEventBlock tick).1
  = Str.join [Str.LF]
      [js "event: message"; js "data: " ++ JSON_stringify (heartbeatObject tick)].
Proof. reflexivity. Qed.

(** X13. The synthetic blocks are inert: where [JSON.parse] reads back what
    [JSON.stringify] wrote, an activity block and a heartbeat block decode
    to their own objects, and neither announces an activity, so that the
    expansion of a synthetic block injects nothing. *)
Theorem synthetic_blocks_are_inert (activity : SessionActivity) (tick tick' : nat) :
  JSON_parse (JSON_stringify (activityObject activity tick))
  = Some (activityObject activity tick) ->
  JSON_parse (JSON_stringify (heartbeatObject tick))
  = Some (heartbeatObject tick) ->
  parseSseDataPayload (buildActivityEventBlock activity tick).1
  = activityObject activity tick
  /\ parseSseDataPayload (buildHeartbeatEventBlock tick).1 = heartbeatObject tick
  /\ deriveSessionActivity (activityObject activity tick) = None
  /\ deriveSessionActivity (heartbeatObject tick) = None
  /\ expandSseBlocksWithActivity
       [ (buildActivityEventBlock activity tick).1;
         (buildHeartbeatEventBlock tick).1 ] tick'
     = ([ (buildActivityEventBlock activity tick).1;
          (buildHeartbeatEventBlock tick).1 ], tick').
Proof.
  intros Ha Hh.
  assert (Ea : parseSseDataPayload (buildActivityEventBlock activity tick).1
               = activityObject activity tick).
  { rewrite activityBlock_eq, decode_by_text;
      rewrite eventBlock_payloadText;
      try apply stringify_single_line; try apply stringify_object_braces;
      try apply stringified_object_nonempty.
    rewrite Ha. cbn [isObjectOrArray activityObject getProp assoc]. literals.
    reflexivity. }
  assert (Eh : parseSseDataPayload (buildHeartbeatEventBlock tick).1
               = heartbeatObject tick).
  { rewrite heartbeatBlock_eq, decode_by_text;
      rewrite eventBlock_payloadText;
      try apply stringify_single_line; try apply stringify_object_braces;
      try apply stringified_object_nonempty.
    rewrite Hh. cbn [isObjectOrArray heartbeatObject getProp assoc]. literals.
    reflexivity. }
  assert (Da : deriveSessionActivity (activityObject activity tick) = None).
  { unfold deriveSessionActivity, activityObject.
    cbn [truthy isObjectType typeof negb orb getProp assoc]. literals.
    cbn [isStr]. literals. reflexivity. }
  assert (Dh : deriveSessionActivity (heartbeatObject tick) = None).
  { unfold deriveSessionActivity, heartbeatObject.
    cbn [truthy isObjectType typeof negb orb getProp assoc]. literals.
    cbn [isStr]. literals. reflexivity. }
  repeat (split; [assumption|]).
  unfold expandSseBlocksWithActivity. cbn [fold_left]. unfold expandStep.
  cbn [fst snd]. rewrite Ea, Da. cbn [fst snd app]. now rewrite Eh, Dh.
Qed.

End SyntheticFacts.

Section ExpansionFacts.
Context `{Platform}.

Lemma expand_fold (blocks : list Str.t) (acc : list Str.t) (tick : nat) :
  (fold_left expandStep blocks (acc, tick)).1 = acc ++ interleaved blocks tick
  /\ (fold_left expandStep blocks (acc, tick)).2
     = (tick + length (announcing blocks))%nat.
Proof.
  revert acc tick; induction blocks as [|b bs IH]; intros acc tick.
  - cbn. rewrite app_nil_r. split; [reflexivity | lia].
  - cbn [fold_left interleaved]. unfold announcing. cbn [List.filter].
    fold (announcing bs). unfold expandStep at 2 4. cbn [fst snd].
    destruct (deriveSessionActivity (parseSseDataPayload b)) as [a|].
    + destruct (IH ((acc ++ [b]) ++ [(buildActivityEventBlock a tick).1]) (S tick))
        as [E1 E2].
      cbn [buildActivityEventBlock fst snd] in *. rewrite E1, E2.
      split; [now rewrite <- !app_assoc | cbn [length]; lia].
    + destruct (IH (acc ++ [b]) tick) as [E1 E2]. rewrite E1, E2.
      split; [now rewrite <- !app_assoc | reflexivity].
Qed.

Lemma interleaved_length (blocks : list Str.t) (tick : nat) :
  length (interleaved blocks tick)
  = (length blocks + length (announcing blocks))%nat.
Proof.
  revert tick; induction blocks as [|b bs IH]; intros tick; [reflexivity|].
  cbn [interleaved]. unfold announcing. cbn [List.filter]. fold (announcing bs).
  destruct (deriveSessionActivity (parseSseDataPayload b)); cbn [length];
    rewrite IH; lia.
Qed.

Lemma interleaved_quiet (blocks : list Str.t) (tick : nat) :
  announcing blocks = [] -> interleaved blocks tick = blocks.
Proof.
  induction blocks as [|b bs IH]; [reflexivity|].
  cbn [interleaved]. unfold announcing. cbn [List.filter]. fold (announcing bs).
  destruct (deriveSessionActivity (parseSseDataPayload b)); [discriminate|].
  intros E. now rewrite IH.
Qed.

(** X14. The expansion interleaves and loses nothing: every block of the batch
    is emitted, in order, and a block that announces an activity is
    directly followed by its activity block, stamped with one reading of
    the clock each; so the expansion is longer than the batch by the number
    of announcing blocks, and a batch without any is emitted as it is,
    without a reading of the clock. *)
Theorem expansion_interleaves (blocks : list Str.t) (tick : nat) :
  let out := expandSseBlocksWithActivity blocks tick in
  out.1 = interleaved blocks tick
  /\ out.2 = (tick + length (announcing blocks))%nat
  /\ length out.1 = (length blocks + length (announcing blocks))%nat
  /\ (announcing blocks = [] -> out = (blocks, tick)).
Proof.
  cbv zeta. unfold expandSseBlocksWithActivity.
  destruct (expand_fold blocks [] tick) as [E1 E2]. cbn [app] in E1.
  split; [exact E1|]. split; [exact E2|].
  split; [rewrite E1; apply interleaved_length|].
  intros Hq.
  destruct (fold_left expandStep blocks ([], tick)) as [o k]. cbn [fst snd] in *.
  rewrite E1, E2, Hq, interleaved_quiet by assumption. cbn [length]. f_equal. lia.
Qed.

End ExpansionFacts.

Section FinalityFacts.
Context `{Platform}.

Lemma ended_app (sid : Str.t) (l n : list (Ref * Message)) :
  ended sid (l ++ n) <-> ended sid l \/ ended sid n.
Proof.
  unfold ended. split.
  - intros (e & err & [Hin|Hin]%elem_of_app); [left|right]; eauto.
  - intros [(e & err & Hin)|(e & err & Hin)]; exists e, err;
      apply elem_of_app; auto.
Qed.

Lemma ended_quiet (sid : Str.t) (n : list (Ref * Message)) :
  Forall (fun m => isEnd m.2 = false) n -> ~ ended sid n.
Proof.
  intros Hn (e & err & Hin). rewrite Forall_forall in Hn.
  now apply Hn in Hin.
Qed.

Lemma finalLog_quiet (n : list (Ref * Message)) :
  Forall (fun m => isEnd m.2 = false) n -> finalLog n.
Proof.
  induction 1 as [|m n Hm Hn IH]; cbn; [exact I|].
  split; [congruence | exact IH].
Qed.

Lemma finalLog_app (l n : list (Ref * Message)) :
  finalLog l -> finalLog n ->
  (forall sid, ended sid l -> Forall (fun m => streamOf m.2 <> Some sid) n) ->
  finalLog (l ++ n).
Proof.
  induction l as [|m l IH]; intros Hl Hn Hx; [exact Hn|].
  cbn in Hl. destruct Hl as [Hm Hl]. cbn. split.
  - intros He. apply Forall_app. split; [now apply Hm|].
    destruct m as [e [| | |sid err]]; try discriminate. cbn.
    apply (Hx sid). exists e, err. apply list_elem_of_here.
  - apply IH; [exact Hl | exact Hn|].
    intros sid (e & err & Hin). apply Hx. exists e, err.
    now apply list_elem_of_further.
Qed.

Lemma finalLog_split (before after : list (Ref * Message)) (e : Ref)
  (sid : Str.t) (err : option Str.t) :
  finalLog (before ++ (e, MsgEnd sid err) :: after) ->
  Forall (fun m => streamOf m.2 <> Some sid) after.
Proof.
  induction before as [|m before IH]; cbn.
  - intros [Hm _]. now apply Hm.
  - intros [_ Hl]. now apply IH.
Qed.

Lemma Terminal_initial : Terminal initialWorld.
Proof.
  split; cbn.
  - exact I.
  - intros tid t. now rewrite lookup_empty.
  - intros tm h. now rewrite lookup_empty.
  - intros sid (e & err & Hin). now apply elem_of_nil in Hin.
  - intros tm h tid t. now rewrite lookup_empty.
Qed.

(** A transition that ends no stream: it starts none either, and what it
    posts belongs to no stream or to one that has not ended. *)
Lemma Terminal_extend (w w' : World) (news : list (Ref * Message)) :
  Terminal w ->
  (forall tid t', tasks w' !! tid = Some t' ->
     exists t, tasks w !! tid = Some t /\ t_streamId t' = t_streamId t
               /\ t_entry t' = t_entry t) ->
  (forall tm h, intervals w' !! tm = Some h -> intervals w !! tm = Some h) ->
  _sseCounter w <= _sseCounter w' ->
  posted w' = posted w ++ news ->
  Forall (fun m => isEnd m.2 = false
                   /\ forall sid, streamOf m.2 = Some sid -> ~ ended sid (posted w))
         news ->
  Terminal w'.
Proof.
  intros [T1 T2 T3 T4 T5] Ht Hi Hk Ep Hn.
  assert (Hq : Forall (fun m => isEnd m.2 = false) news)
    by (eapply Forall_impl; [exact Hn | now intros m [? _]]).
  assert (He : forall sid, ended sid (posted w') -> ended sid (posted w)).
  { intros sid. rewrite Ep, ended_app. intros [?|Hx]; [assumption|].
    now apply ended_quiet in Hx. }
  split.
  - rewrite Ep. apply finalLog_app; [exact T1 | now apply finalLog_quiet|].
    intros sid Hs. eapply Forall_impl; [exact Hn|].
    intros m [_ Hm] E. now apply (Hm sid).
  - intros tid t' Ht' Hx. destruct (Ht tid t' Ht') as (t & Ht0 & Es & _).
    rewrite Es in Hx. apply (T2 tid t Ht0). now apply He.
  - intros tm h Hh Hx. apply (T3 tm h); [now apply Hi | now apply He].
  - intros sid Hx. apply (minted_mono w); [exact Hk|]. apply T4. now apply He.
  - intros tm h tid t' Hh Ht' E. destruct (Ht tid t' Ht') as (t & Ht0 & Es & Ee).
    rewrite Ee. apply (T5 tm h tid t); [now apply Hi | exact Ht0 | congruence].
Qed.

(** The task [tid] ends with its end message, after what is left of its
    stream; its interval is cleared. *)
Lemma Terminal_end (w w' : World) (tid : Ref) (t : StreamTask)
  (pre : list (Ref * Message)) (err : option Str.t) :
  Inv w -> Terminal w -> tasks w !! tid = Some t ->
  (forall tid' t', tasks w' !! tid' = Some t' ->
     tid' <> tid /\ tasks w !! tid' = Some t') ->
  (forall tm h, intervals w' !! tm = Some h ->
     intervals w !! tm = Some h
     /\ entryHeartbeats (t_entry t) w !! t_streamId t <> Some tm) ->
  _sseCounter w <= _sseCounter w' ->
  posted w' = posted w ++ pre ++ [(t_entry t, MsgEnd (t_streamId t) err)] ->
  Forall (fun m => isEnd m.2 = false /\ streamOf m.2 = Some (t_streamId t)) pre ->
  Terminal w'.
Proof.
  intros HI [T1 T2 T3 T4 T5] Ht0 Ht Hi Hk Ep Hpre.
  set (sid := t_streamId t) in *.
  assert (Hlive : ~ ended sid (posted w)) by exact (T2 tid t Ht0).
  assert (He : forall s, ended s (posted w') -> ended s (posted w) \/ s = sid).
  { intros s. rewrite Ep, !ended_app. intros [?|[Hx|Hx]]; [now left | |].
    - exfalso. revert Hx. apply ended_quiet.
      eapply Forall_impl; [exact Hpre | now intros m [? _]].
    - destruct Hx as (e & er & Hin). apply list_elem_of_singleton in Hin.
      right. congruence. }
  split.
  - rewrite Ep. apply finalLog_app; [exact T1 | |].
    + apply finalLog_app.
      * apply finalLog_quiet. eapply Forall_impl; [exact Hpre | now intros m [? _]].
      * cbn. split; [intros _; constructor | exact I].
      * intros s Hx. exfalso. revert Hx. apply ended_quiet.
        eapply Forall_impl; [exact Hpre | now intros m [? _]].
    + intros s Hs. apply Forall_app. split.
      * eapply Forall_impl; [exact Hpre|]. intros m [_ Em]. rewrite Em.
        intros [= <-]. now apply Hlive.
      * constructor; [|constructor]. cbn. intros [= <-]. now apply Hlive.
  - intros tid' t' Ht' Hx. destruct (Ht tid' t' Ht') as [Hne Ht1].
    apply He in Hx as [Hx|Hx]; [now apply (T2 tid' t' Ht1)|].
    apply Hne. now apply (inv_unique w HI tid' tid t' t).
  - intros tm h Hh Hx. destruct (Hi tm h Hh) as [Hh0 Hno].
    apply He in Hx as [Hx|Hx]; [now apply (T3 tm h Hh0)|].
    apply Hno. rewrite <- (T5 tm h tid t Hh0 Ht0 Hx). fold sid. rewrite <- Hx.
    now apply (inv_intervals w HI).
  - intros s Hx. apply (minted_mono w); [exact Hk|].
    apply He in Hx as [Hx| ->]; [now apply T4|]. now apply (inv_minted w HI tid t).
  - intros tm h tid' t' Hh Ht' E. destruct (Ht tid' t' Ht') as [_ Ht1].
    destruct (Hi tm h Hh) as [Hh0 _]. now apply (T5 tm h tid' t').
Qed.

(** A stream that starts has an id that no message carries yet. *)
Lemma Terminal_launched (entry : Ref) (inject wrap : bool) (directory : Str.t)
  (z : Z) (w : World) :
  Inv w -> Terminal w ->
  Terminal (launched entry inject wrap directory (mintId (_sseCounter w + 1) z)
              (nextRef w) (prepared w)).
Proof.
  intros HI [T1 T2 T3 T4 T5].
  set (sid := mintId (_sseCounter w + 1) z).
  set (wp := prepared w).
  set (w' := launched entry inject wrap directory sid (nextRef w) wp).
  destruct (launched_fields entry inject wrap directory sid (nextRef w) wp)
    as (_ & _ & _ & Ei & Et & _ & _ & Ek & _ & Ep). fold w' in Ei, Et, Ek, Ep.
  assert (Epw : posted w' = posted w) by (rewrite Ep; reflexivity).
  assert (Eiw : intervals wp = intervals w) by reflexivity.
  assert (Etw : tasks wp = tasks w) by reflexivity.
  assert (Hfresh : ~ minted w sid) by apply minted_fresh.
  assert (Hi : forall tm h, intervals w' !! tm = Some h ->
             (inject = true /\ h = mkHeartbeat (nextRef w) entry sid)
             \/ intervals w !! tm = Some h).
  { intros tm h. rewrite Ei, Eiw. destruct inject; [|auto].
    rewrite lookup_insert. case_decide; [intros [= <-]; auto | auto]. }
  assert (Ht : forall tid t, tasks w' !! tid = Some t ->
             t = mkTask entry (nextRef w) sid inject wrap directory [] []
             \/ tasks w !! tid = Some t).
  { intros tid t. rewrite Et, Etw, lookup_insert.
    case_decide; [intros [= <-]; auto | auto]. }
  split.
  - now rewrite Epw.
  - intros tid t Ht'. rewrite Epw. apply Ht in Ht' as [->|Ht'].
    + cbn. intros Hx. now apply Hfresh, T4.
    + now apply (T2 tid).
  - intros tm h Hh. rewrite Epw. apply Hi in Hh as [[_ ->]|Hh].
    + cbn. intros Hx. now apply Hfresh, T4.
    + now apply (T3 tm).
  - intros s. rewrite Epw. intros Hx. apply (minted_mono w); [|now apply T4].
    rewrite Ek. cbn. lia.
  - intros tm h tid t Hh Ht' E.
    apply Hi in Hh as [[_ ->]|Hh]; apply Ht in Ht' as [->|Ht']; cbn in *.
    + reflexivity.
    + exfalso. apply Hfresh. rewrite E. now apply (inv_minted w HI tid t).
    + exfalso. apply Hfresh. rewrite <- E. now apply (inv_minted_hb w HI tm h).
    + now apply (T5 tm h tid t).
Qed.

Lemma tasks_same (w w' : World) :
  tasks w' = tasks w ->
  forall tid t', tasks w' !! tid = Some t' ->
    exists t, tasks w !! tid = Some t /\ t_streamId t' = t_streamId t
              /\ t_entry t' = t_entry t.
Proof. intros -> tid t' Ht. exists t'. auto. Qed.

Lemma Terminal_shrinks (w w' : World) :
  Terminal w -> Shrinks w w' -> tasks w' = tasks w -> posted w' = posted w ->
  Terminal w'.
Proof.
  intros HT (_ & _ & Hi & _ & _ & Hk) Et Ep.
  apply (Terminal_extend w w' []);
    [exact HT | now apply tasks_same | exact Hi | exact Hk
    | now rewrite app_nil_r | constructor].
Qed.

Lemma Terminal_respond (entry : Ref) (r : Completion BridgeResponse * World) :
  Terminal r.2 -> Terminal (respond entry r).
Proof.
  intros HT. unfold respond. destruct r.1 as [response|error]; [|exact HT].
  apply (Terminal_extend r.2 _ [(entry, MsgResponse response)]);
    [exact HT | now apply tasks_same | auto | cbn; lia | reflexivity |].
  constructor; [|constructor]. split; [reflexivity | discriminate].
Qed.

Lemma Terminal_step (ev : Event) (w : World) :
  Inv w -> Terminal w -> Terminal (step ev w).
Proof.
  intros HI HT.
  destruct ev as [pid | pid | entry message env | entry message
                  | tm | tid r | status error]; cbn [step].
  - apply (Terminal_extend w _
             [(S (nextRef w), MsgConnectionStatus (_cachedStatus w) (_cachedError w))]);
      [exact HT | now apply tasks_same | auto | cbn; lia | reflexivity |].
    constructor; [|constructor]. split; [reflexivity | discriminate].
  - apply (Terminal_shrinks w); [exact HT | apply disposed_shrinks | |].
    + destruct (_panels w !! pid) as [entry|] eqn:Hp;
        [|unfold _disposePanel; now rewrite Hp].
      now destruct (dispose_fields pid entry w Hp) as (_ & _ & _ & Et & _).
    + destruct (_panels w !! pid) as [entry|] eqn:Hp;
        [|unfold _disposePanel; now rewrite Hp].
      now destruct (dispose_fields pid entry w Hp) as (_ & _ & _ & _ & _ & _ & _ & Ep).
  - destruct (entries w !! entry) eqn:He; [|exact HT].
    apply Terminal_respond.
    destruct (start_states message entry env w)
      as [-> | [-> | (inject & wrap & directory & ->)]].
    + exact HT.
    + apply (Terminal_shrinks w); [exact HT | apply prepared_shrinks | |]; reflexivity.
    + now apply Terminal_launched.
  - destruct (entries w !! entry) eqn:He; [|exact HT].
    apply Terminal_respond. rewrite stop_unfold. cbn [snd].
    destruct (requestedStream message) as [sid|]; [|exact HT].
    apply (Terminal_shrinks w); [exact HT | apply stopped_shrinks | |].
    + now destruct (stopped_others sid entry w) as (_ & _ & Et & _).
    + apply stopped_posted.
  - destruct (intervals w !! tm) as [h|] eqn:Hh; [|exact HT].
    unfold heartbeatTick. destruct (aborted (hb_controller h) w); [exact HT|].
    cbv zeta.
    match goal with |- Terminal (postMessage ?e ?m ?w0) =>
      apply (Terminal_extend w _ [(e, m)]);
        [exact HT | now apply tasks_same | auto | cbn; lia | reflexivity |]
    end.
    constructor; [|constructor]. split; [reflexivity|].
    cbn. intros sid [= <-]. now apply (term_intervals w HT tm h).
  - destruct (tasks w !! tid) as [t|] eqn:Ht; [|exact HT].
    assert (Hend : forall w1 pre err,
              tasks w1 = tasks w -> intervals w1 = intervals w ->
              entries w1 = entries w -> _sseCounter w1 = _sseCounter w ->
              posted w1 = posted w ++ pre ++ [(t_entry t, MsgEnd (t_streamId t) err)] ->
              Forall (fun m => isEnd m.2 = false
                               /\ streamOf m.2 = Some (t_streamId t)) pre ->
              Terminal (setTasks (delete tid (tasks (taskCleanup t w1)))
                          (taskCleanup t w1))).
    { intros w1 pre err Et Ei Ee Ek Ep Hpre.
      destruct (cleanup_others t w1) as (_ & Ei' & Et' & _ & _ & Ek').
      assert (Eh1 : entryHeartbeats (t_entry t) w1 = entryHeartbeats (t_entry t) w)
        by (unfold entryHeartbeats; now rewrite Ee).
      apply (Terminal_end w _ tid t pre err); [exact HI | exact HT | exact Ht | | | | | exact Hpre].
      - cbn. intros tid' t'. rewrite Et', Et.
        now intros [? ?]%lookup_delete_Some.
      - cbn. intros tm h. rewrite Ei', Eh1, Ei.
        destruct (entryHeartbeats (t_entry t) w !! t_streamId t) as [tm0|].
        + intros [Hne Hh]%lookup_delete_Some. split; [exact Hh | congruence].
        + intros Hh. split; [exact Hh | discriminate].
      - cbn. rewrite Ek', Ek. lia.
      - cbn. rewrite taskCleanup_posted. exact Ep. }
    assert (Hfinish : Terminal
              (setTasks (delete tid (tasks (taskFinish t w))) (taskFinish t w))).
    { destruct (taskFinish_cleanup t w)
        as (w1 & ms & E & Et & Ei & _ & Ee & _ & _ & Ek & _).
      assert (Ep := taskFinish_posted t w).
      rewrite E in *. rewrite taskCleanup_posted in Ep.
      unfold flushMessages in Ep.
      apply (Hend w1 _ None Et Ei Ee Ek Ep).
      case_bool_decide; [constructor|].
      destruct (shouldInjectActivity t); (constructor; [|constructor]);
        split; reflexivity. }
    destruct r as [value | | error]; cbn [taskResume fst snd].
    + destruct (aborted (t_controller t) w); cbn [fst snd]; [exact Hfinish|].
      rewrite taskChunk_trace. cbn [fst snd].
      destruct (afterChunk_same t value) as (Ee & _ & Es & _).
      assert (Hts : forall w1, tasks w1 = tasks w ->
                forall tid' t', <[tid := afterChunk t value]> (tasks w1) !! tid' = Some t' ->
                  exists t0, tasks w !! tid' = Some t0
                             /\ t_streamId t' = t_streamId t0
                             /\ t_entry t' = t_entry t0).
      { intros w1 -> tid' t'. rewrite lookup_insert. case_decide.
        - subst tid'. intros [= <-]. exists t. auto.
        - intros Ht'. exists t'. auto. }
      destruct (isNonEmpty _).
      * match goal with |- Terminal (setTasks _ (postMessage ?e ?m ?w0)) =>
          apply (Terminal_extend w _ [(e, m)]);
            [exact HT | now apply Hts | auto | cbn; lia | reflexivity |]
        end.
        constructor; [|constructor]. split; [reflexivity|].
        cbn. intros sid [= <-]. now apply (term_tasks w HT tid t).
      * apply (Terminal_extend w _ []);
          [exact HT | now apply Hts | auto | cbn; lia
          | cbn; now rewrite app_nil_r | constructor].
    + exact Hfinish.
    + destruct (taskFail_cleanup t error w)
        as (w1 & -> & Et & Ei & _ & Ee & _ & _ & Ek & Ep).
      destruct (aborted (t_controller t) w).
      * destruct (cleanup_others t w1) as (_ & Ei' & Et' & _ & _ & Ek').
        apply (Terminal_extend w _ []); [exact HT | | | | | constructor].
        -- cbn. intros tid' t'. rewrite Et', Et.
           intros [_ Ht']%lookup_delete_Some. exists t'. auto.
        -- cbn. intros tm h. rewrite Ei', Ei.
           destruct (entryHeartbeats (t_entry t) w1 !! t_streamId t); [|auto].
           now intros [_ Hh]%lookup_delete_Some.
        -- cbn. rewrite Ek', Ek. lia.
        -- cbn. now rewrite taskCleanup_posted.
      * apply (Hend w1 [] (Some (messageTextOf error))); auto.
  - unfold updateConnectionStatus. cbv zeta.
    match goal with |- Terminal (fold_left _ ?es ?w0) =>
      destruct (status_fields es w0) as (Et & Ei & _ & _ & _ & _ & Ek & Ep);
      apply (Terminal_extend w _
               (map (fun e => (e, MsgConnectionStatus (_cachedStatus w0) (_cachedError w0))) es))
    end; cbv zeta in *; [exact HT | | | | |].
    + now apply tasks_same.
    + intros tm h. now rewrite Ei.
    + rewrite Ek. cbn. lia.
    + exact Ep.
    + apply Forall_forall. intros m [e [-> _]]%list_elem_of_fmap.
      split; [reflexivity | discriminate].
Qed.

Lemma Terminal_reachable (history : list Event) :
  Inv (run history initialWorld) /\ Terminal (run history initialWorld).
Proof.
  unfold run. generalize initialWorld Inv_initial Terminal_initial.
  induction history as [|ev evs IH]; intros w HI HT; [now split|].
  cbn [fold_left]. apply IH; [now apply Inv_step | now apply Terminal_step].
Qed.

(** X21. The end message is final: in the messages that the provider posted
    after any history, nothing of a stream follows the end message of the
    stream, no chunk, heartbeat or second end message, and none of its end
    messages comes before; the stream has no task and no heartbeat interval
    left, and its id is one the counter has passed, so no later stream
    takes it. *)
Theorem end_message_is_final (history : list Event)
  (before after : list (Ref * Message)) (e : Ref) (sid : Str.t)
  (error : option Str.t) :
  let w := run history initialWorld in
  posted w = before ++ (e, MsgEnd sid error) :: after ->
  Forall (fun m => streamOf m.2 <> Some sid) after
  /\ Forall (fun m => forall error', m.2 <> MsgEnd sid error') before
  /\ (forall tid t, tasks w !! tid = Some t -> t_streamId t <> sid)
  /\ (forall tm h, intervals w !! tm = Some h -> hb_streamId h <> sid)
  /\ minted w sid.
Proof.
  intros w Ep. destruct (Terminal_reachable history) as [HI [T1 T2 T3 T4 T5]].
  fold w in HI, T1, T2, T3, T4, T5.
  assert (Hx : ended sid (posted w)).
  { exists e, error. rewrite Ep. apply elem_of_app. right. apply list_elem_of_here. }
  split; [rewrite Ep in T1; now apply finalLog_split in T1|].
  split.
  { apply Forall_forall. intros [e' m'] Hin error'. cbn. intros ->.
    apply list_elem_of_split in Hin as (b1 & b2 & ->).
    rewrite Ep, <- app_assoc in T1. cbn in T1. apply finalLog_split in T1.
    apply Forall_app in T1 as [_ T1]. apply Forall_cons in T1 as [T1 _].
    now apply T1. }
  split; [intros tid t Ht <-; now apply (T2 tid t)|].
  split; [intros tm h Hh <-; now apply (T3 tm h)|].
  now apply T4.
Qed.

End FinalityFacts.

Section RoutingFacts.
Context `{Platform}.

Lemma Routed_initial : Routed initialWorld.
Proof.
  split; cbn; intros; match goal with H : _ ∈ [] |- _ => now apply elem_of_nil in H end.
Qed.

(** What a transition posts goes where the messages, the task and the
    interval of its stream are. *)
Lemma Routed_extend (w w' : World) (news : list (Ref * Message)) :
  Routed w ->
  (forall tid t', tasks w' !! tid = Some t' ->
     exists t, tasks w !! tid = Some t /\ t_streamId t' = t_streamId t
               /\ t_entry t' = t_entry t) ->
  (forall tm h, intervals w' !! tm = Some h -> intervals w !! tm = Some h) ->
  _sseCounter w <= _sseCounter w' ->
  posted w' = posted w ++ news ->
  (forall e m sid, (e, m) ∈ news -> subjectOf m = Some sid ->
     minted w sid
     /\ (forall e0 m0, (e0, m0) ∈ posted w -> subjectOf m0 = Some sid -> e0 = e)
     /\ (forall e' m', (e', m') ∈ news -> subjectOf m' = Some sid -> e' = e)
     /\ (forall tid t, tasks w !! tid = Some t -> t_streamId t = sid -> e = t_entry t)
     /\ (forall tm h, intervals w !! tm = Some h -> hb_streamId h = sid ->
                      e = hb_entry h)) ->
  Routed w'.
Proof.
  intros [R1 R2 R3 R4] Ht Hi Hk Ep Hn. split.
  - intros e e' m m' sid. rewrite Ep, !elem_of_app.
    intros [Hin|Hin] [Hin'|Hin'] Es Es'.
    + now apply (R1 e e' m m' sid).
    + destruct (Hn e' m' sid Hin' Es') as (_ & Ho & _). now apply (Ho e m).
    + destruct (Hn e m sid Hin Es) as (_ & Ho & _). symmetry. now apply (Ho e' m').
    + destruct (Hn e m sid Hin Es) as (_ & _ & Ho & _). symmetry. now apply (Ho e' m').
  - intros e m tid t' Hin Ht' Es. destruct (Ht tid t' Ht') as (t & Ht0 & E1 & E2).
    rewrite E1 in Es. rewrite E2. rewrite Ep, elem_of_app in Hin.
    destruct Hin as [Hin|Hin]; [now apply (R2 e m tid t)|].
    destruct (Hn e m _ Hin Es) as (_ & _ & _ & Ho & _). now apply (Ho tid t).
  - intros e m tm h Hin Hh Es. apply Hi in Hh. rewrite Ep, elem_of_app in Hin.
    destruct Hin as [Hin|Hin]; [now apply (R3 e m tm h)|].
    destruct (Hn e m _ Hin Es) as (_ & _ & _ & _ & Ho). now apply (Ho tm h).
  - intros e m sid Hin Es. apply (minted_mono w); [exact Hk|].
    rewrite Ep, elem_of_app in Hin. destruct Hin as [Hin|Hin]; [now apply (R4 e m)|].
    now destruct (Hn e m sid Hin Es) as (Hm & _).
Qed.

Lemma Routed_quiet (w w' : World) (news : list (Ref * Message)) :
  Routed w ->
  (forall tid t', tasks w' !! tid = Some t' ->
     exists t, tasks w !! tid = Some t /\ t_streamId t' = t_streamId t
               /\ t_entry t' = t_entry t) ->
  (forall tm h, intervals w' !! tm = Some h -> intervals w !! tm = Some h) ->
  _sseCounter w <= _sseCounter w' ->
  posted w' = posted w ++ news ->
  Forall (fun m => subjectOf m.2 = None) news ->
  Routed w'.
Proof.
  intros HR Ht Hi Hk Ep Hn. apply (Routed_extend w w' news); try assumption.
  intros e m sid Hin Es. rewrite Forall_forall in Hn. apply Hn in Hin.
  cbn in Hin. congruence.
Qed.

Lemma Routed_shrinks (w w' : World) :
  Routed w -> Shrinks w w' -> tasks w' = tasks w -> posted w' = posted w ->
  Routed w'.
Proof.
  intros HR (_ & _ & Hi & _ & _ & Hk) Et Ep.
  apply (Routed_quiet w w' []);
    [exact HR | now apply tasks_same | exact Hi | exact Hk
    | now rewrite app_nil_r | constructor].
Qed.

(** The messages of a live task: they go to the entry of the task. *)
Lemma Routed_task_posts (w w' : World) (tid : Ref) (t : StreamTask)
  (news : list (Ref * Message)) :
  Inv w -> Terminal w -> Routed w -> tasks w !! tid = Some t ->
  (forall tid' t', tasks w' !! tid' = Some t' ->
     exists t0, tasks w !! tid' = Some t0 /\ t_streamId t' = t_streamId t0
                /\ t_entry t' = t_entry t0) ->
  (forall tm h, intervals w' !! tm = Some h -> intervals w !! tm = Some h) ->
  _sseCounter w <= _sseCounter w' ->
  posted w' = posted w ++ news ->
  Forall (fun m => m.1 = t_entry t /\ subjectOf m.2 = Some (t_streamId t)) news ->
  Routed w'.
Proof.
  intros HI HT HR Ht0 Ht Hi Hk Ep Hn.
  apply (Routed_extend w w' news); try assumption.
  rewrite Forall_forall in Hn.
  intros e m sid Hin Es. destruct (Hn _ Hin) as [Ee Em]. cbn in Ee, Em.
  assert (sid = t_streamId t) by congruence. subst sid e.
  split; [now apply (inv_minted w HI tid t)|].
  split; [intros e0 m0 Hin0 Es0; now apply (route_task w HR e0 m0 tid t)|].
  split; [intros e' m' Hin' _; now destruct (Hn _ Hin')|].
  split.
  - intros tid' t' Ht' E.
    now rewrite (inv_unique w HI tid' tid t' t Ht' Ht0 E) in Ht'; congruence.
  - intros tm h Hh E. symmetry. now apply (term_entry w HT tm h tid t).
Qed.

Lemma Routed_launched (entry : Ref) (inject wrap : bool) (directory : Str.t)
  (z : Z) (w : World) :
  Inv w -> Routed w ->
  Routed (launched entry inject wrap directory (mintId (_sseCounter w + 1) z)
            (nextRef w) (prepared w)).
Proof.
  intros HI [R1 R2 R3 R4].
  set (sid := mintId (_sseCounter w + 1) z).
  set (wp := prepared w).
  set (w' := launched entry inject wrap directory sid (nextRef w) wp).
  destruct (launched_fields entry inject wrap directory sid (nextRef w) wp)
    as (_ & _ & _ & Ei & Et & _ & _ & Ek & _ & Ep). fold w' in Ei, Et, Ek, Ep.
  assert (Epw : posted w' = posted w) by (rewrite Ep; reflexivity).
  assert (Hfresh : ~ minted w sid) by apply minted_fresh.
  split.
  - intros e e' m m' s. rewrite Epw. apply R1.
  - intros e m tid t. rewrite Epw, Et, lookup_insert. intros Hin.
    case_decide.
    + intros [= <-]. cbn. intros Es. exfalso. now apply Hfresh, (R4 e m).
    + now apply R2.
  - intros e m tm h. rewrite Epw, Ei. intros Hin. destruct inject; [|now apply R3].
    rewrite lookup_insert. case_decide.
    + intros [= <-]. cbn. intros Es. exfalso. now apply Hfresh, (R4 e m).
    + now apply R3.
  - intros e m s. rewrite Epw. intros Hin Es. apply (minted_mono w); [|now apply (R4 e m)].
    rewrite Ek. cbn. lia.
Qed.

Lemma Routed_start (message : BridgeRequest) (entry : Ref) (env : StartEnv)
  (w : World) :
  Inv w -> Routed w -> Routed (respond entry (_startSseProxy message entry env w)).
Proof.
  intros HI HR.
  assert (Hw : Routed (_startSseProxy message entry env w).2).
  { destruct (start_states message entry env w)
      as [-> | [-> | (inject & wrap & directory & ->)]].
    - exact HR.
    - apply (Routed_shrinks w); [exact HR | apply prepared_shrinks | |]; reflexivity.
    - now apply Routed_launched. }
  unfold respond.
  destruct (_startSseProxy message entry env w).1 as [response|error] eqn:Er;
    [|exact Hw].
  destruct (streamIdOf response) as [sid|] eqn:Es.
  - destruct (start_registered message entry env w response sid Er Es)
      as (Esid & wrap & directory & _ & Ew).
    rewrite Ew in *.
    set (wl := launched entry (tracksActivity message) wrap directory sid
                 (nextRef w) (prepared w)) in *.
    destruct (launched_fields entry (tracksActivity message) wrap directory sid
                (nextRef w) (prepared w))
      as (_ & _ & _ & Ei & Et & _ & _ & Ek & _ & Ep). fold wl in Ei, Et, Ek, Ep.
    assert (Hfresh : ~ minted w sid) by (rewrite Esid; apply minted_fresh).
    apply (Routed_extend wl _ [(entry, MsgResponse response)]);
      [exact Hw | now apply tasks_same | auto | cbn; lia | reflexivity |].
    intros e m s Hin Em. apply list_elem_of_singleton in Hin. injection Hin as -> ->.
    cbn in Em. assert (s = sid) by congruence. subst s.
    split.
    { exists (_sseCounter w + 1), (Date_now (clock w)). split; [exact Esid|].
      rewrite Ek. cbn. lia. }
    split.
    { intros e0 m0. rewrite Ep. change (posted (prepared w)) with (posted w).
      intros Hin0 Es0. exfalso. now apply Hfresh, (route_minted w HR e0 m0). }
    split.
    { intros e' m' Hin' _. apply list_elem_of_singleton in Hin'. congruence. }
    split.
    { intros tid t. rewrite Et, lookup_insert. case_decide.
      - intros [= <-]. reflexivity.
      - change (tasks (prepared w)) with (tasks w). intros Ht E.
        exfalso. apply Hfresh. rewrite <- E. now apply (inv_minted w HI tid t). }
    intros tm h. rewrite Ei. destruct (tracksActivity message).
    + rewrite lookup_insert. case_decide.
      * intros [= <-]. reflexivity.
      * change (intervals (prepared w)) with (intervals w). intros Hh E.
        exfalso. apply Hfresh. rewrite <- E. now apply (inv_minted_hb w HI tm h).
    + change (intervals (prepared w)) with (intervals w). intros Hh E.
      exfalso. apply Hfresh. rewrite <- E. now apply (inv_minted_hb w HI tm h).
  - apply (Routed_quiet (_startSseProxy message entry env w).2 _
             [(entry, MsgResponse response)]);
      [exact Hw | now apply tasks_same | auto | cbn; lia | reflexivity |].
    constructor; [exact Es | constructor].
Qed.

Lemma Routed_step (ev : Event) (w : World) :
  Inv w -> Owned w -> Terminal w -> Routed w -> Routed (step ev w).
Proof.
  intros HI HO HT HR.
  destruct ev as [pid | pid | entry message env | entry message
                  | tm | tid r | status error]; cbn [step].
  - apply (Routed_quiet w _
             [(S (nextRef w), MsgConnectionStatus (_cachedStatus w) (_cachedError w))]);
      [exact HR | now apply tasks_same | auto | cbn; lia | reflexivity |].
    constructor; [reflexivity | constructor].
  - apply (Routed_shrinks w); [exact HR | apply disposed_shrinks | |].
    + destruct (_panels w !! pid) as [entry|] eqn:Hp;
        [|unfold _disposePanel; now rewrite Hp].
      now destruct (dispose_fields pid entry w Hp) as (_ & _ & _ & Et & _).
    + destruct (_panels w !! pid) as [entry|] eqn:Hp;
        [|unfold _disposePanel; now rewrite Hp].
      now destruct (dispose_fields pid entry w Hp) as (_ & _ & _ & _ & _ & _ & _ & Ep).
  - destruct (entries w !! entry) eqn:He; [|exact HR]. now apply Routed_start.
  - destruct (entries w !! entry) eqn:He; [|exact HR].
    rewrite stop_unfold. unfold respond. cbn [fst snd].
    match goal with |- Routed (postMessage ?e ?m ?w0) =>
      assert (Hw : Routed w0); [|
        apply (Routed_quiet w0 _ [(e, m)]);
          [exact Hw | now apply tasks_same | auto | cbn; lia | reflexivity
          | constructor; [reflexivity | constructor]]]
    end.
    destruct (requestedStream message) as [sid|]; [|exact HR].
    apply (Routed_shrinks w); [exact HR | apply stopped_shrinks | |].
    + now destruct (stopped_others sid entry w) as (_ & _ & Et & _).
    + apply stopped_posted.
  - destruct (intervals w !! tm) as [h|] eqn:Hh; [|exact HR].
    unfold heartbeatTick. destruct (aborted (hb_controller h) w); [exact HR|].
    cbv zeta.
    match goal with |- Routed (postMessage ?e ?m ?w0) =>
      apply (Routed_extend w _ [(e, m)]);
        [exact HR | now apply tasks_same | auto | cbn; lia | reflexivity |]
    end.
    intros e m sid Hin Es. apply list_elem_of_singleton in Hin.
    injection Hin as -> ->. cbn in Es. injection Es as <-.
    split; [now apply (inv_minted_hb w HI tm h)|].
    split; [intros e0 m0 Hin0 Es0; now apply (route_interval w HR e0 m0 tm h)|].
    split; [intros e' m' Hin' _; apply list_elem_of_singleton in Hin'; congruence|].
    split.
    + intros tid t Ht E. now apply (term_entry w HT tm h tid t).
    + intros tm' h' Hh' E.
      apply (own_one w HO (hb_entry h) (hb_entry h') (hb_streamId h)); right.
      * exists tm. now apply (inv_intervals w HI).
      * exists tm'. rewrite <- E. now apply (inv_intervals w HI).
  - destruct (tasks w !! tid) as [t|] eqn:Ht; [|exact HR].
    assert (Hdel : forall w1, tasks w1 = tasks w -> intervals w1 = intervals w ->
              _sseCounter w1 = _sseCounter w ->
              let w2 := setTasks (delete tid (tasks (taskCleanup t w1)))
                          (taskCleanup t w1) in
              (forall tid' t', tasks w2 !! tid' = Some t' ->
                 exists t0, tasks w !! tid' = Some t0
                            /\ t_streamId t' = t_streamId t0
                            /\ t_entry t' = t_entry t0)
              /\ (forall tm h, intervals w2 !! tm = Some h -> intervals w !! tm = Some h)
              /\ _sseCounter w <= _sseCounter w2
              /\ posted w2 = posted w1).
    { intros w1 Et Ei Ek w2.
      destruct (cleanup_others t w1) as (_ & Ei' & Et' & _ & _ & Ek').
      split.
      { cbn. intros tid' t'. rewrite Et', Et.
        intros [_ Ht']%lookup_delete_Some. exists t'. auto. }
      split.
      { cbn. intros tm h. rewrite Ei', Ei.
        destruct (entryHeartbeats (t_entry t) w1 !! t_streamId t); [|auto].
        now intros [_ Hh]%lookup_delete_Some. }
      split; [cbn; rewrite Ek', Ek; lia|].
      cbn. apply taskCleanup_posted. }
    assert (Hfinish : Routed
              (setTasks (delete tid (tasks (taskFinish t w))) (taskFinish t w))).
    { destruct (taskFinish_cleanup t w)
        as (w1 & ms & E & Et & Ei & _ & _ & _ & _ & Ek & _).
      assert (Ep := taskFinish_posted t w).
      rewrite E in *. rewrite taskCleanup_posted in Ep.
      destruct (Hdel w1 Et Ei Ek) as (H1 & H2 & H3 & H4).
      apply (Routed_task_posts w _ tid t (flushMessages t (clock w)));
        [exact HI | exact HT | exact HR | exact Ht | exact H1 | exact H2 | exact H3
        | now rewrite H4 |].
      unfold flushMessages. apply Forall_app. split.
      - case_bool_decide; [constructor|].
        destruct (shouldInjectActivity t); (constructor; [|constructor]);
          split; reflexivity.
      - constructor; [|constructor]. split; reflexivity. }
    destruct r as [value | | error]; cbn [taskResume fst snd].
    + destruct (aborted (t_controller t) w); cbn [fst snd]; [exact Hfinish|].
      rewrite taskChunk_trace. cbn [fst snd].
      destruct (afterChunk_same t value) as (Ee & _ & Es & _).
      assert (Hts : forall w1, tasks w1 = tasks w ->
                forall tid' t', <[tid := afterChunk t value]> (tasks w1) !! tid' = Some t' ->
                  exists t0, tasks w !! tid' = Some t0
                             /\ t_streamId t' = t_streamId t0
                             /\ t_entry t' = t_entry t0).
      { intros w1 -> tid' t'. rewrite lookup_insert. case_decide.
        - subst tid'. intros [= <-]. exists t. auto.
        - intros Ht'. exists t'. auto. }
      destruct (isNonEmpty _).
      * match goal with |- Routed (setTasks _ (postMessage ?e ?m ?w0)) =>
          apply (Routed_task_posts w _ tid t [(e, m)]);
            [exact HI | exact HT | exact HR | exact Ht | now apply Hts | auto
            | cbn; lia | reflexivity |]
        end.
        constructor; [|constructor]. split; reflexivity.
      * apply (Routed_quiet w _ []);
          [exact HR | now apply Hts | auto | cbn; lia
          | cbn; now rewrite app_nil_r | constructor].
    + exact Hfinish.
    + destruct (taskFail_cleanup t error w)
        as (w1 & -> & Et & Ei & _ & _ & _ & _ & Ek & Ep).
      destruct (Hdel w1 Et Ei Ek) as (H1 & H2 & H3 & H4).
      apply (Routed_task_posts w _ tid t
               (if aborted (t_controller t) w then []
                else [(t_entry t, MsgEnd (t_streamId t) (Some (messageTextOf error)))]));
        [exact HI | exact HT | exact HR | exact Ht | exact H1 | exact H2 | exact H3
        | now rewrite H4 |].
      destruct (aborted (t_controller t) w); [constructor|].
      constructor; [|constructor]. split; reflexivity.
  - unfold updateConnectionStatus. cbv zeta.
    match goal with |- Routed (fold_left _ ?es ?w0) =>
      destruct (status_fields es w0) as (Et & Ei & _ & _ & _ & _ & Ek & Ep);
      apply (Routed_quiet w _
               (map (fun e => (e, MsgConnectionStatus (_cachedStatus w0) (_cachedError w0))) es))
    end; cbv zeta in *; [exact HR | | | | |].
    + now apply tasks_same.
    + intros tm h. now rewrite Ei.
    + rewrite Ek. cbn. lia.
    + exact Ep.
    + apply Forall_forall. intros m [e [-> _]]%list_elem_of_fmap. reflexivity.
Qed.

Lemma Routed_reachable (history : list Event) :
  Routed (run history initialWorld).
Proof.
  assert (Hall : Inv (run history initialWorld) /\ Owned (run history initialWorld)
                 /\ Terminal (run history initialWorld)
                 /\ Routed (run history initialWorld)).
  { unfold run.
    generalize initialWorld Inv_initial Owned_initial Terminal_initial Routed_initial.
    induction history as [|ev evs IH]; intros w HI HO HT HR; [auto|].
    cbn [fold_left]. apply IH;
      [now apply Inv_step | now apply Owned_step | now apply Terminal_step
      | now apply Routed_step]. }
  apply Hall.
Qed.

(** X22. The messages of a stream reach one panel: in the messages that the
    provider posted after any history, the response that announces a
    stream id, the chunks and heartbeats of that stream and its end
    message all went to the same panel, the one whose entry the task and
    the interval of the stream belong to while they exist. *)
Theorem stream_reaches_one_panel (history : list Event) (e e' : Ref)
  (m m' : Message) (sid : Str.t) :
  let w := run history initialWorld in
  (e, m) ∈ posted w -> subjectOf m = Some sid ->
  ((e', m') ∈ posted w -> subjectOf m' = Some sid -> e' = e)
  /\ (forall tid t, tasks w !! tid = Some t -> t_streamId t = sid -> t_entry t = e)
  /\ (forall tm h, intervals w !! tm = Some h -> hb_streamId h = sid ->
                   hb_entry h = e).
Proof.
  intros w Hin Es. destruct (Routed_reachable history) as [R1 R2 R3 R4].
  fold w in R1, R2, R3, R4.
  split; [intros Hin' Es'; now apply (R1 e' e m' m sid)|].
  split.
  - intros tid t Ht E. symmetry. apply (R2 e m tid t); congruence.
  - intros tm h Hh E. symmetry. apply (R3 e m tm h); congruence.
Qed.

End RoutingFacts.

Section ReachableExamples.
Import RefHost Demo.

Lemma stream_ids_distinct_witness :
  (exists t t',
      tasks twoStreams !! 4%nat = Some t /\ tasks twoStreams !! 6%nat = Some t'
      /\ t_streamId t = js "sse_1_1700000000000"
      /\ t_streamId t' = js "sse_2_1700000000001"
      /\ t_streamId t <> t_streamId t').
Proof.
  eexists _, _.
  assert (H4 : tasks twoStreams !! 4%nat
               = Some (mkTask 1 2 (js "sse_1_1700000000000") true false (js "/w") [] []))
    by (vm_compute; reflexivity).
  assert (H6 : tasks twoStreams !! 6%nat
               = Some (mkTask 1 5 (js "sse_2_1700000000001") false false (js "/w") [] []))
    by (vm_compute; reflexivity).
  split; [exact H4|]. split; [exact H6|].
  split; [reflexivity|]. split; [reflexivity|].
  exact (proj1 (stream_ids_distinct
                  [EvCreatePanel (js "p"); EvStart 1 demoStart demoEnv;
                   EvStart 1 plainStart demoEnv]
                  4%nat 6%nat _ _ H4 H6 ltac:(discriminate))).
Defined.

Lemma live_streams_can_be_stopped_witness :
  requestedStream demoStop = Some (js "sse_1_1700000000000")
  /\ tasks demoWorld !! 4%nat = Some demoTask
  /\ aborted 2 demoWorld = false
  /\ aborted 2 (_stopSseProxy demoStop 1 demoWorld).2 = true
  /\ intervals demoWorld !! 3%nat = Some demoHeartbeat
  /\ intervals (_stopSseProxy demoStop 1 demoWorld).2 !! 3%nat = None.
Proof.
  assert (Hr : requestedStream demoStop = Some (js "sse_1_1700000000000"))
    by reflexivity.
  assert (Ht : tasks demoWorld !! 4%nat = Some demoTask) by (vm_compute; reflexivity).
  assert (Hi : intervals demoWorld !! 3%nat = Some demoHeartbeat)
    by (vm_compute; reflexivity).
  destruct (live_streams_can_be_stopped
              [EvCreatePanel (js "p"); EvStart 1 demoStart demoEnv]
              demoStop _ Hr) as [Hs Hc].
  split; [exact Hr|]. split; [exact Ht|].
  split; [vm_compute; reflexivity|].
  split; [exact (Hs 4%nat demoTask Ht eq_refl)|].
  split; [exact Hi|].
  exact (Hc 3%nat demoHeartbeat Hi eq_refl).
Defined.

Lemma panels_are_isolated_witness :
  _panels (run twoPanels initialWorld) !! js "p" = Some 1%nat
  /\ entryStreams 6 (run twoPanels initialWorld)
     = <[js "sse_2_1700000000001" := 7%nat]> ∅
  /\ entryStreams 6 (_disposePanel (js "p") (run twoPanels initialWorld))
     = entryStreams 6 (run twoPanels initialWorld)
  /\ aborted 2 (_disposePanel (js "p") (run twoPanels initialWorld)) = true
  /\ aborted 7 (_disposePanel (js "p") (run twoPanels initialWorld)) = false
  /\ is_Some (intervals (_disposePanel (js "p") (run twoPanels initialWorld)) !! 8%nat)
  /\ (_stopSseProxy (stopRequest (js "9") (js "sse_2_1700000000001")) 1
        (run twoPanels initialWorld)).2
     = run twoPanels initialWorld.
Proof.
  assert (Hp : _panels (run twoPanels initialWorld) !! js "p" = Some 1%nat)
    by (vm_compute; reflexivity).
  assert (Hs : entryStreams 6 (run twoPanels initialWorld)
               = <[js "sse_2_1700000000001" := 7%nat]> ∅)
    by (vm_compute; reflexivity).
  destruct (panels_are_isolated twoPanels (js "p") 1%nat 6%nat Hp ltac:(discriminate))
    as (Es & Eh & Ec & Ei & _ & _ & Hstop).
  split; [exact Hp|]. split; [exact Hs|]. split; [exact Es|].
  split; [vm_compute; reflexivity|].
  split.
  { rewrite (Ec (js "sse_2_1700000000001") 7%nat); [vm_compute; reflexivity|].
    rewrite Hs. apply lookup_insert_eq. }
  split.
  { rewrite (Ei (js "sse_2_1700000000001") 8%nat); vm_compute; eauto. }
  apply (Hstop _ (js "sse_2_1700000000001")); [reflexivity|].
  left. rewrite Hs, lookup_insert_eq. eauto.
Defined.

Lemma wrapped_streams_track_activity_witness :
  tasks (run wrappedPanel initialWorld) !! 4%nat
  = Some (mkTask 1 2 (js "sse_1_1700000000000") true true (js "/w") [] [])
  /\ shouldInjectActivity
       (mkTask 1 2 (js "sse_1_1700000000000") true true (js "/w") [] []) = true.
Proof.
  assert (Ht : tasks (run wrappedPanel initialWorld) !! 4%nat
               = Some (mkTask 1 2 (js "sse_1_1700000000000") true true (js "/w") [] []))
    by (vm_compute; reflexivity).
  split; [exact Ht|].
  exact (wrapped_streams_track_activity wrappedPanel 4%nat _ Ht eq_refl).
Defined.

Lemma start_answer_registers_witness :
  exists response,
    (_startSseProxy demoStart 1 demoEnv onePanel).1 = Returns response
    /\ streamIdOf response = Some (js "sse_1_1700000000000")
    /\ entryStreams 1 (_startSseProxy demoStart 1 demoEnv onePanel).2
       = <[js "sse_1_1700000000000" := 2%nat]> ∅
    /\ entryStreams 1 (_startSseProxy plainStart 1 demoEnv onePanel).2
       = <[js "sse_1_1700000000000" := 2%nat]> ∅
    /\ entryHeartbeats 1 (_startSseProxy demoStart 1 demoEnv onePanel).2
       = <[js "sse_1_1700000000000" := 3%nat]> ∅
    /\ entryHeartbeats 1 (_startSseProxy plainStart 1 demoEnv onePanel).2 = ∅.
Proof.
  eexists.
  assert (Hr : (_startSseProxy demoStart 1 demoEnv onePanel).1
               = Returns (mkResponse (js "1") (js "api:sse:start") true
                            (StartData 200
                               (<[js "content-type" := js "text/event-stream"]> ∅)
                               (Some (js "sse_1_1700000000000")) None)))
    by (vm_compute; reflexivity).
  assert (Hr' : (_startSseProxy plainStart 1 demoEnv onePanel).1
               = Returns (mkResponse (js "2") (js "api:sse:start") true
                            (StartData 200
                               (<[js "content-type" := js "text/event-stream"]> ∅)
                               (Some (js "sse_1_1700000000000")) None)))
    by (vm_compute; reflexivity).
  assert (He : is_Some (entries onePanel !! 1%nat)) by (vm_compute; eauto).
  destruct (start_answer_registers demoStart 1 demoEnv onePanel _ _ He Hr eq_refl)
    as (_ & _ & Es & _ & Eh & _).
  destruct (start_answer_registers plainStart 1 demoEnv onePanel _ _ He Hr' eq_refl)
    as (_ & _ & Es' & _ & Eh' & _).
  split; [exact Hr|]. split; [reflexivity|].
  split; [rewrite Es; vm_compute; reflexivity|].
  split; [rewrite Es'; vm_compute; reflexivity|].
  split.
  - change (tracksActivity demoStart) with true in Eh. destruct Eh as [-> _].
    vm_compute. reflexivity.
  - change (tracksActivity plainStart) with false in Eh'. destruct Eh' as [-> _].
    vm_compute. reflexivity.
Defined.

Lemma start_then_stop_restores_witness :
  entryStreams 1
    (_stopSseProxy (stopRequest (js "7") (js "sse_2_1700000000001")) 1
       (_startSseProxy demoStart 1 demoEnv demoWorld).2).2
  = entryStreams 1 demoWorld
  /\ intervals
       (_stopSseProxy (stopRequest (js "7") (js "sse_2_1700000000001")) 1
          (_startSseProxy demoStart 1 demoEnv demoWorld).2).2
     = intervals demoWorld
  /\ aborted 5
       (_stopSseProxy (stopRequest (js "7") (js "sse_2_1700000000001")) 1
          (_startSseProxy demoStart 1 demoEnv demoWorld).2).2 = true
  /\ _sseCounter
       (_stopSseProxy (stopRequest (js "7") (js "sse_2_1700000000001")) 1
          (_startSseProxy demoStart 1 demoEnv demoWorld).2).2
     = _sseCounter demoWorld + 1
  /\ tasks
       (_stopSseProxy (stopRequest (js "7") (js "sse_2_1700000000001")) 1
          (_startSseProxy demoStart 1 demoEnv demoWorld).2).2 !! 7%nat
     = Some (mkTask 1 5 (js "sse_2_1700000000001") true false (js "/w") [] [])
  /\ posted
       (step (EvRead 7 ReadDone)
          (_stopSseProxy (stopRequest (js "7") (js "sse_2_1700000000001")) 1
             (_startSseProxy demoStart 1 demoEnv demoWorld).2).2)
     = posted demoWorld ++ [(1%nat, MsgEnd (js "sse_2_1700000000001") None)].
Proof.
  assert (Hr : (_startSseProxy demoStart 1 demoEnv demoWorld).1
               = Returns (mkResponse (js "1") (js "api:sse:start") true
                            (StartData 200
                               (<[js "content-type" := js "text/event-stream"]> ∅)
                               (Some (js "sse_2_1700000000001")) None)))
    by (vm_compute; reflexivity).
  assert (He : is_Some (entries demoWorld !! 1%nat)) by (vm_compute; eauto).
  destruct (start_then_stop_restores
              [EvCreatePanel (js "p"); EvStart 1 demoStart demoEnv]
              demoStart 1 demoEnv _ (js "sse_2_1700000000001") (js "7") He Hr eq_refl)
    as (Es & _ & Ei & _ & Eo & _ & Ec & Ek & _ & _).
  split; [exact (Es 1%nat)|]. split; [exact Ei|].
  split.
  { unfold aborted.
    replace (controllers _) with (<[nextRef demoWorld := true]> (controllers demoWorld))
      by (symmetry; exact Ec).
    vm_compute. reflexivity. }
  split; [exact Ek|].
  split; [vm_compute; reflexivity|].
  vm_compute. reflexivity.
Defined.

Lemma stream_task_end_witness :
  tasks demoWorld !! 4%nat = Some demoTask
  /\ posted (step (EvRead 4 (ReadRejects (ErrorObject (js "terminated")))) demoWorld)
     = posted demoWorld
       ++ [(1%nat, MsgEnd (js "sse_1_1700000000000") (Some (js "terminated")))]
  /\ entryStreams 1 (step (EvRead 4 (ReadRejects (ErrorObject (js "terminated")))) demoWorld)
     = ∅
  /\ intervals (step (EvRead 4 (ReadRejects (ErrorObject (js "terminated")))) demoWorld)
     !! 3%nat = None
  /\ posted (step (EvRead 4 (ReadRejects (ErrorObject (js "aborted"))))
               (_stopSseProxy demoStop 1 demoWorld).2)
     = posted demoWorld.
Proof.
  assert (Ht : tasks demoWorld !! 4%nat = Some demoTask) by (vm_compute; reflexivity).
  destruct (stream_task_end 4 demoTask (ReadRejects (ErrorObject (js "terminated")))
              demoWorld Ht I) as (_ & Es & _ & Ei & _ & Eo).
  split; [exact Ht|].
  split; [etransitivity; [exact Eo|]; vm_compute; reflexivity|].
  split; [etransitivity; [exact Es|]; vm_compute; reflexivity|].
  split; [apply Ei; vm_compute; reflexivity|].
  vm_compute. reflexivity.
Defined.

End ReachableExamples.

Section CodecExamples.
Import RefHost Demo.

Lemma decode_of_wrapped_witness :
  @parseSseDataPayload host
    (@wrapBlock host (js "/w")
       (ex "event: message\ndata: {'type':'session.idle','properties':{'sessionID':'s1'}}"))
  = JObject [ (js "type", JString (js "session.idle"));
              (js "properties", JObject [ (js "sessionID", JString (js "s1")) ]) ]
  /\ @deriveSessionActivity
       (@parseSseDataPayload host
          (@wrapBlock host (js "/w")
             (ex "event: message\ndata: {'type':'session.idle','properties':{'sessionID':'s1'}}")))
     = Some (mkActivity (js "s1") idle)
  /\ @parseSseDataPayload host (@wrapBlock host (js "/w") (ex ": ping"))
     = envelope (js "/w") JNull.
Proof.
  destruct (@decode_of_wrapped host refhost_laws (js "/w")
              (ex "event: message\ndata: {'type':'session.idle','properties':{'sessionID':'s1'}}")
              ltac:(vm_compute; reflexivity)) as [E1 E2].
  destruct (@decode_of_wrapped host refhost_laws (js "/w") (ex ": ping")
              ltac:(vm_compute; reflexivity)) as [E3 _].
  split; [rewrite E1; vm_compute; reflexivity|].
  split; [rewrite E2; vm_compute; reflexivity|].
  rewrite E3. vm_compute. reflexivity.
Defined.

Lemma synthetic_blocks_are_inert_witness :
  @parseSseDataPayload host
    (@buildActivityEventBlock host (mkActivity (js "s1") busy) 0).1
  = @activityObject host (mkActivity (js "s1") busy) 0
  /\ @deriveSessionActivity (@activityObject host (mkActivity (js "s1") busy) 0) = None
  /\ (@buildActivityEventBlock host (mkActivity (js "s1") busy) 0).1
     = ex "event: message\ndata: {'type':'openchamber:session-activity','properties':{'sessionId':'s1','phase':'busy','at':1700000000000}}".
Proof.
  destruct (@synthetic_blocks_are_inert host refhost_laws (mkActivity (js "s1") busy)
              0 0 ltac:(vm_compute; reflexivity) ltac:(vm_compute; reflexivity))
    as (Ea & _ & Da & _).
  split; [exact Ea|]. split; [exact Da|]. vm_compute. reflexivity.
Defined.

End CodecExamples.

Section FinalityExamples.
Import RefHost Demo.

Lemma end_message_is_final_witness :
  posted (run endedStream initialWorld)
  = firstn 2 (posted (run endedStream initialWorld))
    ++ (1%nat, MsgEnd (js "sse_1_1700000000000") None)
    :: [(1%nat, MsgConnectionStatus (js "connected") None)]
  /\ tasks (run endedStream initialWorld) = ∅
  /\ intervals (run endedStream initialWorld) = ∅
  /\ Forall (fun m => streamOf m.2 <> Some (js "sse_1_1700000000000"))
       [(1%nat, MsgConnectionStatus (js "connected") None)].
Proof.
  assert (Ep : posted (run endedStream initialWorld)
               = firstn 2 (posted (run endedStream initialWorld))
                 ++ (1%nat, MsgEnd (js "sse_1_1700000000000") None)
                 :: [(1%nat, MsgConnectionStatus (js "connected") None)])
    by (vm_compute; reflexivity).
  split; [exact Ep|].
  split; [vm_compute; reflexivity|].
  split; [vm_compute; reflexivity|].
  exact (proj1 (end_message_is_final endedStream _ _ _ _ _ Ep)).
Defined.

Lemma stream_reaches_one_panel_witness :
  posted (run twoPanelsLater initialWorld) !! 3%nat
  = Some (6%nat,
          MsgResponse
            (mkResponse (js "1") (js "api:sse:start") true
               (StartData 200 (<[js "content-type" := js "text/event-stream"]> ∅)
                  (Some (js "sse_2_1700000000001")) None)))
  /\ (exists chunk,
        posted (run twoPanelsLater initialWorld) !! 5%nat
        = Some (6%nat, MsgChunk (js "sse_2_1700000000001") chunk))
  /\ (forall tid t,
        tasks (run twoPanelsLater initialWorld) !! tid = Some t ->
        t_streamId t = js "sse_2_1700000000001" -> t_entry t = 6%nat)
  /\ (forall tm h,
        intervals (run twoPanelsLater initialWorld) !! tm = Some h ->
        hb_streamId h = js "sse_2_1700000000001" -> hb_entry h = 6%nat).
Proof.
  assert (Hl : posted (run twoPanelsLater initialWorld) !! 3%nat
               = Some (6%nat,
                       MsgResponse
                         (mkResponse (js "1") (js "api:sse:start") true
                            (StartData 200
                               (<[js "content-type" := js "text/event-stream"]> ∅)
                               (Some (js "sse_2_1700000000001")) None))))
    by (vm_compute; reflexivity).
  split; [exact Hl|].
  split; [eexists; vm_compute; reflexivity|].
  exact (proj2 (stream_reaches_one_panel twoPanelsLater 6%nat 6%nat _
                  (MsgEnd (js "sse_2_1700000000001") None)
                  (js "sse_2_1700000000001")
                  (list_elem_of_lookup_2 _ _ _ Hl) eq_refl)).
Defined.

End FinalityExamples.

Section ChatFacts.

Lemma trimStart_head (s : Str.t) (c : N) (r : Str.t) :
  Str.trimStart s = c :: r -> Str.isSpace c = false.
Proof.
  induction s as [|x s IH]; [discriminate|]. cbn [Str.trimStart].
  destruct (Str.isSpace x) eqn:E; [exact IH|]. now intros [= <- _].
Qed.

Lemma trimStart_fixed (c : N) (r : Str.t) :
  Str.isSpace c = false -> Str.trimStart (c :: r) = c :: r.
Proof. intros E. cbn [Str.trimStart]. now rewrite E. Qed.

Lemma trimStart_idem (s : Str.t) : Str.trimStart (Str.trimStart s) = Str.trimStart s.
Proof.
  destruct (Str.trimStart s) as [|c r] eqn:E; [reflexivity|].
  apply trimStart_fixed. exact (trimStart_head s c r E).
Qed.

Lemma trimStart_snoc (l : Str.t) (c : N) :
  Str.isSpace c = false -> exists l', Str.trimStart (l ++ [c]) = l' ++ [c].
Proof.
  intros E. induction l as [|x l IH].
  - exists []. cbn. now rewrite E.
  - cbn [app Str.trimStart]. destruct (Str.isSpace x); [exact IH|].
    now exists (x :: l).
Qed.

Lemma trimEnd_head (c : N) (r : Str.t) :
  Str.isSpace c = false -> exists r', Str.trimEnd (c :: r) = c :: r'.
Proof.
  intros E. unfold Str.trimEnd. cbn [rev].
  destruct (trimStart_snoc (rev r) c E) as [l' ->].
  exists (rev l'). now rewrite rev_app_distr.
Qed.

Lemma trim_idem (s : Str.t) : Str.trim (Str.trim s) = Str.trim s.
Proof.
  unfold Str.trim.
  assert (Hs : Str.trimStart (Str.trimEnd (Str.trimStart s))
               = Str.trimEnd (Str.trimStart s)).
  { destruct (Str.trimStart s) as [|c r] eqn:E; [reflexivity|].
    destruct (trimEnd_head c r (trimStart_head s c r E)) as [r' ->].
    apply trimStart_fixed. exact (trimStart_head s c r E). }
  rewrite Hs. unfold Str.trimEnd at 1 2. rewrite rev_involutive.
  now rewrite trimStart_idem.
Qed.

Lemma handleSend_spec (store : ChatStore) (st : ChatState) (send : Send) :
  (handleSend store st).2 = Some send ->
  isSending st = false
  /\ (handleSend store st).1 = mkChat [] true (Some send)
  /\ messageText send = Str.trim (inputValue st)
  /\ messageText send <> []
  /\ missing (currentSessionId store) = false
  /\ currentProviderId store = Some (providerId send) /\ providerId send <> []
  /\ currentModelId store = Some (modelId send) /\ modelId send <> []
  /\ agentName send = currentAgentName store.
Proof.
  unfold handleSend. case_bool_decide as Ht; [discriminate|].
  destruct (missing (currentSessionId store)); [discriminate|].
  destruct (isSending st); [discriminate|]. cbn [orb].
  destruct (currentProviderId store) as [[|p ps]|]; try discriminate.
  destruct (currentModelId store) as [[|m ms]|]; try discriminate.
  cbn [fst snd]. intros [= <-]. cbn. repeat split; auto; discriminate.
Qed.

Lemma handleSend_quiet (store : ChatStore) (st : ChatState) :
  (handleSend store st).2 = None -> (handleSend store st).1 = st.
Proof.
  unfold handleSend.
  destruct (bool_decide _ || _ || _); [reflexivity|].
  destruct (currentProviderId store) as [[|p ps]|]; try reflexivity.
  destruct (currentModelId store) as [[|m ms]|]; try reflexivity.
  discriminate.
Qed.

Lemma chatInv_step (store : ChatStore) (ev : ChatEvent) (st : ChatState) :
  chatInv st -> chatInv (chatStep store ev st).1.
Proof.
  intros HI.
  assert (Hsend : chatInv (handleSend store st).1).
  { destruct (handleSend store st).2 as [send|] eqn:E.
    - destruct (handleSend_spec store st send E) as (_ & -> & _).
      split; cbn; eauto.
    - now rewrite handleSend_quiet. }
  destruct ev as [value | key shiftKey | | resolved]; cbn [chatStep fst].
  - exact HI.
  - destruct (bool_decide _ && _); [exact Hsend | exact HI].
  - exact Hsend.
  - unfold sendSettled. destruct (inFlight st) as [send|] eqn:E; [|exact HI].
    destruct resolved; split; cbn; try discriminate; intros [? [=]].
Qed.

Lemma chatInv_run (history : list (ChatStore * ChatEvent)) : chatInv (chatRun history).
Proof.
  unfold chatRun.
  assert (H0 : chatInv chatInitial) by (split; cbn; [discriminate | intros [? [=]]]).
  revert H0. generalize chatInitial.
  induction history as [|[store ev] history IH]; intros st HI; [exact HI|].
  cbn [fold_left fst snd]. apply IH. now apply chatInv_step.
Qed.

(** X15. One message at a time: after any history of typing, keys, clicks and
    settled sends, the sending flag is set exactly while a call of
    [sendMessage] has not settled; an event calls [sendMessage] only when no
    call is pending, with the trimmed text of the input, which is not empty,
    and with the provider and the model that are selected, and it empties
    the input. When the pending call resolves the input stays as it is, and
    when it rejects the input becomes the text that was sent, whatever was
    typed meanwhile. *)
Theorem chat_sends_one_at_a_time (history : list (ChatStore * ChatEvent))
  (store : ChatStore) (ev : ChatEvent) :
  let st := chatRun history in
  let r := chatStep store ev st in
  (isSending st = true <-> is_Some (inFlight st))
  /\ (forall send, r.2 = Some send ->
        inFlight st = None
        /\ r.1 = mkChat [] true (Some send)
        /\ messageText send = Str.trim (inputValue st)
        /\ messageText send <> []
        /\ Str.trim (messageText send) = messageText send
        /\ providerId send <> [] /\ modelId send <> []
        /\ missing (currentSessionId store) = false)
  /\ (forall send resolved, ev = SendSettled resolved -> inFlight st = Some send ->
        r.1 = mkChat (if resolved then inputValue st else messageText send)
                     false None)
  /\ (isSending st = true -> ev <> SendSettled true -> ev <> SendSettled false ->
      r.2 = None /\ isSending r.1 = true /\ inFlight r.1 = inFlight st).
Proof.
  intros st r. assert (HI : chatInv st) by apply chatInv_run.
  split; [exact HI|].
  assert (Hsend : forall send, (handleSend store st).2 = Some send ->
            inFlight st = None
            /\ (handleSend store st).1 = mkChat [] true (Some send)
            /\ messageText send = Str.trim (inputValue st)
            /\ messageText send <> []
            /\ Str.trim (messageText send) = messageText send
            /\ providerId send <> [] /\ modelId send <> []
            /\ missing (currentSessionId store) = false).
  { intros send E.
    destruct (handleSend_spec store st send E)
      as (Hs & E1 & Et & Hne & Hm & _ & Hp & _ & Hmo & _).
    split.
    { destruct (inFlight st) eqn:Ei; [|reflexivity].
      assert (isSending st = true) by (apply HI; eauto). congruence. }
    repeat (split; [assumption|]).
    split; [rewrite Et; apply trim_idem|]. auto. }
  assert (Hbusy : isSending st = true -> handleSend store st = (st, None)).
  { intros E. unfold handleSend. rewrite E. now rewrite !orb_true_r. }
  split.
  { intros send E. unfold r in *.
    destruct ev as [value | key shiftKey | | resolved]; cbn [chatStep fst snd] in *;
      try discriminate.
    - destruct (bool_decide _ && _); [now apply Hsend | discriminate].
    - now apply Hsend. }
  split.
  { intros send resolved -> Ei. unfold r. cbn [chatStep fst]. unfold sendSettled.
    rewrite Ei. now destruct resolved. }
  intros Es N1 N2. unfold r.
  destruct ev as [value | key shiftKey | | resolved]; cbn [chatStep fst snd].
  - repeat split. exact Es.
  - destruct (bool_decide _ && _); [rewrite (Hbusy Es)|]; repeat split; exact Es.
  - rewrite (Hbusy Es). repeat split. exact Es.
  - destruct resolved; congruence.
Qed.

End ChatFacts.

Section DoubleOrder.

Lemma SFcompare_key (x y : spec_float) :
  isNaN x = false -> isNaN y = false ->
  exists c, SFcompare x y = Some c
            /\ match c with
               | Lt => keyLt (orderKey x) (orderKey y)
               | Eq => keyEq (orderKey x) (orderKey y)
               | Gt => keyLt (orderKey y) (orderKey x)
               end.
Proof.
  intros Hx Hy. unfold keyLt, keyEq.
  destruct x as [sx | sx | | sx mx ex]; try discriminate;
    destruct y as [sy | sy | | sy my ey]; try discriminate;
    try (destruct sx); try (destruct sy); cbn [SFcompare orderKey fst snd];
    try (eexists; split; [reflexivity|]; cbn; lia).
  - destruct (Z.compare_spec ex ey) as [E|E|E].
    + rewrite Pos.compare_cont_spec. cbn [Pos.switch_Eq].
      destruct (Pos.compare_spec mx my) as [M|M|M]; eexists; (split; [reflexivity|]);
        cbn; lia.
    + eexists; split; [reflexivity|]. cbn. lia.
    + eexists; split; [reflexivity|]. cbn. lia.
  - destruct (Z.compare_spec ex ey) as [E|E|E].
    + rewrite Pos.compare_cont_spec. cbn [Pos.switch_Eq].
      destruct (Pos.compare_spec mx my) as [M|M|M]; eexists; (split; [reflexivity|]);
        cbn; lia.
    + eexists; split; [reflexivity|]. cbn. lia.
    + eexists; split; [reflexivity|]. cbn. lia.
Qed.

Lemma SFltb_key (x y : spec_float) :
  isNaN x = false -> isNaN y = false ->
  (SFltb x y = true <-> keyLt (orderKey x) (orderKey y)).
Proof.
  intros Hx Hy. destruct (SFcompare_key x y Hx Hy) as (c & E & Hc).
  unfold SFltb. rewrite E. unfold keyLt, keyEq in *.
  destruct c; split; try discriminate; try reflexivity; intros; lia.
Qed.

Lemma SFleb_key (x y : spec_float) :
  isNaN x = false -> isNaN y = false ->
  (SFleb x y = true
   <-> keyLt (orderKey x) (orderKey y) \/ keyEq (orderKey x) (orderKey y)).
Proof.
  intros Hx Hy. destruct (SFcompare_key x y Hx Hy) as (c & E & Hc).
  unfold SFleb. rewrite E. unfold keyLt, keyEq in *.
  destruct c; split; try discriminate; try reflexivity; intros; auto; lia.
Qed.

Lemma SFeqb_key (x y : spec_float) :
  isNaN x = false -> isNaN y = false ->
  (SFeqb x y = true <-> keyEq (orderKey x) (orderKey y)).
Proof.
  intros Hx Hy. destruct (SFcompare_key x y Hx Hy) as (c & E & Hc).
  unfold SFeqb. rewrite E. unfold keyLt, keyEq in *.
  destruct c; split; try discriminate; try reflexivity; intros; auto; lia.
Qed.

Lemma SFleb_not_NaN (x y : spec_float) :
  SFleb x y = true -> isNaN x = false /\ isNaN y = false.
Proof. destruct x, y; cbn; try discriminate; auto. Qed.

Lemma SFltb_not_NaN (x y : spec_float) :
  SFltb x y = true -> isNaN x = false /\ isNaN y = false.
Proof. destruct x, y; cbn; try discriminate; auto. Qed.

Lemma isZero_key (s : bool) (x : spec_float) :
  isZero s x = true -> orderKey x = (0, 0, 0)%Z.
Proof. destruct x; try discriminate. reflexivity. Qed.

End DoubleOrder.

Section ClampFacts.

Lemma Math_max_cases (a b : spec_float) :
  isNaN a = false -> isNaN b = false ->
  isNaN (Math_max a b) = false
  /\ ((Math_max a b = b
       /\ (keyLt (orderKey a) (orderKey b) \/ keyEq (orderKey a) (orderKey b)))
      \/ (Math_max a b = a /\ ~ keyLt (orderKey a) (orderKey b))).
Proof.
  intros Ha Hb. unfold Math_max. rewrite Ha, Hb. cbn [orb].
  destruct (isZero false b && isZero true a) eqn:Ez.
  - apply andb_true_iff in Ez as [Zb Za].
    split; [exact Hb|]. left. split; [reflexivity|]. right.
    rewrite (isZero_key _ _ Za), (isZero_key _ _ Zb). now unfold keyEq.
  - destruct (SFltb a b) eqn:El.
    + split; [exact Hb|]. left. split; [reflexivity|]. left.
      now apply SFltb_key.
    + split; [exact Ha|]. right. split; [reflexivity|].
      intros Hk. apply SFltb_key in Hk; congruence.
Qed.

Lemma Math_min_cases (a b : spec_float) :
  isNaN a = false -> isNaN b = false ->
  isNaN (Math_min a b) = false
  /\ ((Math_min a b = b
       /\ (keyLt (orderKey b) (orderKey a) \/ keyEq (orderKey a) (orderKey b)))
      \/ (Math_min a b = a /\ ~ keyLt (orderKey b) (orderKey a))).
Proof.
  intros Ha Hb. unfold Math_min. rewrite Ha, Hb. cbn [orb].
  destruct (isZero true b && isZero false a) eqn:Ez.
  - apply andb_true_iff in Ez as [Zb Za].
    split; [exact Hb|]. left. split; [reflexivity|]. right.
    rewrite (isZero_key _ _ Za), (isZero_key _ _ Zb). now unfold keyEq.
  - destruct (SFltb b a) eqn:El.
    + split; [exact Hb|]. left. split; [reflexivity|]. left.
      now apply SFltb_key.
    + split; [exact Ha|]. right. split; [reflexivity|].
      intros Hk. apply SFltb_key in Hk; congruence.
Qed.

Ltac clamp_cases Ci Cr :=
  let Ei := fresh "Ei" in let Er := fresh "Er" in
  let Hc := fresh "Hc" in let Hd := fresh "Hd" in
  destruct Ci as [[Ei Hc]|[Ei Hc]], Cr as [[Er Hd]|[Er Hd]];
  rewrite ?Er, ?Ei in *; unfold keyLt, keyEq in *; lia.

(** X16. The clamp keeps a number within its bounds: for bounds that are in
    order and a value that is a number, the result lies between the bounds;
    it equals the value when the value lies between them, the lower bound
    when the value is below it and the upper bound when the value is above
    it (equal as numbers: the two zeros are one number). *)
Theorem clamp_within_bounds (value lo hi : spec_float) :
  isNaN value = false -> SFleb lo hi = true ->
  SFleb lo (clamp value lo hi) = true
  /\ SFleb (clamp value lo hi) hi = true
  /\ (SFleb lo value = true -> SFleb value hi = true ->
      SFeqb (clamp value lo hi) value = true)
  /\ (SFltb value lo = true -> SFeqb (clamp value lo hi) lo = true)
  /\ (SFltb hi value = true -> SFeqb (clamp value lo hi) hi = true).
Proof.
  intros Hv Hb. destruct (SFleb_not_NaN lo hi Hb) as [Hlo Hhi].
  apply SFleb_key in Hb; [|assumption..].
  unfold clamp.
  destruct (Math_max_cases lo value Hlo Hv) as (Hi & Ci).
  destruct (Math_min_cases hi (Math_max lo value) Hhi Hi) as (Hr & Cr).
  set (i := Math_max lo value) in *. set (r := Math_min hi i) in *.
  split; [apply SFleb_key; [assumption..|]; clamp_cases Ci Cr|].
  split; [apply SFleb_key; [assumption..|]; clamp_cases Ci Cr|].
  split.
  { intros H1 H2. apply SFleb_key in H1, H2; [|assumption..].
    apply SFeqb_key; [assumption..|]. clamp_cases Ci Cr. }
  split.
  { intros H1. apply SFltb_key in H1; [|assumption..].
    apply SFeqb_key; [assumption..|]. clamp_cases Ci Cr. }
  intros H1. apply SFltb_key in H1; [|assumption..].
  apply SFeqb_key; [assumption..|]. clamp_cases Ci Cr.
Qed.

(** X17. The clamp at its edges: NaN in, NaN out; and with the bounds in the
    wrong order the upper bound wins, whatever the value. *)
Theorem clamp_edges (value lo hi : spec_float) :
  (isNaN value = true \/ isNaN lo = true \/ isNaN hi = true ->
   clamp value lo hi = S754_nan)
  /\ (isNaN value = false -> SFltb hi lo = true ->
      SFeqb (clamp value lo hi) hi = true).
Proof.
  split.
  - unfold clamp, Math_min, Math_max.
    intros [E|[E|E]]; rewrite E; rewrite ?orb_true_r; cbn [orb isNaN];
      try reflexivity; destruct (isNaN hi); reflexivity.
  - intros Hv Hb. destruct (SFltb_not_NaN hi lo Hb) as [Hhi Hlo].
    apply SFltb_key in Hb; [|assumption..].
    unfold clamp.
    destruct (Math_max_cases lo value Hlo Hv) as (Hi & Ci).
    destruct (Math_min_cases hi (Math_max lo value) Hhi Hi) as (Hr & Cr).
    set (i := Math_max lo value) in *. set (r := Math_min hi i) in *.
    apply SFeqb_key; [assumption..|]. clamp_cases Ci Cr.
Qed.

Lemma isFinite_not_NaN (x : spec_float) : isFinite x = true -> isNaN x = false.
Proof. destruct x; try discriminate; reflexivity. Qed.

(** X18. The field reports numbers within its bounds: with bounds in order,
    whatever is typed, whatever the field holds when it loses the focus and
    whatever number is applied, every value handed to [onValueChange] lies
    between the bounds. Text that is no finite number reports nothing: a
    change keeps it as the draft and a blur replaces it by the current
    value; a blur on a number within the bounds reports nothing either, and
    a change reports the number itself. *)
Theorem reported_values_within_bounds (toNumber : Str.t -> spec_float)
  (toString : spec_float -> Str.t) (props : NumberProps) (text : Str.t) :
  ordered props ->
  Forall (withinBounds props) (reported (handleChange toNumber props text))
  /\ Forall (withinBounds props) (reported (handleBlur toNumber toString props text))
  /\ (forall next, isNaN next = false ->
        Forall (withinBounds props) (reported (applyValue toString props next)))
  /\ draft (handleChange toNumber props text) = text
  /\ (isFinite (toNumber text) = false ->
      handleChange toNumber props text = mkOutcome [] text
      /\ handleBlur toNumber toString props text
         = mkOutcome [] (toString (p_value props)))
  /\ (isFinite (toNumber text) = true -> withinBounds props (toNumber text) ->
      reported (handleBlur toNumber toString props text) = []
      /\ exists v, reported (handleChange toNumber props text) = [v]
                   /\ SFeqb v (toNumber text) = true).
Proof.
  intros Hord. unfold ordered in Hord.
  assert (Hin : forall v, isNaN v = false ->
                          withinBounds props (clamp v (p_min props) (p_max props))).
  { intros v Hv.
    destruct (clamp_within_bounds v _ _ Hv Hord) as (H1 & H2 & _). now split. }
  unfold handleChange, handleBlur, applyValue. cbv zeta.
  split.
  { destruct (isFinite (toNumber text)) eqn:Ef; cbn [negb reported]; [|constructor].
    constructor; [|constructor]. apply Hin. now apply isFinite_not_NaN. }
  split.
  { destruct (isFinite (toNumber text)) eqn:Ef; cbn [negb reported]; [|constructor].
    destruct (negb (SFeqb _ _)); constructor; [|constructor].
    apply Hin. now apply isFinite_not_NaN. }
  split.
  { intros next Hn. cbn [reported]. constructor; [|constructor]. now apply Hin. }
  split; [destruct (isFinite (toNumber text)); reflexivity|].
  split; [intros ->; split; reflexivity|].
  intros Ef [H1 H2]. rewrite Ef. cbn [negb reported].
  destruct (clamp_within_bounds (toNumber text) _ _ (isFinite_not_NaN _ Ef) Hord)
    as (_ & _ & Heq & _).
  rewrite (Heq H1 H2). cbn [negb]. split; [reflexivity|]. eauto.
Qed.

(** X19. The arrow keys step within the bounds: with bounds in order, ArrowUp
    and ArrowDown report one value, the current number (that of the draft
    if it is finite, else the value of the field) plus or minus the step,
    clamped, and leave its text as the draft; the reported value lies
    between the bounds unless the sum is no number. Every other key reports
    nothing and is left to the caller. *)
Theorem arrow_keys_step_within_bounds (toNumber : Str.t -> spec_float)
  (toString : spec_float -> Str.t) (props : NumberProps) (key text : Str.t) :
  ordered props ->
  let current := if isFinite (toNumber text) then toNumber text else p_value props in
  match handleKeyDownInternal toNumber toString props key text with
  | None => key <> js "ArrowUp" /\ key <> js "ArrowDown"
  | Some o =>
      exists next v,
        next = (if bool_decide (key = js "ArrowUp")
                then SFadd 53 1024 current (p_step props)
                else SFsub 53 1024 current (p_step props))
        /\ v = clamp next (p_min props) (p_max props)
        /\ o = mkOutcome [v] (toString v)
        /\ (isNaN next = false -> withinBounds props v)
        /\ (isNaN next = true -> isNaN v = true)
  end.
Proof.
  intros Hord current. unfold ordered in Hord.
  assert (Hin : forall next,
            (isNaN next = false ->
             withinBounds props (clamp next (p_min props) (p_max props)))
            /\ (isNaN next = true ->
                isNaN (clamp next (p_min props) (p_max props)) = true)).
  { intros next. split; intros Hn.
    - destruct (clamp_within_bounds next _ _ Hn Hord) as (H1 & H2 & _). now split.
    - destruct (clamp_edges next (p_min props) (p_max props)) as [-> _]; auto. }
  unfold handleKeyDownInternal, handleIncrement, handleDecrement, applyValue,
    currentNumericValue. cbv zeta. fold current.
  case_bool_decide as Eu.
  - eexists _, _. split; [reflexivity|]. split; [reflexivity|].
    split; [reflexivity|]. apply Hin.
  - case_bool_decide as Ed.
    + eexists _, _. split; [reflexivity|]. split; [reflexivity|].
      split; [reflexivity|]. apply Hin.
    + now split.
Qed.

(** X20. A step button is disabled only at its bound: with bounds in order and
    the field enabled, the decrement button is disabled only when the
    current number, clamped, is the lower bound, and the increment button
    only when it is the upper bound; both are disabled together only when
    the two bounds are one number; and while the current number is no
    number both are enabled. *)
Theorem step_buttons_disabled_at_bounds (toNumber : Str.t -> spec_float)
  (props : NumberProps) (text : Str.t) :
  ordered props -> p_disabled props = false ->
  let current := currentNumericValue toNumber props text in
  let clamped := clamp current (p_min props) (p_max props) in
  (decrementDisabled toNumber props text = true ->
   SFleb current (p_min props) = true /\ SFeqb clamped (p_min props) = true)
  /\ (incrementDisabled toNumber props text = true ->
      SFleb (p_max props) current = true /\ SFeqb clamped (p_max props) = true)
  /\ (decrementDisabled toNumber props text = true ->
      incrementDisabled toNumber props text = true ->
      SFeqb (p_min props) (p_max props) = true)
  /\ (isNaN current = true ->
      decrementDisabled toNumber props text = false
      /\ incrementDisabled toNumber props text = false).
Proof.
  intros Hb Hd current clamped. unfold ordered in Hb.
  unfold decrementDisabled, incrementDisabled. rewrite Hd. cbn [orb].
  fold current. subst clamped. generalize current as value. clear current.
  intros value. destruct (SFleb_not_NaN _ _ Hb) as [Hlo Hhi].
  set (lo := p_min props) in *. set (hi := p_max props) in *.
  apply SFleb_key in Hb; [|assumption..].
  assert (Hcl : isNaN value = false ->
                isNaN (clamp value lo hi) = false
                /\ ((keyLt (orderKey value) (orderKey lo)
                     \/ keyEq (orderKey value) (orderKey lo)) ->
                    keyEq (orderKey (clamp value lo hi)) (orderKey lo))
                /\ ((keyLt (orderKey hi) (orderKey value)
                     \/ keyEq (orderKey hi) (orderKey value)) ->
                    keyEq (orderKey (clamp value lo hi)) (orderKey hi))).
  { intros Hv. unfold clamp.
    destruct (Math_max_cases lo value Hlo Hv) as (Hi & Ci).
    destruct (Math_min_cases hi (Math_max lo value) Hhi Hi) as (Hr & Cr).
    set (i := Math_max lo value) in *. set (r := Math_min hi i) in *.
    split; [exact Hr|]. split; intros H1; clamp_cases Ci Cr. }
  split.
  { intros H. split; [exact H|]. destruct (SFleb_not_NaN _ _ H) as [Hv _].
    destruct (Hcl Hv) as (Hr & H1 & _).
    apply SFleb_key in H; [|assumption..]. apply SFeqb_key; auto. }
  split.
  { intros H. split; [exact H|]. destruct (SFleb_not_NaN _ _ H) as [_ Hv].
    destruct (Hcl Hv) as (Hr & _ & H2).
    apply SFleb_key in H; [|assumption..]. apply SFeqb_key; auto. }
  split.
  { intros H1 H2. destruct (SFleb_not_NaN _ _ H1) as [Hv _].
    apply SFleb_key in H1, H2; [|assumption..].
    apply SFeqb_key; [assumption..|]. unfold keyLt, keyEq in *. lia. }
  intros Hn. destruct value; try discriminate.
  split; [reflexivity|]. now destruct hi as [| | |[]].
Qed.

End ClampFacts.

Section NumberExamples.
Import NumberDemo.

Lemma clamp_within_bounds_witness :
  clamp (double 12) (double 0) (double 10) = double 10
  /\ clamp (double (-3)) (double 0) (double 10) = double 0
  /\ clamp (double 7) (double 0) (double 10) = double 7
  /\ clamp (S754_zero true) (double 0) (double 10) = S754_zero false
  /\ SFleb (double 0) (clamp (S754_infinity false) (double 0) (double 10)) = true
  /\ SFleb (clamp (S754_infinity false) (double 0) (double 10)) (double 10) = true.
Proof.
  destruct (clamp_within_bounds (S754_infinity false) (double 0) (double 10)
              eq_refl eq_refl) as (H1 & H2 & _).
  do 4 (split; [vm_compute; reflexivity|]). split; [exact H1 | exact H2].
Defined.

Lemma reported_values_within_bounds_witness :
  reported (handleChange readNumber zeroToTen (js "12")) = [double 10]
  /\ handleBlur readNumber showNumber zeroToTen (js "12")
     = mkOutcome [double 10] (js "10")
  /\ handleBlur readNumber showNumber zeroToTen (js "7") = mkOutcome [] (js "7")
  /\ handleBlur readNumber showNumber zeroToTen (js "abc") = mkOutcome [] (js "5")
  /\ handleBlur readNumber showNumber zeroToTen (js "-0") = mkOutcome [] (js "0")
  /\ Forall (withinBounds zeroToTen)
       (reported (handleBlur readNumber showNumber zeroToTen (js "12"))).
Proof.
  destruct (reported_values_within_bounds readNumber showNumber zeroToTen (js "12")
              eq_refl) as (_ & H2 & _).
  do 5 (split; [vm_compute; reflexivity|]). exact H2.
Defined.

Lemma arrow_keys_step_within_bounds_witness :
  handleKeyDownInternal readNumber showNumber zeroToTen (js "ArrowUp") (js "7")
  = Some (mkOutcome [double 8] (js "8"))
  /\ handleKeyDownInternal readNumber showNumber zeroToTen (js "ArrowUp") (js "12")
     = Some (mkOutcome [double 10] (js "10"))
  /\ handleKeyDownInternal readNumber showNumber zeroToTen (js "ArrowDown") (js "-0")
     = Some (mkOutcome [double 0] (js "0"))
  /\ handleKeyDownInternal readNumber showNumber zeroToTen (js "Enter") (js "7") = None
  /\ js "Enter" <> js "ArrowUp".
Proof.
  pose proof (arrow_keys_step_within_bounds readNumber showNumber zeroToTen
                (js "Enter") (js "7") eq_refl) as H.
  do 4 (split; [vm_compute; reflexivity|]). exact (proj1 H).
Defined.

Lemma step_buttons_disabled_at_bounds_witness :
  incrementDisabled readNumber zeroToTen (js "12") = true
  /\ decrementDisabled readNumber zeroToTen (js "12") = false
  /\ decrementDisabled readNumber zeroToTen (js "-0") = true
  /\ incrementDisabled readNumber zeroToTen (js "abc") = false
  /\ SFeqb (clamp (currentNumericValue readNumber zeroToTen (js "12"))
              (p_min zeroToTen) (p_max zeroToTen)) (p_max zeroToTen) = true.
Proof.
  pose proof (step_buttons_disabled_at_bounds readNumber zeroToTen (js "12")
                eq_refl eq_refl) as (_ & H & _).
  do 4 (split; [vm_compute; reflexivity|]). exact (proj2 (H eq_refl)).
Defined.

End NumberExamples.
